(* ===== verification/_CoqProject ===== *)
-Q . S2P
Prelude.v
RustStr.v
Naming.v
Errors.v
Config.v
Policy.v
Secrets.v
Catalog.v
Overrides.v
KeyPool.v
Limits.v
Egress.v
Shaping.v
GatewayAuth.v
Render.v
Retry.v
Observe.v
SchemaView.v
Semantic.v
Invoke.v
Integrity.v
Surface.v
Peers.v
Registry.v
Discovery.v
McpCall.v
McpServer.v
HttpTools.v
OpenApi.v
OAuthConfig.v
ConfigJson.v
Store.v
ConfigMerge.v
SecretClients.v
Seal.v
OAuth.v
OAuthFacts.v
CallbackPage.v
Events.v
Admin.v
AdminFacts.v
AdminRestart.v
AdminTokens.v
McpAdmin.v
McpAdminFacts.v
AdminTools.v
AdminRead.v
AdminReadFacts.v
Routes.v
Cli.v
CliFacts.v
Start.v
Life.v
Launch.v
