(* ===== verification/Prelude.v ===== *)
(** * Asterlane: a verification library for the gateway

    Asterlane is a gateway between AI agents and the tools they call.  An agent
    holds a proxy key; the gateway knows a catalog of tools that stand for HTTP
    endpoints of upstream APIs or for tools of remote MCP servers.  A call goes
    through authentication of the key, resolution of the tool name, the scope of
    the key, admission by rate limits and quotas, the choice of an upstream key
    and its secret, the upstream request with retries and failover, and the
    shaping of the result.  Administrators change keys, resources, servers and
    descriptions while it runs; what they change is kept in a store.  This library
    models these paths as executable Rocq definitions translated from the Rust
    sources under [src/src/] and proves the properties they rely on.

    ** Files and what they model

    - [Prelude]: results, panics, machine integers, time, list and sorting
      lemmas, the hint database [gateway] and the shared tactics.
    - [RustStr]: the string functions of the Rust standard library that the
      sources use, on byte strings.
    - [Naming] ([naming.rs]): tool names and their wire form
      [domain__provider__tool].
    - [Errors] ([error.rs]): error codes and their conversion to exit codes, HTTP
      answers and MCP errors.
    - [Config] ([config/], [presets.rs]): the configuration records, lookups,
      credential checks and the expansion of built-in MCP presets.
    - [Policy] ([policy.rs]): the scope of a proxy key.
    - [Secrets] ([secrets/secret_ref.rs], [error.rs], [cache.rs], [backend.rs],
      [remote.rs], and [mcp/oauth/pending.rs]): secret references, the default
      secret store with its cache, and the table of pending authorizations.
    - [Catalog] ([catalog/]): the tool catalog, listing with short names,
      paging, resolution of names, search.
    - [Overrides] ([catalog/mod.rs]): description overrides as a refinement of an
      abstract catalog.
    - [KeyPool] ([keys/]): upstream key pools, load balancing, cooldown, leases,
      and the carrying of runtime state across a reload.
    - [Limits] ([limits/]): rate limits, call quotas, the concurrency queue.
    - [Egress] ([egress.rs]): the check of upstream addresses.
    - [Shaping] ([shaping.rs]): truncation of large results and the result cache.
    - [GatewayAuth] ([gateway_auth.rs]): tokens of the proxy keys.
    - [Render] ([render.rs]): response formats and the Markdown projection.
    - [Retry] ([proxy/retry.rs], [proxy/auth.rs], [proxy/error.rs],
      [mcp/error.rs]): one upstream call with retries and failover.
    - [Observe] ([observability/], [defense/]): events, redaction, payload
      capture and the content-defense scan.
    - [Invoke] ([proxy/invoke/], [proxy/post.rs], [proxy/executor.rs]): the call
      pipeline that puts the other components together.
    - [Integrity] ([integrity.rs], [observability/security.rs]): fingerprints of
      tool definitions, the baseline, drift events and the quarantine set.

    Remote MCP servers and the two interfaces of agents:

    - [Surface] ([mcp/surface.rs]): prompts and resources of a server, gateway
      URIs, the name the policy checks for a read.
    - [Peers] ([mcp/peer/], [convert.rs], [transport.rs]): a configured server
      becomes a connected peer; conversion of its answers.
    - [Registry] ([mcp/registry.rs], [health.rs], [dedup.rs]): the entries of the
      servers, deduplication of names, refresh, probes and reconnection.
    - [SchemaView], [Semantic], [Discovery] ([schema_view.rs], [semantic.rs],
      [discovery.rs]): what an agent is shown of a schema, ranking by embeddings,
      the meta-tools for status and search.
    - [McpCall] ([mcp/call.rs], [mcp/result.rs]): the meta-tools that describe and
      call tools, singly and in batches.
    - [McpServer] ([mcp/server.rs], [meta.rs], [downstream.rs], [notify.rs]): the
      handlers of [/mcp].
    - [HttpTools] ([http/routes.rs], [http/tools.rs]): the REST interface.
    - [OpenApi] ([openapi/mod.rs]): from an OpenAPI document to tools; its
      [openapi_source] is an instance of the class that [Catalog] builds from.

    Persistence:

    - [OAuthConfig] ([config/oauth.rs]): checks of OAuth settings.
    - [ConfigJson] ([config/]): the JSON codecs of configuration entries, each with
      its round trip.
    - [Store] ([store/], [migrations/]): the tables and their statements.
    - [ConfigMerge] ([store/config_merge.rs]): rows merged into the configuration.
    - [Events] ([store/sqlite.rs], [sqlite_aggregation.rs], [events.rs],
      [retention.rs], [observability/aggregation.rs]): request events, usage
      buckets, summaries, retention.
    - [SecretClients] ([secrets/vault.rs], [infisical.rs], [assemble.rs]): the
      clients of the remote secret stores and the choice of a store at start.
    - [Seal] ([secrets/seal.rs]): sealing of stored credentials.

    Authorization of the gateway at servers:

    - [OAuth], [OAuthFacts] ([mcp/oauth/]): the service, its two kinds of clients,
      and what they guarantee.
    - [CallbackPage] ([http/oauth_callback.rs]): the pages an administrator sees.

    Administration:

    - [Admin] ([admin/crud.rs], [resource_keys.rs], [tokens.rs]): resources, keys,
      tokens, the replacement of the configuration; [AdminFacts], [AdminRestart]
      and [AdminTokens] hold its theorems: atomic writes and the catalog across a
      change, survival of a restart, tokens that authenticate.
    - [McpAdmin], [McpAdminFacts] ([admin/mcp.rs], [admin/oauth.rs],
      [http/lifecycle.rs]): servers over registry, configuration and catalog.
    - [AdminTools] ([admin/metadata.rs], [defaults.rs]): descriptions, default
      arguments and trial calls.
    - [AdminRead], [AdminReadFacts] ([admin/auth.rs], [admin/read.rs]): admin
      tokens, the listings, the check of the configuration.

    The server, its client, and the whole:

    - [Routes] ([http/mod.rs], [boundary.rs], [request_id.rs], [http/error.rs],
      [admin/mod.rs]): the table of routes with their authentication, dispatch,
      request ids, error envelopes, limits of size and time, headers.
    - [Cli], [CliFacts] ([cli/]): the client on the command line; its commands meet
      the handlers of [Routes].
    - [Start] ([main.rs], [http/state.rs], [limits/seed.rs]): the components are put
      together, and the counts of earlier calls are read.
    - [Life]: the steps of a running gateway, from all of the above, and what holds
      after any number of them.
    - [Launch] ([config_path.rs], [main.rs]): the path of the configuration, the
      preview of tools without a server, the refresh loop.

    ** How code is represented

    A mutable structure is a record, and an operation a function from the old
    state to the new one; where the source holds a mutex for the whole operation
    this is exactly its atomic effect.  Fallible code returns [result], code that
    can panic returns [outcome].  Integers are [Z] with the wrap-around or the
    saturation of the source written out.  Time is in nanoseconds.  Strings are
    lists of UTF-8 bytes.

    What is not in the repository is an argument: the regex engine
    ([RegexEngine], [RegexReplace]), the rate limiter ([Governor]), random numbers
    ([Draw]), SHA-256, the cipher ([Aead]), the URL parser ([UrlParser]), reqwest,
    clocks and the secret backends ([Upstream], [SecretWorld], [Backon]), the
    iteration order of hash maps ([HashOrder], [PinOrder]), serde's and chrono's
    text forms ([Serializers], [JsonReader], [Rfc3339]), the SQLite engine
    ([Database]: which statements fail, its clock, its messages), rmcp
    ([RmcpClient], [RmcpAuth], [McpWire]), the parser of OpenAPI documents
    ([SpecParser]), the embeddings endpoint ([Embeddings]), axum ([Axum]: matching of
    paths, decoding of parameters, rejections), the URLs of the command line's HTTP
    client ([Wire]) and the path rules of the operating system ([PathRules]).  Laws that a theorem
    needs of them are classes or records of documented behaviour, and each has a
    concrete instance in a witness.

    Concurrency appears where the source gives up a lock or awaits: the transition
    systems [KeyPool.pool_step] (acquire, drop of a guard, cooldown, ...),
    [Limits.limit_step] (the two halves of an admission) and [Registry.reg_step]
    (snapshot and commit of a refresh), and the worlds of [OAuth] (requests to an
    authorization server that wait for their answers); the functions [up_others], [ce_others],
    [ae_meanwhile] and [me_meanwhile] that stand for the other tasks during an
    await; and operations given as two halves, as [AdminTools.put_metadata_row] and
    [put_metadata_overlay].

    ** What the theorems show

    - The call pipeline ([Invoke]): nothing outside the gateway is touched before
      resolution, quarantine, scope and admission have passed; a call counts
      against the quotas exactly when it succeeds (one that was admitted and fails
      after midnight UTC also stays in the count of the day before); the concurrency slot is given
      back and at most one event is recorded, on every path.  [McpServer] shows
      that calls over MCP, meta-tools and batches included, reach that pipeline
      with the scope of their key, and that a semantic search sends its query and
      texts of tools in that scope to the endpoint of the embeddings and nothing else.
    - Upstream calls ([Retry]): the contract of the retry loop, what may be sent
      and with which secret, failover to another key, the return of all leases
      (as a client of the pool's transition system), and that the loop returns.
    - Key pools: what [acquire] answers and that it never hands out a cooling key,
      round robin and the minimising strategies, lease counts against live guards
      over all interleavings, and the state kept across a reload.
    - Limits: quotas are exceeded by at most the number of calls in flight, and an
      admission that is refused changes no counter.
    - Policy, catalog, overrides: the scope rule, listed names resolve to the
      listed tool, paging visits every tool once, listings stay in scope, the
      overrides refine "original description plus override".
    - Registry: entries stay well formed under every interleaving, a refresh
      recovers a server that answers again, a listed name is served by a server that lists it.
    - OpenAPI and schemas: references stand for what they name up to a depth, input
      schema and parameter places agree, and the projection shown to agents keeps
      every keyword that is not an annotation.
    - Integrity: equal fingerprints mean the same definition, no event means that
      nothing drifted, and a drifted tool of an isolating resource is refused from
      then on.
    - Egress: the blocked IPv4 and IPv6 ranges as address blocks, and that
      redirect chains end.
    - Gateway authentication, secrets, shaping, naming: tokens are required and
      rotation takes effect, one-time pending states, cached secrets, errors that
      hide the secret path, cursors private to a key, paging that reassembles the
      result, round trips of names and references.
    - Store and events: the invariant of the tables, precedence of the YAML
      configuration, the hourly series against a scan of the events by their hours,
      retention.
    - Administration: writes are atomic and leave valid configurations, changes of
      keys and descriptions survive a restart, issued tokens authenticate, registry
      and configuration of servers stay aligned, admin tokens are required, and
      listings hold no credential.
    - OAuth: an authorization comes back as the credentials that connect, a
      revocation is final unless an exchange or a refresh is under way, how long a
      token is given out, pages hold no foreign markup.
    - The server and its client: no handler is reached without the credentials of its
      zone, every answer has the security headers, every command of the client reaches
      the handler it names with the id it was given, and a refusal becomes the exit
      code of its error code.
    - Start and life: the state that a start assembles is consistent, quotas are seeded
      with the calls in the store, and through the whole life of a gateway the
      registry has the configured servers and the catalog lists what is served.

    The most important theorems have a number in the comment before them; a theorem
    with hypotheses is followed by a witness that applies it to concrete data.
    Examples show the behaviours that deviate from what the code means to do.

    ** Bounds and fuel

    [Catalog.walk] follows cursors with fuel one above the number of tools, since
    every page with a next cursor consumes at least one tool; the walks over search
    results and MCP listings get the same;
    [Shaping.evict] removes one entry per round and gets the size of the cache;
    [Shaping.fetch_all] gets the length of the text, since each chunk is not
    empty; [McpCall.spill] gets one more than the items it may move;
    [Render.md_value] recurses at most [MAX_DEPTH] levels and
    [OpenApi.inline_schema_refs] follows [MAX_REF_DEPTH] references, as the sources
    do; [Retry.attempts] runs over the attempt limit.  All other recursion is
    structural.

    ** Not modelled

    The embedded console, the JSON schemas of the administration interface, metrics
    export and logging, the migrations, the parsing of arguments, and the loop of the
    retention task: they are input and output around the modelled core.  Within a modelled
    component, [Debug] implementations and tracing calls are left out. *)

From Stdlib Require Export ZArith Lia.
From stdpp Require Export base tactics gmap strings sorting numbers.
From stdpp Require Export list list_basics list_misc.

Set Default Goal Selector "!".
Open Scope Z_scope.

(** ** Results

    [result E A] is Rust's [Result<A, E>].  The error type comes first so that
    [result E] is a monad and [x ← m; k] reads like the [?] operator. *)

Inductive result (E A : Type) : Type :=
| Ok (a : A)
| Err (e : E).
Arguments Ok {E A} a.
Arguments Err {E A} e.

#[export] Instance result_ret {E} : MRet (result E) := fun _ a => Ok a.
#[export] Instance result_bind {E} : MBind (result E) := fun _ _ f m =>
  match m with Ok a => f a | Err e => Err e end.
#[export] Instance result_fmap {E} : FMap (result E) := fun _ _ f m =>
  match m with Ok a => Ok (f a) | Err e => Err e end.
#[export] Instance result_eq_dec {E A} `{EqDecision E, EqDecision A} :
  EqDecision (result E A).
Proof. solve_decision. Defined.

(** [map_err f r] is [r.map_err(f)]; [ok_or e o] is [o.ok_or(e)]. *)
Definition map_err {E F A} (f : E -> F) (r : result E A) : result F A :=
  match r with Ok a => Ok a | Err e => Err (f e) end.

Definition ok_or {E A} (e : E) (o : option A) : result E A :=
  match o with Some a => Ok a | None => Err e end.

(** [Option<Result<A, E>>::transpose]. *)
Definition transpose {E A} (o : option (result E A)) : result E (option A) :=
  match o with
  | None => Ok None
  | Some (Ok a) => Ok (Some a)
  | Some (Err e) => Err e
  end.

(** [iter.map(f).collect::<Result<Vec<_>, _>>()]. *)
Fixpoint try_map {E A B} (f : A -> result E B) (l : list A) : result E (list B) :=
  match l with
  | [] => Ok []
  | x :: l => y ← f x; r ← try_map f l; Ok (y :: r)
  end.

Definition is_Ok {E A} (r : result E A) : bool :=
  match r with Ok _ => true | Err _ => false end.

(** A computation that may panic (arithmetic on [Instant], slicing). *)
Inductive outcome (A : Type) : Type :=
| Returns (a : A)
| Panics.
Arguments Returns {A} a.
Arguments Panics {A}.

#[export] Instance outcome_ret : MRet outcome := fun _ a => Returns a.
#[export] Instance outcome_bind : MBind outcome := fun _ _ f m =>
  match m with Returns a => f a | Panics => Panics end.

Lemma bind_Returns_inv {A B} (m : outcome A) (f : A -> outcome B) b :
  m ≫= f = Returns b -> exists a, m = Returns a /\ f a = Returns b.
Proof. destruct m; cbn; [eauto | discriminate]. Qed.

Lemma bind_Ok_inv {E A B} (m : result E A) (f : A -> result E B) b :
  m ≫= f = Ok b -> exists a, m = Ok a /\ f a = Ok b.
Proof. destruct m; cbn; [eauto | discriminate]. Qed.

Lemma map_err_Ok_inv {E F A} (f : E -> F) (r : result E A) a :
  map_err f r = Ok a -> r = Ok a.
Proof. destruct r; cbn; congruence. Qed.

Lemma ok_or_Ok_inv {E A} (e : E) (o : option A) a :
  ok_or e o = Ok a -> o = Some a.
Proof. destruct o; cbn; congruence. Qed.

(** ** Notation and automation

    [gateway_scope] holds the notation for string comparison; [inv_ok] undoes the
    [?] operator in the hypotheses, [case_if] splits on the next condition of the
    goal, and the hint database [gateway] collects the lemmas that automation may
    use. *)

Declare Scope gateway_scope.
Delimit Scope gateway_scope with gw.
Notation "s =s t" := (String.eqb s t) (at level 70, no associativity) : gateway_scope.
Notation "s ∈s l" := (existsb (String.eqb s) l) (at level 70, no associativity) : gateway_scope.

Create HintDb gateway.

Ltac inv_ok :=
  repeat match goal with
  | H : _ ≫= _ = Ok _ |- _ => apply bind_Ok_inv in H as (? & ? & H)
  | H : map_err _ _ = Ok _ |- _ => apply map_err_Ok_inv in H
  | H : ok_or _ _ = Ok _ |- _ => apply ok_or_Ok_inv in H
  | H : Ok _ = Ok _ |- _ => injection H as H
  | H : Some _ = Some _ |- _ => injection H as H
  | H : Err _ = Ok _ |- _ => discriminate H
  | H : Ok _ = Err _ |- _ => discriminate H
  end; subst.

Ltac case_if :=
  match goal with
  | |- context [if ?b then _ else _] => let E := fresh "E" in destruct b eqn:E
  end.

(** Membership in a list written out. *)
Ltac in_list := solve [cbn; repeat first [apply list_elem_of_here | apply list_elem_of_further]].

Ltac case_if_in H :=
  match type of H with
  | context [if ?b then _ else _] => let E := fresh "E" in destruct b eqn:E
  end.

(** ** Machine integers

    Fixed-width unsigned integers are [Z]; the operations that saturate or wrap
    say so. *)

Definition u8_max : Z := 2 ^ 8 - 1.
Definition u32_max : Z := 2 ^ 32 - 1.
Definition u64_max : Z := 2 ^ 64 - 1.

Definition saturating_add (max a b : Z) : Z := Z.min (a + b) max.
Definition saturating_sub (a b : Z) : Z := Z.max (a - b) 0.
Definition wrapping (width a : Z) : Z := a mod 2 ^ width.

Lemma wrapping_small width a : 0 <= a < 2 ^ width -> wrapping width a = a.
Proof. apply Z.mod_small. Qed.

Lemma wrapping_bound width a : 0 <= width -> 0 <= wrapping width a < 2 ^ width.
Proof. intros. apply Z.mod_pos_bound, Z.pow_pos_nonneg; lia. Qed.

(** Time.  [Duration] is a non-negative number of nanoseconds, [Instant] the
    nanoseconds of the monotonic clock.  On the supported targets an [Instant]
    holds its seconds in an [i64], and [Instant + Duration] panics past it. *)
Definition ns_per_sec : Z := 10 ^ 9.
Definition from_secs (s : Z) : Z := s * ns_per_sec.
Definition as_secs (d : Z) : Z := d / ns_per_sec.
Definition as_millis (d : Z) : Z := d / 10 ^ 6.
Definition instant_max : Z := 2 ^ 63 * ns_per_sec - 1.

Definition instant_checked_add (now d : Z) : option Z :=
  if now + d <=? instant_max then Some (now + d) else None.

(** ** Lists *)

(** [for x in l { if f(x)? { out.push(x) } }]. *)
Fixpoint try_filter {E A} (f : A -> result E bool) (l : list A) : result E (list A) :=
  match l with
  | [] => Ok []
  | x :: l => b ← f x; r ← try_filter f l; Ok (if (b : bool) then x :: r else r)
  end.

Lemma try_filter_Ok {E A} (f : A -> result E bool) l l' :
  try_filter f l = Ok l' ->
  forall x, x ∈ l' <-> x ∈ l /\ f x = Ok true.
Proof.
  revert l'. induction l as [|y l IH]; cbn; intros l' H x.
  - injection H as <-. set_solver.
  - apply bind_Ok_inv in H as (b & Hb & H).
    apply bind_Ok_inv in H as (r & Hr & H). injection H as <-.
    specialize (IH _ Hr x). rewrite elem_of_cons.
    destruct b; [rewrite elem_of_cons|]; naive_solver congruence.
Qed.

Lemma try_filter_sublist {E A} (f : A -> result E bool) l l' :
  try_filter f l = Ok l' -> sublist l' l.
Proof.
  revert l'. induction l as [|y l IH]; cbn; intros l' H.
  - by injection H as <-.
  - apply bind_Ok_inv in H as (b & Hb & H).
    apply bind_Ok_inv in H as (r & Hr & H). injection H as <-.
    destruct b; constructor; auto.
Qed.

(** A fallible filter whose predicate succeeds everywhere is a plain filter. *)
Lemma try_filter_total {E A} (f : A -> result E bool) (g : A -> bool) l :
  (forall x, x ∈ l -> f x = Ok (g x)) ->
  try_filter f l = Ok (List.filter g l).
Proof.
  induction l as [|y l IH]; cbn; intros H; [done|].
  rewrite H by set_solver. cbn. rewrite IH by set_solver. cbn.
  by destruct (g y).
Qed.

(** Two total passes compose. *)
Lemma try_filter_Ok_filter {E A} (f : A -> result E bool) l l' :
  try_filter f l = Ok l' ->
  exists g : A -> bool, l' = List.filter g l /\ forall x, x ∈ l -> f x = Ok (g x).
Proof.
  intros H. exists (fun x => match f x with Ok b => b | Err _ => false end).
  revert l' H. induction l as [|y l IH]; cbn; intros l' H.
  - injection H as <-. split; [done | set_solver].
  - apply bind_Ok_inv in H as (b & Hb & H).
    apply bind_Ok_inv in H as (r & Hr & H). injection H as <-.
    destruct (IH _ Hr) as [-> Hall]. rewrite Hb. split; [done|].
    intros x [->|Hx]%elem_of_cons; [by rewrite Hb | auto].
Qed.

(** [sort_by], [sort_by_key]: Rust's slice sorts are stable; insertion sort is
    the reference stable sort. *)
Section Sorting.
Context {A : Type} (leb : A -> A -> bool).

Fixpoint insert_sorted (x : A) (l : list A) : list A :=
  match l with
  | [] => [x]
  | y :: l' => if leb x y then x :: l else y :: insert_sorted x l'
  end.

Definition sort_by (l : list A) : list A := foldr insert_sorted [] l.

Lemma insert_sorted_perm x l : insert_sorted x l ≡ₚ x :: l.
Proof.
  induction l as [|y l IH]; cbn; [done|].
  destruct (leb x y); [done|]. rewrite IH. constructor.
Qed.

Lemma sort_by_perm l : sort_by l ≡ₚ l.
Proof. induction l as [|x l IH]; cbn; [done|]. by rewrite insert_sorted_perm, IH. Qed.

Lemma sort_by_elem x l : x ∈ sort_by l <-> x ∈ l.
Proof. by rewrite (sort_by_perm l). Qed.

Lemma sort_by_length l : length (sort_by l) = length l.
Proof. apply Permutation_length, sort_by_perm. Qed.

Hypothesis leb_total : forall x y, leb x y = false -> leb y x = true.

Lemma insert_sorted_Sorted x l :
  Sorted (fun a b => leb a b = true) l ->
  Sorted (fun a b => leb a b = true) (insert_sorted x l).
Proof.
  induction 1 as [|y l Hs IH Hhd]; cbn; [repeat constructor|].
  destruct (leb x y) eqn:E.
  - repeat constructor; auto.
  - constructor; [done|]. destruct Hhd as [|z l Hz]; cbn.
    + constructor. by apply leb_total.
    + destruct (leb x z); constructor; auto.
Qed.

Lemma sort_by_Sorted l : Sorted (fun a b => leb a b = true) (sort_by l).
Proof. induction l; cbn; [constructor | by apply insert_sorted_Sorted]. Qed.

Hypothesis leb_trans : forall x y z, leb x y = true -> leb y z = true -> leb x z = true.

(** The result does not depend on the order of the input when no two of its
    elements compare equal. *)
Lemma sort_by_unique l1 l2 :
  (forall x y, x ∈ l1 -> y ∈ l1 -> leb x y = true -> leb y x = true -> x = y) ->
  l1 ≡ₚ l2 -> sort_by l1 = sort_by l2.
Proof.
  intros Hanti Hperm.
  assert (Transitive (fun a b => leb a b = true)) by (intros x y z; apply leb_trans).
  apply (Sorted_unique_strong (fun a b => leb a b = true));
    [| apply sort_by_Sorted | apply sort_by_Sorted |].
  - intros x y Hx Hy. rewrite sort_by_elem in Hx, Hy. rewrite <- Hperm in Hy. auto.
  - by rewrite !sort_by_perm.
Qed.
End Sorting.

Lemma try_map_Ok {E A B} (f : A -> result E B) l r :
  try_map f l = Ok r -> Forall2 (fun x y => f x = Ok y) l r.
Proof.
  revert r. induction l as [|x l IH]; cbn; intros r H; inv_ok; [constructor|].
  constructor; auto.
Qed.

Lemma Forall_kept {A} (P : A -> Prop) p l : Forall P l -> Forall P (List.filter p l).
Proof. induction 1; cbn; [constructor|]. destruct (p x); [by constructor|done]. Qed.

Lemma kept_perm {A} p (l l' : list A) : l ≡ₚ l' -> List.filter p l ≡ₚ List.filter p l'.
Proof.
  induction 1; cbn; [done|by destruct (p x); [f_equiv|]| |by etrans].
  destruct (p x), (p y); try done. apply perm_swap.
Qed.

Lemma try_map_Ok_elem {E A B} (f : A -> result E B) l r x :
  try_map f l = Ok r -> x ∈ l -> exists y, f x = Ok y.
Proof.
  intros H%try_map_Ok Hx. induction H as [|a b l r Ha _ IH]; [by apply not_elem_of_nil in Hx|].
  apply elem_of_cons in Hx as [->|Hx]; eauto.
Qed.

Lemma StronglySorted_sublist {A} (R : relation A) l k :
  sublist l k -> StronglySorted R k -> StronglySorted R l.
Proof.
  intros Hl. induction Hl as [|x l k Hl IH|x l k Hl IH]; intros Hs; [done| |];
    inversion_clear Hs as [|? ? Hk Hx].
  - constructor; [by apply IH|]. apply Forall_forall. intros y Hy.
    rewrite Forall_forall in Hx. by apply Hx, (sublist_subseteq _ _ Hl).
  - by apply IH.
Qed.

Lemma Sorted_fmap {A B} (f : A -> B) (R : relation B) l :
  Sorted (fun a b => R (f a) (f b)) l -> Sorted R (f <$> l).
Proof.
  induction 1 as [|x l Hl IH Hx]; cbn; constructor; [done|]. by destruct Hx; constructor.
Qed.

Lemma NoDup_key_inj {A B} (key : A -> B) l x y :
  NoDup (key <$> l) -> x ∈ l -> y ∈ l -> key x = key y -> x = y.
Proof.
  induction l as [|z l IH]; [set_solver|].
  intros [Hn Hnd]%NoDup_cons [->|Hx]%elem_of_cons [->|Hy]%elem_of_cons E; auto.
  - exfalso. apply Hn. rewrite E. by apply list_elem_of_fmap_2.
  - exfalso. apply Hn. rewrite <- E. by apply list_elem_of_fmap_2.
Qed.

(** First index of an element that satisfies a predicate, [iter().position]. *)
Fixpoint position {A} (p : A -> bool) (l : list A) : option nat :=
  match l with
  | [] => None
  | x :: l => if p x then Some 0%nat else S <$> position p l
  end.

Lemma position_Some {A} (p : A -> bool) l i :
  position p l = Some i -> exists x, l !! i = Some x /\ p x = true.
Proof.
  revert i. induction l as [|y l IH]; cbn; intros i H; [done|].
  destruct (p y) eqn:E; [by simplify_eq; eauto|].
  apply fmap_Some in H as (j & Hj & ->). eauto.
Qed.

(** [iter().find]. *)
Lemma find_Some_elem {A} (p : A -> bool) l x :
  List.find p l = Some x -> x ∈ l /\ p x = true.
Proof. intros H. apply List.find_some in H as [? ?]. by rewrite list_elem_of_In. Qed.

Lemma find_None_all {A} (p : A -> bool) l :
  List.find p l = None <-> forall x, x ∈ l -> p x = false.
Proof.
  split.
  - intros H x Hx. apply list_elem_of_In in Hx. by eapply List.find_none in H.
  - induction l as [|y l IH]; cbn; intros H; [done|].
    rewrite H by set_solver. apply IH. set_solver.
Qed.

Lemma find_unique {A} (key : A -> string) l x :
  NoDup (key <$> l) -> x ∈ l -> List.find (fun y => String.eqb (key y) (key x)) l = Some x.
Proof.
  induction l as [|y l IH]; cbn; intros Hnd Hin; [set_solver|].
  apply NoDup_cons in Hnd as [Hy Hnd].
  apply elem_of_cons in Hin as [->|Hin]; [by rewrite String.eqb_refl|].
  rewrite (proj2 (String.eqb_neq _ _)); [auto|].
  intros E. apply Hy. rewrite E. by apply list_elem_of_fmap_2.
Qed.

Lemma existsb_elem {A} (p : A -> bool) l :
  existsb p l = true <-> exists x, x ∈ l /\ p x = true.
Proof. rewrite existsb_exists. by setoid_rewrite list_elem_of_In. Qed.

Lemma existsb_false {A} (p : A -> bool) l :
  existsb p l = false <-> forall x, x ∈ l -> p x = false.
Proof.
  rewrite <- not_true_iff_false, existsb_elem. split.
  - intros H x Hx. apply not_true_iff_false. eauto.
  - intros H (x & Hx & Hp). by rewrite H in Hp.
Qed.

Lemma filter_elem {A} (p : A -> bool) l x :
  x ∈ List.filter p l <-> x ∈ l /\ p x = true.
Proof. rewrite !list_elem_of_In. apply List.filter_In. Qed.

(** A filter that keeps exactly one element keeps the element known to be in it. *)
Lemma filter_length_one {A} (p : A -> bool) l x :
  length (List.filter p l) = 1%nat -> x ∈ l -> p x = true -> List.filter p l = [x].
Proof.
  intros Hlen Hin Hp.
  assert (Hx : x ∈ List.filter p l) by by rewrite filter_elem.
  destruct (List.filter p l) as [|y [|z r]]; try done.
  apply list_elem_of_singleton in Hx as ->. done.
Qed.

Lemma filter_filter {A} (p q : A -> bool) l :
  List.filter p (List.filter q l) = List.filter (fun x => q x && p x) l.
Proof.
  induction l as [|y l IH]; cbn; [done|].
  destruct (q y); cbn; [destruct (p y)|]; congruence.
Qed.

Lemma filter_ext_elem {A} (p q : A -> bool) l :
  (forall x, x ∈ l -> p x = q x) -> List.filter p l = List.filter q l.
Proof.
  induction l as [|y l IH]; cbn; intros H; [done|].
  rewrite H by set_solver. rewrite IH by set_solver. done.
Qed.

Lemma filter_all {A} (p : A -> bool) l : (forall x, x ∈ l -> p x = true) -> List.filter p l = l.
Proof.
  induction l as [|x l IH]; intros H; [done|]. cbn. rewrite H by apply list_elem_of_here.
  rewrite IH; [done|]. intros y Hy. by apply H; right.
Qed.

Lemma filter_none {A} (p : A -> bool) l :
  (forall x, x ∈ l -> p x = false) -> List.filter p l = [].
Proof.
  induction l as [|y l IH]; cbn; intros H; [done|].
  rewrite H by set_solver. apply IH. set_solver.
Qed.

(** [iter().min_by_key]: the first element with the least key. *)
Fixpoint min_by_key {A} (key : A -> Z) (l : list A) : option A :=
  match l with
  | [] => None
  | x :: l =>
      match min_by_key key l with
      | None => Some x
      | Some y => if key x <=? key y then Some x else Some y
      end
  end.

Lemma min_by_key_None {A} (key : A -> Z) l : min_by_key key l = None <-> l = [].
Proof.
  destruct l; cbn; [done|]. destruct (min_by_key key l); [case_match|]; done.
Qed.

Lemma min_by_key_Some {A} (key : A -> Z) l x :
  min_by_key key l = Some x ->
  x ∈ l /\ forall y, y ∈ l -> key x <= key y.
Proof.
  revert x. induction l as [|a l IH]; cbn; intros x H; [done|].
  destruct (min_by_key key l) as [b|] eqn:E.
  - destruct (IH b eq_refl) as [Hb Hmin].
    destruct (Z.leb_spec (key a) (key b)); injection H as <-.
    + split; [set_solver|]. intros y [->|Hy]%elem_of_cons; [lia|].
      specialize (Hmin y Hy). lia.
    + split; [set_solver|]. intros y [->|Hy]%elem_of_cons; [lia | auto].
  - apply min_by_key_None in E as ->. injection H as <-. set_solver.
Qed.

(** [iter().max_by_key]: the last element with the greatest key. *)
Fixpoint max_by_key {A} (key : A -> Z) (l : list A) : option A :=
  match l with
  | [] => None
  | x :: l =>
      match max_by_key key l with
      | None => Some x
      | Some y => if key y <? key x then Some x else Some y
      end
  end.

Lemma max_by_key_None {A} (key : A -> Z) l : max_by_key key l = None <-> l = [].
Proof.
  destruct l; cbn; [done|]. destruct (max_by_key key l); [case_match|]; done.
Qed.

Lemma max_by_key_Some {A} (key : A -> Z) l x :
  max_by_key key l = Some x ->
  x ∈ l /\ forall y, y ∈ l -> key y <= key x.
Proof.
  revert x. induction l as [|a l IH]; cbn; intros x H; [done|].
  destruct (max_by_key key l) as [b|] eqn:E.
  - destruct (IH b eq_refl) as [Hb Hmax].
    destruct (Z.ltb_spec (key b) (key a)); injection H as <-.
    + split; [set_solver|]. intros y [->|Hy]%elem_of_cons; [lia|].
      specialize (Hmax y Hy). lia.
    + split; [set_solver|]. intros y [->|Hy]%elem_of_cons; [lia | auto].
  - apply max_by_key_None in E as ->. injection H as <-. set_solver.
Qed.

(** [retain(|x| seen.insert(key(x)))]: the elements with a key that is not in
    [seen] and was not met before; the result carries the extended set. *)
Section RetainFresh.
Context {A : Type} (key : A -> string).

Fixpoint retain_fresh (seen : gset string) (l : list A) : gset string * list A :=
  match l with
  | [] => (seen, [])
  | x :: l =>
      if bool_decide (key x ∈ seen) then retain_fresh seen l
      else let '(seen', r) := retain_fresh ({[key x]} ∪ seen) l in (seen', x :: r)
  end.

Lemma retain_fresh_seen seen l :
  (retain_fresh seen l).1 = seen ∪ list_to_set (key <$> l).
Proof.
  revert seen. induction l as [|x l IH]; cbn; intros seen; [set_solver|].
  case_bool_decide; [rewrite IH; set_solver|].
  specialize (IH ({[key x]} ∪ seen)). destruct (retain_fresh _ l). cbn in *. set_solver.
Qed.

Lemma retain_fresh_sublist seen l : sublist (retain_fresh seen l).2 l.
Proof.
  revert seen. induction l as [|x l IH]; cbn; intros seen; [constructor|].
  case_bool_decide; [by constructor|].
  specialize (IH ({[key x]} ∪ seen)). destruct (retain_fresh _ l). by constructor.
Qed.

Lemma retain_fresh_NoDup seen l :
  NoDup (key <$> (retain_fresh seen l).2) /\
  forall x, x ∈ (retain_fresh seen l).2 -> key x ∉ seen.
Proof.
  revert seen. induction l as [|x l IH]; cbn; intros seen; [split; [constructor|set_solver]|].
  case_bool_decide as Hx; [apply IH|].
  destruct (IH ({[key x]} ∪ seen)) as [H1 H2]. destruct (retain_fresh _ l) as [s r]. cbn in *.
  split; [|set_solver]. constructor; [|done].
  intros (y & Hy & Hin)%list_elem_of_fmap. specialize (H2 y Hin). set_solver.
Qed.

(** Nothing is lost: every key is in the set or kept. *)
Lemma retain_fresh_complete seen l x :
  x ∈ l -> key x ∈ seen \/ key x ∈ key <$> (retain_fresh seen l).2.
Proof.
  revert seen. induction l as [|y l IH]; cbn; intros seen Hx; [set_solver|].
  apply elem_of_cons in Hx as [->|Hx].
  - case_bool_decide as Hy; [by left|]. right.
    destruct (retain_fresh ({[key y]} ∪ seen) l). set_solver.
  - case_bool_decide as Hy; [by apply IH|]. specialize (IH ({[key y]} ∪ seen) Hx).
    destruct (retain_fresh ({[key y]} ∪ seen) l). set_solver.
Qed.

Lemma retain_fresh_id seen l :
  NoDup (key <$> l) -> (forall x, x ∈ l -> key x ∉ seen) -> (retain_fresh seen l).2 = l.
Proof.
  revert seen. induction l as [|x l IH]; cbn; intros seen Hnd Hs; [done|].
  apply NoDup_cons in Hnd as [Hx Hnd]. rewrite bool_decide_false by set_solver.
  assert (forall y, y ∈ l -> key y ∉ {[key x]} ∪ seen) as Hs'.
  { intros y Hy. specialize (Hs y). assert (key y ∈ key <$> l) by (by apply list_elem_of_fmap_2).
    set_solver. }
  specialize (IH ({[key x]} ∪ seen) Hnd Hs'). destruct (retain_fresh _ l). cbn in *. by rewrite IH.
Qed.
End RetainFresh.

(** Membership of a string in a list, [iter().any(|s| s == x)]. *)
Lemma existsb_eqb_elem (x : string) l : existsb (String.eqb x) l = true <-> x ∈ l.
Proof.
  rewrite existsb_elem. split.
  - by intros (y & Hy & ->%String.eqb_eq).
  - intros H. exists x. by rewrite String.eqb_refl.
Qed.

Lemma existsb_eqb_not_elem (x : string) l : existsb (String.eqb x) l = false <-> x ∉ l.
Proof. by rewrite <- existsb_eqb_elem, not_true_iff_false. Qed.

#[export] Hint Resolve find_Some_elem wrapping_small wrapping_bound : gateway.
#[export] Hint Rewrite @filter_elem @existsb_elem @existsb_false existsb_eqb_elem
  existsb_eqb_not_elem @sort_by_elem : gateway.
