(* ===== verification/RustStr.v ===== *)
(** * The parts of Rust's [str], [char] and formatting that the gateway uses

    A Rust [String] is a sequence of UTF-8 bytes, here a [string] (a sequence of
    8-bit [ascii]); [len()] is [String.length], [==] is equality and [cmp] is the
    bytewise order [String.compare].  The functions are the standard library's:
    [trim] removes the Unicode white space characters by their UTF-8 encodings,
    [replace], [split] and [contains] work on bytes, which is exact for patterns
    that are themselves UTF-8. *)

From S2P Require Import Prelude.
From stdpp Require Export pretty.
From Stdlib Require Import Ascii.

Local Open Scope string_scope.
Local Open Scope list_scope.
Local Open Scope Z_scope.

#[global] Arguments String.append !_ _ /.

Definition code (c : ascii) : Z := Z.of_N (N_of_ascii c).
Definition chr (z : Z) : ascii := ascii_of_N (Z.to_N z).

Definition in_range (lo hi z : Z) : bool := (lo <=? z) && (z <=? hi).

(** ** Characters *)

Definition is_ascii_digit (c : ascii) : bool := in_range 48 57 (code c).
Definition is_ascii_upper (c : ascii) : bool := in_range 65 90 (code c).
Definition is_ascii_lower (c : ascii) : bool := in_range 97 122 (code c).
Definition is_ascii_alphanumeric (c : ascii) : bool :=
  is_ascii_digit c || is_ascii_upper c || is_ascii_lower c.
Definition is_ascii (c : ascii) : bool := code c <? 128.

Definition to_ascii_lowercase_char (c : ascii) : ascii :=
  if is_ascii_upper c then chr (code c + 32) else c.

(** [char::to_digit(16)]. *)
Definition to_digit16 (c : ascii) : option Z :=
  let z := code c in
  if in_range 48 57 z then Some (z - 48)
  else if in_range 97 102 z then Some (z - 87)
  else if in_range 65 70 z then Some (z - 55)
  else None.

(** ** Strings *)

Fixpoint str_map (f : ascii -> ascii) (s : string) : string :=
  match s with "" => "" | String c s => String (f c) (str_map f s) end.

Fixpoint str_forallb (p : ascii -> bool) (s : string) : bool :=
  match s with "" => true | String c s => p c && str_forallb p s end.

Definition is_empty (s : string) : bool :=
  match s with "" => true | _ => false end.

Definition to_ascii_lowercase : string -> string := str_map to_ascii_lowercase_char.

Fixpoint strip_prefix (p s : string) : option string :=
  match p, s with
  | "", _ => Some s
  | String a p, String b s => if Ascii.eqb a b then strip_prefix p s else None
  | String _ _, "" => None
  end.

Definition starts_with (p s : string) : bool :=
  match strip_prefix p s with Some _ => true | None => false end.

(** [s.contains(needle)]. *)
Fixpoint contains (needle s : string) : bool :=
  starts_with needle s ||
  match s with "" => false | String _ s => contains needle s end.

(** [s.ends_with(suffix)] and [s.strip_suffix(suffix)]. *)
Fixpoint strip_suffix (suffix s : string) : option string :=
  if String.eqb suffix s then Some ""
  else match s with
       | "" => None
       | String c s => String c <$> strip_suffix suffix s
       end.

Definition ends_with (suffix s : string) : bool :=
  match strip_suffix suffix s with Some _ => true | None => false end.

(** [s.replace(c, rep)] for a single ASCII character. *)
Fixpoint replace_char (c : ascii) (rep s : string) : string :=
  match s with
  | "" => ""
  | String a s =>
      if Ascii.eqb a c then rep +:+ replace_char c rep s
      else String a (replace_char c rep s)
  end.

(** [s.replace(needle, rep)] for a non-empty needle: non-overlapping, left to
    right; [skip] counts the bytes of the current match still to be dropped. *)
Fixpoint replace_from (needle rep : string) (skip : nat) (s : string) : string :=
  match s with
  | "" => ""
  | String a s' =>
      match skip with
      | S k => replace_from needle rep k s'
      | O => if starts_with needle s
             then rep +:+ replace_from needle rep (String.length needle - 1) s'
             else String a (replace_from needle rep 0 s')
      end
  end.
Definition replace (needle rep s : string) : string := replace_from needle rep 0 s.

(** [s.split("__")]. *)
Fixpoint split_dunder (s : string) : list string :=
  match s with
  | "" => [""]
  | String a r =>
      match a, r with
      | "_"%char, String "_"%char r' => "" :: split_dunder r'
      | _, _ => match split_dunder r with
                | [] => [String a ""]
                | w :: ws => String a w :: ws
                end
      end
  end.

(** [s.split_once(c)]. *)
Fixpoint split_once (c : ascii) (s : string) : option (string * string) :=
  match s with
  | "" => None
  | String a s =>
      if Ascii.eqb a c then Some ("", s)
      else '(x, y) ← split_once c s; Some (String a x, y)
  end.

(** [v.join(sep)]. *)
Fixpoint join (sep : string) (l : list string) : string :=
  match l with
  | [] => ""
  | [s] => s
  | s :: l => s +:+ sep +:+ join sep l
  end.

(** [s.trim_end_matches(c)]. *)
Fixpoint trim_end_matches (c : ascii) (s : string) : string :=
  match s with
  | "" => ""
  | String a s =>
      match trim_end_matches c s with
      | "" => if Ascii.eqb a c then "" else String a ""
      | r => String a r
      end
  end.

(** *** [trim]: the characters with the Unicode property White_Space, by their
    UTF-8 bytes. *)
Definition ws1 (a : Z) : bool := in_range 9 13 a || (a =? 32).
Definition ws2 (a b : Z) : bool := (a =? 0xC2) && ((b =? 0x85) || (b =? 0xA0)).
Definition ws3 (a b c : Z) : bool :=
  ((a =? 0xE1) && (b =? 0x9A) && (c =? 0x80))
  || ((a =? 0xE2) && (b =? 0x80)
      && (in_range 0x80 0x8A c || (c =? 0xA8) || (c =? 0xA9) || (c =? 0xAF)))
  || ((a =? 0xE2) && (b =? 0x81) && (c =? 0x9F))
  || ((a =? 0xE3) && (b =? 0x80) && (c =? 0x80)).

Fixpoint trim_start (s : string) : string :=
  match s with
  | "" => ""
  | String a r =>
      if ws1 (code a) then trim_start r
      else match r with
           | String b r' =>
               if ws2 (code a) (code b) then trim_start r'
               else match r' with
                    | String c r'' =>
                        if ws3 (code a) (code b) (code c) then trim_start r'' else s
                    | "" => s
                    end
           | "" => s
           end
  end.

(** [trim_end] by the same test on the last one, two or three bytes: the string
    is dropped from the point where only white space follows. *)
Fixpoint all_ws (s : string) : bool :=
  match s with
  | "" => true
  | String a r =>
      if ws1 (code a) then all_ws r
      else match r with
           | String b r' =>
               if ws2 (code a) (code b) then all_ws r'
               else match r' with
                    | String c r'' => ws3 (code a) (code b) (code c) && all_ws r''
                    | "" => false
                    end
           | "" => false
           end
  end.

Fixpoint trim_end (s : string) : string :=
  if all_ws s then ""
  else match s with "" => "" | String a r => String a (trim_end r) end.

Definition trim (s : string) : string := trim_end (trim_start s).

(** ** Formatting of integers, [format!("{n}")] *)
Definition fmt_nat (n : nat) : string := pretty n.
Definition fmt_Z (z : Z) : string := pretty z.

(** [str::parse::<u64>]: an optional plus sign and digits, without overflow. *)
Fixpoint parse_digits (acc : Z) (s : string) : option Z :=
  match s with
  | EmptyString => Some acc
  | String c s =>
      if is_ascii_digit c
      then let acc := acc * 10 + (code c - 48) in
           if acc <=? u64_max then parse_digits acc s else None
      else None
  end.

Definition parse_u64 (s : string) : option Z :=
  let digits := default s (strip_prefix "+" s) in
  if is_empty digits then None else parse_digits 0 digits.

(** ** Lemmas *)

Lemma str_app_length s t :
  String.length (s +:+ t) = (String.length s + String.length t)%nat.
Proof. induction s as [|c s IH]; cbn; [done | by rewrite IH]. Qed.

Lemma str_app_nil_r s : s +:+ "" = s.
Proof. induction s as [|c s IH]; cbn; [done | by rewrite IH]. Qed.

Lemma str_app_assoc s t u : (s +:+ t) +:+ u = s +:+ (t +:+ u).
Proof. induction s as [|c s IH]; cbn; [done | by rewrite IH]. Qed.

Lemma strip_prefix_Some p s r : strip_prefix p s = Some r <-> s = p +:+ r.
Proof.
  revert s. induction p as [|a p IH]; intros s; cbn; [naive_solver|].
  destruct s as [|b s]; [done|].
  destruct (Ascii.eqb_spec a b) as [->|Hne].
  - rewrite IH. naive_solver.
  - naive_solver.
Qed.

Lemma starts_with_spec p s : starts_with p s = true <-> exists r, s = p +:+ r.
Proof.
  unfold starts_with. setoid_rewrite <- strip_prefix_Some.
  destruct (strip_prefix p s); naive_solver.
Qed.

Lemma starts_with_char c s :
  starts_with (String c "") s =
  match s with "" => false | String a _ => Ascii.eqb c a end.
Proof.
  unfold starts_with. destruct s as [|a s]; [done|]. cbn [strip_prefix].
  by destruct (Ascii.eqb c a).
Qed.

Lemma contains_spec needle s :
  contains needle s = true <-> exists l r, s = l +:+ needle +:+ r.
Proof.
  induction s as [|c s IH]; cbn; rewrite orb_true_iff.
  - rewrite starts_with_spec. split.
    + intros [[r Hr]|]; [by exists "", r | done].
    + intros (l & r & H). left. destruct l; [by exists r | done].
  - rewrite starts_with_spec, IH. split.
    + intros [[r Hr]|(l & r & ->)]; [by exists "", r | by exists (String c l), r].
    + intros (l & r & H). destruct l as [|c' l]; cbn in H.
      * left. by exists r.
      * right. injection H as -> ->. eauto.
Qed.

Lemma str_forallb_app p s t :
  str_forallb p (s +:+ t) = str_forallb p s && str_forallb p t.
Proof. induction s; cbn; [done|]. by rewrite IHs, andb_assoc. Qed.

Lemma str_map_id f s :
  str_forallb (fun c => Ascii.eqb (f c) c) s = true -> str_map f s = s.
Proof.
  induction s as [|c s IH]; cbn; [done|].
  rewrite andb_true_iff. intros [->%Ascii.eqb_eq Hs]. by rewrite IH.
Qed.

Lemma str_forallb_impl (p q : ascii -> bool) s :
  (forall c, p c = true -> q c = true) ->
  str_forallb p s = true -> str_forallb q s = true.
Proof.
  intros Hpq. induction s as [|c s IH]; cbn; [done|].
  rewrite !andb_true_iff. naive_solver.
Qed.

Lemma replace_char_id c rep s :
  str_forallb (fun a => negb (Ascii.eqb a c)) s = true -> replace_char c rep s = s.
Proof.
  induction s as [|a s IH]; cbn; [done|].
  rewrite andb_true_iff, negb_true_iff. intros [-> Hs]. by rewrite IH.
Qed.

Lemma split_once_Some c s x y :
  split_once c s = Some (x, y) ->
  s = x +:+ String c y /\ str_forallb (fun a => negb (Ascii.eqb a c)) x = true.
Proof.
  revert x y. induction s as [|a s IH]; cbn; intros x y H; [done|].
  destruct (Ascii.eqb_spec a c) as [->|Hne]; [by simplify_eq|].
  apply bind_Some in H as ([x' y'] & Hs & H). simplify_eq.
  destruct (IH _ _ Hs) as [-> Hx]. cbn. by rewrite Hx, (proj2 (Ascii.eqb_neq a c)).
Qed.

Lemma split_once_app c x y :
  str_forallb (fun a => negb (Ascii.eqb a c)) x = true ->
  split_once c (x +:+ String c y) = Some (x, y).
Proof.
  induction x as [|a x IH]; cbn; [by rewrite Ascii.eqb_refl|].
  rewrite andb_true_iff, negb_true_iff. intros [-> Hx]. by rewrite IH.
Qed.

Lemma substring_all s : String.substring 0 (String.length s) s = s.
Proof. induction s; cbn; congruence. Qed.

Lemma substring_prefix_length n s :
  (n <= String.length s)%nat -> String.length (String.substring 0 n s) = n.
Proof.
  revert s. induction n as [|n IH]; intros [|c s] H; cbn in *; [done..|lia|].
  by rewrite IH by lia.
Qed.

(** A property of one byte, checked on all 256. *)
Definition all_bytes : list ascii := ascii_of_nat <$> seq 0 256.

Lemma all_bytes_complete c : c ∈ all_bytes.
Proof.
  apply list_elem_of_fmap. exists (nat_of_ascii c).
  split; [by rewrite ascii_nat_embedding|].
  apply elem_of_seq. pose proof (nat_ascii_bounded c). lia.
Qed.

Lemma by_all_bytes (p : ascii -> bool) :
  forallb p all_bytes = true -> forall c, p c = true.
Proof.
  intros H c. rewrite forallb_forall in H. apply H, list_elem_of_In, all_bytes_complete.
Qed.

(** Solve [forall c, p c = true -> q c = true] by trying every byte. *)
Ltac byte_cases :=
  let c := fresh "c" in
  intros c;
  match goal with
  | |- ?p = true -> ?q = true =>
      let P := eval pattern c in p in
      let Q := eval pattern c in q in
      match P with ?f _ => match Q with ?g _ =>
        let H := fresh in
        assert (H : implb (f c) (g c) = true)
          by (apply (by_all_bytes (fun c => implb (f c) (g c))); vm_compute; reflexivity);
        cbv beta in H; destruct p; [intros _; exact H | discriminate]
      end end
  end.

(** *** Numbers that are printed and parsed back *)

Lemma parse_pretty_go x s :
  Z.of_N x <= u64_max -> parse_digits 0 (pretty_N_go x s) = parse_digits (Z.of_N x) s.
Proof.
  revert s. induction (N.lt_wf_0 x) as [x _ IH]; intros s Hx.
  destruct (decide (0 < x)%N) as [Hp|Hp]; [|by replace x with 0%N by lia].
  pose proof (N.Div0.div_mod x 10) as Hdm. pose proof (N.mod_lt x 10 ltac:(done)) as Hm.
  pose proof (N.div_lt x 10 Hp ltac:(done)) as Hq. rewrite pretty_N_go_step by done.
  generalize dependent (x `mod` 10)%N. generalize dependent (x `div` 10)%N. intros q Hq m Hdm Hm.
  rewrite IH by lia. cbn [parse_digits].
  assert (is_ascii_digit (pretty_N_char m) = true /\ code (pretty_N_char m) = 48 + Z.of_N m)
    as [-> ->].
  { assert (m = 0 \/ m = 1 \/ m = 2 \/ m = 3 \/ m = 4 \/ m = 5 \/ m = 6 \/ m = 7 \/ m = 8
            \/ m = 9)%N as Hc by lia.
    repeat destruct Hc as [->|Hc]; [done..|]. by subst m. }
  replace (Z.of_N q * 10 + (48 + Z.of_N m - 48)) with (Z.of_N x) by lia.
  by rewrite (proj2 (Z.leb_le _ _) Hx).
Qed.

Lemma parse_fmt n : 0 <= n <= u64_max -> parse_u64 (fmt_Z n) = Some n.
Proof.
  intros [H0 Hm]. assert (parse_digits 0 (fmt_Z n) = Some n /\ fmt_Z n <> "") as [Hp Hne].
  { unfold fmt_Z. destruct n as [|p|p]; [done| |lia].
    change (pretty (Z.pos p)) with (pretty_N_go (N.pos p) "").
    rewrite parse_pretty_go by done. split; [done|]. intros E.
    pose proof (parse_pretty_go (N.pos p) "" Hm) as K. rewrite E in K. done. }
  unfold parse_u64. destruct (strip_prefix "+" (fmt_Z n)) as [r|] eqn:E.
  - apply strip_prefix_Some in E. by rewrite E in Hp.
  - cbn [default]. by destruct (fmt_Z n).
Qed.

(** What is printed for a non-negative number are digits. *)
Lemma pretty_go_digits x s :
  str_forallb is_ascii_digit (pretty_N_go x s) = str_forallb is_ascii_digit s.
Proof.
  revert s. induction (N.lt_wf_0 x) as [x _ IH]; intros s.
  destruct (decide (0 < x)%N) as [Hp|Hp]; [|by replace x with 0%N by lia].
  rewrite pretty_N_go_step, IH by (try apply N.div_lt; done). cbn.
  unfold pretty_N_char. by repeat case_match.
Qed.

Lemma fmt_nat_digits n : str_forallb is_ascii_digit (fmt_nat n) = true.
Proof.
  unfold fmt_nat, pretty, pretty_nat, pretty, pretty_N. case_decide; [done|].
  by rewrite pretty_go_digits.
Qed.

Lemma fmt_digits n : 0 <= n -> str_forallb is_ascii_digit (fmt_Z n) = true.
Proof.
  intros H. unfold fmt_Z. destruct n as [|p|p]; [done| |lia].
  change (pretty (Z.pos p)) with (pretty_N_go (N.pos p) ""). by rewrite pretty_go_digits.
Qed.

(** The order of strings is transitive. *)
Lemma str_leb_trans a b c :
  String.leb a b = true -> String.leb b c = true -> String.leb a c = true.
Proof.
  unfold String.leb. revert b c. induction a as [|x a IH]; intros [|y b] [|z c]; cbn; try done.
  unfold Ascii.compare.
  destruct (N.compare_spec (N_of_ascii x) (N_of_ascii y)) as [E|L|G]; [|intros _|done];
  destruct (N.compare_spec (N_of_ascii y) (N_of_ascii z)) as [E'|L'|G']; try done;
  destruct (N.compare_spec (N_of_ascii x) (N_of_ascii z)); try done; try lia. apply IH.
Qed.

#[export] Instance str_leb_transitive : Transitive (fun a b => String.leb a b = true).
Proof. intros a b c. apply str_leb_trans. Qed.

Lemma str_leb_total a b : String.leb a b = false -> String.leb b a = true.
Proof. destruct (String.leb_total a b); congruence. Qed.
