(* ===== verification/Naming.v ===== *)
(** * Tool names ([src/src/naming.rs])

    [ToolName] is the three-segment name of a tool, [to_wire_name] its exposed
    form [domain__provider__tool].  [ToolName_new] normalises and checks the
    segments, [from_str] parses a name written by an administrator,
    [scope_match_name] builds the name that the policy checks for entries that
    are not exposed. *)

From S2P Require Import Prelude RustStr.
From Stdlib Require Import Ascii.

Local Open Scope string_scope.
Local Open Scope list_scope.
Local Open Scope Z_scope.

Definition MAX_WIRE_NAME_LEN : nat := 64.

Record ToolName := mkToolName {
  domain : string;
  provider : string;
  tool : string;
}.

#[export] Instance ToolName_eq_dec : EqDecision ToolName.
Proof. solve_decision. Defined.

Inductive ToolNameError :=
| InvalidShape (value : string)
| EmptySegment
| InvalidSegment (segment : string)
| Overlong (wire : string).

#[export] Instance ToolNameError_eq_dec : EqDecision ToolNameError.
Proof. solve_decision. Defined.

(** The [#[error(...)]] messages. *)
Definition ToolNameError_to_string (e : ToolNameError) : string :=
  match e with
  | InvalidShape v => "tool name must be domain__provider__tool, got " +:+ v
  | EmptySegment => "tool name segment cannot be empty"
  | InvalidSegment s => "tool name segment contains unsupported characters: " +:+ s
  | Overlong w => "tool name exceeds 64 characters: " +:+ w
  end.

Definition segment_char (c : ascii) : bool :=
  is_ascii_alphanumeric c || Ascii.eqb c "-" || Ascii.eqb c "_".

Definition normalize_segment (value : string) : result ToolNameError string :=
  let trimmed := replace_char " " "-" (to_ascii_lowercase (trim value)) in
  if is_empty trimmed then Err EmptySegment
  else if negb (str_forallb segment_char trimmed) then Err (InvalidSegment trimmed)
  else Ok trimmed.

Definition to_wire_name (n : ToolName) : string :=
  domain n +:+ "__" +:+ provider n +:+ "__" +:+ tool n.

Definition ToolName_new (d p t : string) : result ToolNameError ToolName :=
  d ← normalize_segment d;
  p ← normalize_segment p;
  t ← normalize_segment t;
  let name := mkToolName d p t in
  let wire := to_wire_name name in
  if (MAX_WIRE_NAME_LEN <? String.length wire)%nat then Err (Overlong wire)
  else Ok name.

Definition from_str (value : string) : result ToolNameError ToolName :=
  match split_dunder value with
  | [d; p; t] => ToolName_new d p t
  | _ => Err (InvalidShape value)
  end.

Definition scope_match_name (d p name : string) : result ToolNameError string :=
  if is_empty name then Err EmptySegment
  else
    d ← normalize_segment d;
    p ← normalize_segment p;
    Ok (d +:+ "__" +:+ p +:+ "__" +:+ name).

(** ** Canonical segments

    The segments that [normalize_segment] returns: non-empty, over lower-case
    letters, digits, [-] and [_]. *)

Definition canonical_char (c : ascii) : bool :=
  is_ascii_lower c || is_ascii_digit c || Ascii.eqb c "-" || Ascii.eqb c "_".

Definition canonical_segment (s : string) : bool :=
  negb (is_empty s) && str_forallb canonical_char s.

Definition canonical_name (n : ToolName) : bool :=
  canonical_segment (domain n) && canonical_segment (provider n)
  && canonical_segment (tool n)
  && (String.length (to_wire_name n) <=? MAX_WIRE_NAME_LEN)%nat.

Lemma canonical_char_spec c :
  canonical_char c = true ->
  segment_char c = true /\ to_ascii_lowercase_char c = c /\
  Ascii.eqb c " " = false /\ is_ascii c = true /\ ws1 (code c) = false.
Proof.
  intros H.
  assert (segment_char c && Ascii.eqb (to_ascii_lowercase_char c) c
          && negb (Ascii.eqb c " ") && is_ascii c && negb (ws1 (code c)) = true) as K.
  { revert c H. byte_cases. }
  rewrite !andb_true_iff, !negb_true_iff, Ascii.eqb_eq in K. naive_solver.
Qed.

Lemma trim_canonical s : str_forallb canonical_char s = true -> trim s = s.
Proof.
  assert (Hnw : forall c, canonical_char c = true -> forall b d,
            ws2 (code c) b = false /\ ws3 (code c) b d = false).
  { intros c (_ & _ & _ & Ha & _)%canonical_char_spec b d.
    unfold is_ascii in Ha. apply Z.ltb_lt in Ha. unfold ws2, ws3.
    repeat match goal with |- context [code c =? ?k] =>
      replace (code c =? k) with false by lia end. done. }
  assert (Hend : forall t, str_forallb canonical_char t = true ->
            (t = "" \/ all_ws t = false) /\ trim_end t = t).
  { induction t as [|a r IH]; cbn; [by auto|].
    rewrite andb_true_iff. intros [Ha Hr]. destruct (IH Hr) as [_ IH2].
    destruct (canonical_char_spec a Ha) as (_ & _ & _ & _ & Hw). rewrite Hw.
    assert (all_ws (String a r) = false) as E.
    { cbn. rewrite Hw. destruct r as [|b r]; [done|].
      rewrite (proj1 (Hnw a Ha (code b) 0)). destruct r as [|d r]; [done|].
      by rewrite (proj2 (Hnw a Ha (code b) (code d))). }
    cbn in E. rewrite Hw in E. rewrite E, IH2. auto. }
  intros H. unfold trim.
  assert (trim_start s = s) as ->; [|by apply Hend].
  destruct s as [|a r]; [done|]. cbn in H. apply andb_true_iff in H as [Ha Hr].
  destruct (canonical_char_spec a Ha) as (_ & _ & _ & _ & Hw).
  cbn. rewrite Hw. destruct r as [|b r]; [done|].
  rewrite (proj1 (Hnw a Ha (code b) 0)). destruct r as [|d r]; [done|].
  by rewrite (proj2 (Hnw a Ha (code b) (code d))).
Qed.

Lemma normalize_output v s :
  normalize_segment v = Ok s -> canonical_segment s = true.
Proof.
  unfold normalize_segment, canonical_segment.
  set (l := to_ascii_lowercase (trim v)).
  destruct (is_empty (replace_char " " "-" l)) eqn:E1; [done|].
  destruct (str_forallb segment_char _) eqn:E2; cbn; [|done].
  intros [= <-]. rewrite E1. cbn.
  assert (Hl : str_forallb (fun c => negb (is_ascii_upper c)) l = true).
  { subst l. clear. induction (trim v) as [|c s IH]; cbn; [done|].
    rewrite IH, andb_true_r. revert c.
    apply (by_all_bytes (fun c => negb (is_ascii_upper (to_ascii_lowercase_char c)))).
    vm_compute. reflexivity. }
  clear E1. revert Hl E2. generalize l. clear. induction l as [|c l IH]; cbn; [done|].
  rewrite andb_true_iff. intros [Hc Hl].
  destruct (Ascii.eqb_spec c " ") as [->|Hne]; cbn; rewrite andb_true_iff; intros [H1 H2].
  - by rewrite IH.
  - rewrite IH by done. rewrite andb_true_r. revert Hc H1. clear.
    assert (forall c, implb (negb (is_ascii_upper c) && segment_char c) (canonical_char c) = true)
      as K by (apply by_all_bytes; vm_compute; reflexivity).
    intros Hc H1. specialize (K c). by rewrite Hc, H1 in K.
Qed.

Lemma normalize_canonical s :
  canonical_segment s = true -> normalize_segment s = Ok s.
Proof.
  unfold canonical_segment, normalize_segment. rewrite andb_true_iff, negb_true_iff.
  intros [He Hc].
  assert (str_forallb segment_char s = true) as Hseg.
  { eapply str_forallb_impl; [|exact Hc]. by intros c (? & _)%canonical_char_spec. }
  rewrite (trim_canonical s Hc). unfold to_ascii_lowercase. rewrite str_map_id.
  2:{ eapply str_forallb_impl; [|exact Hc].
      intros c (_ & -> & _)%canonical_char_spec. apply Ascii.eqb_refl. }
  rewrite replace_char_id.
  2:{ eapply str_forallb_impl; [|exact Hc].
      intros c (_ & _ & -> & _)%canonical_char_spec. done. }
  by rewrite He, Hseg.
Qed.

(** ** Splitting a wire name *)

(** No [__] inside, and no [_] at the end: the shape of a segment that the
    separator cannot run into. *)
Definition dunder_free (s : string) : bool := negb (contains "__" s).

Fixpoint ends_underscore (s : string) : bool :=
  match s with
  | "" => false
  | String c "" => Ascii.eqb c "_"
  | String _ s => ends_underscore s
  end.

Lemma split_dunder_step c r :
  (c <> "_"%char \/ starts_with "_" r = false) ->
  split_dunder (String c r) =
  match split_dunder r with [] => [String c ""] | w :: ws => String c w :: ws end.
Proof.
  intros H. cbn.
  destruct (ascii_dec c "_") as [->|Hne].
  - destruct H as [H|H]; [done|]. destruct r as [|a r]; [done|].
    rewrite starts_with_char in H.
    destruct (Ascii.eqb_spec "_" a) as [<-|Ha]; [done|].
    destruct a as [[] [] [] [] [] [] [] []]; done.
  - destruct c as [[] [] [] [] [] [] [] []]; done.
Qed.

Lemma dunder_free_cons c s :
  dunder_free (String c s) = true ->
  dunder_free s = true /\ (c <> "_"%char \/ starts_with "_" s = false).
Proof.
  unfold dunder_free. rewrite !negb_true_iff. cbn [contains].
  rewrite orb_false_iff. intros [H1 H2]. split; [done|].
  destruct (ascii_dec c "_") as [->|]; [|by left]. right.
  rewrite starts_with_char. destruct s as [|a s]; [done|].
  unfold starts_with in H1. cbn [strip_prefix] in H1. rewrite Ascii.eqb_refl in H1.
  by destruct (Ascii.eqb "_" a).
Qed.

Lemma split_dunder_single s : dunder_free s = true -> split_dunder s = [s].
Proof.
  induction s as [|c s IH]; [done|]. intros [Hf Hc]%dunder_free_cons.
  by rewrite split_dunder_step, IH.
Qed.

Lemma split_dunder_app w r :
  dunder_free w = true -> ends_underscore w = false ->
  split_dunder (w +:+ "__" +:+ r) = w :: split_dunder r.
Proof.
  induction w as [|c w IH]; [done|].
  intros [Hf Hc]%dunder_free_cons He.
  change (split_dunder (String c (w +:+ "__" +:+ r)) = String c w :: split_dunder r).
  rewrite split_dunder_step.
  - rewrite IH; [done | done |]. by destruct w.
  - destruct Hc as [Hc|Hc]; [by left|]. destruct w as [|a w].
    + left. cbn in He. by apply Ascii.eqb_neq.
    + right. by rewrite starts_with_char in *.
Qed.

(** ** Properties *)

Lemma ToolName_new_segments d p t :
  canonical_segment d = true -> canonical_segment p = true -> canonical_segment t = true ->
  ToolName_new d p t =
  let name := mkToolName d p t in
  if (MAX_WIRE_NAME_LEN <? String.length (to_wire_name name))%nat
  then Err (Overlong (to_wire_name name)) else Ok name.
Proof. intros. unfold ToolName_new. by rewrite !normalize_canonical. Qed.

(** [ToolName::new] succeeds exactly when the three segments
    normalise and the wire name has at most 64 bytes; what it returns is
    canonical, and building a name again from its own segments changes nothing. *)
Theorem tool_name_new_canonical d p t n :
  ToolName_new d p t = Ok n ->
  canonical_name n = true /\ ToolName_new (domain n) (provider n) (tool n) = Ok n.
Proof.
  intros H. unfold ToolName_new in H.
  apply bind_Ok_inv in H as (d' & Hd%normalize_output & H).
  apply bind_Ok_inv in H as (p' & Hp%normalize_output & H).
  apply bind_Ok_inv in H as (t' & Ht%normalize_output & H). cbv zeta in H.
  destruct (Nat.ltb_spec MAX_WIRE_NAME_LEN (String.length (to_wire_name (mkToolName d' p' t'))))
    as [|Hle]; [done|].
  injection H as <-. cbn [domain provider tool]. split.
  - unfold canonical_name. cbn [domain provider tool]. rewrite Hd, Hp, Ht.
    by apply Nat.leb_le.
  - rewrite ToolName_new_segments by done. cbv zeta.
    by rewrite (proj2 (Nat.ltb_ge _ _) Hle).
Qed.

Lemma tool_name_new_canonical_witness :
  ToolName_new "Search" "Tavily" " Web Search " =
    Ok (mkToolName "search" "tavily" "web-search") /\
  canonical_name (mkToolName "search" "tavily" "web-search") = true.
Proof.
  assert (H : ToolName_new "Search" "Tavily" " Web Search " =
              Ok (mkToolName "search" "tavily" "web-search")) by (vm_compute; reflexivity).
  split; [exact H | apply (tool_name_new_canonical _ _ _ _ H)].
Defined.

(** An administrator-written name parses back to the name it
    was printed from when no segment contains [__] and neither the domain nor
    the provider ends in [_]. *)
Theorem wire_name_roundtrip n :
  canonical_name n = true ->
  dunder_free (domain n) = true -> dunder_free (provider n) = true ->
  dunder_free (tool n) = true ->
  ends_underscore (domain n) = false -> ends_underscore (provider n) = false ->
  from_str (to_wire_name n) = Ok n.
Proof.
  intros Hc Hd Hp Ht Ed Ep. unfold from_str, to_wire_name.
  rewrite !split_dunder_app, split_dunder_single by done.
  unfold canonical_name in Hc. rewrite !andb_true_iff in Hc. destruct Hc as [[[H1 H2] H3] H4].
  rewrite ToolName_new_segments by done. destruct n as [d p t]. cbv zeta.
  cbn [domain provider tool]. apply Nat.leb_le in H4.
  by rewrite (proj2 (Nat.ltb_ge _ _) H4).
Qed.

Lemma wire_name_roundtrip_witness :
  from_str (to_wire_name (mkToolName "search" "exa" "neural_search")) =
    Ok (mkToolName "search" "exa" "neural_search").
Proof. apply wire_name_roundtrip; vm_compute; reflexivity. Defined.

(** The limits of the round trip, as the comments of [to_wire_name] say: two
    different valid names can have the same wire name. *)
Example wire_name_collision :
  exists n1 n2, n1 <> n2 /\ canonical_name n1 = true /\ canonical_name n2 = true /\
    to_wire_name n1 = to_wire_name n2.
Proof.
  exists (mkToolName "a_" "b" "c"), (mkToolName "a" "_b" "c").
  repeat split; vm_compute; congruence.
Qed.
