(* ===== verification/Errors.v ===== *)
(** * The error model ([src/src/error.rs])

    Stable error codes, the aggregate [AsterlaneError] and its conversions at the
    CLI, HTTP and MCP boundaries.  The errors of the regex engine and of the
    OpenAPI parser are library values of which only the printed text is used, so
    they are strings here. *)

From S2P Require Import Prelude RustStr Naming.

Local Open Scope string_scope.
Local Open Scope list_scope.
Local Open Scope Z_scope.

Inductive ErrorCode :=
| ConfigInvalidYaml | ConfigUnknownResource | ConfigInvalidRegex | ConfigInvalidToolName
| AuthMissingGatewayKey | AuthInvalidGatewayKey | AuthExpiredGatewayKey
| AuthForbiddenTool | AuthMissingUpstreamSecret
| CatalogUnknownTool | CatalogInvalidPagination | CatalogAmbiguousToolName
| StoreMigrationFailed | StoreUnavailable
| ProxyUpstreamTimeout | ProxyRetryExhausted | ProxyUpstreamError
| ProxyConnectionFailed | ProxyEgressBlocked
| LimitQuotaExceeded | LimitQueueFull | LimitQueueTimeout | LimitCallsExhausted
| LimitDailyCallsExhausted
| McpInvalidToolCall | McpUpstreamMcpFailure | McpUpstreamUnavailable
| McpUpstreamAuthRequired
| AdminUnauthorized | AdminInvalidQuery | AdminNotFound | AdminConflict
| HttpTimeout | HttpBodyTooLarge.

#[export] Instance ErrorCode_eq_dec : EqDecision ErrorCode.
Proof. solve_decision. Defined.

Definition as_str (c : ErrorCode) : string :=
  match c with
  | ConfigInvalidYaml => "config.invalid_yaml"
  | ConfigUnknownResource => "config.unknown_resource"
  | ConfigInvalidRegex => "config.invalid_regex"
  | ConfigInvalidToolName => "config.invalid_tool_name"
  | AuthMissingGatewayKey => "auth.missing_gateway_key"
  | AuthInvalidGatewayKey => "auth.invalid_gateway_key"
  | AuthExpiredGatewayKey => "auth.expired_gateway_key"
  | AuthForbiddenTool => "auth.forbidden_tool"
  | AuthMissingUpstreamSecret => "auth.missing_upstream_secret"
  | CatalogUnknownTool => "catalog.unknown_tool"
  | CatalogInvalidPagination => "catalog.invalid_pagination"
  | CatalogAmbiguousToolName => "catalog.ambiguous_tool_name"
  | StoreMigrationFailed => "store.migration_failed"
  | StoreUnavailable => "store.unavailable"
  | ProxyUpstreamTimeout => "proxy.upstream_timeout"
  | ProxyRetryExhausted => "proxy.retry_exhausted"
  | ProxyUpstreamError => "proxy.upstream_error"
  | ProxyConnectionFailed => "proxy.connection_failed"
  | ProxyEgressBlocked => "proxy.egress_blocked"
  | LimitQuotaExceeded => "limit.quota_exceeded"
  | LimitQueueFull => "limit.queue_full"
  | LimitQueueTimeout => "limit.queue_timeout"
  | LimitCallsExhausted => "limit.calls_exhausted"
  | LimitDailyCallsExhausted => "limit.daily_calls_exhausted"
  | McpInvalidToolCall => "mcp.invalid_tool_call"
  | McpUpstreamMcpFailure => "mcp.upstream_mcp_failure"
  | McpUpstreamUnavailable => "mcp.upstream_unavailable"
  | McpUpstreamAuthRequired => "mcp.upstream_auth_required"
  | AdminUnauthorized => "admin.unauthorized"
  | AdminInvalidQuery => "admin.invalid_query"
  | AdminNotFound => "admin.not_found"
  | AdminConflict => "admin.conflict"
  | HttpTimeout => "http.timeout"
  | HttpBodyTooLarge => "http.body_too_large"
  end.

Definition category (c : ErrorCode) : string :=
  match c with
  | ConfigInvalidYaml | ConfigUnknownResource | ConfigInvalidRegex
  | ConfigInvalidToolName => "config"
  | AuthMissingGatewayKey | AuthInvalidGatewayKey | AuthExpiredGatewayKey
  | AuthForbiddenTool | AuthMissingUpstreamSecret => "auth"
  | CatalogUnknownTool | CatalogInvalidPagination | CatalogAmbiguousToolName => "catalog"
  | StoreMigrationFailed | StoreUnavailable => "store"
  | ProxyUpstreamTimeout | ProxyRetryExhausted | ProxyUpstreamError
  | ProxyConnectionFailed | ProxyEgressBlocked => "proxy"
  | LimitQuotaExceeded | LimitQueueFull | LimitQueueTimeout | LimitCallsExhausted
  | LimitDailyCallsExhausted => "limit"
  | McpInvalidToolCall | McpUpstreamMcpFailure | McpUpstreamUnavailable
  | McpUpstreamAuthRequired => "mcp"
  | AdminUnauthorized | AdminInvalidQuery | AdminNotFound | AdminConflict => "admin"
  | HttpTimeout | HttpBodyTooLarge => "http"
  end.

(** ** Module errors that the aggregate contains *)

Inductive PolicyError := InvalidRegex (detail : string).

Inductive CatalogError :=
| Catalog_ToolName (e : ToolNameError)
| Catalog_Regex (detail : string)
| Catalog_Policy (e : PolicyError)
| Catalog_OpenApi (detail : string)
| AmbiguousToolName (name : string) (candidates : list string).

#[export] Instance PolicyError_eq_dec : EqDecision PolicyError.
Proof. solve_decision. Defined.
#[export] Instance CatalogError_eq_dec : EqDecision CatalogError.
Proof. solve_decision. Defined.

Definition PolicyError_to_string (e : PolicyError) : string :=
  match e with InvalidRegex d => "invalid tool scope regex: " +:+ d end.

Definition CatalogError_to_string (e : CatalogError) : string :=
  match e with
  | Catalog_ToolName e => ToolNameError_to_string e
  | Catalog_Regex d => d
  | Catalog_Policy e => PolicyError_to_string e
  | Catalog_OpenApi d => d
  | AmbiguousToolName name candidates =>
      "ambiguous tool name '" +:+ name +:+ "', use a longer form; candidates: "
        +:+ join ", " candidates
  end.

(** ** The aggregate *)

Inductive AsterlaneError :=
| ToolNameErr (e : ToolNameError)
| CatalogErr (e : CatalogError)
| PolicyErr (e : PolicyError)
| Internal (code : ErrorCode) (message : string) (retry_after : option Z).

Definition internal (code : ErrorCode) (message : string) : AsterlaneError :=
  Internal code message None.

Definition internal_with_retry_after (code : ErrorCode) (message : string)
    (retry_after : option Z) : AsterlaneError :=
  Internal code message retry_after.

Definition error_code (e : AsterlaneError) : ErrorCode :=
  match e with
  | ToolNameErr _ => ConfigInvalidToolName
  | CatalogErr err =>
      match err with
      | Catalog_ToolName _ => ConfigInvalidToolName
      | Catalog_Regex _ => ConfigInvalidRegex
      | Catalog_Policy _ => ConfigInvalidRegex
      | Catalog_OpenApi _ => ConfigInvalidYaml
      | AmbiguousToolName _ _ => CatalogAmbiguousToolName
      end
  | PolicyErr _ => ConfigInvalidRegex
  | Internal code _ _ => code
  end.

Definition exit_code (e : AsterlaneError) : Z :=
  let cat := category (error_code e) in
  if String.eqb cat "config" then 2
  else if String.eqb cat "auth" || String.eqb cat "admin" then 3
  else if String.eqb cat "catalog" || String.eqb cat "mcp" then 4
  else if String.eqb cat "store" then 5
  else if String.eqb cat "proxy" then 6
  else if String.eqb cat "limit" then 7
  else 1.

Definition safe_message (e : AsterlaneError) : string :=
  match e with
  | ToolNameErr err => ToolNameError_to_string err
  | CatalogErr err => CatalogError_to_string err
  | PolicyErr err => PolicyError_to_string err
  | Internal _ message _ => message
  end.

Definition http_status_for (c : ErrorCode) : Z :=
  match c with
  | ConfigInvalidYaml | ConfigUnknownResource | ConfigInvalidRegex
  | ConfigInvalidToolName => 500
  | AuthMissingGatewayKey | AuthInvalidGatewayKey | AuthExpiredGatewayKey => 401
  | AuthForbiddenTool | ProxyEgressBlocked => 403
  | AuthMissingUpstreamSecret => 503
  | CatalogUnknownTool => 404
  | McpUpstreamMcpFailure | McpUpstreamAuthRequired => 502
  | McpUpstreamUnavailable => 503
  | CatalogInvalidPagination | CatalogAmbiguousToolName | McpInvalidToolCall => 400
  | StoreMigrationFailed | StoreUnavailable => 503
  | ProxyUpstreamTimeout | ProxyConnectionFailed => 504
  | ProxyRetryExhausted | ProxyUpstreamError => 502
  | LimitQuotaExceeded | LimitCallsExhausted | LimitDailyCallsExhausted => 429
  | LimitQueueFull | LimitQueueTimeout => 503
  | AdminUnauthorized => 401
  | AdminInvalidQuery => 400
  | AdminNotFound => 404
  | AdminConflict => 409
  | HttpTimeout => 408
  | HttpBodyTooLarge => 413
  end.

Record HttpErrorView := mkHttpErrorView {
  hv_status : Z;
  hv_code : ErrorCode;
  hv_message : string;
  hv_request_id : option string;
  hv_retry_after : option Z;
}.

Definition http_response (e : AsterlaneError) : HttpErrorView :=
  let code := error_code e in
  let retry_after := match e with Internal _ _ r => r | _ => None end in
  mkHttpErrorView (http_status_for code) code (safe_message e) None retry_after.

Inductive McpErrorForm :=
| ToolResultIsError (text : string)
| JsonRpc (code : Z) (message : string).

Definition mcp_error (e : AsterlaneError) : McpErrorForm :=
  let message := safe_message e in
  match error_code e with
  | CatalogUnknownTool => JsonRpc (-32601) message
  | CatalogInvalidPagination | CatalogAmbiguousToolName | McpInvalidToolCall =>
      JsonRpc (-32602) message
  | ProxyUpstreamTimeout | ProxyRetryExhausted | ProxyUpstreamError
  | ProxyConnectionFailed | ProxyEgressBlocked | McpUpstreamMcpFailure
  | McpUpstreamAuthRequired | LimitQuotaExceeded | LimitQueueFull
  | LimitQueueTimeout | LimitCallsExhausted => ToolResultIsError message
  | _ => JsonRpc (-32603) message
  end.

(** ** Properties *)

(** Every error code, for statements checked case by case. *)
Definition all_codes : list ErrorCode :=
  [ConfigInvalidYaml; ConfigUnknownResource; ConfigInvalidRegex; ConfigInvalidToolName;
   AuthMissingGatewayKey; AuthInvalidGatewayKey; AuthExpiredGatewayKey;
   AuthForbiddenTool; AuthMissingUpstreamSecret;
   CatalogUnknownTool; CatalogInvalidPagination; CatalogAmbiguousToolName;
   StoreMigrationFailed; StoreUnavailable;
   ProxyUpstreamTimeout; ProxyRetryExhausted; ProxyUpstreamError;
   ProxyConnectionFailed; ProxyEgressBlocked;
   LimitQuotaExceeded; LimitQueueFull; LimitQueueTimeout; LimitCallsExhausted;
   LimitDailyCallsExhausted;
   McpInvalidToolCall; McpUpstreamMcpFailure; McpUpstreamUnavailable;
   McpUpstreamAuthRequired;
   AdminUnauthorized; AdminInvalidQuery; AdminNotFound; AdminConflict;
   HttpTimeout; HttpBodyTooLarge].

Lemma all_codes_complete c : c ∈ all_codes.
Proof. destruct c; cbv [all_codes]; set_solver. Qed.

(** The code that a published string stands for. *)
Definition parse_code (s : string) : option ErrorCode :=
  List.find (fun c => String.eqb (as_str c) s) all_codes.

(** Published code strings identify their code (the string
    decodes back to it, so no two codes share one) and start with the category
    the CLI exit code is computed from. *)
Theorem error_code_strings c :
  parse_code (as_str c) = Some c /\
  exists rest, as_str c = category c +:+ "." +:+ rest.
Proof. destruct c; (split; [reflexivity | eexists; cbn; reflexivity]). Qed.

(** At the MCP boundary every rejection by a quota or the
    admission queue is a tool result with [isError], except the daily quota,
    which becomes the JSON-RPC error reserved for faults of the gateway
    itself. *)
Theorem limit_errors_at_mcp_boundary e :
  category (error_code e) = "limit" ->
  mcp_error e =
  if bool_decide (error_code e = LimitDailyCallsExhausted)
  then JsonRpc (-32603) (safe_message e) else ToolResultIsError (safe_message e).
Proof. unfold mcp_error. by destruct (error_code e). Qed.

Lemma limit_errors_at_mcp_boundary_witness :
  mcp_error (internal LimitDailyCallsExhausted "daily call quota exhausted for this key") =
  JsonRpc (-32603) "daily call quota exhausted for this key".
Proof.
  rewrite (limit_errors_at_mcp_boundary
    (internal LimitDailyCallsExhausted "daily call quota exhausted for this key"));
  reflexivity.
Defined.
