(* ===== verification/Config.v ===== *)
(** * Configuration ([src/src/config/], [src/src/presets.rs])

    The YAML model as records and the processing after loading: credential
    checks and the expansion of the built-in MCP presets.  [GatewayConfig] has
    the sections that the modelled components read; the [admin],
    [semantic_search] and [secrets] sections are not represented.
    [JSON] values stand for [serde_json::Value]; its maps are [BTreeMap]s, that
    is, association lists in key order. *)

From S2P Require Import Prelude RustStr Naming Errors.
From Stdlib Require Import Ascii.

Local Open Scope string_scope.
Local Open Scope list_scope.
Local Open Scope Z_scope.

(** ** JSON values *)

Inductive JSON :=
| JNull
| JBool (b : bool)
| JNumber (text : string)
| JString (s : string)
| JArray (items : list JSON)
| JObject (fields : list (string * JSON)).

Definition as_object (v : JSON) : option (list (string * JSON)) :=
  match v with JObject fs => Some fs | _ => None end.

Definition obj_get (k : string) (fs : list (string * JSON)) : option JSON :=
  snd <$> List.find (fun f => String.eqb (fst f) k) fs.

(** [Value::get(key)]. *)
Definition json_get (k : string) (v : JSON) : option JSON :=
  fs ← as_object v; obj_get k fs.

Definition as_bool (v : JSON) : option bool :=
  match v with JBool b => Some b | _ => None end.

(** [Value::as_u64]: the text of a non-negative integer that fits. *)
Definition as_u64 (v : JSON) : option Z :=
  match v with
  | JNumber t => if str_forallb is_ascii_digit t then parse_u64 t else None
  | _ => None
  end.

(** ** Enumerations *)

Inductive HttpMethod := Get | Post | Put | Patch | Delete.
#[export] Instance HttpMethod_eq_dec : EqDecision HttpMethod.
Proof. solve_decision. Defined.

Inductive ResponseFormat := Json | Yaml | Markdown.
#[export] Instance ResponseFormat_eq_dec : EqDecision ResponseFormat.
Proof. solve_decision. Defined.

Inductive IntegrityPolicy := Warn | Quarantine | Block.
#[export] Instance IntegrityPolicy_eq_dec : EqDecision IntegrityPolicy.
Proof. solve_decision. Defined.

Inductive OAuthGrant := ClientCredentials | AuthorizationCode.
#[export] Instance OAuthGrant_eq_dec : EqDecision OAuthGrant.
Proof. solve_decision. Defined.

Inductive UpstreamAuth :=
| AuthNone
| AuthHeader (name value_ref : string)
| AuthBearer (token_ref : string)
| AuthOAuth (grant : OAuthGrant) (client_id client_secret_ref : option string)
    (scopes : list string).
#[export] Instance UpstreamAuth_eq_dec : EqDecision UpstreamAuth.
Proof. solve_decision. Defined.

Definition auth_is_none (a : UpstreamAuth) : bool :=
  match a with AuthNone => true | _ => false end.

Inductive LoadBalanceStrategy :=
| RoundRobin | Random | LeastRequests | FastestResponse | Weighted.

Inductive McpFailureMode := FailOpen | FailClosed.

(** ** Records *)

Record KeyLimits := mkKeyLimits {
  kl_rps : option Z;
  kl_rpm : option Z;
  kl_max_calls : option Z;
  kl_max_calls_per_day : option Z;
}.

Record UpstreamLimits := mkUpstreamLimits {
  ul_rps : option Z;
  ul_rpm : option Z;
  ul_max_concurrent : option Z;
  ul_queue_timeout_secs : Z;
}.

Record ProxyKey := mkProxyKey {
  pk_id : string;
  pk_display_name : string;
  allowed_tools : list string;
  denied_tools : list string;
  allowed_servers : list string;
  allowed_tool_names : list string;
  pk_limits : option KeyLimits;
  token_ref : option string;
  token_digest : option string;
  expires_at : option Z;
  default_tool_page_size : nat;
  discovery_mode : option string;
  pk_response_format : option ResponseFormat;
}.

Record PoolKeyConfig := mkPoolKeyConfig { secret_ref : string; weight : Z }.

Record KeyPoolConfig := mkKeyPoolConfig {
  strategy : LoadBalanceStrategy;
  keys : list PoolKeyConfig;
}.

Record SecurityConfig := mkSecurityConfig {
  integrity_policy : IntegrityPolicy;
  defense_enabled : bool;
  result_budget_bytes : option nat;
}.

Definition SecurityConfig_default : SecurityConfig := mkSecurityConfig Warn false None.

Record ToolEndpoint := mkToolEndpoint {
  ep_tool : string;
  ep_method : HttpMethod;
  ep_path : string;
  ep_description : string;
}.

Inductive SpecSource := SpecFile | SpecUrl.

Record OpenApiSourceConfig := mkOpenApiSourceConfig {
  oa_source : SpecSource;
  oa_path : option string;
  oa_url : option string;
  include_tags : list string;
  exclude_operations : list string;
  default_method_exposure : list string;
}.

Record ApiResource := mkApiResource {
  ar_id : string;
  ar_domain : string;
  ar_provider : string;
  base_url : string;
  ar_description : string;
  ar_auth : UpstreamAuth;
  key_pool : option KeyPoolConfig;
  endpoints : list ToolEndpoint;
  discovery : option OpenApiSourceConfig;
  ar_security : SecurityConfig;
  ar_limits : option UpstreamLimits;
}.

Record McpServerConfig := mkMcpServerConfig {
  ms_id : string;
  ms_domain : string;
  ms_provider : string;
  ms_url : string;
  ms_description : string;
  ms_auth : UpstreamAuth;
  ms_security : SecurityConfig;
  health_check_enabled : bool;
  ms_limits : option UpstreamLimits;
}.

Record ObservabilityConfig := mkObservabilityConfig {
  capture_payloads : bool;
  capture_max_bytes : nat;
  request_event_retention_days : Z;
}.

Record HttpServerConfig := mkHttpServerConfig {
  max_body_bytes : Z;
  request_timeout_secs : Z;
}.

Record McpRuntimeConfig := mkMcpRuntimeConfig {
  failure_mode : McpFailureMode;
  refresh_interval_secs : Z;
  tools_list_ttl_ms : Z;
}.

Record OAuthConfig := mkOAuthConfig {
  redirect_base_url : option string;
  token_encryption_key_ref : option string;
}.

Record GatewayConfig := mkGatewayConfig {
  default_response_format : option ResponseFormat;
  observability : ObservabilityConfig;
  http : HttpServerConfig;
  mcp : McpRuntimeConfig;
  oauth : option OAuthConfig;
  block_private_addresses : bool;
  api_resources : list ApiResource;
  builtin_mcp : list string;
  mcp_servers : list McpServerConfig;
  proxy_keys : list ProxyKey;
}.

Definition with_mcp_servers (c : GatewayConfig) (l : list McpServerConfig) : GatewayConfig :=
  mkGatewayConfig (default_response_format c) (observability c) (http c) (mcp c) (oauth c)
    (block_private_addresses c) (api_resources c) (builtin_mcp c) l (proxy_keys c).
Definition with_api_resources (c : GatewayConfig) (l : list ApiResource) : GatewayConfig :=
  mkGatewayConfig (default_response_format c) (observability c) (http c) (mcp c) (oauth c)
    (block_private_addresses c) l (builtin_mcp c) (mcp_servers c) (proxy_keys c).
Definition with_proxy_keys (c : GatewayConfig) (l : list ProxyKey) : GatewayConfig :=
  mkGatewayConfig (default_response_format c) (observability c) (http c) (mcp c) (oauth c)
    (block_private_addresses c) (api_resources c) (builtin_mcp c) (mcp_servers c) l.

(** The defaults of the runtime sections. *)
Definition ObservabilityConfig_default : ObservabilityConfig :=
  mkObservabilityConfig true 4096 14.
Definition HttpServerConfig_default : HttpServerConfig := mkHttpServerConfig 1048576 30.
Definition McpRuntimeConfig_default : McpRuntimeConfig := mkMcpRuntimeConfig FailOpen 60 60000.
Definition GatewayConfig_default : GatewayConfig :=
  mkGatewayConfig None ObservabilityConfig_default HttpServerConfig_default
    McpRuntimeConfig_default None false [] [] [] [].

(** [0] disables the refresh task, and a [ttlMs] of [0] is not sent. *)
Definition should_spawn_refresh (m : McpRuntimeConfig) : bool := 0 <? refresh_interval_secs m.
Definition tools_list_ttl (m : McpRuntimeConfig) : option Z :=
  if 0 <? tools_list_ttl_ms m then Some (tools_list_ttl_ms m) else None.

(** ** Lookups *)

Definition proxy_key (c : GatewayConfig) (id : string) : option ProxyKey :=
  List.find (fun k => String.eqb (pk_id k) id) (proxy_keys c).
Definition resource (c : GatewayConfig) (id : string) : option ApiResource :=
  List.find (fun r => String.eqb (ar_id r) id) (api_resources c).
Definition mcp_server (c : GatewayConfig) (id : string) : option McpServerConfig :=
  List.find (fun s => String.eqb (ms_id s) id) (mcp_servers c).

Definition provider_or_id (r : ApiResource) : string :=
  if is_empty (ar_provider r) then ar_id r else ar_provider r.

(** ** Validation after loading ([config/post_load.rs]) *)

Definition validate_http (c : GatewayConfig) : result AsterlaneError () :=
  if max_body_bytes (http c) =? 0
  then Err (internal ConfigInvalidYaml "http.max_body_bytes must be greater than 0")
  else Ok tt.

Definition lower_hex (c : ascii) : bool := is_ascii_digit c || in_range 97 102 (code c).

Definition digest_well_formed (d : string) : bool :=
  (String.length d =? 64)%nat && str_forallb lower_hex d.

Definition validate_one_key (k : ProxyKey) : result AsterlaneError () :=
  if match discovery_mode k with
     | Some mode => negb (String.eqb mode "lazy" || String.eqb mode "full")
     | None => false
     end
  then Err (internal ConfigInvalidYaml
              ("proxy key " +:+ pk_id k +:+ ": discovery_mode must be lazy or full"))
  else if bool_decide (is_Some (token_ref k)) && bool_decide (is_Some (token_digest k))
  then Err (internal ConfigInvalidYaml
              ("proxy key " +:+ pk_id k
                 +:+ ": token_ref and token_digest are mutually exclusive"))
  else if match token_digest k with Some d => negb (digest_well_formed d) | None => false end
  then Err (internal ConfigInvalidYaml
              ("proxy key " +:+ pk_id k +:+ ": token_digest must be 64 lowercase hex chars"))
  else Ok tt.

Fixpoint validate_keys (l : list ProxyKey) : result AsterlaneError () :=
  match l with
  | [] => Ok tt
  | k :: l => _ ← validate_one_key k; validate_keys l
  end.

Definition validate_key_credentials (c : GatewayConfig) : result AsterlaneError () :=
  validate_keys (proxy_keys c).

(** ** Built-in presets ([presets.rs]) *)

Inductive PresetAuth := PresetNone | PresetBearer | PresetHeader (name : string).

Record McpPreset := mkMcpPreset {
  pr_id : string;
  pr_domain : string;
  pr_provider : string;
  pr_url : string;
  pr_description : string;
  pr_auth : PresetAuth;
  pr_apply_url : option string;
}.

Definition requires_key (p : McpPreset) : bool :=
  match pr_auth p with PresetNone => false | _ => true end.

Definition builtin_presets : list McpPreset :=
  [ mkMcpPreset "exa" "search" "exa" "https://mcp.exa.ai/mcp"
      "Exa hosted MCP server (web search)." PresetNone None;
    mkMcpPreset "deepwiki" "docs" "deepwiki" "https://mcp.deepwiki.com/mcp"
      "DeepWiki hosted MCP server (GitHub repository docs)." PresetNone None;
    mkMcpPreset "context7" "docs" "context7" "https://mcp.context7.com/mcp"
      "Context7 hosted MCP server (library documentation)." PresetNone None;
    mkMcpPreset "rollinggo-hotel" "hotel" "rollinggo" "https://mcp.rollinggo.cn/mcp"
      "RollingGo hosted MCP server (hotel booking, Bearer key)." PresetBearer
      (Some "https://rollinggo.store/apply");
    mkMcpPreset "rollinggo-flight" "flight" "rollinggo" "https://mcp.rollinggo.cn/mcp/flight"
      "RollingGo hosted MCP server (flight booking, Bearer key)." PresetBearer
      (Some "https://rollinggo.store/apply") ].

Definition preset_server (p : McpPreset) : McpServerConfig :=
  mkMcpServerConfig (pr_id p) (pr_domain p) (pr_provider p) (pr_url p) (pr_description p)
    AuthNone SecurityConfig_default true None.

Definition quote : string := String (chr 34) "".

Definition unknown_preset_message (id : string) : string :=
  "unknown builtin_mcp preset: " +:+ id +:+ " (available: "
    +:+ join ", " (pr_id <$> builtin_presets) +:+ ")".

Definition keyed_preset_message (id : string) : string :=
  "builtin_mcp preset '" +:+ id +:+ "' requires a key: configure it under "
    +:+ "mcp_servers with `auth: bearer` and a `secret://…` ref instead of "
    +:+ "listing it in builtin_mcp".

(** One iteration of the loop over [builtin_mcp]. *)
Definition expand_one (servers : list McpServerConfig) (id : string)
    : result AsterlaneError (list McpServerConfig) :=
  preset ← ok_or (internal ConfigUnknownResource (unknown_preset_message id))
             (List.find (fun p => String.eqb (pr_id p) id) builtin_presets);
  if requires_key preset
  then Err (internal ConfigInvalidYaml (keyed_preset_message id))
  else if existsb (fun s => String.eqb (ms_id s) (pr_id preset)) servers
  then Ok servers
  else Ok (servers ++ [preset_server preset]).

Fixpoint expand_loop (servers : list McpServerConfig) (ids : list string)
    : result AsterlaneError (list McpServerConfig) :=
  match ids with
  | [] => Ok servers
  | id :: ids => servers ← expand_one servers id; expand_loop servers ids
  end.

Definition expand_builtin_mcp (c : GatewayConfig) : result AsterlaneError GatewayConfig :=
  servers ← expand_loop (mcp_servers c) (builtin_mcp c);
  Ok (with_mcp_servers c servers).

(** ** Lemmas *)

Lemma expand_one_Ok servers id servers' :
  expand_one servers id = Ok servers' ->
  exists ext, servers' = servers ++ ext /\
    id ∈ ms_id <$> servers' /\
    (NoDup (ms_id <$> servers) -> NoDup (ms_id <$> servers')) /\
    Forall (fun s => ms_auth s = AuthNone /\ ms_id s = id /\ id ∉ ms_id <$> servers) ext.
Proof.
  unfold expand_one. intros H.
  apply bind_Ok_inv in H as (p & Hp%ok_or_Ok_inv & H).
  apply find_Some_elem in Hp as [_ Hid%String.eqb_eq].
  destruct (requires_key p); [done|].
  destruct (existsb _ servers) eqn:E; injection H as <-.
  - exists []. rewrite app_nil_r. split; [done|]. split; [|by auto].
    apply existsb_elem in E as (s & Hs & Hsid%String.eqb_eq).
    rewrite <- Hid, <- Hsid. by apply list_elem_of_fmap_2.
  - exists [preset_server p]. split; [done|].
    assert (id ∉ ms_id <$> servers) as Hnew.
    { intros (s & Hs & Hin)%list_elem_of_fmap.
      rewrite existsb_false in E. specialize (E s Hin).
      apply String.eqb_neq in E. congruence. }
    rewrite fmap_app. cbn. rewrite Hid. split; [set_solver|]. split.
    + intros Hnd. apply NoDup_app. split; [done|]. split; [set_solver|].
      apply NoDup_singleton.
    + by repeat constructor.
Qed.

Lemma expand_loop_Ok ids servers servers' :
  expand_loop servers ids = Ok servers' ->
  exists ext, servers' = servers ++ ext /\
    Forall (fun s => ms_auth s = AuthNone /\ ms_id s ∈ ids /\
                     ms_id s ∉ ms_id <$> servers) ext /\
    (forall id, id ∈ ids -> id ∈ ms_id <$> servers') /\
    (NoDup (ms_id <$> servers) -> NoDup (ms_id <$> servers')).
Proof.
  revert servers. induction ids as [|id ids IH]; cbn; intros servers H.
  - injection H as <-. exists []. rewrite app_nil_r.
    repeat split; auto; set_solver.
  - apply bind_Ok_inv in H as (mid & H1%expand_one_Ok & H2).
    destruct H1 as (e1 & -> & Hid & Hnd1 & He1).
    destruct (IH _ H2) as (e2 & -> & He2 & Hids & Hnd2).
    exists (e1 ++ e2). rewrite app_assoc. split; [done|]. split; [|split].
    + apply Forall_app. split.
      * eapply Forall_impl; [exact He1|]. cbn. intros s (? & -> & ?).
        rewrite elem_of_cons. auto.
      * eapply Forall_impl; [exact He2|]. cbn. intros s (? & ? & Hn).
        rewrite fmap_app in Hn. set_solver.
    + intros i [->|Hi]%elem_of_cons; [|by auto].
      rewrite fmap_app. set_solver.
    + auto.
Qed.

Lemma validate_keys_Ok l :
  validate_keys l = Ok tt <-> Forall (fun k => validate_one_key k = Ok tt) l.
Proof.
  induction l as [|k l IH]; cbn; [by split|]. rewrite Forall_cons, <- IH.
  destruct (validate_one_key k) as [[]|e]; cbn; naive_solver.
Qed.

Lemma validate_one_key_Ok k :
  validate_one_key k = Ok tt ->
  ~ (is_Some (token_ref k) /\ is_Some (token_digest k)) /\
  (forall d, token_digest k = Some d -> digest_well_formed d = true).
Proof.
  unfold validate_one_key. intros H.
  destruct (match discovery_mode k with Some _ => _ | None => _ end); [done|].
  destruct (bool_decide (is_Some (token_ref k))) eqn:E1;
  destruct (bool_decide (is_Some (token_digest k))) eqn:E2; cbn in H; try done;
  rewrite ?bool_decide_eq_true, ?bool_decide_eq_false in *; (split; [tauto|]);
  intros d Hd; rewrite Hd in H; by destruct (digest_well_formed d).
Qed.

(** ** Properties *)

(** When the expansion of [builtin_mcp] succeeds, the explicit
    servers are kept unchanged and in order, every listed preset has a server,
    the added servers need no credential, carry a listed id that no explicit
    entry had, and ids stay unique. *)
Theorem expand_builtin_mcp_spec c c' :
  expand_builtin_mcp c = Ok c' ->
  exists ext, mcp_servers c' = mcp_servers c ++ ext /\
    Forall (fun s => ms_auth s = AuthNone /\ ms_id s ∈ builtin_mcp c /\
                     ms_id s ∉ ms_id <$> mcp_servers c) ext /\
    (forall id, id ∈ builtin_mcp c -> id ∈ ms_id <$> mcp_servers c') /\
    (NoDup (ms_id <$> mcp_servers c) -> NoDup (ms_id <$> mcp_servers c')).
Proof.
  intros (s & Hs & [= <-])%bind_Ok_inv. cbn. by apply expand_loop_Ok.
Qed.

Definition demo_config (presets : list string) : GatewayConfig :=
  mkGatewayConfig None ObservabilityConfig_default HttpServerConfig_default
    McpRuntimeConfig_default None false [] presets
    [mkMcpServerConfig "exa" "search" "exa" "https://own" "" (AuthBearer "secret://exa/k")
       SecurityConfig_default true None] [].

Lemma expand_builtin_mcp_spec_witness :
  expand_builtin_mcp (demo_config ["exa"; "deepwiki"; "deepwiki"]) =
    Ok (with_mcp_servers (demo_config ["exa"; "deepwiki"; "deepwiki"])
         (mcp_servers (demo_config []) ++
          [mkMcpServerConfig "deepwiki" "docs" "deepwiki" "https://mcp.deepwiki.com/mcp"
             "DeepWiki hosted MCP server (GitHub repository docs)." AuthNone
             SecurityConfig_default true None])) /\
  "deepwiki" ∈ ms_id <$> mcp_servers
    (with_mcp_servers (demo_config ["exa"; "deepwiki"; "deepwiki"])
       (mcp_servers (demo_config []) ++
        [mkMcpServerConfig "deepwiki" "docs" "deepwiki" "https://mcp.deepwiki.com/mcp"
           "DeepWiki hosted MCP server (GitHub repository docs)." AuthNone
           SecurityConfig_default true None])).
Proof.
  split; [vm_compute; reflexivity|].
  edestruct (expand_builtin_mcp_spec (demo_config ["exa"; "deepwiki"; "deepwiki"]))
    as (ext & _ & _ & H & _); [vm_compute; reflexivity|].
  apply H. cbn. set_solver.
Defined.

(** A configuration that passes [validate_key_credentials] has no
    key with both a [token_ref] and a [token_digest], and every digest is 64
    lower-case hexadecimal digits. *)
Theorem validated_credentials c k :
  validate_key_credentials c = Ok tt -> k ∈ proxy_keys c ->
  ~ (is_Some (token_ref k) /\ is_Some (token_digest k)) /\
  (forall d, token_digest k = Some d -> digest_well_formed d = true).
Proof.
  unfold validate_key_credentials. rewrite validate_keys_Ok, Forall_forall.
  intros H Hk. by apply validate_one_key_Ok, H.
Qed.

Definition demo_key : ProxyKey :=
  mkProxyKey "k" "k" [] [] [] [] None None
    (Some "0123456789abcdef0123456789abcdef0123456789abcdef0123456789abcdef")
    None 20 (Some "lazy") None.

Lemma validated_credentials_witness :
  digest_well_formed
    "0123456789abcdef0123456789abcdef0123456789abcdef0123456789abcdef" = true.
Proof.
  apply (proj2 (validated_credentials (with_proxy_keys GatewayConfig_default [demo_key])
    demo_key ltac:(vm_compute; reflexivity) ltac:(cbn; set_solver))).
  reflexivity.
Defined.
