(* ===== verification/Policy.v ===== *)
(** * Key scope policy ([src/src/policy.rs])

    [key_can_use_name] decides whether a proxy key may use a tool, prompt or
    resource.  The regex engine is the [regex] crate: a class states its two
    constructors, a second class the documented relation between them that the
    policy relies on, and [literal_engine] is a concrete engine for the
    witnesses. *)

From S2P Require Import Prelude RustStr Naming Errors Config.
From Stdlib Require Import Ascii.

Local Open Scope string_scope.
Local Open Scope list_scope.
Local Open Scope Z_scope.
Local Open Scope gateway_scope.

(** [Regex::new] and [RegexSet::new], each with its [is_match]. *)
Class RegexEngine := {
  Regex_new : string -> result string (string -> bool);
  RegexSet_new : list string -> result string (string -> bool);
}.

(** "Tests if any of the regular expressions in this set matches": a set that
    compiles consists of patterns that compile, and matches when one of them
    does. *)
Class RegexLaws (RE : RegexEngine) : Prop := {
  RegexSet_members ps m p :
    RegexSet_new ps = Ok m -> p ∈ ps -> exists r, Regex_new p = Ok r;
  RegexSet_is_match ps m s :
    RegexSet_new ps = Ok m ->
    m s = true <-> exists p r, p ∈ ps /\ Regex_new p = Ok r /\ r s = true;
}.

Section Policy.
Context {RE : RegexEngine}.

Definition translate_to_wire_regex (pattern : string) : string :=
  replace_char ":" "__" pattern.

Definition compile_set (patterns : list string) : result PolicyError (string -> bool) :=
  map_err InvalidRegex (RegexSet_new (translate_to_wire_regex <$> patterns)).

(** Both pattern lists are consulted the same way: an empty list matches nothing
    and is not compiled. *)
Definition set_hit (patterns : list string) (full_name : string) : result PolicyError bool :=
  match patterns with
  | [] => Ok false
  | _ :: _ => m ← compile_set patterns; Ok (m full_name)
  end.

Definition key_can_use_name (key : ProxyKey) (full_name resource_id : string)
    : result PolicyError bool :=
  hit ← set_hit (denied_tools key) full_name;
  if (hit : bool) then Ok false
  else if (resource_id ∈s allowed_servers key) || (full_name ∈s allowed_tool_names key)
  then Ok true
  else set_hit (allowed_tools key) full_name.

Definition key_can_use_tool (key : ProxyKey) (tool_name : ToolName) (resource_id : string)
    : result PolicyError bool :=
  key_can_use_name key (to_wire_name tool_name) resource_id.

(** ** Specification: the rule of the governance document *)

(** Some pattern of the list, with [:] read as [__], matches the name. *)
Definition pattern_hit (patterns : list string) (full_name : string) : Prop :=
  exists p r, p ∈ patterns /\ Regex_new (translate_to_wire_regex p) = Ok r /\
    r full_name = true.

Definition in_scope (key : ProxyKey) (full_name resource_id : string) : Prop :=
  ~ pattern_hit (denied_tools key) full_name /\
  (resource_id ∈ allowed_servers key \/ full_name ∈ allowed_tool_names key \/
   pattern_hit (allowed_tools key) full_name).

Context {RL : RegexLaws RE}.

Lemma compile_set_hit ps m s :
  compile_set ps = Ok m -> m s = true <-> pattern_hit ps s.
Proof.
  intros H%map_err_Ok_inv. rewrite (RegexSet_is_match _ _ _ H). unfold pattern_hit.
  split.
  - intros (p & r & (q & -> & Hq)%list_elem_of_fmap & Hr & Hs). eauto.
  - intros (p & r & Hp & Hr & Hs). exists (translate_to_wire_regex p), r.
    split; [by apply list_elem_of_fmap_2 | done].
Qed.

Lemma pattern_hit_nil s : ~ pattern_hit [] s.
Proof. intros (p & r & H & _). set_solver. Qed.

Lemma pattern_hit_mono ps qs s : ps ⊆ qs -> pattern_hit ps s -> pattern_hit qs s.
Proof. intros Hsub (p & r & Hp & H). exists p, r. split; [by apply Hsub | done]. Qed.

Lemma set_hit_spec ps s b : set_hit ps s = Ok b -> b = true <-> pattern_hit ps s.
Proof.
  destruct ps as [|p ps]; cbn [set_hit]; intros H; inv_ok.
  - split; [discriminate|]. intros K. by destruct (pattern_hit_nil _ K).
  - by apply compile_set_hit.
Qed.

Lemma key_can_use_name_in_scope key s rid b :
  key_can_use_name key s rid = Ok b -> b = true <-> in_scope key s rid.
Proof.
  unfold key_can_use_name, in_scope. intros H.
  apply bind_Ok_inv in H as (d & Hd%set_hit_spec & H).
  destruct d; inv_ok; [naive_solver|].
  destruct (_ || _) eqn:E; inv_ok.
  - rewrite orb_true_iff, !existsb_eqb_elem in E. naive_solver.
  - rewrite orb_false_iff, !existsb_eqb_not_elem in E.
    rewrite (set_hit_spec _ _ _ H). naive_solver.
Qed.
End Policy.

#[export] Hint Rewrite @key_can_use_name_in_scope using eassumption : gateway.

(** A concrete engine: a pattern is a literal, anchored by a leading [^], and an
    opening parenthesis is a syntax error. *)
Definition literal_match (p s : string) : bool :=
  match p with
  | String "^" p' => starts_with p' s
  | _ => contains p s
  end.

Definition literal_compile (p : string) : result string (string -> bool) :=
  if contains "(" p then Err "unclosed group" else Ok (literal_match p).

Fixpoint literal_compile_set (ps : list string) : result string (string -> bool) :=
  match ps with
  | [] => Ok (fun _ => false)
  | p :: ps =>
      r ← literal_compile p; m ← literal_compile_set ps; Ok (fun s => r s || m s)
  end.

#[export] Instance literal_engine : RegexEngine :=
  {| Regex_new := literal_compile; RegexSet_new := literal_compile_set |}.

#[export] Instance literal_laws : RegexLaws literal_engine.
Proof.
  assert (forall ps m, literal_compile_set ps = Ok m ->
    (forall p, p ∈ ps -> exists r, literal_compile p = Ok r) /\
    forall s, m s = true <-> exists p r, p ∈ ps /\ literal_compile p = Ok r /\ r s = true) as K.
  { induction ps as [|p ps IH]; cbn; intros m H; inv_ok; [split; set_solver|].
    destruct (IH _ H1) as [IH1 IH2]. split.
    - intros q [->|Hq]%elem_of_cons; eauto.
    - intros s. rewrite orb_true_iff, IH2. split.
      + intros [Hs|(q & r & Hq & Hr)]; [exists p, x | exists q, r];
          rewrite elem_of_cons; tauto.
      + intros (q & r & [->|Hq]%elem_of_cons & Hr & Hs); [left; congruence|].
        right. by exists q, r. }
  split; intros ps m x H; [apply (K _ _ H) | apply (K _ _ H)].
Qed.

(** C5: whenever the decision returns, it grants exactly the keys of
    the documented rule: no deny pattern matches, and the server, the exact name
    or an allow pattern admits it. *)
Theorem key_scope_decision {RE : RegexEngine} {RL : RegexLaws RE} key n rid b :
  key_can_use_tool key n rid = Ok b ->
  b = true <-> in_scope key (to_wire_name n) rid.
Proof. apply key_can_use_name_in_scope. Qed.

Definition demo_scope_key (allow deny : list string) : ProxyKey :=
  mkProxyKey "agent" "" allow deny ["docs-mcp"] [] None None None None 20 None None.

Lemma key_scope_decision_witness :
  in_scope (demo_scope_key ["^search:tavily:"] ["delete"])
    (to_wire_name (mkToolName "search" "tavily" "web")) "tavily" /\
  ~ in_scope (demo_scope_key ["^search:tavily:"] ["delete"])
    (to_wire_name (mkToolName "search" "tavily" "delete")) "docs-mcp".
Proof.
  split.
  - apply (key_scope_decision (demo_scope_key ["^search:tavily:"] ["delete"])
      (mkToolName "search" "tavily" "web") "tavily" true); vm_compute; reflexivity.
  - intros H. apply (key_scope_decision (demo_scope_key ["^search:tavily:"] ["delete"])
      (mkToolName "search" "tavily" "delete") "docs-mcp" false) in H;
      [discriminate H | vm_compute; reflexivity].
Defined.

(** The decision fails exactly when a pattern set it has to
    consult does not compile: the deny set always, the allow set only when
    neither the deny set nor the exact lists settle the question. *)
Theorem key_scope_error {RE : RegexEngine} key s rid e :
  key_can_use_name key s rid = Err e <->
  set_hit (denied_tools key) s = Err e \/
  (set_hit (denied_tools key) s = Ok false /\ rid ∉ allowed_servers key /\
   s ∉ allowed_tool_names key /\ allowed_tools key <> [] /\
   compile_set (allowed_tools key) = Err e).
Proof.
  unfold key_can_use_name. destruct (set_hit (denied_tools key) s) as [[]|e'] eqn:Ed; cbn.
  - naive_solver.
  - destruct (_ || _) eqn:E.
    + rewrite orb_true_iff, !existsb_eqb_elem in E. naive_solver.
    + rewrite orb_false_iff, !existsb_eqb_not_elem in E.
      destruct (allowed_tools key) as [|p ps]; [naive_solver|]. cbn.
      destruct (compile_set (p :: ps)) as [m|e'']; cbn; naive_solver.
  - naive_solver.
Qed.

(** Narrowing a key, by more deny patterns or by shorter allow
    lists, never grants what the wider key was refused. *)
Theorem key_scope_monotone {RE : RegexEngine} {RL : RegexLaws RE} wide narrow s rid b :
  denied_tools wide ⊆ denied_tools narrow ->
  allowed_tools narrow ⊆ allowed_tools wide ->
  allowed_servers narrow ⊆ allowed_servers wide ->
  allowed_tool_names narrow ⊆ allowed_tool_names wide ->
  key_can_use_name wide s rid = Ok b ->
  key_can_use_name narrow s rid = Ok true -> b = true.
Proof.
  intros Hd Ha Hs Hn Hw Hk.
  apply key_can_use_name_in_scope in Hw. apply key_can_use_name_in_scope in Hk.
  apply Hw. destruct (proj1 Hk eq_refl) as [Hnot Hall]. split.
  - intros Hhit. apply Hnot. by eapply pattern_hit_mono.
  - destruct Hall as [?|[?|?]]; [left|right; left|right; right]; [auto..|].
    by eapply pattern_hit_mono.
Qed.

Lemma key_scope_monotone_witness :
  key_can_use_name (demo_scope_key ["^search:"] []) "search__exa__web" "exa" = Ok true.
Proof.
  assert (exists b, key_can_use_name (demo_scope_key ["^search:"] []) "search__exa__web" "exa"
                    = Ok b) as [b Hb] by (eexists; vm_compute; reflexivity).
  rewrite Hb. f_equal.
  apply (key_scope_monotone (demo_scope_key ["^search:"] [])
           (demo_scope_key ["^search:"] ["delete"]) "search__exa__web" "exa" b);
    first [exact Hb | vm_compute; reflexivity | cbn; set_solver].
Defined.
