(* ===== verification/Secrets.v ===== *)
(** * Secrets ([src/src/secrets/], [src/src/mcp/oauth/pending.rs])

    Secret references and their redaction, the cache of remote secrets, the
    default store that dispatches on the backend, and the table of pending OAuth
    authorizations.  Environment variables, files, the remote stores and
    [str::to_uppercase] are parameters ([SecretWorld]); so is the retry loop of
    the [backon] crate ([Backon], with its documented behaviour as
    [BackonLaws]). *)

From S2P Require Import Prelude RustStr Naming Errors.
From Stdlib Require Import Ascii.

Local Open Scope string_scope.
Local Open Scope list_scope.
Local Open Scope Z_scope.
Local Open Scope gateway_scope.

Definition SCHEME : string := "secret://".

Record SecretRef := mkSecretRef { backend : string; path : string }.
#[export] Instance SecretRef_eq_dec : EqDecision SecretRef.
Proof. solve_decision. Defined.

Inductive SecretError :=
| SE_NotFound (redacted : string)
| SE_Backend (redacted detail : string)
| SE_Transient (redacted detail : string)
| SE_InvalidRef (detail : string).

(** [observability::redact_secret_ref]. *)
Definition redact_secret_ref (secret_ref : string) : string :=
  match strip_prefix "secret://" secret_ref with
  | None => "<redacted>"
  | Some rest =>
      match split_once "/" rest with
      | None => "<redacted>"
      | Some (provider, _) =>
          if is_empty provider then "<redacted>" else "secret://" +:+ provider +:+ "/"
      end
  end.

Definition not_found (ref_uri : string) : SecretError := SE_NotFound (redact_secret_ref ref_uri).
Definition backend_error (ref_uri detail : string) : SecretError :=
  SE_Backend (redact_secret_ref ref_uri) detail.
Definition transient (ref_uri detail : string) : SecretError :=
  SE_Transient (redact_secret_ref ref_uri) detail.
Definition invalid_ref (detail : string) : SecretError := SE_InvalidRef detail.

Definition is_retryable (e : SecretError) : bool :=
  match e with SE_Transient _ _ => true | _ => false end.

Definition SecretError_to_string (e : SecretError) : string :=
  match e with
  | SE_NotFound r => "upstream secret unavailable: " +:+ r
  | SE_Backend r d => "upstream secret backend error: " +:+ r +:+ ": " +:+ d
  | SE_Transient r d => "upstream secret temporarily unavailable: " +:+ r +:+ ": " +:+ d
  | SE_InvalidRef d => "invalid secret ref: " +:+ d
  end.

Definition secret_to_asterlane (e : SecretError) : AsterlaneError :=
  internal AuthMissingUpstreamSecret (SecretError_to_string e).

Definition parse_ref (s : string) : result SecretError SecretRef :=
  rest ← ok_or (invalid_ref ("missing '" +:+ SCHEME +:+ "' scheme")) (strip_prefix SCHEME s);
  bp ← ok_or (invalid_ref "missing path segment") (split_once "/" rest);
  if is_empty bp.1 then Err (invalid_ref "empty backend")
  else if is_empty bp.2 then Err (invalid_ref "empty path")
  else Ok (mkSecretRef bp.1 bp.2).

Definition ref_to_string (r : SecretRef) : string :=
  SCHEME +:+ backend r +:+ "/" +:+ path r.

Definition to_redacted (r : SecretRef) : string := redact_secret_ref (ref_to_string r).

(** ** Remote secret cache ([secrets/cache.rs]) *)

Record CacheEntry := mkCacheEntry { ce_value : string; ce_expires_at : Z }.
Record SecretCache := mkSecretCache { ttl : Z; ce_entries : gmap string CacheEntry }.

Definition SecretCache_new (ttl : Z) : SecretCache := mkSecretCache ttl ∅.
Definition from_ttl_secs (secs : Z) : SecretCache := SecretCache_new (from_secs secs).
Definition enabled (c : SecretCache) : bool := negb (ttl c =? 0).

Definition cache_get (k : string) (now : Z) (c : SecretCache) : SecretCache * option string :=
  if negb (enabled c) then (c, None)
  else match ce_entries c !! k with
       | Some e =>
           if now <? ce_expires_at e then (c, Some (ce_value e))
           else (mkSecretCache (ttl c) (delete k (ce_entries c)), None)
       | None => (c, None)
       end.

(** [Instant::now() + self.ttl] panics when the sum is out of range. *)
Definition cache_insert (k v : string) (now : Z) (c : SecretCache) : outcome SecretCache :=
  if negb (enabled c) then Returns c
  else match instant_checked_add now (ttl c) with
       | Some exp => Returns (mkSecretCache (ttl c) (<[k := mkCacheEntry v exp]> (ce_entries c)))
       | None => Panics
       end.

(** ** The default store ([secrets/backend.rs], [secrets/remote.rs]) *)

Class SecretWorld := {
  env_var : string -> option string;
  read_to_string : string -> result string string;
  to_uppercase : string -> string;
  (** the answer of the configured remote backend to the [n]-th request, [None]
      when the backend is not configured *)
  vault : option (SecretRef -> nat -> result SecretError string);
  infisical : option (SecretRef -> nat -> result SecretError string);
}.

Class Backon := {
  retry_when : (SecretError -> bool) -> nat -> (nat -> result SecretError string) ->
    result SecretError string;
}.

(** The result is that of one attempt, at most [n] retries after the first, all
    earlier attempts failed retryably, and the last one was the last allowed or
    is not retryable. *)
Class BackonLaws (B : Backon) : Prop := {
  retry_when_spec p n op : exists k, (k <= n)%nat /\ retry_when p n op = op k /\
    (forall j, (j < k)%nat -> exists e, op j = Err e /\ p e = true) /\
    (k = n \/ forall e, op k = Err e -> p e = false);
}.

Definition DEFAULT_REMOTE_RETRIES : nat := 2.

(** [status] is the code; [shown] its [Display] form. *)
Definition map_http_status (ref_uri backend shown : string) (status : Z) : SecretError :=
  let detail := backend +:+ " returned " +:+ shown in
  if (500 <=? status) && (status <? 600) then transient ref_uri detail
  else backend_error ref_uri detail.

Section Store.
Context {SW : SecretWorld} {BK : Backon}.

Definition env_var_name (r : SecretRef) : string :=
  if backend r =s "env" then path r
  else to_uppercase (backend r) +:+ "_" +:+ to_uppercase (path r).

Definition env_resolve (r : SecretRef) : result SecretError string :=
  ok_or (not_found (ref_to_string r)) (env_var (env_var_name r)).

Definition file_resolve (r : SecretRef) : result SecretError string :=
  content ← map_err (backend_error (ref_to_string r)) (read_to_string (path r));
  Ok (trim content).

Definition fetch_remote (r : SecretRef) (attempt : nat) : result SecretError string :=
  if backend r =s "vault" then
    match vault with
    | Some v => v r attempt
    | None => Err (backend_error (ref_to_string r) "vault backend not configured")
    end
  else if backend r =s "infisical" then
    match infisical with
    | Some i => i r attempt
    | None => Err (backend_error (ref_to_string r) "infisical backend not configured")
    end
  else Err (backend_error (ref_to_string r) (backend r +:+ " is not a remote secret backend")).

Definition retry_remote (retries : nat) (op : nat -> result SecretError string)
    : result SecretError string :=
  retry_when is_retryable retries op.

(** [now] is the clock at the cache lookup, [later] the clock at the insertion. *)
Definition resolve_remote (r : SecretRef) (retries : nat) (now later : Z) (c : SecretCache)
    : outcome (SecretCache * result SecretError string) :=
  let cache_key := ref_to_string r in
  let '(c, hit) := cache_get cache_key now c in
  match hit with
  | Some v => Returns (c, Ok v)
  | None =>
      match retry_remote retries (fetch_remote r) with
      | Err e => Returns (c, Err e)
      | Ok v =>
          match cache_insert cache_key v later c with
          | Returns c => Returns (c, Ok v)
          | Panics => Panics
          end
      end
  end.

Definition resolve (r : SecretRef) (retries : nat) (now later : Z) (c : SecretCache)
    : outcome (SecretCache * result SecretError string) :=
  if backend r =s "file" then Returns (c, file_resolve r)
  else if (backend r =s "vault") || (backend r =s "infisical")
  then resolve_remote r retries now later c
  else Returns (c, env_resolve r).
End Store.

(** ** Pending authorizations ([mcp/oauth/pending.rs]) *)

Inductive TakeError := Unknown | Expired.

Record PendingEntry (T : Type) := mkPendingEntry {
  pe_server : string; pe_value : T; pe_expires_at : Z }.
Arguments mkPendingEntry {T}. Arguments pe_server {T}. Arguments pe_value {T}.
Arguments pe_expires_at {T}.

Record PendingStore (T : Type) := mkPendingStore {
  ps_ttl : Z; ps_entries : gmap string (PendingEntry T) }.
Arguments mkPendingStore {T}. Arguments ps_ttl {T}. Arguments ps_entries {T}.

Definition retain {A} (keep : A -> bool) (m : gmap string A) : gmap string A :=
  omap (fun e => if keep e then Some e else None) m.

Section Pending.
Context {T : Type}.
Implicit Types (s : PendingStore T).

Definition pending_insert (state server_id : string) (value : T) (now : Z) s : PendingStore T :=
  mkPendingStore (ps_ttl s)
    (<[state := mkPendingEntry server_id value
                  (default now (instant_checked_add now (ps_ttl s)))]>
       (retain (fun e => now <? pe_expires_at e) (ps_entries s))).

Definition pending_take (state : string) (now : Z) s
    : PendingStore T * result TakeError (string * T) :=
  let found := ps_entries s !! state in
  (mkPendingStore (ps_ttl s)
     (retain (fun e => now <? pe_expires_at e) (delete state (ps_entries s))),
   match found with
   | None => Err Unknown
   | Some e => if pe_expires_at e <=? now then Err Expired else Ok (pe_server e, pe_value e)
   end).

Definition discard_server (server_id : string) s : PendingStore T :=
  mkPendingStore (ps_ttl s)
    (retain (fun e => negb (pe_server e =s server_id)) (ps_entries s)).
End Pending.

(** ** Lemmas *)

Definition no_slash (s : string) : bool := str_forallb (fun a => negb (Ascii.eqb a "/")) s.

Definition ref_valid (r : SecretRef) : bool :=
  negb (is_empty (backend r)) && no_slash (backend r) && negb (is_empty (path r)).

Lemma parse_ref_Ok s r :
  parse_ref s = Ok r -> s = ref_to_string r /\ ref_valid r = true.
Proof.
  unfold parse_ref. intros H.
  apply bind_Ok_inv in H as (rest & Hr%ok_or_Ok_inv%strip_prefix_Some & H).
  apply bind_Ok_inv in H as ([b p] & [Hs Hb]%ok_or_Ok_inv%split_once_Some & H). cbn in H.
  destruct (is_empty b) eqn:E1; [done|]. destruct (is_empty p) eqn:E2; [done|].
  injection H as <-. subst. split; [done|].
  unfold ref_valid, no_slash. cbn. by rewrite E1, E2, Hb.
Qed.

Lemma parse_ref_print r : ref_valid r = true -> parse_ref (ref_to_string r) = Ok r.
Proof.
  unfold ref_valid. rewrite !andb_true_iff, !negb_true_iff. intros [[H1 H2] H3].
  unfold parse_ref, ref_to_string.
  rewrite (proj2 (strip_prefix_Some SCHEME _ _) eq_refl). cbn [ok_or mbind result_bind].
  change ("/" +:+ path r) with (String "/" (path r)).
  rewrite split_once_app by done. cbn. rewrite H1, H3. by destruct r.
Qed.

Lemma to_redacted_valid r :
  ref_valid r = true -> to_redacted r = "secret://" +:+ backend r +:+ "/".
Proof.
  unfold ref_valid. rewrite !andb_true_iff, !negb_true_iff. intros [[H1 H2] _].
  unfold to_redacted, redact_secret_ref, ref_to_string.
  rewrite (proj2 (strip_prefix_Some "secret://" _ _) eq_refl).
  change ("/" +:+ path r) with (String "/" (path r)).
  rewrite split_once_app by done. by rewrite H1.
Qed.

Lemma cache_get_entries k now c k' e :
  ce_entries (cache_get k now c).1 !! k' = Some e -> ce_entries c !! k' = Some e.
Proof.
  unfold cache_get. repeat case_match; cbn; try done.
  rewrite lookup_delete_Some. by intros [_ ?].
Qed.

Lemma cache_get_ttl k now c : ttl (cache_get k now c).1 = ttl c.
Proof. unfold cache_get. by repeat case_match. Qed.

Lemma retain_lookup {A} (keep : A -> bool) (m : gmap string A) k :
  retain keep m !! k = match m !! k with
                       | Some e => if keep e then Some e else None
                       | None => None
                       end.
Proof. unfold retain. rewrite lookup_omap. by destruct (m !! k). Qed.

(** ** Properties: references *)

(** Printing and parsing a secret reference are inverse: every
    reference with a non-empty backend without [/] and a non-empty path parses
    back, and whatever parses prints to the same text. *)
Theorem secret_ref_roundtrip r :
  ref_valid r = true <-> parse_ref (ref_to_string r) = Ok r.
Proof.
  split; [apply parse_ref_print|]. by intros [_ ?]%parse_ref_Ok.
Qed.

(** The text of every error built from a parsed reference
    depends only on its backend: references that differ in their path give the
    same error message. *)
Theorem secret_errors_hide_path s1 s2 r1 r2 detail :
  parse_ref s1 = Ok r1 -> parse_ref s2 = Ok r2 -> backend r1 = backend r2 ->
  SecretError_to_string (not_found s1) = SecretError_to_string (not_found s2) /\
  SecretError_to_string (backend_error s1 detail)
  = SecretError_to_string (backend_error s2 detail) /\
  SecretError_to_string (transient s1 detail) = SecretError_to_string (transient s2 detail) /\
  to_redacted r1 = "secret://" +:+ backend r1 +:+ "/".
Proof.
  intros [-> H1]%parse_ref_Ok [-> H2]%parse_ref_Ok Hb.
  unfold not_found, backend_error, transient. fold (to_redacted r1) (to_redacted r2).
  rewrite !to_redacted_valid by done. by rewrite Hb.
Qed.

Lemma secret_errors_hide_path_witness :
  SecretError_to_string (not_found "secret://vault/kv/prod")
  = SecretError_to_string (not_found "secret://vault/kv/dev").
Proof.
  apply (secret_errors_hide_path "secret://vault/kv/prod" "secret://vault/kv/dev"
    (mkSecretRef "vault" "kv/prod") (mkSecretRef "vault" "kv/dev") "");
    vm_compute; reflexivity.
Defined.

(** ** Properties: remote secrets *)

(** A remote secret that was resolved is served from the cache for
    the whole ttl whatever the remote backend answers then, a failure is returned
    as the backend gave it after at most [retries] retries of retryable errors,
    and a failure puts nothing into the cache. *)
Theorem remote_secret_cached {SW : SecretWorld} {BK : Backon} {BL : BackonLaws BK}
    r retries now later c c' res :
  resolve_remote r retries now later c = Returns (c', res) ->
  match res with
  | Ok v => enabled c = true -> (cache_get (ref_to_string r) now c).2 = None ->
      forall (SW' : SecretWorld) t later', t < later + ttl c ->
      resolve_remote (SW := SW') r retries t later' c' = Returns (c', Ok v)
  | Err e =>
      (exists k, (k <= retries)%nat /\ fetch_remote r k = Err e /\
         (forall j, (j < k)%nat -> exists e', fetch_remote r j = Err e' /\
                                              is_retryable e' = true) /\
         (k = retries \/ is_retryable e = false)) /\
      forall k x, ce_entries c' !! k = Some x -> ce_entries c !! k = Some x
  end.
Proof.
  unfold resolve_remote. destruct (cache_get (ref_to_string r) now c) as [c1 hit] eqn:Eg.
  assert (ttl c1 = ttl c) as Httl.
  { pose proof (cache_get_ttl (ref_to_string r) now c) as K. by rewrite Eg in K. }
  destruct hit as [v|]; [intros [= <- <-]; cbn; by intros _ [=]|].
  unfold retry_remote.
  destruct (retry_when_spec is_retryable retries (fetch_remote r)) as (k & Hk & Hret & Hall & Hend).
  destruct (retry_when _ _ _) as [v|e] eqn:Er.
  - unfold cache_insert. assert (enabled c1 = enabled c) as -> by (unfold enabled; by rewrite Httl).
    destruct (enabled c) eqn:En; cbn; [|intros [= <- <-]; done].
    destruct (instant_checked_add later (ttl c1)) as [exp|] eqn:Ea; [|done].
    intros [= <- <-] _ _ SW' t later' Ht. unfold cache_get. cbn.
    unfold instant_checked_add in Ea. case_if_in Ea; [|done]. injection Ea as <-.
    unfold enabled in *. cbn. rewrite Httl, En. cbn. rewrite lookup_insert_eq. cbn.
    by rewrite (proj2 (Z.ltb_lt _ _) Ht).
  - intros [= <- <-]. split; [exists k; naive_solver|].
    intros k' x Hx. apply (cache_get_entries (ref_to_string r) now). by rewrite Eg.
Qed.

Fixpoint retry_loop (p : SecretError -> bool) (n k : nat)
    (op : nat -> result SecretError string) : result SecretError string :=
  match n with
  | O => op k
  | S n => match op k with
           | Err e => if p e then retry_loop p n (S k) op else Err e
           | Ok v => Ok v
           end
  end.

Definition loop_backon : Backon := {| retry_when := fun p n op => retry_loop p n 0 op |}.

Lemma retry_loop_spec p n k op :
  (forall j, (j < k)%nat -> exists e, op j = Err e /\ p e = true) ->
  exists m, (m <= k + n)%nat /\ retry_loop p n k op = op m /\
    (forall j, (j < m)%nat -> exists e, op j = Err e /\ p e = true) /\
    (m = k + n \/ forall e, op m = Err e -> p e = false)%nat.
Proof.
  revert k. induction n as [|n IH]; intros k H; cbn.
  - exists k. repeat split; auto; lia.
  - destruct (op k) as [v|e] eqn:E.
    + exists k. rewrite E. split; [lia|]. split; [done|]. split; [done|]. right. congruence.
    + destruct (p e) eqn:Ep.
      * destruct (IH (S k)) as (m & Hm & K). 
        { intros j Hj. destruct (decide (j = k)) as [->|]; [eauto|]. apply H. lia. }
        exists m. replace (k + S n)%nat with (S k + n)%nat by lia. done.
      * exists k. rewrite E. split; [lia|]. split; [done|]. split; [done|]. right. congruence.
Qed.

#[export] Instance loop_backon_laws : BackonLaws loop_backon.
Proof. split. intros p n op. apply (retry_loop_spec p n 0). lia. Qed.

(** A world in which Vault fails once and then answers. *)
Definition demo_world (answer : string) : SecretWorld :=
  {| env_var := fun _ => None; read_to_string := fun _ => Err "no file";
     to_uppercase := fun s => s;
     vault := Some (fun r n => match n with
                               | O => Err (transient (ref_to_string r) "timeout")
                               | S _ => Ok answer
                               end);
     infisical := None |}.

Lemma remote_secret_cached_witness :
  exists c', resolve_remote (SW := demo_world "s3cret") (BK := loop_backon)
      (mkSecretRef "vault" "kv") 2 0 5 (from_ttl_secs 60) = Returns (c', Ok "s3cret") /\
    resolve_remote (SW := demo_world "rotated") (BK := loop_backon)
      (mkSecretRef "vault" "kv") 2 6 7 c' = Returns (c', Ok "s3cret").
Proof.
  eexists. split; [vm_compute; reflexivity|].
  apply (remote_secret_cached (SW := demo_world "s3cret") (BK := loop_backon)
    (mkSecretRef "vault" "kv") 2 0 5 (from_ttl_secs 60) _ (Ok "s3cret"));
    vm_compute; reflexivity.
Defined.

(** ** Properties: pending authorizations *)

Inductive pending_op (T : Type) :=
| PInsert (state server_id : string) (value : T) (now : Z)
| PTake (state : string) (now : Z)
| PDiscard (server_id : string).
Arguments PInsert {T}. Arguments PTake {T}. Arguments PDiscard {T}.

Section PendingTraces.
Context {T : Type}.
Implicit Types (s : PendingStore T) (op : pending_op T).

Definition run_pending op s : PendingStore T :=
  match op with
  | PInsert k srv v now => pending_insert k srv v now s
  | PTake k now => (pending_take k now s).1
  | PDiscard srv => discard_server srv s
  end.

Definition run_pendings (ops : list (pending_op T)) s : PendingStore T :=
  fold_left (fun s op => run_pending op s) ops s.

Definition inserts (k : string) op : Prop :=
  match op with PInsert k' _ _ _ => k' = k | _ => False end.

(** The operation leaves an entry of [srv] under [k] alone while the clock is
    before [exp]. *)
Definition spares (k srv : string) (exp : Z) op : Prop :=
  match op with
  | PInsert k' _ _ now => k' <> k /\ now < exp
  | PTake k' now => k' <> k /\ now < exp
  | PDiscard srv' => srv' <> srv
  end.

Lemma absent_stays k ops s :
  ps_entries s !! k = None -> Forall (fun op => ~ inserts k op) ops ->
  ps_entries (run_pendings ops s) !! k = None.
Proof.
  intros Hn Hops. revert s Hn. induction Hops as [|op ops Hop _ IH]; intros s Hn; [done|].
  apply IH. destruct op as [k' srv v now|k' now|srv]; cbn in *.
  - rewrite lookup_insert_ne by done. by rewrite retain_lookup, Hn.
  - rewrite retain_lookup. destruct (delete k' (ps_entries s) !! k) eqn:E; [|done].
    apply lookup_delete_Some in E as [_ E]. congruence.
  - by rewrite retain_lookup, Hn.
Qed.

Lemma present_stays k e ops s :
  ps_entries s !! k = Some e -> Forall (spares k (pe_server e) (pe_expires_at e)) ops ->
  ps_entries (run_pendings ops s) !! k = Some e.
Proof.
  intros Hs Hops. revert s Hs. induction Hops as [|op ops Hop _ IH]; intros s Hs; [done|].
  apply IH. destruct op as [k' srv v now|k' now|srv]; cbn in *.
  - destruct Hop as [Hne Hlt]. rewrite lookup_insert_ne, retain_lookup, Hs by done.
    by rewrite (proj2 (Z.ltb_lt _ _) Hlt).
  - destruct Hop as [Hne Hlt]. rewrite retain_lookup, lookup_delete_ne, Hs by done.
    by rewrite (proj2 (Z.ltb_lt _ _) Hlt).
  - rewrite retain_lookup, Hs. by rewrite (proj2 (String.eqb_neq _ _)) by congruence.
Qed.

Lemma taken_gone k now s : ps_entries (pending_take k now s).1 !! k = None.
Proof. cbn. by rewrite retain_lookup, lookup_delete_eq. Qed.
End PendingTraces.

(** A state value is good for one use: after it was taken, whether
    the take succeeded or not, every later take of it fails as unknown, whatever
    happens in between, unless the same value is registered again. *)
Theorem pending_take_once {T} k now t (ops : list (pending_op T)) s :
  Forall (fun op => ~ inserts k op) ops ->
  (pending_take k t (run_pendings ops (pending_take k now s).1)).2 = Err Unknown.
Proof.
  intros H. unfold pending_take at 1. cbn [snd].
  by rewrite (absent_stays k ops _ (taken_gone k now s) H).
Qed.

Lemma pending_take_once_witness :
  (pending_take "st" 9 (run_pendings [PInsert "other" "srv" tt 2; PDiscard "x"]
     (pending_take "st" 1 (pending_insert "st" "srv" tt 0 (mkPendingStore 100 ∅))).1)).2
  = Err Unknown.
Proof. apply pending_take_once. repeat constructor; cbn; congruence. Defined.

(** A registered authorization is delivered, with its server and
    value, to the first take before its deadline and to none at or after it, as
    long as nobody registers or takes the same state and the server's
    authorizations are not discarded. *)
Theorem pending_lifetime {T} k srv (v : T) t0 t ops s :
  let exp := default t0 (instant_checked_add t0 (ps_ttl s)) in
  Forall (spares k srv exp) ops ->
  (pending_take k t (run_pendings ops (pending_insert k srv v t0 s))).2
  = if exp <=? t then Err Expired else Ok (srv, v).
Proof.
  intros exp H. unfold pending_take. cbn [snd].
  rewrite (present_stays k (mkPendingEntry srv v exp) ops); [done| |done].
  cbn. by rewrite lookup_insert_eq.
Qed.

Lemma pending_lifetime_witness :
  (pending_take "st" 50 (run_pendings [PInsert "other" "srv" tt 20; PDiscard "x"]
     (pending_insert "st" "srv" tt 0 (mkPendingStore 100 ∅)))).2 = Ok ("srv", tt).
Proof.
  rewrite (pending_lifetime "st" "srv" tt 0 50);
    [reflexivity | repeat constructor; cbn; try congruence; vm_compute; reflexivity].
Defined.
