(* ===== verification/Catalog.v ===== *)
(** * Tool catalog ([src/src/catalog/])

    The catalog holds every tool of the gateway and the administrators'
    description overrides.  [list_for_key] pages through the tools of a key,
    [resolve_for_key] turns a name written by a client into a tool, and the
    override operations keep the shown descriptions equal to
    "override, or else the upstream description".  OpenAPI discovery
    ([openapi.rs], and the file read before it) enters as the class
    [OpenApiSource]. *)

From S2P Require Import Prelude RustStr Naming Errors Config Policy.

Local Open Scope string_scope.
Local Open Scope list_scope.
Local Open Scope Z_scope.
Local Open Scope gateway_scope.

Record ParamLocations := mkParamLocations {
  path_params : list string;
  query_params : list string;
  header_params : list (string * string);
  has_body : bool;
}.

Record WrappedTool := mkWrappedTool {
  name : ToolName;
  resource_id : string;
  description : string;
  upstream_path : string;
  http_method : HttpMethod;
  input_schema : JSON;
  param_locations : option ParamLocations;
  exposed_name : option string;
}.

Definition with_description (d : string) (t : WrappedTool) : WrappedTool :=
  mkWrappedTool (name t) (resource_id t) d (upstream_path t) (http_method t)
    (input_schema t) (param_locations t) (exposed_name t).

Definition with_exposed_name (n : string) (t : WrappedTool) : WrappedTool :=
  mkWrappedTool (name t) (resource_id t) (description t) (upstream_path t) (http_method t)
    (input_schema t) (param_locations t) (Some n).

Definition default_http_method : HttpMethod := Post.
Definition default_input_schema : JSON := JObject [("type", JString "object")].

Record ToolQualifiers := mkToolQualifiers {
  q_domain : option string;
  q_provider : option string;
}.
Definition no_qualifiers : ToolQualifiers := mkToolQualifiers None None.

Definition AMBIGUITY_CANDIDATE_LIMIT : nat := 8.
Definition META_TOOL_PREFIX : string := "asl__".

Record ToolCatalog := mkToolCatalog {
  tools : list WrappedTool;
  description_overrides : gmap string string;
  original_descriptions : gmap string string;
}.

Record ToolListQuery := mkToolListQuery {
  include_regex : option string;
  exclude_regex : option string;
  domain_regex : option string;
  provider_regex : option string;
  tool_regex : option string;
  limit : option Z;
  cursor : option Z;
}.

Record ToolPage := mkToolPage {
  page_tools : list WrappedTool;
  next_cursor : option Z;
}.

Definition wire (t : WrappedTool) : string := to_wire_name (name t).
Definition wire_leb (a b : WrappedTool) : bool := String.leb (wire a) (wire b).

(** [iter.skip(n)] and [iter.take(n)] with a [usize] count. *)
Definition zskip {A} (n : Z) (l : list A) : list A :=
  drop (Z.to_nat (Z.min n (Z.of_nat (length l)))) l.
Definition ztake {A} (n : Z) (l : list A) : list A :=
  take (Z.to_nat (Z.min n (Z.of_nat (length l)))) l.

(** [for x in iter_mut() { .. }] on the first match, [iter_mut().find(p)]. *)
Fixpoint update_first {A} (p : A -> bool) (f : A -> A) (l : list A) : list A :=
  match l with
  | [] => []
  | x :: l => if p x then f x :: l else x :: update_first p f l
  end.

(** ** Building the catalog *)

(** What [openapi::discover_endpoints] returns for one operation, and the two
    functions that discovery needs: reading the file and parsing the document. *)
Record DiscoveredEndpoint := mkDiscoveredEndpoint {
  tool_segment : string;
  de_method : string;
  de_path : string;
  de_description : string;
  de_input_schema : JSON;
  de_param_locations : ParamLocations;
}.

Class OpenApiSource := {
  fs_read : string -> result string string;
  discover_endpoints : string -> OpenApiSourceConfig -> result string (list DiscoveredEndpoint);
}.

Definition tool_for_endpoint (r : ApiResource) (e : ToolEndpoint)
    : result CatalogError WrappedTool :=
  n ← map_err Catalog_ToolName (ToolName_new (ar_domain r) (provider_or_id r) (ep_tool e));
  Ok (mkWrappedTool n (ar_id r) (ep_description e) (ep_path e) (ep_method e)
        default_input_schema None None).

Definition tools_for_resource (r : ApiResource) : result CatalogError (list WrappedTool) :=
  try_map (tool_for_endpoint r) (endpoints r).

Definition method_of_name (m : string) : HttpMethod :=
  if m =s "get" then Get else if m =s "put" then Put
  else if m =s "patch" then Patch else if m =s "delete" then Delete else Post.

Definition tool_for_operation (r : ApiResource) (ep : DiscoveredEndpoint)
    : result CatalogError WrappedTool :=
  n ← map_err Catalog_ToolName (ToolName_new (ar_domain r) (provider_or_id r) (tool_segment ep));
  Ok (mkWrappedTool n (ar_id r) (de_description ep) (de_path ep) (method_of_name (de_method ep))
        (de_input_schema ep) (Some (de_param_locations ep)) None).

Section Building.
Context {OA : OpenApiSource}.

Definition tools_from_openapi (r : ApiResource) (d : OpenApiSourceConfig)
    : result CatalogError (list WrappedTool) :=
  spec ← match oa_source d with
         | SpecFile =>
             path ← ok_or (Catalog_OpenApi "discovery.openapi.path required when source=file")
                      (oa_path d);
             map_err (fun e => Catalog_OpenApi ("cannot read spec file " +:+ path +:+ ": " +:+ e))
               (fs_read path)
         | SpecUrl =>
             Err (Catalog_OpenApi "discovery.openapi.source=url not yet supported (use file)")
         end;
  eps ← map_err Catalog_OpenApi (discover_endpoints spec d);
  try_map (tool_for_operation r) eps.

Definition resource_tools (r : ApiResource) : result CatalogError (list WrappedTool) :=
  own ← tools_for_resource r;
  match discovery r with
  | None => Ok own
  | Some d => more ← tools_from_openapi r d; Ok (own ++ more)
  end.

Fixpoint config_tools (rs : list ApiResource) : result CatalogError (list WrappedTool) :=
  match rs with
  | [] => Ok []
  | r :: rs => ts ← resource_tools r; more ← config_tools rs; Ok (ts ++ more)
  end.

Definition from_config (c : GatewayConfig) : result CatalogError ToolCatalog :=
  ts ← config_tools (api_resources c);
  Ok (mkToolCatalog (sort_by wire_leb ts) ∅ ∅).
End Building.

(** ** Description overrides *)

(** [overlay_tool] returns the tool and the table of original descriptions. *)
Definition overlay_tool (overrides originals : gmap string string) (t : WrappedTool)
    : gmap string string * WrappedTool :=
  match overrides !! wire t with
  | Some o => (<[wire t := description t]> originals, with_description o t)
  | None => (originals, t)
  end.

Fixpoint overlay_all (overrides originals : gmap string string) (l : list WrappedTool)
    : gmap string string * list WrappedTool :=
  match l with
  | [] => (originals, [])
  | t :: l =>
      let '(originals, t) := overlay_tool overrides originals t in
      let '(originals, l) := overlay_all overrides originals l in
      (originals, t :: l)
  end.

Definition extend_with_mcp_tools (new : list WrappedTool) (c : ToolCatalog) : ToolCatalog :=
  let '(originals, new) :=
    overlay_all (description_overrides c) (original_descriptions c) new in
  mkToolCatalog (sort_by wire_leb (tools c ++ new)) (description_overrides c) originals.

Definition replace_mcp_tools (new : list WrappedTool) (mcp_resource_ids : gset string)
    (c : ToolCatalog) : ToolCatalog :=
  extend_with_mcp_tools new
    (mkToolCatalog
       (List.filter (fun t => negb (bool_decide (resource_id t ∈ mcp_resource_ids))) (tools c))
       (description_overrides c) (original_descriptions c)).

Definition set_description_override (wire_name desc : string) (c : ToolCatalog) : ToolCatalog :=
  let overrides := <[wire_name := desc]> (description_overrides c) in
  match List.find (fun t => wire t =s wire_name) (tools c) with
  | None => mkToolCatalog (tools c) overrides (original_descriptions c)
  | Some t =>
      mkToolCatalog
        (update_first (fun t => wire t =s wire_name) (with_description desc) (tools c))
        overrides
        (match original_descriptions c !! wire_name with
         | Some _ => original_descriptions c
         | None => <[wire_name := description t]> (original_descriptions c)
         end)
  end.

Definition remove_description_override (wire_name : string) (c : ToolCatalog) : ToolCatalog :=
  mkToolCatalog
    (match original_descriptions c !! wire_name with
     | Some original =>
         update_first (fun t => wire t =s wire_name) (with_description original) (tools c)
     | None => tools c
     end)
    (delete wire_name (description_overrides c))
    (delete wire_name (original_descriptions c)).

(** The first loop of [load_description_overrides]: every tool whose original is
    recorded gets it back, and the record is consumed. *)
Fixpoint restore_originals (originals : gmap string string) (l : list WrappedTool)
    : list WrappedTool :=
  match l with
  | [] => []
  | t :: l =>
      match originals !! wire t with
      | Some original =>
          with_description original t :: restore_originals (delete (wire t) originals) l
      | None => t :: restore_originals originals l
      end
  end.

Definition load_description_overrides (overrides : gmap string string) (c : ToolCatalog)
    : ToolCatalog :=
  let '(originals, ts) :=
    overlay_all overrides ∅ (restore_originals (original_descriptions c) (tools c)) in
  mkToolCatalog ts overrides originals.

Definition description_override (wire_name : string) (c : ToolCatalog) : option string :=
  description_overrides c !! wire_name.
Definition original_description (wire_name : string) (c : ToolCatalog) : option string :=
  original_descriptions c !! wire_name.

(** ** Queries *)

Definition two_segment_name_matches (n : ToolName) (s : string) : bool :=
  match strip_prefix (provider n) s with
  | Some rest =>
      match strip_prefix "__" rest with Some r => r =s tool n | None => false end
  | None => false
  end.

Definition is_none_or {A} (p : A -> bool) (o : option A) : bool :=
  match o with None => true | Some a => p a end.
Definition is_some_and {A} (p : A -> bool) (o : option A) : bool :=
  match o with None => false | Some a => p a end.

Definition qualifiers_match (q : ToolQualifiers) (n : ToolName) : bool :=
  is_none_or (fun d => d =s domain n) (q_domain q)
  && is_none_or (fun p => p =s provider n) (q_provider q).

Section Queries.
Context {RE : RegexEngine}.

Definition compile_optional_regex (pattern : option string)
    : result CatalogError (option (string -> bool)) :=
  match pattern with
  | Some p => r ← map_err Catalog_Regex (Regex_new p); Ok (Some r)
  | None => Ok None
  end.

Definition can_use (key : ProxyKey) (t : WrappedTool) : result CatalogError bool :=
  map_err Catalog_Policy (key_can_use_tool key (name t) (resource_id t)).

Definition visible_for_key (key : ProxyKey) (c : ToolCatalog)
    : result CatalogError (list WrappedTool) :=
  try_filter (can_use key) (tools c).

Definition request_filter (include exclude domain_re provider_re tool_re
    : option (string -> bool)) (t : WrappedTool) : bool :=
  is_none_or (fun r => r (wire t)) include
  && negb (is_some_and (fun r => r (wire t)) exclude)
  && is_none_or (fun r => r (domain (name t))) domain_re
  && is_none_or (fun r => r (provider (name t))) provider_re
  && is_none_or (fun r => r (tool (name t))) tool_re.

Definition uses_name (candidate : string) (t : WrappedTool) : bool :=
  (tool (name t) =s candidate) || two_segment_name_matches (name t) candidate.

Definition exposable (candidate : string) (c : ToolCatalog) (visible : list WrappedTool) : bool :=
  negb (starts_with META_TOOL_PREFIX candidate)
  && negb (existsb (fun t => wire t =s candidate) (tools c))
  && (length (List.filter (uses_name candidate) visible) =? 1)%nat.

Definition two_segment_name (n : ToolName) : string := provider n +:+ "__" +:+ tool n.

Definition shortest_exposed_name (t : WrappedTool) (c : ToolCatalog)
    (visible : list WrappedTool) : string :=
  if exposable (tool (name t)) c visible then tool (name t)
  else if exposable (two_segment_name (name t)) c visible then two_segment_name (name t)
  else wire t.

(** The five patterns are compiled before anything else. *)
Definition query_filter (q : ToolListQuery) : result CatalogError (WrappedTool -> bool) :=
  include ← compile_optional_regex (include_regex q);
  exclude ← compile_optional_regex (exclude_regex q);
  domain_re ← compile_optional_regex (domain_regex q);
  provider_re ← compile_optional_regex (provider_regex q);
  tool_re ← compile_optional_regex (tool_regex q);
  Ok (request_filter include exclude domain_re provider_re tool_re).

Definition paginate (limit cursor : Z) (expose : WrappedTool -> WrappedTool)
    (filtered : list WrappedTool) : ToolPage :=
  let remaining := zskip cursor filtered in
  let page := expose <$> ztake limit remaining in
  mkToolPage page
    (match zskip limit remaining with
     | [] => None
     | _ :: _ => Some (saturating_add u64_max cursor (Z.of_nat (length page)))
     end).

Definition list_for_key (key : ProxyKey) (q : ToolListQuery) (c : ToolCatalog)
    : result CatalogError ToolPage :=
  keep ← query_filter q;
  let limit := Z.max (default (Z.of_nat (default_tool_page_size key)) (limit q)) 1 in
  let cursor := default 0 (cursor q) in
  visible ← visible_for_key key c;
  Ok (paginate limit cursor
        (fun t => with_exposed_name (shortest_exposed_name t c visible) t)
        (List.filter keep visible)).

Definition tier_keeps (matches : WrappedTool -> bool) (q : ToolQualifiers)
    (key : option ProxyKey) (t : WrappedTool) : result CatalogError bool :=
  if negb (matches t) || negb (qualifiers_match q (name t)) then Ok false
  else match key with None => Ok true | Some k => can_use k t end.

Definition resolve_tier (s : string) (q : ToolQualifiers) (key : option ProxyKey)
    (matches : WrappedTool -> bool) (c : ToolCatalog)
    : result CatalogError (option WrappedTool) :=
  candidates ← try_filter (tier_keeps matches q key) (tools c);
  match candidates with
  | [] => Ok None
  | [t] => Ok (Some t)
  | _ => Err (AmbiguousToolName s
                (take AMBIGUITY_CANDIDATE_LIMIT (sort_by String.leb (wire <$> candidates))))
  end.

Definition resolve_for_key (s : string) (q : ToolQualifiers) (key : ProxyKey) (c : ToolCatalog)
    : result CatalogError (option WrappedTool) :=
  t0 ← resolve_tier s q None (fun t => wire t =s s) c;
  match t0 with
  | Some t => Ok (Some t)
  | None =>
      t1 ← resolve_tier s q (Some key) (fun t => two_segment_name_matches (name t) s) c;
      match t1 with
      | Some t => Ok (Some t)
      | None => resolve_tier s q (Some key) (fun t => tool (name t) =s s) c
      end
  end.

Definition find_by_wire_name (wire_name : string) (c : ToolCatalog) : option WrappedTool :=
  List.find (fun t => wire t =s wire_name) (tools c).
Definition total_tool_count (c : ToolCatalog) : nat := length (tools c).
Definition count_visible_for_key (key : ProxyKey) (c : ToolCatalog) : result CatalogError nat :=
  l ← visible_for_key key c; Ok (length l).

(** [str::to_lowercase] is a Unicode table; searching is parametric in it. *)
Definition search_score (to_lowercase : string -> string) (query_lower : string)
    (t : WrappedTool) : option Z :=
  let w := to_lowercase (wire t) in
  if w =s query_lower then Some 4
  else if starts_with query_lower w then Some 3
  else if contains query_lower w then Some 2
  else if contains query_lower (to_lowercase (description t)) then Some 1
  else None.

Definition score_leb (a b : WrappedTool * Z) : bool :=
  (b.2 <? a.2) || ((b.2 =? a.2) && wire_leb a.1 b.1).

Definition search_for_key (to_lowercase : string -> string) (query : string)
    (key : ProxyKey) (limit : nat) (c : ToolCatalog) : result CatalogError (list WrappedTool) :=
  visible ← visible_for_key key c;
  if is_empty query then Ok (take limit (sort_by wire_leb visible))
  else
    let scored := omap (fun t => s ← search_score to_lowercase (to_lowercase query) t;
                                 Some (t, s)) visible in
    Ok (fst <$> take limit (sort_by score_leb scored)).
End Queries.

(** ** Lemmas: resolution *)

Lemma two_segment_name_matches_spec n s :
  two_segment_name_matches n s = true <-> s = two_segment_name n.
Proof.
  unfold two_segment_name_matches, two_segment_name.
  destruct (strip_prefix (provider n) s) as [rest|] eqn:E1.
  - apply strip_prefix_Some in E1 as ->.
    destruct (strip_prefix "__" rest) as [r|] eqn:E2.
    + apply strip_prefix_Some in E2 as ->. rewrite String.eqb_eq. split; [by intros ->|].
      intros H. by do 2 apply (inj _) in H.
    + split; [done|]. intros H%(inj _). subst rest. cbn in E2. done.
  - split; [done|]. intros ->. exfalso.
    assert (strip_prefix (provider n) (provider n +:+ "__" +:+ tool n) =
            Some ("__" +:+ tool n)) as K by by apply strip_prefix_Some.
    congruence.
Qed.

(** Narrowing a filter first by a weaker predicate changes nothing. *)
Lemma filter_narrow {A} (p q : A -> bool) l :
  (forall x, p x = true -> q x = true) ->
  List.filter p l = List.filter p (List.filter q l).
Proof.
  intros H. rewrite filter_filter. apply filter_ext_elem. intros x _.
  destruct (p x) eqn:E; [by rewrite (H x E)|]. by destruct (q x).
Qed.

Definition pick (s : string) (candidates : list WrappedTool)
    : result CatalogError (option WrappedTool) :=
  match candidates with
  | [] => Ok None
  | [t] => Ok (Some t)
  | _ => Err (AmbiguousToolName s
                (take AMBIGUITY_CANDIDATE_LIMIT (sort_by String.leb (wire <$> candidates))))
  end.

Section Resolution.
Context {RE : RegexEngine}.
Context (key : ProxyKey) (c : ToolCatalog) (visible : list WrappedTool).
Hypothesis visible_ok : visible_for_key key c = Ok visible.

Lemma resolve_tier_visible s m :
  resolve_tier s no_qualifiers (Some key) m c = pick s (List.filter m visible).
Proof.
  destruct (try_filter_Ok_filter _ _ _ visible_ok) as (g & -> & Hg).
  unfold resolve_tier.
  rewrite (try_filter_total _ (fun t => g t && m t)); [by rewrite filter_filter|].
  intros t Ht. unfold tier_keeps, qualifiers_match. cbn. rewrite orb_false_r.
  destruct (m t); cbn; [|by rewrite andb_false_r]. by rewrite Hg, andb_true_r.
Qed.

Lemma resolve_tier_canonical s m :
  resolve_tier s no_qualifiers None m c = pick s (List.filter m (tools c)).
Proof.
  unfold resolve_tier. rewrite (try_filter_total _ m); [done|].
  intros t Ht. unfold tier_keeps, qualifiers_match. cbn. by destruct (m t).
Qed.

Lemma visible_elem t : t ∈ visible -> t ∈ tools c.
Proof. intros H. by apply (try_filter_Ok _ _ _ visible_ok) in H as [H _]. Qed.

Lemma uses_name_bare t : uses_name (tool (name t)) t = true.
Proof. unfold uses_name. by rewrite String.eqb_refl. Qed.

Lemma uses_name_two t : uses_name (two_segment_name (name t)) t = true.
Proof. unfold uses_name. by rewrite orb_true_iff, two_segment_name_matches_spec; right. Qed.

(** A name accepted by [exposable] for a tool that uses it selects that tool in
    both scoped tiers, and no tool in the canonical one. *)
Lemma exposable_tiers s t :
  exposable s c visible = true -> t ∈ visible -> uses_name s t = true ->
  resolve_for_key s no_qualifiers key c = Ok (Some t).
Proof.
  unfold exposable. rewrite !andb_true_iff, !negb_true_iff, Nat.eqb_eq.
  intros [[_ H0] H1] Ht Hu.
  assert (List.filter (uses_name s) visible = [t]) as Huses by by apply filter_length_one.
  unfold resolve_for_key. rewrite resolve_tier_canonical, !resolve_tier_visible.
  rewrite existsb_false in H0. rewrite (filter_none _ _ H0). cbn.
  rewrite (filter_narrow (fun t => two_segment_name_matches (name t) s) (uses_name s)), Huses;
    [cbn|].
  2:{ intros x Hx. unfold uses_name. by rewrite Hx, orb_true_r. }
  destruct (two_segment_name_matches (name t) s) eqn:E; cbn; [done|].
  rewrite (filter_narrow (fun t => tool (name t) =s s) (uses_name s)), Huses; cbn.
  2:{ intros x Hx. unfold uses_name. by rewrite Hx. }
  unfold uses_name in Hu. rewrite E, orb_false_r in Hu. by rewrite Hu.
Qed.

Lemma canonical_resolves t :
  NoDup (wire <$> tools c) -> t ∈ tools c ->
  resolve_for_key (wire t) no_qualifiers key c = Ok (Some t).
Proof.
  intros Hnd Ht. unfold resolve_for_key. rewrite resolve_tier_canonical.
  enough (List.filter (fun x => wire x =s wire t) (tools c) = [t]) as -> by done.
  revert Hnd Ht. generalize (tools c) as l. induction l as [|x l IH]; cbn; [set_solver|].
  intros [Hx Hnd]%NoDup_cons [->|Ht]%elem_of_cons.
  - rewrite String.eqb_refl. f_equal. apply filter_none. intros y Hy.
    apply String.eqb_neq. intros E. apply Hx. rewrite <- E. by apply list_elem_of_fmap_2.
  - rewrite (proj2 (String.eqb_neq _ _)); [by auto|].
    intros E. apply Hx. rewrite E. by apply list_elem_of_fmap_2.
Qed.

Lemma shortest_exposed_name_resolves t :
  NoDup (wire <$> tools c) -> t ∈ visible ->
  resolve_for_key (shortest_exposed_name t c visible) no_qualifiers key c = Ok (Some t).
Proof.
  intros Hnd Ht. unfold shortest_exposed_name.
  repeat case_if.
  - apply exposable_tiers; auto using uses_name_bare.
  - apply exposable_tiers; auto using uses_name_two.
  - apply canonical_resolves; auto using visible_elem.
Qed.
End Resolution.

(** ** Lemmas: pagination *)

Lemma ztake_zskip {A} n (l : list A) : 0 <= n -> ztake n l ++ zskip n l = l.
Proof. intros. unfold ztake, zskip. apply take_drop. Qed.

Lemma zskip_zskip {A} n m (l : list A) :
  0 <= n -> 0 <= m -> zskip m (zskip n l) = zskip (n + m) l.
Proof.
  intros Hn Hm. unfold zskip. rewrite length_drop, drop_drop. 
  destruct (decide (Z.of_nat (length l) <= n + m)).
  - rewrite !drop_ge; [done | lia | lia].
  - f_equal. lia.
Qed.

Lemma zskip_all {A} n (l : list A) :
  0 <= n -> zskip n l = [] <-> Z.of_nat (length l) <= n.
Proof.
  intros Hn. unfold zskip. split.
  - intros H. apply (f_equal length) in H. rewrite length_drop in H. cbn in H. lia.
  - intros H. apply drop_ge. lia.
Qed.

Lemma ztake_length {A} n (l : list A) :
  0 <= n -> Z.of_nat (length (ztake n l)) = Z.min n (Z.of_nat (length l)).
Proof. intros. unfold ztake. rewrite length_take. lia. Qed.

Lemma paginate_tools lim cur e l :
  page_tools (paginate lim cur e l) = e <$> ztake lim (zskip cur l).
Proof. done. Qed.

(** The cursor of a page that is not the last one is the number of entries up to
    and including the page. *)
Lemma paginate_next lim cur e l :
  1 <= lim -> 0 <= cur -> Z.of_nat (length l) <= u64_max ->
  next_cursor (paginate lim cur e l) =
  if cur + lim <? Z.of_nat (length l) then Some (cur + lim) else None.
Proof.
  intros Hl Hc Hmax. unfold paginate. cbn.
  rewrite zskip_zskip by lia.
  destruct (zskip (cur + lim) l) as [|x r] eqn:E.
  - rewrite zskip_all in E by lia.
    destruct (Z.ltb_spec (cur + lim) (Z.of_nat (length l))); [lia | done].
  - assert (~ Z.of_nat (length l) <= cur + lim) as Hlt.
    { intros H. rewrite <- zskip_all in H by lia. congruence. }
    destruct (Z.ltb_spec (cur + lim) (Z.of_nat (length l))); [|lia].
    rewrite length_fmap, ztake_length by lia. unfold zskip, saturating_add.
    rewrite length_drop. f_equal. lia.
Qed.

(** A client that follows [next_cursor]: [Ok None] means the fuel ran out. *)
Definition with_cursor (cur : Z) (q : ToolListQuery) : ToolListQuery :=
  mkToolListQuery (include_regex q) (exclude_regex q) (domain_regex q) (provider_regex q)
    (tool_regex q) (limit q) (Some cur).
Definition unlimited (q : ToolListQuery) : ToolListQuery :=
  mkToolListQuery (include_regex q) (exclude_regex q) (domain_regex q) (provider_regex q)
    (tool_regex q) (Some u64_max) (Some 0).

Section Walking.
Context {RE : RegexEngine}.

Fixpoint walk (fuel : nat) (key : ProxyKey) (q : ToolListQuery) (cur : Z) (c : ToolCatalog)
    : result CatalogError (option (list WrappedTool)) :=
  match fuel with
  | O => Ok None
  | S fuel =>
      page ← list_for_key key (with_cursor cur q) c;
      match next_cursor page with
      | None => Ok (Some (page_tools page))
      | Some cur => rest ← walk fuel key q cur c; Ok (app (page_tools page) <$> rest)
      end
  end.

Lemma list_for_key_Ok key q c page :
  list_for_key key q c = Ok page ->
  exists keep visible, query_filter q = Ok keep /\ visible_for_key key c = Ok visible /\
    page = paginate (Z.max (default (Z.of_nat (default_tool_page_size key)) (limit q)) 1)
             (default 0 (cursor q))
             (fun t => with_exposed_name (shortest_exposed_name t c visible) t)
             (List.filter keep visible).
Proof. unfold list_for_key. intros H. inv_ok. eauto. Qed.

Lemma walk_from key q c keep visible fuel cur :
  query_filter q = Ok keep -> visible_for_key key c = Ok visible ->
  Z.of_nat (length (List.filter keep visible)) <= u64_max ->
  0 <= cur -> (cur <= Z.of_nat (length (List.filter keep visible))) ->
  Z.of_nat (length (List.filter keep visible)) - cur < Z.of_nat fuel ->
  walk fuel key q cur c =
  Ok (Some ((fun t => with_exposed_name (shortest_exposed_name t c visible) t)
              <$> zskip cur (List.filter keep visible))).
Proof.
  intros Hq Hv Hmax. set (F := List.filter keep visible) in *.
  set (e := fun t => with_exposed_name (shortest_exposed_name t c visible) t).
  set (lim := Z.max (default (Z.of_nat (default_tool_page_size key)) (limit q)) 1).
  revert cur. induction fuel as [|fuel IH]; intros cur H0 Hcur Hfuel; [lia|].
  assert (list_for_key key (with_cursor cur q) c = Ok (paginate lim cur e F)) as Hpage.
  { unfold list_for_key. change (query_filter (with_cursor cur q)) with (query_filter q).
    rewrite Hq. cbn. by rewrite Hv. }
  cbn. rewrite Hpage. cbn [mbind result_bind].
  rewrite paginate_next, paginate_tools by lia.
  assert (zskip cur F = ztake lim (zskip cur F) ++ zskip (cur + lim) F) as Hsplit.
  { rewrite <- zskip_zskip by lia. by rewrite ztake_zskip by lia. }
  destruct (Z.ltb_spec (cur + lim) (Z.of_nat (length F))).
  - rewrite IH by lia. cbn [mbind result_bind].
    rewrite Hsplit at 2. by rewrite fmap_app.
  - rewrite (proj2 (zskip_all (cur + lim) F ltac:(lia))) in Hsplit by lia.
    rewrite app_nil_r in Hsplit. by rewrite <- Hsplit.
Qed.
End Walking.

Lemma page_elem {A} lim cur (l : list A) x : x ∈ ztake lim (zskip cur l) -> x ∈ l.
Proof.
  unfold ztake, zskip. intros H%subseteq_take. by apply subseteq_drop in H.
Qed.

(** ** Lemmas: search *)

Lemma score_leb_total a b : score_leb a b = false -> score_leb b a = true.
Proof.
  unfold score_leb, wire_leb. intros H. rewrite orb_false_iff, andb_false_iff in H.
  rewrite orb_true_iff, andb_true_iff. destruct H as [H1%Z.ltb_ge H2].
  destruct (Z.ltb_spec a.2 b.2); [by left|]. right. split; [lia|].
  destruct H2 as [H2|H2]; [lia|]. by destruct (String.leb_total (wire a.1) (wire b.1)); [congruence|].
Qed.

Lemma wire_leb_total a b : wire_leb a b = false -> wire_leb b a = true.
Proof. unfold wire_leb. destruct (String.leb_total (wire a) (wire b)); congruence. Qed.

(** ** Properties of the queries *)

(** C7: every name shown in a tool list resolves, for the same key
    and without qualifiers, to the very tool it was shown for, when the catalog
    holds no wire name twice. *)
Theorem listed_names_resolve {RE : RegexEngine} key q c page shown :
  list_for_key key q c = Ok page -> NoDup (wire <$> tools c) ->
  shown ∈ page_tools page ->
  exists t n, shown = with_exposed_name n t /\ t ∈ tools c /\
    resolve_for_key n no_qualifiers key c = Ok (Some t).
Proof.
  intros (keep & visible & _ & Hv & ->)%list_for_key_Ok Hnd (t & -> & Ht)%list_elem_of_fmap.
  assert (t ∈ visible) as Hvis.
  { apply page_elem, filter_elem in Ht. tauto. }
  exists t, (shortest_exposed_name t c visible).
  split; [done|]. split; [by eapply visible_elem | by apply shortest_exposed_name_resolves].
Qed.

Definition demo_tool (d p t : string) : WrappedTool :=
  mkWrappedTool (mkToolName d p t) p ("about " +:+ t) "/" Post default_input_schema None None.
Definition demo_catalog : ToolCatalog :=
  mkToolCatalog [demo_tool "docs" "ctx" "search"; demo_tool "search" "exa" "search";
                 demo_tool "search" "exa" "web"] ∅ ∅.
Definition demo_query : ToolListQuery :=
  mkToolListQuery None None None None None (Some 2) None.
Definition demo_open_key : ProxyKey :=
  mkProxyKey "k" "k" [""] [] [] [] None None None None 20 None None.

Lemma listed_names_resolve_witness :
  exists page, list_for_key demo_open_key demo_query demo_catalog = Ok page /\
    (exposed_name <$> page_tools page) = [Some "ctx__search"; Some "exa__search"] /\
    exists t n, with_exposed_name "exa__search" (demo_tool "search" "exa" "search")
                = with_exposed_name n t /\
      t ∈ tools demo_catalog /\
      resolve_for_key n no_qualifiers demo_open_key demo_catalog = Ok (Some t).
Proof.
  eexists. split; [vm_compute; reflexivity|]. split; [reflexivity|].
  eapply (listed_names_resolve demo_open_key demo_query demo_catalog);
    [vm_compute; reflexivity | apply (bool_decide_unpack _); vm_compute; exact I | in_list].
Defined.

(** The hypothesis on duplicates is needed: [from_config] does not refuse a wire
    name that two resources produce, and the name shown for it is ambiguous. *)
Example duplicate_wire_names_do_not_resolve :
  let c := mkToolCatalog [demo_tool "a" "b" "c"; demo_tool "a" "b" "c"] ∅ ∅ in
  exists page n, list_for_key demo_open_key demo_query c = Ok page /\
    Some n ∈ exposed_name <$> page_tools page /\
    exists names, resolve_for_key n no_qualifiers demo_open_key c
                  = Err (AmbiguousToolName n names).
Proof.
  eexists _, "a__b__c". split; [vm_compute; reflexivity|].
  split; [in_list|]. eexists. vm_compute. reflexivity.
Qed.

(** Following [next_cursor] from the start, with any page size,
    terminates and returns exactly the tools of one unlimited listing, in order,
    none twice and none missing. *)
Theorem cursor_walk_complete {RE : RegexEngine} key q c whole fuel :
  list_for_key key (unlimited q) c = Ok whole ->
  Z.of_nat (length (tools c)) <= u64_max ->
  (length (page_tools whole) < fuel)%nat ->
  walk fuel key q 0 c = Ok (Some (page_tools whole)).
Proof.
  intros (keep & visible & Hq & Hv & ->)%list_for_key_Ok Hmax.
  change (query_filter (unlimited q)) with (query_filter q) in Hq. cbn [limit unlimited].
  assert (Z.of_nat (length (List.filter keep visible)) <= u64_max) as Hlen.
  { pose proof (sublist_length _ _ (try_filter_sublist _ _ _ Hv)).
    pose proof (List.filter_length_le keep visible). lia. }
  assert (forall e, page_tools (paginate (Z.max (default 0 (Some u64_max)) 1) 0 e
            (List.filter keep visible)) = e <$> List.filter keep visible) as Hall.
  { intros e. rewrite paginate_tools. unfold zskip. rewrite Z.min_l, drop_0 by lia.
    unfold ztake. rewrite take_ge; [done|]. cbn. unfold u64_max in *. lia. }
  cbn [default cursor unlimited] in *. rewrite Hall, length_fmap. intros Hf.
  rewrite (walk_from key q c keep visible) by (try done; lia).
  unfold zskip. by rewrite Z.min_l, drop_0 by lia.
Qed.

Lemma cursor_walk_complete_witness :
  exists whole, list_for_key demo_open_key (unlimited demo_query) demo_catalog = Ok whole /\
    length (page_tools whole) = 3%nat /\
    walk 4 demo_open_key demo_query 0 demo_catalog = Ok (Some (page_tools whole)).
Proof.
  eexists. split; [vm_compute; reflexivity|]. split; [reflexivity|].
  apply (cursor_walk_complete demo_open_key demo_query demo_catalog);
    [vm_compute; reflexivity | vm_compute; discriminate | cbn; lia].
Defined.

(** A page never holds a tool outside the key's scope, whatever
    the request asks for: each entry is a catalog tool, unchanged but for its
    exposed name, that the policy grants to the key. *)
Theorem listing_stays_in_scope {RE : RegexEngine} {RL : RegexLaws RE} key q c page shown :
  list_for_key key q c = Ok page -> shown ∈ page_tools page ->
  exists t n, shown = with_exposed_name n t /\ t ∈ tools c /\
    in_scope key (wire t) (resource_id t).
Proof.
  intros (keep & visible & _ & Hv & ->)%list_for_key_Ok (t & -> & Ht)%list_elem_of_fmap.
  apply page_elem, filter_elem in Ht as [Ht _].
  apply (try_filter_Ok _ _ _ Hv) in Ht as [Ht Hok%map_err_Ok_inv].
  do 2 eexists. split; [done|]. split; [done|].
  by apply key_can_use_name_in_scope in Hok as [Hok _]; apply Hok.
Qed.

Lemma listing_stays_in_scope_witness :
  exists t n, with_exposed_name "exa__search" (demo_tool "search" "exa" "search")
              = with_exposed_name n t /\
    t ∈ tools demo_catalog /\ in_scope demo_open_key (wire t) (resource_id t).
Proof.
  eapply (listing_stays_in_scope demo_open_key demo_query demo_catalog);
    [vm_compute; reflexivity | in_list].
Defined.

(** A search returns the best [limit] entries of a ranked list
    that holds exactly the key's tools matching the query, ordered by score and
    then by wire name; an empty query matches all of them. *)
Theorem search_ranked {RE : RegexEngine} lower query key n c found :
  search_for_key lower query key n c = Ok found ->
  exists visible ranked, visible_for_key key c = Ok visible /\ found = take n ranked.*1 /\
    (forall t, t ∈ ranked.*1 <-> t ∈ visible /\
       (query = "" \/ is_Some (search_score lower (lower query) t))) /\
    Sorted (fun a b => score_leb a b = true) ranked /\
    (query <> "" -> forall t s, (t, s) ∈ ranked ->
       search_score lower (lower query) t = Some s).
Proof.
  unfold search_for_key. intros (visible & Hv & H)%bind_Ok_inv.
  exists visible. destruct query as [|a query]; cbn [is_empty] in H; inv_ok.
  - exists ((fun t => (t, 0)) <$> sort_by wire_leb visible). split; [done|].
    assert (((fun t => (t, 0)) <$> sort_by wire_leb visible).*1 = sort_by wire_leb visible)
      as ->. { rewrite <- list_fmap_compose. by apply list_fmap_id. }
    split; [done|]. split; [intros t; rewrite sort_by_elem; naive_solver|].
    split; [|done].
    pose proof (sort_by_Sorted wire_leb wire_leb_total visible) as Hs.
    induction Hs as [|x l Hs IH Hh]; cbn; [constructor|].
    constructor; [exact IH|]. destruct Hh; constructor. unfold score_leb. cbn.
    done.
  - set (q := String a query) in *.
    set (scored := omap _ visible).
    exists (sort_by score_leb scored). split; [done|].
    assert (forall t s, (t, s) ∈ scored <->
              t ∈ visible /\ search_score lower (lower q) t = Some s) as Hsc.
    { intros t s. subst scored. rewrite list_elem_of_omap. split.
      - intros (x & Hx & Hs). destruct (search_score lower (lower q) x) eqn:E; cbn in Hs; [|done].
        naive_solver.
      - intros (Hx & Hs). exists t. by rewrite Hs. }
    split; [by rewrite fmap_take|]. split; [|split].
    + intros t. rewrite list_elem_of_fmap. split.
      * intros ([t' s] & -> & Hin). rewrite sort_by_elem in Hin. apply Hsc in Hin. naive_solver.
      * intros (Ht & [?|[s Hs]]); [done|]. exists (t, s). by rewrite sort_by_elem, Hsc.
    + apply sort_by_Sorted, score_leb_total.
    + intros _ t s Hin. rewrite sort_by_elem in Hin. by apply Hsc in Hin as [_ ?].
Qed.

Lemma search_ranked_witness :
  exists found visible (ranked : list (WrappedTool * Z)),
    search_for_key to_ascii_lowercase "EXA" demo_open_key 5 demo_catalog = Ok found /\
    (wire <$> found) = ["search__exa__search"; "search__exa__web"] /\
    visible_for_key demo_open_key demo_catalog = Ok visible /\ found = take 5 ranked.*1.
Proof.
  assert (exists found, search_for_key to_ascii_lowercase "EXA" demo_open_key 5 demo_catalog
            = Ok found /\ (wire <$> found) = ["search__exa__search"; "search__exa__web"])
    as (found & Hf & Hw) by (eexists; split; [vm_compute; reflexivity | reflexivity]).
  destruct (search_ranked to_ascii_lowercase "EXA" demo_open_key 5 demo_catalog found Hf)
    as (visible & ranked & H1 & H2 & _).
  by exists found, visible, ranked.
Defined.
