(* ===== verification/Overrides.v ===== *)
(** * Refinement of the catalog's description overrides ([src/src/catalog/mod.rs])

    The operations of [Catalog] that change the tools or the overrides simulate
    an abstract catalog that stores the upstream tools and the overrides apart. *)

From S2P Require Import Prelude RustStr Naming Errors Config Policy Catalog.

Local Open Scope string_scope.
Local Open Scope list_scope.
Local Open Scope Z_scope.
Local Open Scope gateway_scope.

(** ** Specification

    The abstract catalog keeps the upstream tools and the overrides apart; the
    concrete one keeps the effective descriptions and a table of the originals.
    [represents] relates the two. *)

Record AbsCatalog := mkAbsCatalog {
  raw : list WrappedTool;
  ov : gmap string string;
}.

(** The description shown: the override, or else the upstream one. *)
Definition render (o : gmap string string) (t : WrappedTool) : WrappedTool :=
  match o !! wire t with Some d => with_description d t | None => t end.

Inductive catalog_op :=
| OpExtend (new : list WrappedTool)
| OpReplace (new : list WrappedTool) (ids : gset string)
| OpSet (wire_name desc : string)
| OpRemove (wire_name : string)
| OpLoad (overrides : gmap string string).

Definition run_op (op : catalog_op) (c : ToolCatalog) : ToolCatalog :=
  match op with
  | OpExtend new => extend_with_mcp_tools new c
  | OpReplace new ids => replace_mcp_tools new ids c
  | OpSet w d => set_description_override w d c
  | OpRemove w => remove_description_override w c
  | OpLoad o => load_description_overrides o c
  end.

Definition keep_others (ids : gset string) (l : list WrappedTool) : list WrappedTool :=
  List.filter (fun t => negb (bool_decide (resource_id t ∈ ids))) l.

Definition abs_op (op : catalog_op) (a : AbsCatalog) : AbsCatalog :=
  match op with
  | OpExtend new => mkAbsCatalog (sort_by wire_leb (raw a ++ new)) (ov a)
  | OpReplace new ids =>
      mkAbsCatalog (sort_by wire_leb (keep_others ids (raw a) ++ new)) (ov a)
  | OpSet w d => mkAbsCatalog (raw a) (<[w := d]> (ov a))
  | OpRemove w => mkAbsCatalog (raw a) (delete w (ov a))
  | OpLoad o => mkAbsCatalog (raw a) o
  end.

(** Wire names stay unique: what the deduplication of the MCP registry provides. *)
Definition names_unique (l : list WrappedTool) : Prop := NoDup (wire <$> l).

Record represents (c : ToolCatalog) (a : AbsCatalog) : Prop := {
  rep_unique : names_unique (raw a);
  rep_tools : tools c = render (ov a) <$> raw a;
  rep_overrides : description_overrides c = ov a;
  rep_originals t : t ∈ raw a -> is_Some (ov a !! wire t) ->
    original_descriptions c !! wire t = Some (description t);
  rep_stale w : ov a !! w = None -> original_descriptions c !! w = None;
}.

Lemma wire_render o t : wire (render o t) = wire t.
Proof. unfold render. by case_match. Qed.

Lemma resource_render o t : resource_id (render o t) = resource_id t.
Proof. unfold render. by case_match. Qed.

Lemma wire_render_all o (l : list WrappedTool) : wire <$> (render o <$> l) = wire <$> l.
Proof. rewrite <- list_fmap_compose. apply list_fmap_ext. intros. apply wire_render. Qed.

Lemma with_description_twice d d' t :
  with_description d (with_description d' t) = with_description d t.
Proof. done. Qed.

Lemma with_description_same t : with_description (description t) t = t.
Proof. by destruct t. Qed.

Lemma sort_render o l :
  sort_by wire_leb (render o <$> l) = render o <$> sort_by wire_leb l.
Proof.
  assert (forall x l, insert_sorted wire_leb (render o x) (render o <$> l)
            = render o <$> insert_sorted wire_leb x l) as Hins.
  { intros x l'. induction l' as [|y l' IH]; cbn; [done|].
    unfold wire_leb at 1 3. rewrite !wire_render.
    destruct (String.leb (wire x) (wire y)); cbn; [done|]. by rewrite IH. }
  unfold sort_by. induction l as [|x l IH]; [done|].
  rewrite fmap_cons. cbn [foldr]. by rewrite IH, Hins.
Qed.

Lemma keep_others_render o ids l :
  keep_others ids (render o <$> l) = render o <$> keep_others ids l.
Proof.
  unfold keep_others. induction l as [|t l IH]; cbn; [done|].
  rewrite resource_render. case_if; cbn; by rewrite IH.
Qed.

Lemma keep_others_sublist ids l : sublist (keep_others ids l) l.
Proof. unfold keep_others. induction l; cbn; [done|]. case_if; by constructor. Qed.

(** [overlay_all] renders the tools and records the originals of those that have
    an override. *)
Lemma overlay_all_spec o orig l :
  names_unique l ->
  exists orig', overlay_all o orig l = (orig', render o <$> l) /\
    (forall t, t ∈ l -> is_Some (o !! wire t) -> orig' !! wire t = Some (description t)) /\
    (forall w, w ∉ wire <$> l \/ o !! w = None -> orig' !! w = orig !! w).
Proof.
  revert orig. induction l as [|t l IH]; intros orig Hnd.
  { exists orig. split; [done|]. set_solver. }
  apply NoDup_cons in Hnd as [Hnew Hnd]. cbn. unfold overlay_tool, render at 1.
  destruct (o !! wire t) as [d|] eqn:E.
  - destruct (IH (<[wire t := description t]> orig) Hnd) as (orig' & -> & H1 & H2).
    exists orig'. split; [done|]. split.
    + intros x [->|Hx]%elem_of_cons Ho; [|by auto].
      rewrite H2 by by left. by rewrite lookup_insert_eq.
    + intros w Hw. rewrite H2 by set_solver. apply lookup_insert_ne. set_solver.
  - destruct (IH orig Hnd) as (orig' & -> & H1 & H2).
    exists orig'. split; [done|]. split; [|set_solver].
    intros x [->|Hx]%elem_of_cons Ho; [|by auto]. destruct Ho. congruence.
Qed.

Lemma update_first_map w (f : WrappedTool -> WrappedTool) l :
  NoDup (wire <$> l) ->
  update_first (fun t => wire t =s w) f l = (fun t => if wire t =s w then f t else t) <$> l.
Proof.
  induction l as [|t l IH]; cbn; [done|]. intros [Hn Hnd]%NoDup_cons.
  destruct (String.eqb_spec (wire t) w) as [<-|Hne]; [|by rewrite IH].
  f_equal. rewrite <- (list_fmap_id l) at 1. apply list_fmap_ext. intros i x Hx.
  destruct (String.eqb_spec (wire x) (wire t)) as [E|]; [|done].
  exfalso. apply Hn. rewrite <- E. apply list_elem_of_fmap_2. by eapply list_elem_of_lookup_2.
Qed.

Lemma unique_by_wire l t t' :
  names_unique l -> t ∈ l -> t' ∈ l -> wire t = wire t' -> t = t'.
Proof. apply (NoDup_key_inj wire). Qed.

Lemma names_unique_perm l l' : l ≡ₚ l' -> names_unique l -> names_unique l'.
Proof. unfold names_unique. intros H. by rewrite (fmap_Permutation wire _ _ H). Qed.

Lemma names_unique_sublist l l' : sublist l l' -> names_unique l' -> names_unique l.
Proof. unfold names_unique. intros H Hn. eapply sublist_NoDup; [exact Hn|]. by rewrite H. Qed.

Lemma tools_unique c a : represents c a -> NoDup (wire <$> tools c).
Proof. intros R. rewrite (rep_tools _ _ R), wire_render_all. apply R. Qed.

Lemma represents_extend c a new :
  represents c a -> names_unique (sort_by wire_leb (raw a ++ new)) ->
  represents (extend_with_mcp_tools new c)
    (mkAbsCatalog (sort_by wire_leb (raw a ++ new)) (ov a)).
Proof.
  intros R Hu. pose proof (names_unique_perm _ _ (sort_by_perm _ _) Hu) as Hu'.
  unfold names_unique in Hu'. rewrite fmap_app in Hu'.
  apply NoDup_app in Hu' as (_ & Hdisj & Hnew).
  unfold extend_with_mcp_tools. rewrite (rep_overrides _ _ R).
  destruct (overlay_all_spec (ov a) (original_descriptions c) new Hnew)
    as (orig' & -> & H1 & H2).
  split; cbn; [done | | done | |].
  - by rewrite (rep_tools _ _ R), <- fmap_app, sort_render.
  - intros t Ht Ho. rewrite sort_by_elem in Ht. apply elem_of_app in Ht as [Ht|Ht]; [|by auto].
    rewrite H2; [by apply (rep_originals _ _ R)|]. left. apply Hdisj.
    by apply list_elem_of_fmap_2.
  - intros w Hw. rewrite H2 by by right. by apply (rep_stale _ _ R).
Qed.

Lemma represents_restrict c a ids :
  represents c a ->
  represents (mkToolCatalog (keep_others ids (tools c)) (description_overrides c)
                (original_descriptions c))
    (mkAbsCatalog (keep_others ids (raw a)) (ov a)).
Proof.
  intros R. split; cbn.
  - eapply names_unique_sublist; [apply keep_others_sublist | apply R].
  - by rewrite (rep_tools _ _ R), keep_others_render.
  - apply R.
  - intros t Ht. apply (rep_originals _ _ R). unfold keep_others in Ht.
    by rewrite filter_elem in Ht; destruct Ht.
  - apply R.
Qed.

Lemma render_insert_other o w d t : wire t <> w -> render (<[w := d]> o) t = render o t.
Proof. intros H. unfold render. by rewrite lookup_insert_ne. Qed.

Lemma render_delete_other o w t : wire t <> w -> render (delete w o) t = render o t.
Proof. intros H. unfold render. by rewrite lookup_delete_ne. Qed.

Lemma with_description_render d o t : with_description d (render o t) = with_description d t.
Proof. unfold render. by case_match. Qed.

Lemma update_first_id {A} (p : A -> bool) f l :
  List.find p l = None -> update_first p f l = l.
Proof. induction l as [|x l IH]; cbn; [done|]. case_if; [done|]. intros. by rewrite IH. Qed.

(** The tool of a represented catalog that carries a wire name. *)
Lemma find_tool c a w t0 :
  represents c a -> List.find (fun t => wire t =s w) (tools c) = Some t0 ->
  exists t, t ∈ raw a /\ wire t = w /\ t0 = render (ov a) t.
Proof.
  intros R [Hin Hw%String.eqb_eq]%find_Some_elem. rewrite (rep_tools _ _ R) in Hin.
  apply list_elem_of_fmap in Hin as (t & -> & Ht). rewrite wire_render in Hw. eauto.
Qed.

Lemma find_no_tool c a w t :
  represents c a -> List.find (fun t => wire t =s w) (tools c) = None ->
  t ∈ raw a -> wire t <> w.
Proof.
  intros R E Ht <-. rewrite find_None_all, (rep_tools _ _ R) in E.
  specialize (E (render (ov a) t) (list_elem_of_fmap_2 _ _ _ Ht)). cbn in E.
  by rewrite wire_render, String.eqb_refl in E.
Qed.

Lemma set_tools w d c :
  tools (set_description_override w d c) =
  update_first (fun t => wire t =s w) (with_description d) (tools c).
Proof.
  unfold set_description_override. destruct (List.find _ (tools c)) eqn:E; [done|].
  by rewrite update_first_id.
Qed.

Lemma set_overrides w d c :
  description_overrides (set_description_override w d c) = <[w := d]> (description_overrides c).
Proof. unfold set_description_override. by case_match. Qed.

Lemma set_originals_other w d c w' :
  w' <> w ->
  original_descriptions (set_description_override w d c) !! w' = original_descriptions c !! w'.
Proof.
  intros H. unfold set_description_override. repeat case_match; cbn; try done.
  by rewrite lookup_insert_ne.
Qed.

Lemma set_originals_self c a w d t :
  represents c a -> t ∈ raw a -> wire t = w ->
  original_descriptions (set_description_override w d c) !! w = Some (description t).
Proof.
  intros R Ht Hw. unfold set_description_override.
  destruct (List.find _ (tools c)) as [t0|] eqn:E; cbn.
  2:{ by eapply find_no_tool in E. }
  destruct (find_tool _ _ _ _ R E) as (t1 & Ht1 & Hw1 & ->).
  assert (t1 = t) as -> by (eapply unique_by_wire; [apply R | done | done | congruence]).
  destruct (ov a !! w) as [old|] eqn:Eo.
  - assert (original_descriptions c !! w = Some (description t)) as Hor.
    { rewrite <- Hw. apply (rep_originals _ _ R); [done|]. by rewrite Hw, Eo. }
    by rewrite Hor.
  - rewrite (rep_stale _ _ R w Eo), lookup_insert_eq. unfold render. by rewrite Hw, Eo.
Qed.

Lemma represents_set c a w d :
  represents c a ->
  represents (set_description_override w d c) (mkAbsCatalog (raw a) (<[w := d]> (ov a))).
Proof.
  intros R. split; cbn.
  - apply R.
  - rewrite set_tools, update_first_map by (by eapply tools_unique).
    rewrite (rep_tools _ _ R), <- list_fmap_compose. apply list_fmap_ext. intros i t _. cbn.
    rewrite wire_render. destruct (String.eqb_spec (wire t) w) as [<-|Hne].
    + rewrite with_description_render. unfold render. by rewrite lookup_insert_eq.
    + by rewrite render_insert_other.
  - by rewrite set_overrides, (rep_overrides _ _ R).
  - intros t Ht Ho. destruct (decide (wire t = w)) as [Hw|Hne].
    + rewrite Hw. by eapply set_originals_self.
    + rewrite lookup_insert_ne in Ho by done. rewrite set_originals_other by done.
      by apply (rep_originals _ _ R).
  - intros w' [Hn Hne]%lookup_insert_None. rewrite set_originals_other by done.
    by apply (rep_stale _ _ R).
Qed.

Lemma represents_remove c a w :
  represents c a ->
  represents (remove_description_override w c) (mkAbsCatalog (raw a) (delete w (ov a))).
Proof.
  intros R. split; cbn.
  - apply R.
  - destruct (original_descriptions c !! w) as [o|] eqn:Eo.
    + rewrite update_first_map by (by eapply tools_unique).
      rewrite (rep_tools _ _ R), <- list_fmap_compose. apply list_fmap_ext. intros i t Hi. cbn.
      apply list_elem_of_lookup_2 in Hi.
      rewrite wire_render. destruct (String.eqb_spec (wire t) w) as [<-|Hne].
      * rewrite with_description_render. unfold render. rewrite lookup_delete_eq.
        destruct (ov a !! wire t) eqn:E.
        -- rewrite (rep_originals _ _ R t Hi) in Eo by (by rewrite E).
           injection Eo as <-. apply with_description_same.
        -- by rewrite (rep_stale _ _ R _ E) in Eo.
      * by rewrite render_delete_other.
    + rewrite (rep_tools _ _ R). apply list_fmap_ext. intros i t Hi.
      apply list_elem_of_lookup_2 in Hi.
      destruct (decide (wire t = w)) as [<-|Hne]; [|by rewrite render_delete_other].
      unfold render. rewrite lookup_delete_eq. destruct (ov a !! wire t) eqn:E; [|done].
      by rewrite (rep_originals _ _ R t Hi) in Eo by (by rewrite E).
  - by rewrite (rep_overrides _ _ R).
  - intros t Ht Ho. destruct (decide (wire t = w)) as [<-|Hne].
    { by rewrite lookup_delete_eq in Ho; destruct Ho. }
    rewrite lookup_delete_ne in * by done. by apply (rep_originals _ _ R).
  - intros w' Hn. destruct (decide (w = w')) as [->|Hne]; [by rewrite lookup_delete_eq|].
    rewrite lookup_delete_ne in * by done. by apply (rep_stale _ _ R).
Qed.

Lemma restore_originals_spec o orig l :
  names_unique l ->
  (forall t, t ∈ l -> is_Some (o !! wire t) -> orig !! wire t = Some (description t)) ->
  (forall t, t ∈ l -> o !! wire t = None -> orig !! wire t = None) ->
  restore_originals orig (render o <$> l) = l.
Proof.
  revert orig. induction l as [|t l IH]; intros orig Hu H1 H2; cbn; [done|].
  apply NoDup_cons in Hu as [Hn Hu]. rewrite wire_render.
  assert (forall x, x ∈ l -> wire x <> wire t) as Hne.
  { intros x Hx E. apply Hn. rewrite <- E. by apply list_elem_of_fmap_2. }
  destruct (o !! wire t) as [d|] eqn:E.
  - rewrite H1 by (set_solver || by rewrite E). rewrite with_description_render, with_description_same.
    f_equal. apply IH; [done| |]; intros x Hx Hs; rewrite lookup_delete_ne by (apply not_eq_sym; auto);
      [apply H1 | apply H2]; set_solver.
  - rewrite H2 by (set_solver || done). unfold render at 1. rewrite E. f_equal.
    apply IH; [done| |]; intros x Hx Hs; [apply H1 | apply H2]; set_solver.
Qed.

Lemma represents_load c a o :
  represents c a -> represents (load_description_overrides o c) (mkAbsCatalog (raw a) o).
Proof.
  intros R. unfold load_description_overrides.
  rewrite (rep_tools _ _ R), (restore_originals_spec (ov a)).
  2: apply R. 2: apply R. 2: intros; by apply (rep_stale _ _ R).
  destruct (overlay_all_spec o ∅ (raw a)) as (orig' & -> & H1 & H2); [apply R|].
  split; cbn; [apply R | done | done | done |].
  intros w Hw. by rewrite H2 by by right.
Qed.

(** One operation: the concrete catalog follows the abstract one. *)
Lemma represents_op op c a :
  represents c a -> names_unique (raw (abs_op op a)) ->
  represents (run_op op c) (abs_op op a).
Proof.
  intros R Hu. destruct op; cbn in *.
  - by apply represents_extend.
  - by apply (represents_extend _ _ new (represents_restrict c a ids R)).
  - by apply represents_set.
  - by apply represents_remove.
  - by apply represents_load.
Qed.

Definition run_ops (ops : list catalog_op) (c : ToolCatalog) : ToolCatalog :=
  fold_left (fun c op => run_op op c) ops c.
Definition abs_ops (ops : list catalog_op) (a : AbsCatalog) : AbsCatalog :=
  fold_left (fun a op => abs_op op a) ops a.

Fixpoint ops_unique (ops : list catalog_op) (a : AbsCatalog) : Prop :=
  match ops with
  | [] => True
  | op :: ops => names_unique (raw (abs_op op a)) /\ ops_unique ops (abs_op op a)
  end.

Lemma represents_ops ops c a :
  represents c a -> ops_unique ops a -> represents (run_ops ops c) (abs_ops ops a).
Proof.
  revert c a. induction ops as [|op ops IH]; cbn; intros c a R; [done|].
  intros [Hu Ho]. apply IH; [by apply represents_op | done].
Qed.

Lemma represents_from_config {OA : OpenApiSource} cfg c :
  from_config cfg = Ok c -> names_unique (tools c) ->
  represents c (mkAbsCatalog (tools c) ∅).
Proof.
  unfold from_config. intros H Hu. inv_ok. split; cbn; try done.
  - rewrite <- (list_fmap_id (sort_by _ _)) at 1. by apply list_fmap_ext.
  - by intros t _ [? ?].
Qed.

(** C20: after any sequence of catalog updates, override edits and
    reloads in which wire names stay unique, the catalog shows for every tool the
    override of its wire name, or else the description the upstream last sent,
    and it knows the original of every overridden tool. *)
Theorem overrides_refine {OA : OpenApiSource} cfg c ops :
  from_config cfg = Ok c -> names_unique (tools c) ->
  ops_unique ops (mkAbsCatalog (tools c) ∅) ->
  let a := abs_ops ops (mkAbsCatalog (tools c) ∅) in
  tools (run_ops ops c) = render (ov a) <$> raw a /\
  description_overrides (run_ops ops c) = ov a /\
  (forall t, t ∈ raw a ->
     default (description (render (ov a) t)) (original_description (wire t) (run_ops ops c))
     = description t).
Proof.
  intros Hc Hu Ho a.
  assert (represents (run_ops ops c) a) as R.
  { by apply represents_ops; [eapply represents_from_config|]. }
  split; [apply R|]. split; [apply R|]. intros t Ht. unfold original_description.
  destruct (ov a !! wire t) as [d|] eqn:E.
  - by rewrite (rep_originals _ _ R t Ht) by (by rewrite E).
  - rewrite (rep_stale _ _ R _ E). cbn. unfold render. by rewrite E.
Qed.

Definition no_openapi : OpenApiSource :=
  {| fs_read := fun _ => Err "not found"; discover_endpoints := fun _ _ => Ok [] |}.

Definition demo_api_config : GatewayConfig :=
  with_api_resources GatewayConfig_default
    [mkApiResource "exa" "search" "" "https://api.exa.ai" "" AuthNone None
       [mkToolEndpoint "web" Get "/web" "upstream web";
        mkToolEndpoint "find" Post "/find" "upstream find"] None SecurityConfig_default None].

Definition demo_ops : list catalog_op :=
  [OpSet "search__exa__web" "first"; OpExtend [demo_tool "docs" "ctx" "read"];
   OpSet "search__exa__web" "second"; OpReplace [demo_tool "docs" "ctx" "open"] {["ctx"]}].

Lemma overrides_refine_witness :
  exists c, from_config (OA := no_openapi) demo_api_config = Ok c /\
    let a := abs_ops demo_ops (mkAbsCatalog (tools c) ∅) in
    (description <$> raw a) = ["about open"; "upstream find"; "upstream web"] /\
    (description <$> tools (run_ops demo_ops c)) = ["about open"; "upstream find"; "second"] /\
    tools (run_ops demo_ops c) = render (ov a) <$> raw a.
Proof.
  eexists. split; [vm_compute; reflexivity|]. split; [vm_compute; reflexivity|].
  split; [vm_compute; reflexivity|].
  apply (overrides_refine (OA := no_openapi) demo_api_config);
    [vm_compute; reflexivity
    | apply (bool_decide_unpack _); vm_compute; exact I
    | repeat split; apply (bool_decide_unpack _); vm_compute; exact I].
Defined.

(** Setting an override and removing it again gives back the
    catalog's tools as they were, for a tool without an earlier override. *)
Theorem set_then_remove c a w d :
  represents c a -> ov a !! w = None ->
  tools (remove_description_override w (set_description_override w d c)) = tools c /\
  description_overrides (remove_description_override w (set_description_override w d c))
  = description_overrides c.
Proof.
  intros R Hn. pose proof (represents_remove _ _ w (represents_set _ _ w d R)) as R'.
  assert (delete w (<[w := d]> (ov a)) = ov a) as E by by rewrite delete_insert_id.
  split.
  - by rewrite (rep_tools _ _ R'), (rep_tools _ _ R); cbn; rewrite E.
  - by rewrite (rep_overrides _ _ R'), (rep_overrides _ _ R); cbn; rewrite E.
Qed.

Lemma set_then_remove_witness :
  exists c, from_config (OA := no_openapi) demo_api_config = Ok c /\
    tools (remove_description_override "search__exa__web"
             (set_description_override "search__exa__web" "new" c)) = tools c.
Proof.
  eexists. split; [vm_compute; reflexivity|].
  eapply (set_then_remove _ (mkAbsCatalog _ ∅));
    [eapply (represents_from_config (OA := no_openapi) demo_api_config);
       [vm_compute; reflexivity | apply (bool_decide_unpack _); vm_compute; exact I]
    | reflexivity].
Defined.
