(* ===== verification/KeyPool.v ===== *)
(** * Upstream key pools ([src/src/keys/])

    A pool leases upstream keys: [acquire] skips the keys that are cooling down,
    lets the load-balancing strategy choose among the others and returns a guard
    that gives the lease back when it is dropped.  Every operation holds the
    pool's mutex, so each one is an atomic function on [PoolState]; the clock is
    an argument.  Random numbers come from the [rand] crate and are an argument
    of [select] ([Draw]).  The EWMA uses binary64 arithmetic ([SpecFloat]), and
    [u32] counters wrap as they do in a release build. *)

From S2P Require Import Prelude RustStr Naming Errors Config Secrets.
From Stdlib Require Import SpecFloat.

Local Open Scope string_scope.
Local Open Scope list_scope.
Local Open Scope Z_scope.
Local Open Scope gateway_scope.

(** ** Keys and their states ([keys/state.rs]) *)

(** A [KeyId] is its number; it is printed in four digits at least. *)
Definition KeyId_to_string (id : Z) : string :=
  let digits := fmt_Z id in
  "key#" +:+ String.concat "" (repeat "0" (4 - String.length digits)) +:+ digits.

Inductive KeyState :=
| Available
| CoolingUntil (until : Z)
| Leased (count : Z).

Definition active_count (s : KeyState) : Z := match s with Leased c => c | _ => 0 end.
Definition is_cooling (s : KeyState) : bool :=
  match s with CoolingUntil _ => true | _ => false end.

(** [keys/error.rs] *)
Inductive KeyPoolError :=
| NoAvailableKey
| NotFound (id : Z)
| InvalidStrategy
| InvalidConfig (message : string).

Definition KeyPoolError_to_string (e : KeyPoolError) : string :=
  match e with
  | NoAvailableKey => "no available upstream key in pool"
  | NotFound id => "upstream key not found: " +:+ KeyId_to_string id
  | InvalidStrategy => "invalid load balance strategy"
  | InvalidConfig m => "invalid key pool config: " +:+ m
  end.

Definition key_pool_error_code (e : KeyPoolError) : ErrorCode :=
  match e with
  | NoAvailableKey | NotFound _ | InvalidStrategy => ProxyRetryExhausted
  | InvalidConfig _ => ConfigInvalidYaml
  end.

Definition key_pool_to_asterlane (e : KeyPoolError) : AsterlaneError :=
  internal (key_pool_error_code e) (KeyPoolError_to_string e).

(** ** Strategies ([keys/strategy.rs]) *)

Record KeyCandidate := mkKeyCandidate {
  kc_id : Z;
  kc_weight : Z;
  kc_active : Z;
  kc_ewma : option Z;
}.

(** One draw of the random generator: an index below the length, and an index
    by weight, [None] when [WeightedIndex::new] refuses the weights. *)
Record Draw := mkDraw {
  random_range : nat -> nat;
  weighted_index : list Z -> option nat;
}.

Record DrawLaws (d : Draw) : Prop := {
  random_range_bound n : (0 < n)%nat -> (random_range d n < n)%nat;
  weighted_index_bound ws i : weighted_index d ws = Some i -> (i < length ws)%nat;
}.

Definition select (s : LoadBalanceStrategy) (d : Draw) (candidates : list KeyCandidate)
    (cursor : Z) : option KeyCandidate * Z :=
  match candidates with
  | [] => (None, cursor)
  | first :: _ =>
      match s with
      | RoundRobin =>
          (candidates !! Z.to_nat (cursor mod Z.of_nat (length candidates)),
           wrapping 64 (cursor + 1))
      | Random => (candidates !! random_range d (length candidates), cursor)
      | LeastRequests => (min_by_key kc_active candidates, cursor)
      | FastestResponse =>
          (min_by_key (fun c => default u32_max (kc_ewma c)) candidates, cursor)
      | Weighted =>
          match weighted_index d ((fun c => Z.max (kc_weight c) 1) <$> candidates) with
          | None => (Some first, cursor)
          | Some i => (candidates !! i, cursor)
          end
      end
  end.

(** ** The pool ([keys/pool.rs]) *)

Definition DEFAULT_COOLDOWN : Z := from_secs 60.

Record KeyEntry := mkKeyEntry {
  ke_state : KeyState;
  ke_weight : Z;
  ke_ewma : option Z;
}.

Definition KeyEntry_new (weight : Z) : KeyEntry := mkKeyEntry Available weight None.
Definition with_state (e : KeyEntry) (s : KeyState) : KeyEntry :=
  mkKeyEntry s (ke_weight e) (ke_ewma e).

Record PoolState := mkPoolState { entries : gmap Z KeyEntry; rr_cursor : Z }.

Definition PoolState_new : PoolState := mkPoolState ∅ 0.

Definition expire_entry (now : Z) (e : KeyEntry) : KeyEntry :=
  match ke_state e with
  | CoolingUntil until => if until <=? now then with_state e Available else e
  | _ => e
  end.

Definition expire_cooling (now : Z) (st : PoolState) : PoolState :=
  mkPoolState (expire_entry now <$> entries st) (rr_cursor st).

Definition lease (s : KeyState) : KeyState :=
  match s with
  | Available => Leased 1
  | Leased count => Leased (wrapping 32 (count + 1))
  | CoolingUntil _ => s
  end.

Definition release_state (s : KeyState) : KeyState :=
  match s with
  | Leased count => if count =? 1 then Available else Leased (wrapping 32 (count - 1))
  | other => other
  end.

(** Dropping a guard. *)
Definition release (id : Z) (st : PoolState) : PoolState :=
  mkPoolState (alter (fun e => with_state e (release_state (ke_state e))) id (entries st))
    (rr_cursor st).

Definition pool_insert (id weight : Z) (st : PoolState) : PoolState :=
  mkPoolState (<[id := KeyEntry_new weight]> (entries st)) (rr_cursor st).

Definition candidate_of (p : Z * KeyEntry) : KeyCandidate :=
  mkKeyCandidate p.1 (ke_weight p.2) (active_count (ke_state p.2)) (ke_ewma p.2).

Definition id_leb (a b : KeyCandidate) : bool := kc_id a <=? kc_id b.

(** [iteration] is the order in which the hash map yields its entries. *)
Definition candidates_of (iteration : list (Z * KeyEntry)) : list KeyCandidate :=
  sort_by id_leb
    (candidate_of <$> List.filter (fun p => negb (is_cooling (ke_state p.2))) iteration).

Definition candidates (st : PoolState) : list KeyCandidate :=
  candidates_of (map_to_list (entries st)).

Definition acquire (s : LoadBalanceStrategy) (d : Draw) (now : Z) (st : PoolState)
    : PoolState * result KeyPoolError Z :=
  let st := expire_cooling now st in
  let cs := candidates st in
  match cs with
  | [] => (st, Err NoAvailableKey)
  | _ :: _ =>
      let '(selected, cursor) := select s d cs (rr_cursor st) in
      let st := mkPoolState (entries st) cursor in
      match selected with
      | None => (st, Err NoAvailableKey)
      | Some c =>
          match entries st !! kc_id c with
          | Some e =>
              (mkPoolState (<[kc_id c := with_state e (lease (ke_state e))]> (entries st)) cursor,
               Ok (kc_id c))
          | None => (st, Err (NotFound (kc_id c)))
          end
      end
  end.

(** [Instant::now() + duration] panics out of range, with the lock held. *)
Definition mark_cooling (id : Z) (retry_after : option Z) (now : Z) (st : PoolState)
    : outcome PoolState :=
  let duration := default DEFAULT_COOLDOWN retry_after in
  match entries st !! id with
  | None => Returns st
  | Some e =>
      match instant_checked_add now duration with
      | Some until =>
          Returns (mkPoolState (<[id := with_state e (CoolingUntil until)]> (entries st))
                     (rr_cursor st))
      | None => Panics
      end
  end.

(** [f64] as a binary64 number; [f64_as_u32] truncates and saturates. *)
Definition f64_of_Z (z : Z) : spec_float := binary_normalize 53 1024 z 0 false.
Definition EWMA_ALPHA : spec_float := S754_finite false 5404319552844595 (-54).
Definition f64_as_u32 (f : spec_float) : Z :=
  match f with
  | S754_finite false m e =>
      Z.min u32_max (if 0 <=? e then Z.pos m * 2 ^ e else Z.pos m / 2 ^ (- e))
  | S754_infinity false => u32_max
  | _ => 0
  end.

Definition ewma_next (prev ms : Z) : Z :=
  f64_as_u32
    (SFadd 53 1024 (SFmul 53 1024 EWMA_ALPHA (f64_of_Z ms))
       (SFmul 53 1024 (SFsub 53 1024 (f64_of_Z 1) EWMA_ALPHA) (f64_of_Z prev))).

Definition record_latency (id latency : Z) (st : PoolState) : PoolState :=
  let ms := Z.min (as_millis latency) u32_max in
  mkPoolState
    (alter (fun e => mkKeyEntry (ke_state e) (ke_weight e)
                       (Some (match ke_ewma e with
                              | Some prev => ewma_next prev ms
                              | None => ms
                              end))) id (entries st))
    (rr_cursor st).

Definition is_available (id now : Z) (st : PoolState) : PoolState * bool :=
  match entries st !! id with
  | None => (st, false)
  | Some e =>
      let e := expire_entry now e in
      (mkPoolState (<[id := e]> (entries st)) (rr_cursor st), negb (is_cooling (ke_state e)))
  end.

Definition restore_runtime (id : Z) (cooling_remaining ewma : option Z) (now : Z)
    (st : PoolState) : outcome PoolState :=
  match entries st !! id with
  | None => Returns st
  | Some e =>
      state ← match cooling_remaining with
              | Some remaining =>
                  if remaining =? 0 then Returns (ke_state e)
                  else match instant_checked_add now remaining with
                       | Some until => Returns (CoolingUntil until)
                       | None => Panics
                       end
              | None => Returns (ke_state e)
              end;
      Returns (mkPoolState (<[id := mkKeyEntry state (ke_weight e) ewma]> (entries st))
                 (rr_cursor st))
  end.

Record KeyStatusSnapshot := mkKeyStatusSnapshot {
  ss_key_id : Z;
  ss_state : KeyState;
  ss_cooling_remaining : option Z;
  ss_weight : Z;
  ss_ewma : option Z;
}.

Definition status_of (now : Z) (p : Z * KeyEntry) : KeyStatusSnapshot :=
  mkKeyStatusSnapshot p.1 (ke_state p.2)
    (match ke_state p.2 with
     | CoolingUntil until => if now <=? until then Some (until - now) else None
     | _ => None
     end) (ke_weight p.2) (ke_ewma p.2).

Definition snapshot (now : Z) (st : PoolState) : PoolState * list KeyStatusSnapshot :=
  let st := expire_cooling now st in
  (st, sort_by (fun a b => ss_key_id a <=? ss_key_id b)
         (status_of now <$> map_to_list (entries st))).

Definition pool_len (st : PoolState) : nat := size (entries st).

Definition build (ks : list (Z * Z)) : PoolState :=
  fold_left (fun st k => pool_insert k.1 k.2 st) ks PoolState_new.

(** ** Pools of the resources ([keys/registry.rs]) *)

Record ResourceKeyPool := mkResourceKeyPool {
  rp_pool : PoolState;
  rp_strategy : LoadBalanceStrategy;
  refs : list string;
}.

Fixpoint insert_from (i : Z) (ks : list (string * Z)) (st : PoolState) : PoolState :=
  match ks with
  | [] => st
  | (_, w) :: ks => insert_from (i + 1) ks (pool_insert (i + 1) w st)
  end.

Definition ResourceKeyPool_new (s : LoadBalanceStrategy) (ks : list (string * Z))
    : ResourceKeyPool :=
  mkResourceKeyPool (insert_from 0 ks PoolState_new) s (fst <$> ks).

Definition secret_ref_for (id : Z) (rp : ResourceKeyPool) : option string :=
  if id <? 1 then None else refs rp !! Z.to_nat (id - 1).

Notation KeyPoolRegistry := (gmap string ResourceKeyPool).

Definition check_refs (resource_id : string) (ks : list PoolKeyConfig)
    : result KeyPoolError () :=
  if forallb (fun k => is_Ok (parse_ref (secret_ref k))) ks then Ok tt
  else Err (InvalidConfig ("resource " +:+ resource_id
                             +:+ ": key_pool ref is not a valid secret:// URI")).

Definition pool_for_resource (r : ApiResource) : result KeyPoolError (option ResourceKeyPool) :=
  match key_pool r with
  | None => Ok None
  | Some pc =>
      if bool_decide (keys pc = [])
      then Err (InvalidConfig ("resource " +:+ ar_id r +:+ ": key_pool.keys must not be empty"))
      else if auth_is_none (ar_auth r)
      then Err (InvalidConfig ("resource " +:+ ar_id r +:+ ": key_pool requires auth type bearer "
                                 +:+ "or header (injection shape)"))
      else
        _ ← check_refs (ar_id r) (keys pc);
        Ok (Some (ResourceKeyPool_new (strategy pc)
                    ((fun k => (secret_ref k, weight k)) <$> keys pc)))
  end.

Fixpoint pools_from (rs : list ApiResource) (pools : KeyPoolRegistry)
    : result KeyPoolError KeyPoolRegistry :=
  match rs with
  | [] => Ok pools
  | r :: rs =>
      p ← pool_for_resource r;
      pools_from rs (match p with Some p => <[ar_id r := p]> pools | None => pools end)
  end.

Definition registry_from_config (c : GatewayConfig)
    : result KeyPoolError (option KeyPoolRegistry) :=
  pools ← pools_from (api_resources c) ∅;
  Ok (if bool_decide (pools = ∅) then None else Some pools).

(** The map from reference to snapshot; a later entry replaces an earlier one. *)
Definition by_ref (old : ResourceKeyPool) (snaps : list KeyStatusSnapshot)
    : gmap string KeyStatusSnapshot :=
  fold_left (fun m s => match secret_ref_for (ss_key_id s) old with
                        | Some r => <[r := s]> m
                        | None => m
                        end) snaps ∅.

(** [now i] is the clock when the [i]-th key is restored. *)
Fixpoint restore_refs (i : nat) (rs : list string) (old : gmap string KeyStatusSnapshot)
    (now : nat -> Z) (st : PoolState) : outcome PoolState :=
  match rs with
  | [] => Returns st
  | r :: rs =>
      st ← match old !! r with
           | Some s => restore_runtime (Z.of_nat i + 1) (ss_cooling_remaining s) (ss_ewma s)
                         (now i) st
           | None => Returns st
           end;
      restore_refs (S i) rs old now st
  end.

(** Carrying one resource's pool over; [snap_now] is the clock of the snapshot.
    Returns the new pool and the old one, whose expired keys the snapshot woke. *)
Definition carry_pool (old new : ResourceKeyPool) (snap_now : Z) (now : nat -> Z)
    : outcome (ResourceKeyPool * ResourceKeyPool) :=
  let '(old_st, snaps) := snapshot snap_now (rp_pool old) in
  st ← restore_refs 0 (refs new) (by_ref old snaps) now (rp_pool new);
  Returns (mkResourceKeyPool st (rp_strategy new) (refs new),
           mkResourceKeyPool old_st (rp_strategy old) (refs old)).

Fixpoint carry_all (ids : list string) (snap_now : string -> Z) (now : string -> nat -> Z)
    (new old : KeyPoolRegistry) : outcome (KeyPoolRegistry * KeyPoolRegistry) :=
  match ids with
  | [] => Returns (new, old)
  | id :: ids =>
      match new !! id, old !! id with
      | Some np, Some op =>
          '(np, op) ← carry_pool op np (snap_now id) (now id);
          carry_all ids snap_now now (<[id := np]> new) (<[id := op]> old)
      | _, _ => carry_all ids snap_now now new old
      end
  end.

Definition carry_runtime_from (snap_now : string -> Z) (now : string -> nat -> Z)
    (new old : KeyPoolRegistry) : outcome (KeyPoolRegistry * KeyPoolRegistry) :=
  carry_all (fst <$> map_to_list new) snap_now now new old.

(** ** Lemmas: candidates *)

Lemma id_leb_total a b : id_leb a b = false -> id_leb b a = true.
Proof. unfold id_leb. lia. Qed.

Lemma id_leb_trans a b c : id_leb a b = true -> id_leb b c = true -> id_leb a c = true.
Proof. unfold id_leb. lia. Qed.

Lemma candidates_elem st c :
  c ∈ candidates st <->
  exists e, entries st !! kc_id c = Some e /\ is_cooling (ke_state e) = false /\
    c = candidate_of (kc_id c, e).
Proof.
  unfold candidates, candidates_of. rewrite sort_by_elem, list_elem_of_fmap.
  setoid_rewrite filter_elem. setoid_rewrite elem_of_map_to_list'. split.
  - intros ([id e] & -> & He & Hc). cbn in *. exists e. by rewrite negb_true_iff in Hc.
  - intros (e & He & Hc & ->). exists (kc_id c, e). by rewrite negb_true_iff.
Qed.

Lemma candidates_of_ids_NoDup st l :
  l ≡ₚ map_to_list (entries st) ->
  NoDup (kc_id <$> (candidate_of <$> List.filter (fun p => negb (is_cooling (ke_state p.2))) l)).
Proof.
  intros Hp. rewrite <- list_fmap_compose.
  assert (NoDup l.*1) as Hnd.
  { rewrite Hp. apply NoDup_fst_map_to_list. }
  clear Hp. induction l as [|p l IH]; cbn; [constructor|].
  apply NoDup_cons in Hnd as [Hn Hnd]. case_if; cbn; [|by auto].
  apply NoDup_cons. split; [|by auto].
  intros (q & Hq & Hin)%list_elem_of_fmap. cbn in Hq. apply Hn.
  apply filter_elem in Hin as [Hin _]. rewrite Hq. by apply list_elem_of_fmap_2.
Qed.

Lemma candidates_NoDup st : NoDup (kc_id <$> candidates st).
Proof.
  unfold candidates, candidates_of. rewrite (sort_by_perm id_leb _).
  by apply (candidates_of_ids_NoDup st).
Qed.

(** A chosen candidate is one of the candidates. *)
Lemma select_elem s d cs cursor c cursor' :
  select s d cs cursor = (Some c, cursor') -> c ∈ cs.
Proof.
  unfold select. destruct cs as [|x cs]; [done|].
  destruct s; intros H; try (injection H as H _).
  - by eapply list_elem_of_lookup_2.
  - by eapply list_elem_of_lookup_2.
  - by apply (min_by_key_Some kc_active (x :: cs)) in H as [H _].
  - by apply (min_by_key_Some (fun c => default u32_max (kc_ewma c)) (x :: cs)) in H as [H _].
  - case_match; injection H as H _; [by eapply list_elem_of_lookup_2|].
    subst. apply list_elem_of_here.
Qed.

(** A choice is made whenever there is a candidate. *)
Lemma select_total s d cs cursor :
  DrawLaws d -> cs <> [] -> exists c cursor', select s d cs cursor = (Some c, cursor').
Proof.
  intros D Hne. destruct cs as [|x cs]; [done|].
  assert (forall (i : nat), (i < length (x :: cs))%nat -> is_Some ((x :: cs) !! i)) as Hin.
  { intros i. apply lookup_lt_is_Some_2. }
  unfold select. destruct s.
  - destruct (Hin (Z.to_nat (cursor mod Z.of_nat (length (x :: cs))))) as [c ->]; [|eauto].
    pose proof (Z.mod_pos_bound cursor (Z.of_nat (length (x :: cs))) ltac:(cbn; lia)). lia.
  - destruct (Hin (random_range d (length (x :: cs)))) as [c ->]; [|eauto].
    apply (random_range_bound _ D). cbn. lia.
  - destruct (min_by_key kc_active (x :: cs)) eqn:E; [eauto|].
    by apply min_by_key_None in E.
  - destruct (min_by_key (fun c => default u32_max (kc_ewma c)) (x :: cs)) eqn:E; [eauto|].
    by apply min_by_key_None in E.
  - destruct (weighted_index _ _) as [i|] eqn:E; [|eauto].
    apply (weighted_index_bound _ D) in E. rewrite length_fmap in E.
    destruct (Hin i E) as [c ->]. eauto.
Qed.

(** What [acquire] does, in one statement: the pool after the expiry of due
    cooldowns decides. *)
Lemma acquire_cases s d now st :
  DrawLaws d ->
  (candidates (expire_cooling now st) = [] /\
   acquire s d now st = (expire_cooling now st, Err NoAvailableKey)) \/
  exists c cursor' e,
    select s d (candidates (expire_cooling now st)) (rr_cursor st) = (Some c, cursor') /\
    entries (expire_cooling now st) !! kc_id c = Some e /\
    is_cooling (ke_state e) = false /\ c = candidate_of (kc_id c, e) /\
    acquire s d now st =
      (mkPoolState (<[kc_id c := with_state e (lease (ke_state e))]>
                      (entries (expire_cooling now st))) cursor', Ok (kc_id c)).
Proof.
  intros D. unfold acquire.
  destruct (candidates (expire_cooling now st)) as [|x cs] eqn:Ec; [by left|]. right.
  destruct (select_total s d (x :: cs) (rr_cursor (expire_cooling now st)) D) as (c & cur & Hs);
    [done|].
  assert (c ∈ candidates (expire_cooling now st)) as Hin.
  { rewrite Ec. by eapply select_elem. }
  apply candidates_elem in Hin as (e & He & Hcool & Hc).
  exists c, cur, e. cbv zeta. rewrite Hs. cbn [entries]. by rewrite He.
Qed.

Lemma expire_entry_state now e :
  is_cooling (ke_state (expire_entry now e)) = false <->
  forall until, ke_state e = CoolingUntil until -> until <= now.
Proof.
  unfold expire_entry. destruct (ke_state e) as [|u|n] eqn:E; rewrite ?E.
  - naive_solver.
  - destruct (Z.leb_spec u now); cbn; rewrite ?E; cbn.
    + split; [|done]. intros _ until [= <-]. lia.
    + split; [done|]. intros K. specialize (K u eq_refl). lia.
  - naive_solver.
Qed.

(** ** Properties: acquiring *)

(** C4: [acquire] hands out a key exactly when one is not cooling (a
    cooldown that is due counts as over), it never hands out a cooling one, it
    changes no other key beyond waking due cooldowns, and its only error is
    [NoAvailableKey], which means that every key of the pool cools past now. *)
Theorem acquire_spec s d now st :
  DrawLaws d ->
  match acquire s d now st with
  | (st', Ok id) => exists e,
      entries st !! id = Some e /\
      (forall until, ke_state e = CoolingUntil until -> until <= now) /\
      entries st' !! id = Some (with_state (expire_entry now e)
                                  (lease (ke_state (expire_entry now e)))) /\
      forall j, j <> id -> entries st' !! j = expire_entry now <$> entries st !! j
  | (st', Err err) =>
      err = NoAvailableKey /\ st' = expire_cooling now st /\
      forall id e, entries st !! id = Some e ->
        exists until, ke_state e = CoolingUntil until /\ now < until
  end.
Proof.
  intros D. destruct (acquire_cases s d now st D)
    as [[Hnil ->]|(c & cur & e & _ & He & Hcool & _ & ->)]; cbn in *.
  - split; [done|]. split; [done|]. intros id e He.
    destruct (is_cooling (ke_state (expire_entry now e))) eqn:Ec.
    + destruct (ke_state e) as [|u|n] eqn:Es;
        [by unfold expire_entry in Ec; rewrite Es in Ec; cbn in Ec; rewrite Es in Ec| |
         by unfold expire_entry in Ec; rewrite Es in Ec; cbn in Ec; rewrite Es in Ec].
      exists u. split; [done|]. apply Z.nle_gt. intros Hle.
      enough (is_cooling (ke_state (expire_entry now e)) = false) by congruence.
      apply expire_entry_state. intros u'. rewrite Es. by intros [= <-].
    + exfalso. assert (candidate_of (id, expire_entry now e) ∈ candidates (expire_cooling now st))
        as Hin; [|rewrite Hnil in Hin; set_solver].
      apply candidates_elem. exists (expire_entry now e). cbn.
      by rewrite lookup_fmap, He.
  - rewrite lookup_fmap in He. destruct (entries st !! kc_id c) as [e0|] eqn:E0; [|done].
    cbn in He. injection He as <-. exists e0. split; [done|].
    split; [by apply expire_entry_state|]. split; [by rewrite lookup_insert_eq|].
    intros j Hj. by rewrite lookup_insert_ne, lookup_fmap by done.
Qed.

Definition first_draw : Draw := mkDraw (fun _ => 0%nat) (fun _ => None).
Lemma first_draw_laws : DrawLaws first_draw.
Proof. split; cbn; [lia | done]. Qed.

Definition demo_pool : PoolState := build [(1, 1); (2, 5); (3, 0)].

Lemma acquire_spec_witness :
  exists st', acquire LeastRequests first_draw 10 demo_pool = (st', Ok 1) /\
    exists e, entries demo_pool !! 1 = Some e /\
      entries st' !! 1 = Some (with_state (expire_entry 10 e)
                                 (lease (ke_state (expire_entry 10 e)))).
Proof.
  pose proof (acquire_spec LeastRequests first_draw 10 demo_pool first_draw_laws) as H.
  destruct (acquire LeastRequests first_draw 10 demo_pool) as [st' res] eqn:E.
  assert (res = Ok 1) as -> by (apply (f_equal snd) in E; vm_compute in E; by rewrite <- E).
  exists st'. split; [done|]. destruct H as (e & H1 & _ & H2 & _). eauto.
Defined.

(** The candidates, and with them every deterministic choice, do not
    depend on the order in which the hash map yields its entries. *)
Theorem candidates_order_independent st iteration :
  iteration ≡ₚ map_to_list (entries st) ->
  candidates_of iteration = candidates st.
Proof.
  intros Hp. unfold candidates, candidates_of.
  apply sort_by_unique; [exact id_leb_total | exact id_leb_trans | |].
  - intros x y Hx Hy H1 H2.
    apply (NoDup_key_inj kc_id _ x y (candidates_of_ids_NoDup st iteration Hp) Hx Hy).
    unfold id_leb in *. lia.
  - clear -Hp. induction Hp; cbn; repeat case_if; cbn; try done;
      solve [by constructor | by etransitivity].
Qed.

Lemma candidates_order_independent_witness :
  candidates_of (rev (map_to_list (entries demo_pool))) = candidates demo_pool.
Proof. apply candidates_order_independent. symmetry. apply Permutation_rev. Defined.

(** The first element with the least key. *)
Lemma min_by_key_first {A} (key : A -> Z) l x :
  min_by_key key l = Some x ->
  exists l1 l2, l = l1 ++ x :: l2 /\ forall y, y ∈ l1 -> key x < key y.
Proof.
  revert x. induction l as [|a l IH]; cbn; intros x H; [done|].
  destruct (min_by_key key l) as [b|] eqn:E.
  - destruct (Z.leb_spec (key a) (key b)); injection H as <-.
    + exists [], l. split; [done|]. set_solver.
    + destruct (IH b eq_refl) as (l1 & l2 & -> & Hl). exists (a :: l1), l2.
      split; [done|]. intros y [->|Hy]%elem_of_cons; auto.
  - injection H as <-. exists [], l. split; [done|]. set_solver.
Qed.

Lemma min_by_key_candidates (key : KeyCandidate -> Z) st x c :
  min_by_key key (candidates st) = Some x -> c ∈ candidates st ->
  key x < key c \/ (key x = key c /\ kc_id x <= kc_id c).
Proof.
  intros H Hc. pose proof (proj2 (min_by_key_Some _ _ _ H) c Hc) as Hmin.
  destruct (decide (key x = key c)) as [E|]; [right|left; lia]. split; [done|].
  destruct (min_by_key_first _ _ _ H) as (l1 & l2 & Hl & Hl1).
  assert (StronglySorted (fun a b => id_leb a b = true) (candidates st)) as Hs.
  { apply Sorted_StronglySorted; [intros ? ? ?; apply id_leb_trans|].
    apply sort_by_Sorted, id_leb_total. }
  rewrite Hl in Hc, Hs. apply elem_of_app in Hc as [Hc|[->|Hc]%elem_of_cons]; [|lia|].
  - specialize (Hl1 c Hc). lia.
  - apply StronglySorted_app in Hs as (_ & _ & Hs). apply StronglySorted_inv in Hs as [_ Hs].
    rewrite Forall_forall in Hs. specialize (Hs c Hc). unfold id_leb in Hs. lia.
Qed.

(** The measure that a strategy minimises, if it minimises one. *)
Definition strategy_key (s : LoadBalanceStrategy) : option (KeyCandidate -> Z) :=
  match s with
  | LeastRequests => Some kc_active
  | FastestResponse => Some (fun c => default u32_max (kc_ewma c))
  | _ => None
  end.

(** [LeastRequests] and [FastestResponse] return a key whose
    number of leases, respectively latency (no sample counts as the slowest), is
    least among the available keys, and among equals the one with the least id. *)
Theorem acquire_minimises s d now st st' id key :
  DrawLaws d -> strategy_key s = Some key ->
  acquire s d now st = (st', Ok id) ->
  exists x, kc_id x = id /\ x ∈ candidates (expire_cooling now st) /\
    forall c, c ∈ candidates (expire_cooling now st) ->
      key x < key c \/ (key x = key c /\ id <= kc_id c).
Proof.
  intros D Hk H. destruct (acquire_cases s d now st D)
    as [[_ K]|(c & cur & e & Hs & _ & _ & _ & K)]; rewrite K in H; [done|].
  injection H as _ <-. exists c. split; [done|]. split; [by eapply select_elem|].
  intros c' Hc'. apply (min_by_key_candidates key (expire_cooling now st)); [|done].
  unfold select in Hs. destruct (candidates _) as [|y ys] eqn:Ec; [done|].
  rewrite <- Ec in *. by destruct s; cbn in Hk; simplify_eq.
Qed.

Lemma acquire_minimises_witness :
  exists x, kc_id x = 2 /\
    x ∈ candidates (expire_cooling 0 (record_latency 2 (from_secs 1) demo_pool)).
Proof.
  edestruct (acquire_minimises FastestResponse first_draw 0
    (record_latency 2 (from_secs 1) demo_pool)) as (x & H1 & H2 & _);
    [apply first_draw_laws | reflexivity | vm_compute; reflexivity | eauto].
Defined.

(** ** Properties: round robin *)

Definition no_cooling (st : PoolState) : Prop :=
  forall id e, entries st !! id = Some e -> is_cooling (ke_state e) = false.

(** The ids of the pool in increasing order. *)
Definition pool_ids (st : PoolState) : list Z :=
  sort_by Z.leb (map_to_list (entries st)).*1.

Lemma expire_entry_id now e : is_cooling (ke_state e) = false -> expire_entry now e = e.
Proof. unfold expire_entry. by destruct (ke_state e). Qed.

Lemma expire_no_cooling now st : no_cooling st -> expire_cooling now st = st.
Proof.
  intros H. destruct st as [m c]. unfold expire_cooling. cbn. f_equal.
  apply map_eq. intros id. rewrite lookup_fmap.
  destruct (m !! id) as [e|] eqn:E; cbn; [|done].
  by rewrite expire_entry_id by (by apply (H id)).
Qed.

Lemma sort_Z_unique l1 l2 : NoDup l1 -> l1 ≡ₚ l2 -> sort_by Z.leb l1 = sort_by Z.leb l2.
Proof. intros _. apply sort_by_unique; lia. Qed.

Lemma sort_fmap_id (l : list KeyCandidate) :
  kc_id <$> sort_by id_leb l = sort_by Z.leb (kc_id <$> l).
Proof.
  unfold sort_by. induction l as [|x l IH]; [done|]. rewrite fmap_cons. cbn [foldr].
  rewrite <- IH. generalize (foldr (insert_sorted id_leb) [] l). clear.
  induction l as [|y l IH]; cbn; [done|]. unfold id_leb at 1.
  destruct (kc_id x <=? kc_id y); cbn; [done|]. by rewrite IH.
Qed.

Lemma candidates_ids st : no_cooling st -> kc_id <$> candidates st = pool_ids st.
Proof.
  intros H. unfold candidates, candidates_of, pool_ids. rewrite sort_fmap_id. f_equal.
  rewrite <- list_fmap_compose.
  rewrite (filter_ext_elem _ (fun _ => true)).
  - induction (map_to_list (entries st)) as [|p l IH]; cbn; [done|]. by rewrite IH.
  - intros [id e] Hin. apply elem_of_map_to_list in Hin. cbn. by rewrite (H id e Hin).
Qed.

Lemma pool_ids_insert st id e e' cur :
  entries st !! id = Some e ->
  pool_ids (mkPoolState (<[id := e']> (entries st)) cur) = pool_ids st.
Proof.
  intros He. unfold pool_ids. cbn. apply sort_Z_unique; [apply NoDup_fst_map_to_list|].
  apply NoDup_Permutation; [apply NoDup_fst_map_to_list..|].
  intros x. rewrite !list_elem_of_fmap. split.
  - intros ([i v] & -> & Hin). apply elem_of_map_to_list in Hin. cbn.
    destruct (decide (i = id)) as [->|Hne].
    + exists (id, e). split; [done|]. by apply elem_of_map_to_list.
    + rewrite lookup_insert_ne in Hin by done. exists (i, v). by rewrite elem_of_map_to_list.
  - intros ([i v] & -> & Hin). apply elem_of_map_to_list in Hin. cbn.
    destruct (decide (i = id)) as [->|Hne].
    + exists (id, e'). by rewrite elem_of_map_to_list, lookup_insert_eq.
    + exists (i, v). by rewrite elem_of_map_to_list, lookup_insert_ne.
Qed.

Lemma lease_not_cooling s : is_cooling s = false -> is_cooling (lease s) = false.
Proof. by destruct s. Qed.

(** One round-robin step in a pool without cooldowns. *)
Lemma acquire_round_robin d now st :
  DrawLaws d -> no_cooling st -> entries st <> ∅ ->
  exists st' id, acquire RoundRobin d now st = (st', Ok id) /\
    pool_ids st !! Z.to_nat (rr_cursor st mod Z.of_nat (length (pool_ids st))) = Some id /\
    pool_ids st' = pool_ids st /\ no_cooling st' /\ entries st' <> ∅ /\
    rr_cursor st' = wrapping 64 (rr_cursor st + 1).
Proof.
  intros D Hno Hne. pose proof (candidates_ids st Hno) as Hids.
  destruct (acquire_cases RoundRobin d now st D)
    as [[Hnil _]|(c & cur & e & Hs & He & Hcool & _ & K)];
    rewrite expire_no_cooling in * by done.
  - exfalso. rewrite Hnil in Hids. apply (map_choose (M := gmap Z)) in Hne as (id & e & He).
    assert (id ∈ pool_ids st) as Hin; [|rewrite <- Hids in Hin; set_solver].
    unfold pool_ids. rewrite sort_by_elem. apply list_elem_of_fmap.
    exists (id, e). split; [done|]. by apply elem_of_map_to_list.
  - do 2 eexists. split; [exact K|].
    assert (wrapping 64 (rr_cursor st + 1) = cur /\
      candidates st !! Z.to_nat (rr_cursor st mod Z.of_nat (length (candidates st))) = Some c)
      as [Hcur Hget].
    { unfold select in Hs. destruct (candidates st); [done|]. by injection Hs. }
    split; [|split; [by eapply pool_ids_insert|split; [|split]]].
    + rewrite <- Hids, length_fmap, list_lookup_fmap, Hget. done.
    + intros i x. cbn. rewrite lookup_insert_Some. intros [[<- <-]|[_ Hx]]; [|by eapply Hno].
      by apply lease_not_cooling.
    + cbn. apply insert_non_empty.
    + done.
Qed.

(** A run of acquisitions at the given times. *)
Fixpoint acquire_many (s : LoadBalanceStrategy) (d : Draw) (nows : list Z) (st : PoolState)
    : list (result KeyPoolError Z) :=
  match nows with
  | [] => []
  | now :: nows => let '(st, r) := acquire s d now st in r :: acquire_many s d nows st
  end.

(** In a pool of [n] keys without cooldowns, the [i]-th
    round-robin acquisition returns the key at position [(cursor + i) mod n] of
    the ids in increasing order, whatever leases are taken meanwhile. *)
Theorem round_robin_rotation d nows st i :
  DrawLaws d -> no_cooling st -> entries st <> ∅ ->
  0 <= rr_cursor st -> rr_cursor st + Z.of_nat (length nows) < 2 ^ 64 ->
  (i < length nows)%nat ->
  exists id, acquire_many RoundRobin d nows st !! i = Some (Ok id) /\
    pool_ids st !! Z.to_nat ((rr_cursor st + Z.of_nat i) mod Z.of_nat (length (pool_ids st)))
    = Some id.
Proof.
  intros D. revert st i. induction nows as [|now nows IH]; cbn [length acquire_many];
    intros st i Hno Hne H0 Hmax Hi; [lia|].
  destruct (acquire_round_robin d now st D Hno Hne) as (st' & id & -> & Hid & Hids & Hno' & Hne' & Hc).
  rewrite wrapping_small in Hc by lia.
  destruct i as [|i]; [exists id; by rewrite Z.add_0_r|].
  destruct (IH st' i Hno' Hne') as (id' & H1 & H2); [lia..|].
  exists id'. split; [done|]. rewrite Hids, Hc in H2.
  by replace (rr_cursor st + Z.of_nat (S i)) with (rr_cursor st + 1 + Z.of_nat i) by lia.
Qed.

Lemma round_robin_rotation_witness :
  exists id, acquire_many RoundRobin first_draw [0; 1; 2; 3] demo_pool !! 3%nat = Some (Ok id) /\
    pool_ids demo_pool !! 0%nat = Some id.
Proof.
  apply (round_robin_rotation first_draw [0; 1; 2; 3] demo_pool 3);
    [apply first_draw_laws | | vm_compute; discriminate | vm_compute; congruence..| cbn; lia].
  intros id e He. assert (map_Forall (fun _ e => is_cooling (ke_state e) = false)
    (entries demo_pool)) as K by (apply (bool_decide_unpack _); vm_compute; exact I).
  exact (K id e He).
Defined.

(** ** Properties: lease accounting

    The threads of the gateway as a transition system: the pool and the ids of
    the guards that are alive.  [cooling] says whether keys may be put into
    cooldown. *)

Definition held (id : Z) (guards : list Z) : Z := Z.of_nat (count_occ Z.eq_dec guards id).

Inductive pool_step (cooling : bool) : PoolState * list Z -> PoolState * list Z -> Prop :=
| step_acquire s d now st st' id guards :
    DrawLaws d -> Z.of_nat (length guards) < u32_max ->
    acquire s d now st = (st', Ok id) ->
    pool_step cooling (st, guards) (st', id :: guards)
| step_acquire_fails s d now st st' e guards :
    DrawLaws d -> acquire s d now st = (st', Err e) ->
    pool_step cooling (st, guards) (st', guards)
| step_drop st id before after :
    pool_step cooling (st, before ++ id :: after) (release id st, before ++ after)
| step_cool st st' id retry_after now guards :
    cooling = true -> mark_cooling id retry_after now st = Returns st' ->
    pool_step cooling (st, guards) (st', guards)
| step_latency st id latency guards :
    pool_step cooling (st, guards) (record_latency id latency st, guards)
| step_query st id now guards :
    pool_step cooling (st, guards) ((is_available id now st).1, guards)
| step_snapshot st now guards :
    pool_step cooling (st, guards) ((snapshot now st).1, guards).

(** A leased key has a positive count that does not exceed its live guards; when
    no key ever cools, the count is exact. *)
Definition entry_ok (cooling : bool) (n : Z) (e : KeyEntry) : Prop :=
  match ke_state e with
  | Leased c => 1 <= c /\ (if cooling then c <= n else c = n)
  | Available => cooling = true \/ n = 0
  | CoolingUntil _ => cooling = true
  end.

Definition leases_ok (cooling : bool) (s : PoolState * list Z) : Prop :=
  forall id e, entries s.1 !! id = Some e -> entry_ok cooling (held id s.2) e.

Lemma held_bound id guards : 0 <= held id guards <= Z.of_nat (length guards).
Proof. unfold held. pose proof (count_occ_bound Z.eq_dec id guards). lia. Qed.

Lemma held_cons id x guards :
  held id (x :: guards) = held id guards + (if decide (x = id) then 1 else 0).
Proof. unfold held. cbn. destruct (Z.eq_dec x id), (decide (x = id)); congruence || lia. Qed.

Lemma held_remove id x l1 l2 :
  held id (l1 ++ x :: l2) = held id (l1 ++ l2) + (if decide (x = id) then 1 else 0).
Proof.
  unfold held. rewrite !count_occ_app. cbn.
  destruct (Z.eq_dec x id), (decide (x = id)); congruence || lia.
Qed.

Lemma entry_ok_expire cooling n now e :
  entry_ok cooling n e -> entry_ok cooling n (expire_entry now e).
Proof.
  unfold entry_ok, expire_entry. destruct (ke_state e) eqn:E; cbn; rewrite ?E; try done.
  intros ->. case_if; cbn; [by left | by rewrite E].
Qed.

Lemma leases_ok_expire cooling now st guards :
  leases_ok cooling (st, guards) -> leases_ok cooling (expire_cooling now st, guards).
Proof.
  intros H id e He. cbn in *. rewrite lookup_fmap in He.
  apply fmap_Some in He as (e0 & He0 & ->). by apply entry_ok_expire, H.
Qed.

Lemma entry_ok_lease cooling n e :
  0 <= n < u32_max -> is_cooling (ke_state e) = false -> entry_ok cooling n e ->
  entry_ok cooling (n + 1) (with_state e (lease (ke_state e))).
Proof.
  unfold entry_ok. intros Hn Hc. destruct (ke_state e); cbn; [|done|].
  - intros [->| ->]; [split; lia|]. destruct cooling; lia.
  - unfold wrapping. intros [H1 H2].
    assert (count + 1 < 2 ^ 32) by (unfold u32_max in Hn; destruct cooling; lia).
    rewrite Z.mod_small by lia. destruct cooling; lia.
Qed.

Lemma entry_ok_release cooling n e :
  0 <= n -> n + 1 <= u32_max -> entry_ok cooling (n + 1) e ->
  entry_ok cooling n (with_state e (release_state (ke_state e))).
Proof.
  unfold entry_ok. intros Hn Hmax. destruct (ke_state e); cbn; [|done|].
  - intros [->|?]; [by left | lia].
  - intros [H1 H2]. destruct (Z.eqb_spec count 1) as [->|Hne].
    + destruct cooling; [by left | right; lia].
    + unfold wrapping. rewrite Z.mod_small; unfold u32_max in *; destruct cooling; lia.
Qed.

Definition guards_bounded (s : PoolState * list Z) : Prop := Z.of_nat (length s.2) <= u32_max.

Lemma pool_step_ok cooling s s' :
  pool_step cooling s s' -> guards_bounded s -> leases_ok cooling s ->
  leases_ok cooling s' /\ guards_bounded s'.
Proof.
  unfold guards_bounded. destruct 1 as
    [b d now st st' id g D Hlen Ha|b d now st st' e g D Ha|st id l1 l2|st st' id ra now g Hcl Hm
    |st id dur g|st id now g|st now g]; cbn [fst snd]; intros Hb H.
  - split; [|cbn; lia]. destruct (acquire_cases b d now st D)
      as [[_ K]|(c & cur & e & _ & He & Hcool & _ & K)]; rewrite K in Ha; [done|].
    injection Ha as <- <-. intros i x. cbn. rewrite held_cons. pose proof (held_bound i g).
    rewrite lookup_insert_Some. intros [[<- <-]|[Hne Hx]].
    + rewrite decide_True by done. apply entry_ok_lease; [lia | done |].
      by apply (leases_ok_expire cooling now st g H).
    + rewrite decide_False by done. rewrite Z.add_0_r.
      by apply (leases_ok_expire cooling now st g H).
  - split; [|done]. destruct (acquire_cases b d now st D)
      as [[_ K]|(c & cur & e' & _ & _ & _ & _ & K)]; rewrite K in Ha; [|done].
    injection Ha as <- <-. by apply leases_ok_expire.
  - split; [|rewrite length_app in *; cbn in Hb; lia].
    intros i x. cbn. pose proof (held_bound i (l1 ++ l2)).
    pose proof (held_remove i id l1 l2) as Hh.
    destruct (decide (id = i)) as [->|Hne].
    + rewrite lookup_alter_eq. intros (e0 & He0 & ->)%fmap_Some.
      apply entry_ok_release; [lia| |].
      * rewrite length_app in *. cbn in Hb. lia.
      * rewrite <- Hh. by apply H.
    + rewrite lookup_alter_ne by done. intros Hx. rewrite Z.add_0_r in Hh. rewrite <- Hh. by apply H.
  - split; [|done]. subst cooling. unfold mark_cooling in Hm.
    destruct (entries st !! id) as [e|] eqn:He; [|by injection Hm as <-].
    destruct (instant_checked_add _ _); [|done]. injection Hm as <-.
    intros i x. cbn. rewrite lookup_insert_Some. intros [[<- <-]|[_ Hx]]; [done | by apply H].
  - split; [|done]. intros i x. cbn. rewrite lookup_alter_Some.
    intros [(<- & e0 & He0 & ->)|[_ Hx]]; [exact (H _ e0 He0) | by apply H].
  - split; [|done]. unfold is_available. destruct (entries st !! id) as [e|] eqn:He; [|done].
    intros i x. cbn. rewrite lookup_insert_Some. intros [[<- <-]|[_ Hx]]; [|by apply H].
    by apply entry_ok_expire, H.
  - split; [|done]. by apply leases_ok_expire.
Qed.

Lemma pool_steps_ok cooling s s' :
  rtc (pool_step cooling) s s' -> guards_bounded s -> leases_ok cooling s ->
  leases_ok cooling s' /\ guards_bounded s'.
Proof.
  induction 1 as [|s1 s2 s3 H1 _ IH]; [done|]. intros Hb H.
  destruct (pool_step_ok _ _ _ H1 Hb H). auto.
Qed.

(** A pool as it is built, with no guard alive. *)
Definition fresh (st : PoolState) : Prop :=
  forall id e, entries st !! id = Some e -> ke_state e = Available.

Lemma fresh_ok cooling st : fresh st -> leases_ok cooling (st, []).
Proof. intros H id e He. unfold entry_ok. rewrite (H id e He). by right. Qed.

(** Whatever the threads do with a pool, the lease count of a key
    never exceeds the number of live guards for it, and a key shown as leased has
    a count of at least one, so that dropping a guard never takes a count below
    zero. *)
Theorem lease_count_bounded st st' guards id e :
  fresh st -> rtc (pool_step true) (st, []) (st', guards) ->
  entries st' !! id = Some e ->
  0 <= active_count (ke_state e) <= held id guards /\
  (forall c, ke_state e = Leased c -> 1 <= c).
Proof.
  intros Hf Hr He.
  destruct (pool_steps_ok true _ _ Hr) as [H _]; [done | by apply fresh_ok |].
  specialize (H id e He). unfold entry_ok in H. pose proof (held_bound id guards).
  destruct (ke_state e); cbn in *; (split; [lia|]); naive_solver lia.
Qed.

(** As long as no key is put into cooldown, the lease count of every
    key is exactly the number of its live guards; in particular a key is
    [Available] again once its guards are dropped. *)
Theorem lease_count_exact st st' guards id e :
  fresh st -> rtc (pool_step false) (st, []) (st', guards) ->
  entries st' !! id = Some e ->
  active_count (ke_state e) = held id guards /\
  (held id guards = 0 -> ke_state e = Available).
Proof.
  intros Hf Hr He.
  destruct (pool_steps_ok false _ _ Hr) as [H _]; [done | by apply fresh_ok |].
  specialize (H id e He). unfold entry_ok in H.
  destruct (ke_state e); cbn in *; [|done|]; (split; [naive_solver lia|naive_solver lia]).
Qed.

Definition demo_single : PoolState := build [(1, 1)].

Lemma demo_single_fresh : fresh demo_single.
Proof.
  intros id e He. assert (map_Forall (fun _ e => ke_state e = Available) (entries demo_single))
    as K by (apply map_Forall_singleton; reflexivity). exact (K id e He).
Qed.

Lemma lease_count_bounded_witness :
  exists st', rtc (pool_step true) (demo_single, []) (st', [1]) /\
    entries st' !! 1 = Some (mkKeyEntry (CoolingUntil (from_secs 60)) 1 None) /\
    0 <= active_count (CoolingUntil (from_secs 60)) <= held 1 [1].
Proof.
  eexists. 
  assert (rtc (pool_step true) (demo_single, [])
    (mkPoolState {[1 := mkKeyEntry (CoolingUntil (from_secs 60)) 1 None]} 0, [1])) as Hr.
  { eapply rtc_l; [eapply (step_acquire true LeastRequests first_draw 0);
      [apply first_draw_laws | vm_compute; reflexivity | vm_compute; reflexivity]|].
    eapply rtc_l; [|apply rtc_refl].
    apply (step_cool true _ _ 1 None 0); [done | vm_compute; reflexivity]. }
  split; [exact Hr|]. split; [reflexivity|].
  apply (lease_count_bounded demo_single _ [1] 1
    (mkKeyEntry (CoolingUntil (from_secs 60)) 1 None) demo_single_fresh Hr). reflexivity.
Defined.

Lemma lease_count_exact_witness :
  exists st', rtc (pool_step false) (demo_single, []) (st', [1; 1]) /\
    exists e, entries st' !! 1 = Some e /\ active_count (ke_state e) = held 1 [1; 1].
Proof.
  assert (rtc (pool_step false) (demo_single, [])
    (mkPoolState {[1 := mkKeyEntry (Leased 2) 1 None]} 0, [1; 1])) as Hr.
  { eapply rtc_l; [eapply (step_acquire false LeastRequests first_draw 0);
      [apply first_draw_laws | vm_compute; reflexivity | vm_compute; reflexivity]|].
    eapply rtc_l; [|apply rtc_refl].
    eapply (step_acquire false LeastRequests first_draw 0);
      [apply first_draw_laws | vm_compute; reflexivity | vm_compute; reflexivity]. }
  eexists. split; [exact Hr|]. eexists. split; [reflexivity|].
  apply (lease_count_exact demo_single _ [1; 1] 1
    (mkKeyEntry (Leased 2) 1 None) demo_single_fresh Hr). reflexivity.
Defined.

(** A guard that outlives a cooldown releases a lease that is not its own: the
    key was leased, cooled, woke up and was leased again; dropping the first
    guard makes it [Available] although the second one is alive. *)
Example guard_across_cooldown :
  match mark_cooling 1 (Some (from_secs 1)) 0
          (acquire LeastRequests first_draw 0 demo_single).1 with
  | Returns st =>
      let '(st, r) := acquire LeastRequests first_draw (from_secs 2) st in
      (r, ke_state <$> entries (release 1 st) !! 1) = (Ok 1, Some Available)
  | Panics => False
  end.
Proof. vm_compute. reflexivity. Qed.

(** A cooldown past the range of [Instant] panics. *)
Example huge_cooldown_panics :
  mark_cooling 1 (Some (from_secs u64_max)) 0 demo_single = Panics.
Proof. vm_compute. reflexivity. Qed.

(** ** Properties: the registry *)

Lemma insert_from_lookup i ks st k :
  entries (insert_from i ks st) !! k =
  if (i <? k) && (k <=? i + Z.of_nat (length ks))
  then (fun p => KeyEntry_new p.2) <$> ks !! Z.to_nat (k - i - 1)
  else entries st !! k.
Proof.
  revert i st. induction ks as [|[r w] ks IH]; intros i st; cbn [insert_from length].
  - destruct (Z.ltb_spec i k), (Z.leb_spec k (i + Z.of_nat 0)); cbn; try done; lia.
  - rewrite IH. unfold pool_insert. cbn [entries].
    destruct (decide (k = i + 1)) as [->|Hne].
    + replace (i + 1 <? i + 1) with false by lia. cbn. rewrite lookup_insert_eq.
      destruct (Z.ltb_spec i (i + 1)), (Z.leb_spec (i + 1) (i + Z.of_nat (S (length ks))));
        cbn; try lia. by replace (Z.to_nat (i + 1 - i - 1)) with 0%nat by lia.
    + rewrite lookup_insert_ne by done.
      destruct (Z.ltb_spec (i + 1) k), (Z.ltb_spec i k); cbn; try lia; try done.
      replace (k <=? i + Z.of_nat (S (length ks)))
        with (k <=? i + 1 + Z.of_nat (length ks)) by (f_equal; lia).
      case_if; [|done]. by replace (Z.to_nat (k - i - 1)) with (S (Z.to_nat (k - (i + 1) - 1))) by lia.
Qed.

(** Every key of a fresh pool has its reference, and a weight from the list. *)
Lemma new_pool_ref s ks k e :
  entries (rp_pool (ResourceKeyPool_new s ks)) !! k = Some e ->
  exists ref w, secret_ref_for k (ResourceKeyPool_new s ks) = Some ref /\
    (ref, w) ∈ ks /\ e = KeyEntry_new w.
Proof.
  unfold ResourceKeyPool_new, secret_ref_for. cbn [rp_pool refs]. rewrite insert_from_lookup.
  destruct (Z.ltb_spec 0 k), (Z.leb_spec k (0 + Z.of_nat (length ks)));
    cbn [andb]; [|change (entries PoolState_new) with (∅ : gmap Z KeyEntry);
                   by rewrite lookup_empty..].
  intros ([ref w] & Hk & ->)%fmap_Some. exists ref, w.
  replace (k <? 1) with false by lia. replace (Z.to_nat (k - 0 - 1)) with (Z.to_nat (k - 1)) in Hk by lia.
  rewrite list_lookup_fmap, Hk. split; [done|]. split; [by eapply list_elem_of_lookup_2 | done].
Qed.

Definition pool_usable (p : ResourceKeyPool) : Prop :=
  refs p <> [] /\
  forall k e, entries (rp_pool p) !! k = Some e ->
    exists ref r, secret_ref_for k p = Some ref /\ parse_ref ref = Ok r.

Lemma pool_for_resource_usable r p :
  pool_for_resource r = Ok (Some p) -> pool_usable p /\ auth_is_none (ar_auth r) = false.
Proof.
  unfold pool_for_resource, check_refs. destruct (key_pool r) as [pc|]; [|done].
  case_bool_decide as Hk; [done|]. destruct (auth_is_none (ar_auth r)); [done|].
  destruct (forallb _ (keys pc)) eqn:E; intros H; inv_ok.
  split; [|done]. split; [by destruct (keys pc)|].
  intros k e (ref & w & Href & Hin & _)%new_pool_ref. exists ref.
  apply list_elem_of_fmap in Hin as (kc & [= -> ->] & Hin).
  rewrite forallb_forall in E. specialize (E kc (proj1 (list_elem_of_In _ _) Hin)).
  destruct (parse_ref (secret_ref kc)) as [r'|]; [eauto | done].
Qed.

(** A registry built from a configuration has, for every
    resource in it, a pool with at least one key in which every key id leads to a
    secret reference that parses, and the resource's authentication is not
    [none]. *)
Theorem registry_pools_usable c pools id p :
  registry_from_config c = Ok (Some pools) -> pools !! id = Some p ->
  pool_usable p /\
  exists r, r ∈ api_resources c /\ ar_id r = id /\ auth_is_none (ar_auth r) = false.
Proof.
  unfold registry_from_config. intros H. apply bind_Ok_inv in H as (ps & H & Hps).
  case_bool_decide; [done|]. injection Hps as <-.
  assert (forall rs ps0, pools_from rs ps0 = Ok ps -> ps !! id = Some p ->
    ps0 !! id = Some p \/ (pool_usable p /\ exists r, r ∈ rs /\ ar_id r = id /\
                           auth_is_none (ar_auth r) = false)) as K.
  { induction rs as [|r rs IH]; cbn; intros ps0 Hrs Hp; inv_ok; [by left|].
    destruct (IH _ Hrs Hp) as [Hid|(Hu & r' & Hr' & Hrest)].
    - destruct x as [p'|]; [|by left]. apply lookup_insert_Some in Hid as [[Hid ->]|[_ Hid]];
        [right | by left].
      apply pool_for_resource_usable in H1 as [Hu Ha]. split; [done|]. exists r.
      split; [apply list_elem_of_here | done].
    - right. split; [done|]. exists r'. split; [by apply list_elem_of_further | done]. }
  intros Hp. destruct (K _ _ H Hp) as [K'|K']; [by rewrite lookup_empty in K' | done].
Qed.

Definition demo_pooled_config : GatewayConfig :=
  with_api_resources GatewayConfig_default
    [mkApiResource "tavily" "search" "" "https://api" "" (AuthBearer "secret://tavily/k")
       (Some (mkKeyPoolConfig RoundRobin [mkPoolKeyConfig "secret://tavily/a" 1;
                                          mkPoolKeyConfig "secret://tavily/b" 2]))
       [] None SecurityConfig_default None].

Lemma registry_pools_usable_witness :
  exists pools p, registry_from_config demo_pooled_config = Ok (Some pools) /\
    pools !! "tavily" = Some p /\ pool_usable p.
Proof.
  eexists _, _. split; [vm_compute; reflexivity|]. split; [vm_compute; reflexivity|].
  eapply (registry_pools_usable demo_pooled_config _ "tavily");
    [vm_compute; reflexivity | vm_compute; reflexivity].
Defined.

(** ** Properties: carrying the runtime state over a configuration reload *)

(** The entry that [restore_runtime] writes at time [n]. *)
Definition restored (n : Z) (s : KeyStatusSnapshot) (e : KeyEntry) : KeyEntry :=
  mkKeyEntry
    (match ss_cooling_remaining s with
     | Some remaining => if remaining =? 0 then ke_state e else CoolingUntil (n + remaining)
     | None => ke_state e
     end) (ke_weight e) (ss_ewma s).

Lemma restore_runtime_spec id s now st st' :
  restore_runtime id (ss_cooling_remaining s) (ss_ewma s) now st = Returns st' ->
  entries st' = alter (restored now s) id (entries st).
Proof.
  unfold restore_runtime, restored. destruct (entries st !! id) as [e|] eqn:E.
  - destruct (ss_cooling_remaining s) as [rem|]; [destruct (rem =? 0)|];
      unfold instant_checked_add; try case_if; cbn; intros [= <-]; cbn;
      apply map_eq; intros j; (destruct (decide (j = id)) as [->|Hne];
        [by rewrite lookup_insert_eq, lookup_alter_eq, E
        | by rewrite lookup_insert_ne, lookup_alter_ne]).
  - intros [= <-]. apply map_eq. intros j. destruct (decide (j = id)) as [->|Hne];
      [by rewrite lookup_alter_eq, E | by rewrite lookup_alter_ne].
Qed.

Lemma restore_refs_lookup rs old now i st st' k :
  restore_refs i rs old now st = Returns st' ->
  entries st' !! k =
  match (if Z.of_nat i <? k then rs !! Z.to_nat (k - 1 - Z.of_nat i) else None) ≫= (old !!.) with
  | Some s => restored (now (Z.to_nat (k - 1))) s <$> entries st !! k
  | None => entries st !! k
  end.
Proof.
  revert i st. induction rs as [|r rs IH]; cbn [restore_refs]; intros i st H.
  - injection H as <-. by case_if.
  - apply bind_Returns_inv in H as (st1 & H1 & H). rewrite (IH _ _ H). clear IH H.
    assert (entries st1 = match old !! r with
                          | Some s => alter (restored (now i) s) (Z.of_nat i + 1) (entries st)
                          | None => entries st end) as E1.
    { destruct (old !! r); [by apply restore_runtime_spec | by injection H1 as <-]. }
    rewrite E1. clear H1 E1.
    destruct (decide (k = Z.of_nat i + 1)) as [->|Hne].
    + rewrite (proj2 (Z.ltb_ge (Z.of_nat (S i)) (Z.of_nat i + 1))) by lia.
      rewrite (proj2 (Z.ltb_lt (Z.of_nat i) (Z.of_nat i + 1))) by lia. cbn [mbind option_bind].
      replace (Z.to_nat (Z.of_nat i + 1 - 1 - Z.of_nat i)) with 0%nat by lia. cbn.
      replace (Z.to_nat (Z.of_nat i + 1 - 1)) with i by lia.
      destruct (old !! r); [by rewrite lookup_alter_eq | done].
    + assert (match old !! r with
              | Some s => alter (restored (now i) s) (Z.of_nat i + 1) (entries st)
              | None => entries st end !! k = entries st !! k) as ->.
      { destruct (old !! r); [by rewrite lookup_alter_ne | done]. }
      destruct (Z.ltb_spec (Z.of_nat (S i)) k), (Z.ltb_spec (Z.of_nat i) k); try lia; [|done].
      by replace (Z.to_nat (k - 1 - Z.of_nat i)) with (S (Z.to_nat (k - 1 - Z.of_nat (S i)))) by lia.
Qed.

Lemma secret_ref_for_inj old k1 k2 r :
  NoDup (refs old) -> secret_ref_for k1 old = Some r -> secret_ref_for k2 old = Some r -> k1 = k2.
Proof.
  unfold secret_ref_for. intros Hnd. destruct (Z.ltb_spec k1 1), (Z.ltb_spec k2 1); try done.
  intros H1 H2. pose proof (NoDup_lookup _ _ _ _ Hnd H1 H2). lia.
Qed.

Lemma by_ref_lookup old snaps s r :
  NoDup (refs old) -> NoDup (ss_key_id <$> snaps) -> s ∈ snaps ->
  secret_ref_for (ss_key_id s) old = Some r -> by_ref old snaps !! r = Some s.
Proof.
  intros Hnd. unfold by_ref. generalize (∅ : gmap string KeyStatusSnapshot).
  induction snaps as [|x snaps IH]; intros m Hs Hin Hr; [set_solver|].
  apply NoDup_cons in Hs as [Hx Hs]. apply elem_of_cons in Hin as [->|Hin]; cbn; [|by auto].
  rewrite Hr.
  assert (forall (l : list KeyStatusSnapshot) (m : gmap string KeyStatusSnapshot),
    ss_key_id x ∉ ss_key_id <$> l ->
    fold_left (fun m s => match secret_ref_for (ss_key_id s) old with
                          | Some r => <[r := s]> m | None => m end) l m !! r = m !! r) as Hother.
  { clear IH Hx Hs. induction l as [|y l IH]; cbn; intros m' Hy; [done|].
    rewrite IH by set_solver. destruct (secret_ref_for (ss_key_id y) old) as [r'|] eqn:Er; [|done].
    apply lookup_insert_ne. intros ->. apply Hy.
    rewrite (secret_ref_for_inj old (ss_key_id x) (ss_key_id y) r); set_solver. }
  by rewrite Hother, lookup_insert_eq.
Qed.

Lemma snapshot_elem now st k e :
  entries st !! k = Some e -> status_of now (k, expire_entry now e) ∈ (snapshot now st).2.
Proof.
  intros He. cbn. rewrite sort_by_elem. apply list_elem_of_fmap_2.
  apply elem_of_map_to_list. by rewrite lookup_fmap, He.
Qed.

Lemma snapshot_NoDup now st : NoDup (ss_key_id <$> (snapshot now st).2).
Proof.
  cbn. rewrite (sort_by_perm _ _), <- list_fmap_compose. apply NoDup_fst_map_to_list.
Qed.

(** A reload keeps what a pool knows about each secret reference
    that stays, wherever the reference moves in the list: the new key has the old
    key's latency estimate and cools for the time that was left, and a lease of
    the old pool is not carried over. *)
Theorem carry_keeps_runtime old new snap_now now new' old' k i r eo en :
  carry_pool old new snap_now now = Returns (new', old') ->
  NoDup (refs old) ->
  secret_ref_for k old = Some r -> entries (rp_pool old) !! k = Some eo ->
  refs new !! i = Some r -> entries (rp_pool new) !! (Z.of_nat i + 1) = Some en ->
  entries (rp_pool new') !! (Z.of_nat i + 1) =
  Some (mkKeyEntry
          (match ke_state eo with
           | CoolingUntil until =>
               if until <=? snap_now then ke_state en
               else CoolingUntil (now i + (until - snap_now))
           | _ => ke_state en
           end) (ke_weight en) (ke_ewma eo)).
Proof.
  unfold carry_pool. destruct (snapshot snap_now (rp_pool old)) as [ost snaps] eqn:Es.
  intros (st & Hst & [= <- _])%bind_Returns_inv Hnd Hk Heo Hi Hen. cbn [rp_pool].
  assert (by_ref old snaps !! r = Some (status_of snap_now (k, expire_entry snap_now eo))) as Hb.
  { pose proof (snapshot_elem snap_now _ _ _ Heo) as Hin.
    pose proof (snapshot_NoDup snap_now (rp_pool old)) as Hs. rewrite Es in Hin, Hs.
    by apply by_ref_lookup. }
  rewrite (restore_refs_lookup _ _ _ _ _ _ _ Hst), Hen.
  rewrite (proj2 (Z.ltb_lt (Z.of_nat 0) (Z.of_nat i + 1))) by lia.
  replace (Z.to_nat (Z.of_nat i + 1 - 1 - Z.of_nat 0)) with i by lia. rewrite Hi. cbn.
  rewrite Hb. cbn. f_equal. replace (Z.to_nat (Z.of_nat i + 1 - 1)) with i by lia.
  unfold restored, status_of, expire_entry. cbn.
  destruct (ke_state eo) as [|u|n] eqn:E; cbn; rewrite ?E; cbn; try done.
  destruct (Z.leb_spec u snap_now); cbn; [done|]. rewrite E.
  rewrite (proj2 (Z.leb_le snap_now u)), (proj2 (Z.eqb_neq (u - snap_now) 0)) by lia. done.
Qed.

Definition demo_old_pool : ResourceKeyPool :=
  mkResourceKeyPool
    (mkPoolState (<[1 := mkKeyEntry (CoolingUntil 100) 1 (Some 7)]>
                    (<[2 := KeyEntry_new 1]> ∅)) 0)
    RoundRobin ["secret://t/a"; "secret://t/b"].
Definition demo_new_pool : ResourceKeyPool :=
  ResourceKeyPool_new RoundRobin [("secret://t/b", 1); ("secret://t/a", 3)].

Lemma carry_keeps_runtime_witness :
  exists new' old',
    carry_pool demo_old_pool demo_new_pool 40 (fun _ => 50) = Returns (new', old') /\
    entries (rp_pool new') !! 2 = Some (mkKeyEntry (CoolingUntil 110) 3 (Some 7)).
Proof.
  destruct (carry_pool demo_old_pool demo_new_pool 40 (fun _ => 50)) as [[new' old']|] eqn:E;
    [|vm_compute in E; discriminate E].
  exists new', old'. split; [done|].
  apply (carry_keeps_runtime demo_old_pool demo_new_pool 40 (fun _ => 50) new' old' 1 1
    "secret://t/a" (mkKeyEntry (CoolingUntil 100) 1 (Some 7)) (KeyEntry_new 3) E);
    [apply (bool_decide_unpack _); vm_compute; exact I | vm_compute; reflexivity..].
Defined.
