(* ===== verification/Limits.v ===== *)
(** * Limits and quotas ([src/src/limits/])

    Admission of a call: rate limits of the key, its cumulative and daily call
    quota, rate limits of the upstream, and the upstream's concurrency queue.
    The rate limiter is the [governor] crate and the semaphore is tokio's: the
    limiter is a parameter ([Governor]), and how an asynchronous wait for a
    permit ends is an argument ([QueueWait]).  The usage table is behind a mutex
    that is not held across the wait, so the concurrent behaviour is a
    transition system over the two halves of [admit_at].  UTC instants are
    nanoseconds since the epoch. *)

From S2P Require Import Prelude RustStr Naming Errors Config.

Local Open Scope string_scope.
Local Open Scope list_scope.
Local Open Scope Z_scope.
Local Open Scope gateway_scope.

(** ** Errors and labels ([limits/error.rs], [limits/key.rs]) *)

Inductive LimitError :=
| QuotaExceeded (dimension : string) (reset_after : option Z)
| QueueFull
| QueueTimeout
| CallsExhausted
| DailyCallsExhausted (reset_after : Z).

Definition LimitError_to_string (e : LimitError) : string :=
  match e with
  | QuotaExceeded d _ => "quota exceeded for " +:+ d
  | QueueFull => "request queue full"
  | QueueTimeout => "request exceeded queue wait limit"
  | CallsExhausted => "cumulative call quota exhausted for this key"
  | DailyCallsExhausted _ => "daily call quota exhausted for this key"
  end.

Definition limit_to_asterlane (e : LimitError) : AsterlaneError :=
  let message := LimitError_to_string e in
  match e with
  | QuotaExceeded _ reset_after =>
      internal_with_retry_after LimitQuotaExceeded message reset_after
  | QueueFull => internal LimitQueueFull message
  | QueueTimeout => internal LimitQueueTimeout message
  | CallsExhausted => internal LimitCallsExhausted message
  | DailyCallsExhausted reset_after =>
      internal_with_retry_after LimitDailyCallsExhausted message (Some reset_after)
  end.

Inductive LimiterKey := Endpoint (api : string) | Principal (principal : string).

Definition dimension (k : LimiterKey) : string :=
  match k with Endpoint _ => "endpoint" | Principal _ => "principal" end.

Definition LimiterKey_to_string (k : LimiterKey) : string :=
  match k with
  | Endpoint api => "endpoint[api=" +:+ api +:+ "]"
  | Principal p => "principal[id=" +:+ p +:+ "]"
  end.

(** ** UTC days *)

Definition ns_per_day : Z := 86400 * ns_per_sec.
Definition date_naive (now : Z) : Z := now / ns_per_day.
(** The number of [NaiveDate::MAX]. *)
Definition naive_date_max : Z := 95026236.

Definition until_next_utc_midnight (now : Z) : Z :=
  if date_naive now + 1 <=? naive_date_max
  then let d := (date_naive now + 1) * ns_per_day - now in if 0 <=? d then d else 0
  else 0.

(** ** Call counters *)

Record KeyCounters := mkKeyCounters { total : Z; day : Z; today : Z }.

Definition KeyCounters_new (d : Z) : KeyCounters := mkKeyCounters 0 d 0.
Definition roll_to (d : Z) (c : KeyCounters) : KeyCounters :=
  if day c =? d then c else mkKeyCounters (total c) d 0.
Definition today_on (d : Z) (c : KeyCounters) : Z := if day c =? d then today c else 0.

Notation UsageMap := (gmap string KeyCounters).

(** ** The queue ([limits/queue.rs]) *)

Inductive Priority := Normal | MasterKey | Retry.

Record RequestQueue := mkRequestQueue { available_permits : Z; queue_timeout : Z }.

Definition RequestQueue_new (max_concurrent timeout : Z) : RequestQueue :=
  mkRequestQueue max_concurrent timeout.

(** How [timeout(acquire_owned())] ends: with a permit, because the semaphore was
    closed, or by the timeout. *)
Inductive QueueWait := Acquired | Closed | Elapsed.

Definition take_permit (q : RequestQueue) : RequestQueue :=
  mkRequestQueue (available_permits q - 1) (queue_timeout q).
(** Dropping a [QueuePermit]. *)
Definition give_permit (q : RequestQueue) : RequestQueue :=
  mkRequestQueue (available_permits q + 1) (queue_timeout q).

Definition queue_admit (p : Priority) (wait : QueueWait) (q : RequestQueue)
    : RequestQueue * result LimitError () :=
  if match p with Normal => false | _ => 0 <? available_permits q end
  then (take_permit q, Ok tt)
  else match wait with
       | Acquired => (take_permit q, Ok tt)
       | Closed => (q, Err QueueFull)
       | Elapsed => (q, Err QueueTimeout)
       end.

(** ** The registry ([limits/registry.rs]) *)

(** A direct rate limiter: [limiter_check clock l] consumes a token or says how
    long to wait. *)
Class Governor := {
  limiter : Type;
  limiter_per_second : Z -> limiter;
  limiter_per_minute : Z -> limiter;
  limiter_check : Z -> limiter -> limiter * option Z;
}.

Section Registry.
Context {G : Governor}.

Record UpstreamEntry := mkUpstreamEntry {
  ue_rps : option limiter;
  ue_rpm : option limiter;
  ue_queue : option RequestQueue;
}.

Record LimitKeyEntry := mkLimitKeyEntry {
  lk_rps : option limiter;
  lk_rpm : option limiter;
  max_calls : option Z;
  max_calls_per_day : option Z;
}.

Record LimitRegistry := mkLimitRegistry {
  upstreams : gmap string UpstreamEntry;
  lkeys : gmap string LimitKeyEntry;
  usage : UsageMap;
}.

Definition with_usage (r : LimitRegistry) (u : UsageMap) : LimitRegistry :=
  mkLimitRegistry (upstreams r) (lkeys r) u.
Definition with_upstream (r : LimitRegistry) (id : string) (e : UpstreamEntry) : LimitRegistry :=
  mkLimitRegistry (<[id := e]> (upstreams r)) (lkeys r) (usage r).
Definition with_lkey (r : LimitRegistry) (id : string) (e : LimitKeyEntry) : LimitRegistry :=
  mkLimitRegistry (upstreams r) (<[id := e]> (lkeys r)) (usage r).

(** *** Building *)

Definition invalid_limit (field entity : string) : AsterlaneError :=
  internal ConfigInvalidYaml ("limits." +:+ field +:+ " must be > 0 for '" +:+ entity +:+ "'").

Definition direct_limiter (value : Z) (per : Z -> limiter) (field entity : string)
    : result AsterlaneError limiter :=
  if value =? 0 then Err (invalid_limit field entity) else Ok (per value).

Definition upstream_entry (l : UpstreamLimits) (entity : string)
    : result AsterlaneError UpstreamEntry :=
  queue ← match ul_max_concurrent l with
          | Some n =>
              if n =? 0 then Err (invalid_limit "max_concurrent" entity)
              else Ok (Some (RequestQueue_new n (from_secs (ul_queue_timeout_secs l))))
          | None => Ok None
          end;
  rps ← transpose ((fun v => direct_limiter v limiter_per_second "rps" entity) <$> ul_rps l);
  rpm ← transpose ((fun v => direct_limiter v limiter_per_minute "rpm" entity) <$> ul_rpm l);
  Ok (mkUpstreamEntry rps rpm queue).

Definition is_zero (o : option Z) : bool := match o with Some n => n =? 0 | None => false end.

Definition limit_key_entry (l : KeyLimits) (entity : string)
    : result AsterlaneError LimitKeyEntry :=
  if is_zero (kl_max_calls l) then Err (invalid_limit "max_calls" entity)
  else if is_zero (kl_max_calls_per_day l) then Err (invalid_limit "max_calls_per_day" entity)
  else
    rps ← transpose ((fun v => direct_limiter v limiter_per_second "rps" entity) <$> kl_rps l);
    rpm ← transpose ((fun v => direct_limiter v limiter_per_minute "rpm" entity) <$> kl_rpm l);
    Ok (mkLimitKeyEntry rps rpm (kl_max_calls l) (kl_max_calls_per_day l)).

(** One of the three loops: insert the entry of each item that has limits. *)
Fixpoint insert_entries {A B L} (id : A -> string) (limits : A -> option L)
    (entry : L -> string -> result AsterlaneError B) (l : list A) (m : gmap string B)
    : result AsterlaneError (gmap string B) :=
  match l with
  | [] => Ok m
  | x :: l =>
      match limits x with
      | None => insert_entries id limits entry l m
      | Some lim => e ← entry lim (id x); insert_entries id limits entry l (<[id x := e]> m)
      end
  end.

Definition limits_from_config (c : GatewayConfig) : result AsterlaneError LimitRegistry :=
  ups ← insert_entries ar_id ar_limits upstream_entry (api_resources c) ∅;
  ups ← insert_entries ms_id ms_limits upstream_entry (mcp_servers c) ups;
  ks ← insert_entries pk_id pk_limits limit_key_entry (proxy_keys c) ∅;
  Ok (mkLimitRegistry ups ks ∅).

(** *** Checks *)

Definition check_direct (l : option limiter) (dim : LimiterKey) (clock : Z)
    : option limiter * result LimitError () :=
  match l with
  | None => (None, Ok tt)
  | Some l =>
      let '(l, wait) := limiter_check clock l in
      (Some l, match wait with
               | None => Ok tt
               | Some w => Err (QuotaExceeded (dimension dim) (Some w))
               end)
  end.

(** The first limiter, and the second one when the first lets the call pass. *)
Definition check_pair (rps rpm : option limiter) (dim : LimiterKey) (clock1 clock2 : Z)
    : option limiter * option limiter * result LimitError () :=
  let '(rps, r1) := check_direct rps dim clock1 in
  match r1 with
  | Err e => (rps, rpm, Err e)
  | Ok _ => let '(rpm, r2) := check_direct rpm dim clock2 in (rps, rpm, r2)
  end.

Definition check_key (key_id : string) (clock1 clock2 : Z) (r : LimitRegistry)
    : LimitRegistry * result LimitError () :=
  match lkeys r !! key_id with
  | None => (r, Ok tt)
  | Some e =>
      let '(rps, rpm, res) :=
        check_pair (lk_rps e) (lk_rpm e) (Principal key_id) clock1 clock2 in
      (with_lkey r key_id (mkLimitKeyEntry rps rpm (max_calls e) (max_calls_per_day e)), res)
  end.

Definition reached (limit : option Z) (used : Z) : bool :=
  match limit with Some l => l <=? used | None => false end.

Definition check_call_quotas (key_id : string) (now : Z) (r : LimitRegistry)
    : result LimitError () :=
  match lkeys r !! key_id with
  | None => Ok tt
  | Some e =>
      let '(tot, today_used) :=
        match usage r !! key_id with
        | Some c => (total c, today_on (date_naive now) c)
        | None => (0, 0)
        end in
      if reached (max_calls e) tot then Err CallsExhausted
      else if reached (max_calls_per_day e) today_used
      then Err (DailyCallsExhausted (until_next_utc_midnight now))
      else Ok tt
  end.

Definition record_call_usage (key_id : string) (now : Z) (u : UsageMap) : UsageMap :=
  let d := date_naive now in
  let c := roll_to d (default (KeyCounters_new d) (u !! key_id)) in
  <[key_id := mkKeyCounters (saturating_add u64_max (total c) 1) (day c)
                (saturating_add u64_max (today c) 1)]> u.

Definition record_call (key_id : string) (now : Z) (r : LimitRegistry) : LimitRegistry :=
  with_usage r (record_call_usage key_id now (usage r)).

Definition refund_usage (key_id : string) (now : Z) (u : UsageMap) : UsageMap :=
  match u !! key_id with
  | None => u
  | Some c =>
      <[key_id := mkKeyCounters (saturating_sub (total c) 1) (day c)
                    (if day c =? date_naive now then saturating_sub (today c) 1 else today c)]> u
  end.

Definition refund_call_at (key_id : string) (now : Z) (r : LimitRegistry) : LimitRegistry :=
  with_usage r (refund_usage key_id now (usage r)).

(** The rate limits of the upstream, before the wait for a permit. *)
Definition check_upstream (upstream_id : string) (clock1 clock2 : Z) (r : LimitRegistry)
    : LimitRegistry * result LimitError () :=
  match upstreams r !! upstream_id with
  | None => (r, Ok tt)
  | Some e =>
      let '(rps, rpm, res) :=
        check_pair (ue_rps e) (ue_rpm e) (Endpoint upstream_id) clock1 clock2 in
      (with_upstream r upstream_id (mkUpstreamEntry rps rpm (ue_queue e)), res)
  end.

(** The wait for a permit; [Ok true] when the caller now holds one. *)
Definition enter_queue (upstream_id : string) (wait : QueueWait) (r : LimitRegistry)
    : LimitRegistry * result LimitError bool :=
  match upstreams r !! upstream_id with
  | Some (mkUpstreamEntry rps rpm (Some q)) =>
      let '(q, res) := queue_admit Normal wait q in
      (with_upstream r upstream_id (mkUpstreamEntry rps rpm (Some q)),
       match res with Ok _ => Ok true | Err e => Err e end)
  | _ => (r, Ok false)
  end.

Definition admit_upstream (upstream_id : string) (clock1 clock2 : Z) (wait : QueueWait)
    (r : LimitRegistry) : LimitRegistry * result LimitError bool :=
  let '(r, res) := check_upstream upstream_id clock1 clock2 r in
  match res with
  | Err e => (r, Err e)
  | Ok _ => enter_queue upstream_id wait r
  end.

(** [clock i] is the limiters' clock at the [i]-th rate check. *)
Definition admit_at (key_id upstream_id : string) (now : Z) (clock : nat -> Z)
    (wait : QueueWait) (r : LimitRegistry) : LimitRegistry * result LimitError bool :=
  let '(r, res) := check_key key_id (clock 0%nat) (clock 1%nat) r in
  match res with
  | Err e => (r, Err e)
  | Ok _ =>
      match check_call_quotas key_id now r with
      | Err e => (r, Err e)
      | Ok _ =>
          let '(r, res) := admit_upstream upstream_id (clock 2%nat) (clock 3%nat) wait r in
          match res with
          | Err e => (r, Err e)
          | Ok permit => (record_call key_id now r, Ok permit)
          end
      end
  end.

(** Dropping the permit of an admitted call. *)
Definition drop_permit (upstream_id : string) (r : LimitRegistry) : LimitRegistry :=
  match upstreams r !! upstream_id with
  | Some (mkUpstreamEntry rps rpm (Some q)) =>
      with_upstream r upstream_id (mkUpstreamEntry rps rpm (Some (give_permit q)))
  | _ => r
  end.

(** Dropping a [CallQuotaGuard]. *)
Definition drop_guard (key_id : string) (committed : bool) (now : Z) (r : LimitRegistry)
    : LimitRegistry :=
  if committed then r else refund_call_at key_id now r.

(** *** Seeding, carrying and reading *)

Definition seed_call_count (key_id : string) (n now : Z) (r : LimitRegistry) : LimitRegistry :=
  let c := default (KeyCounters_new (date_naive now)) (usage r !! key_id) in
  with_usage r (<[key_id := mkKeyCounters n (day c) (today c)]> (usage r)).

Definition seed_daily_count_at (key_id : string) (count now : Z) (r : LimitRegistry)
    : LimitRegistry :=
  let c := default (KeyCounters_new (date_naive now)) (usage r !! key_id) in
  with_usage r (<[key_id := mkKeyCounters (total c) (date_naive now) count]> (usage r)).

(** One row of the aggregation: the key with its requests and errors ([i64]). *)
Record UsageSummary := mkUsageSummary {
  dimension_value : string; request_count : Z; error_count : Z }.

Definition success_count (row : UsageSummary) : Z :=
  Z.max (request_count row - error_count row) 0.

(** [all] and [today_rows] are the two answers of the store; a failed query
    changes nothing. *)
Definition seed_from_store (all today_rows : result string (list UsageSummary)) (now : Z)
    (r : LimitRegistry) : LimitRegistry :=
  let r := match all with
           | Ok rows => fold_left (fun r row =>
               seed_call_count (dimension_value row) (success_count row) now r) rows r
           | Err _ => r
           end in
  match today_rows with
  | Ok rows => fold_left (fun r row =>
      seed_daily_count_at (dimension_value row) (success_count row) now r) rows r
  | Err _ => r
  end.

Definition carry_counts_from (old r : LimitRegistry) : LimitRegistry := with_usage r (usage old).

Record KeyUsage := mkKeyUsage {
  calls_total : Z; calls_today : Z;
  ku_max_calls : option Z; ku_max_calls_per_day : option Z }.

Definition key_usage_at (key_id : string) (now : Z) (r : LimitRegistry) : option KeyUsage :=
  match lkeys r !! key_id, usage r !! key_id with
  | None, None => None
  | e, c =>
      Some (mkKeyUsage (default 0 (total <$> c)) (default 0 (today_on (date_naive now) <$> c))
              (e ≫= max_calls) (e ≫= max_calls_per_day))
  end.
End Registry.

(** ** Lemmas *)

(** A call between its checks and its permit: key, upstream, admission time. *)
Notation waiting_call := (string * string * Z)%type.

Section Facts.
Context {G : Governor}.
Implicit Types (r : LimitRegistry).

(** [admit_at] up to the wait for a permit. *)
Definition begin_admit (key_id upstream_id : string) (now : Z) (clock : nat -> Z)
    (r : LimitRegistry) : LimitRegistry * result LimitError () :=
  let '(r, res) := check_key key_id (clock 0%nat) (clock 1%nat) r in
  match res with
  | Err e => (r, Err e)
  | Ok _ =>
      match check_call_quotas key_id now r with
      | Err e => (r, Err e)
      | Ok _ => check_upstream upstream_id (clock 2%nat) (clock 3%nat) r
      end
  end.

Lemma admit_at_phases k u now clock wait r :
  admit_at k u now clock wait r =
  let '(r, res) := begin_admit k u now clock r in
  match res with
  | Err e => (r, Err e)
  | Ok _ =>
      let '(r, res) := enter_queue u wait r in
      match res with
      | Err e => (r, Err e)
      | Ok permit => (record_call k now r, Ok permit)
      end
  end.
Proof.
  unfold admit_at, begin_admit, admit_upstream.
  destruct (check_key _ _ _ r) as [r1 [[]|e]]; [|done].
  destruct (check_call_quotas k now r1) as [[]|e]; [|done].
  destruct (check_upstream _ _ _ r1) as [r2 [[]|e]]; [|done].
  by destruct (enter_queue u wait r2) as [r3 [p|e]].
Qed.

(** The rate checks leave the usage and the quotas alone. *)
Definition same_quotas (r r' : LimitRegistry) : Prop :=
  usage r' = usage r /\
  forall k, (fun e => (max_calls e, max_calls_per_day e)) <$> lkeys r' !! k =
            (fun e => (max_calls e, max_calls_per_day e)) <$> lkeys r !! k.

#[local] Instance same_quotas_preorder : PreOrder same_quotas.
Proof.
  split; [by split|]. intros r1 r2 r3 [H1 H2] [H3 H4]. split; [congruence|].
  intros k. by rewrite H4.
Qed.

Lemma check_key_quotas k c1 c2 r : same_quotas r (check_key k c1 c2 r).1.
Proof.
  unfold check_key. destruct (lkeys r !! k) as [e|] eqn:E; [|done].
  destruct (check_pair _ _ _ _ _) as [[rps rpm] res]. split; [done|]. cbn. intros k'.
  destruct (decide (k = k')) as [<-|Hne]; [by rewrite lookup_insert_eq, E|].
  by rewrite lookup_insert_ne.
Qed.

Lemma check_upstream_quotas u c1 c2 r : same_quotas r (check_upstream u c1 c2 r).1.
Proof.
  unfold check_upstream. destruct (upstreams r !! u) as [e|]; [|done].
  by destruct (check_pair _ _ _ _ _) as [[rps rpm] res].
Qed.

Lemma enter_queue_quotas u wait r : same_quotas r (enter_queue u wait r).1.
Proof.
  unfold enter_queue. destruct (upstreams r !! u) as [[rps rpm [q|]]|]; [|done|done].
  by destruct (queue_admit Normal wait q).
Qed.

Lemma begin_admit_quotas k u now clock r : same_quotas r (begin_admit k u now clock r).1.
Proof.
  unfold begin_admit.
  pose proof (check_key_quotas k (clock 0%nat) (clock 1%nat) r) as H1.
  destruct (check_key _ _ _ r) as [r1 [[]|e]]; [|done].
  destruct (check_call_quotas k now r1) as [[]|e]; [|done].
  etransitivity; [exact H1 | apply check_upstream_quotas].
Qed.

Lemma begin_admit_checked k u now clock r r' :
  begin_admit k u now clock r = (r', Ok tt) -> check_call_quotas k now r = Ok tt.
Proof.
  unfold begin_admit.
  pose proof (check_key_quotas k (clock 0%nat) (clock 1%nat) r) as [Hu Hk].
  destruct (check_key _ _ _ r) as [r1 [[]|e]]; [|done].
  destruct (check_call_quotas k now r1) as [[]|e] eqn:E; [|done]. intros _.
  rewrite <- E. unfold check_call_quotas. cbn in Hu. specialize (Hk k). cbn in Hk.
  destruct (lkeys r1 !! k), (lkeys r !! k); cbn in Hk; try done.
  by injection Hk as -> ->; rewrite Hu.
Qed.

Lemma record_call_usage_self k now u :
  record_call_usage k now u !! k =
  let c := roll_to (date_naive now) (default (KeyCounters_new (date_naive now)) (u !! k)) in
  Some (mkKeyCounters (saturating_add u64_max (total c) 1) (day c)
          (saturating_add u64_max (today c) 1)).
Proof. unfold record_call_usage. by rewrite lookup_insert_eq. Qed.

Lemma record_call_usage_other k k' now u : k' <> k -> record_call_usage k now u !! k' = u !! k'.
Proof. intros. unfold record_call_usage. by rewrite lookup_insert_ne. Qed.

Lemma refund_usage_self k now u :
  refund_usage k now u !! k =
  (fun c => mkKeyCounters (saturating_sub (total c) 1) (day c)
     (if day c =? date_naive now then saturating_sub (today c) 1 else today c)) <$> u !! k.
Proof.
  unfold refund_usage. destruct (u !! k) eqn:E; [by rewrite lookup_insert_eq | by rewrite E].
Qed.

Lemma refund_usage_other k k' now u : k' <> k -> refund_usage k now u !! k' = u !! k'.
Proof. intros. unfold refund_usage. destruct (u !! k); [by rewrite lookup_insert_ne | done]. Qed.

(** ** Concurrent admissions

    The state is the registry and the calls that passed the checks and wait for
    a permit: key, upstream and the time of their admission.  [during] restricts
    the clock. *)

Definition waiting (k : string) (w : list waiting_call) : Z :=
  Z.of_nat (length (List.filter (fun c => c.1.1 =s k) w)).

Inductive limit_step (during : Z -> Prop)
    : LimitRegistry * list waiting_call -> LimitRegistry * list waiting_call -> Prop :=
| limit_start k u now clock r r' w :
    during now -> begin_admit k u now clock r = (r', Ok tt) ->
    limit_step during (r, w) (r', (k, u, now) :: w)
| limit_refused k u now clock r r' e w :
    during now -> begin_admit k u now clock r = (r', Err e) ->
    limit_step during (r, w) (r', w)
| limit_admitted k u now wait r r' permit w1 w2 :
    enter_queue u wait r = (r', Ok permit) ->
    limit_step during (r, w1 ++ (k, u, now) :: w2) (record_call k now r', w1 ++ w2)
| limit_gave_up k u now wait r r' e w1 w2 :
    enter_queue u wait r = (r', Err e) ->
    limit_step during (r, w1 ++ (k, u, now) :: w2) (r', w1 ++ w2)
| limit_refunded k now r w :
    during now -> limit_step during (r, w) (refund_call_at k now r, w)
| limit_released u r w :
    limit_step during (r, w) (drop_permit u r, w).

Lemma waiting_cons k c w : waiting k (c :: w) = waiting k w + (if c.1.1 =s k then 1 else 0).
Proof. unfold waiting. cbn. destruct (c.1.1 =s k); cbn; lia. Qed.

Lemma waiting_remove k c w1 w2 :
  waiting k (w1 ++ c :: w2) = waiting k (w1 ++ w2) + (if c.1.1 =s k then 1 else 0).
Proof.
  unfold waiting. rewrite !List.filter_app, !length_app. cbn. destruct (c.1.1 =s k); cbn; lia.
Qed.

Lemma waiting_nonneg k w : 0 <= waiting k w.
Proof. unfold waiting. lia. Qed.

Lemma drop_permit_quotas u r : same_quotas r (drop_permit u r).
Proof. unfold drop_permit. by destruct (upstreams r !! u) as [[rps rpm [q|]]|]. Qed.
End Facts.

(** ** A quota and what is counted against it

    [used] reads a counter, [limit] the matching quota of the key. *)
Section QuotaBound.
Context {G : Governor} (k : string) (L N : Z) (during : Z -> Prop).
Context (used : option KeyCounters -> Z) (limit : Z -> LimitKeyEntry -> Prop).

Definition quota_state (r : LimitRegistry) : Prop :=
  exists e, lkeys r !! k = Some e /\ limit L e.

Record counts : Prop := {
  counts_limit e e' : max_calls e' = max_calls e ->
    max_calls_per_day e' = max_calls_per_day e -> limit L e -> limit L e';
  counts_record now u : during now ->
    used (record_call_usage k now u !! k) <= used (u !! k) + 1;
  counts_refund now u : during now -> used (refund_usage k now u !! k) <= used (u !! k);
  counts_check now r : during now -> quota_state r ->
    check_call_quotas k now r = Ok tt -> used (usage r !! k) < L;
}.

Definition quota_inv (s : LimitRegistry * list waiting_call) : Prop :=
  quota_state s.1 /\ used (usage s.1 !! k) + waiting k s.2 <= L + N - 1 /\
  Forall (fun c => during c.2) s.2.

Definition bounded_step (s s' : LimitRegistry * list waiting_call) : Prop :=
  limit_step during s s' /\ waiting k s'.2 <= N.

Hypothesis C : counts.

Lemma quota_state_same r r' : same_quotas r r' -> quota_state r -> quota_state r'.
Proof.
  intros [_ H] (e & He & Hl). specialize (H k). rewrite He in H. cbn in H.
  apply fmap_Some in H as (e' & He' & [= H1 H2]). exists e'. split; [done|].
  by eapply (counts_limit C); [| |exact Hl].
Qed.

Lemma bounded_step_inv s s' : bounded_step s s' -> quota_inv s -> quota_inv s'.
Proof.
  intros [Hs HN] (Hq & Hu & Hw). unfold quota_inv.
  destruct Hs as [k' u now clock r r' w Hn Hb|k' u now clock r r' e w Hn Hb
    |k' u now wait r r' p w1 w2 Hb|k' u now wait r r' e w1 w2 Hb|k' now r w Hn|u r w];
    cbn [fst snd] in *.
  - pose proof (begin_admit_quotas k' u now clock r) as Hs. rewrite Hb in Hs. cbn [fst] in Hs.
    split; [by eapply quota_state_same|]. split; [|by constructor].
    rewrite (proj1 Hs), waiting_cons. rewrite waiting_cons in HN. cbn [fst] in *.
    destruct (String.eqb_spec k' k) as [->|]; [|lia].
    apply begin_admit_checked in Hb. pose proof (counts_check C now r Hn Hq Hb). lia.
  - pose proof (begin_admit_quotas k' u now clock r) as Hs. rewrite Hb in Hs. cbn [fst] in Hs.
    split; [by eapply quota_state_same|]. by rewrite (proj1 Hs).
  - pose proof (enter_queue_quotas u wait r) as Hs. rewrite Hb in Hs. cbn [fst] in Hs.
    apply Forall_app in Hw as [Hw1 [Hn Hw2]%Forall_cons].
    split; [by apply (quota_state_same r r' Hs)|]. split; [|by apply Forall_app].
    rewrite waiting_remove in Hu. unfold record_call. cbn [usage with_usage fst] in *.
    rewrite (proj1 Hs).
    destruct (String.eqb_spec k' k) as [->|Hne].
    + pose proof (counts_record C now (usage r) Hn). lia.
    + rewrite record_call_usage_other by done. lia.
  - pose proof (enter_queue_quotas u wait r) as Hs. rewrite Hb in Hs. cbn [fst] in Hs.
    apply Forall_app in Hw as [Hw1 [Hn Hw2]%Forall_cons].
    split; [by eapply quota_state_same|]. split; [|by apply Forall_app].
    rewrite waiting_remove in Hu. rewrite (proj1 Hs). case_if_in Hu; lia.
  - split; [done|]. split; [|done]. cbn. destruct (decide (k' = k)) as [->|Hne].
    + pose proof (counts_refund C now (usage r) Hn). lia.
    + by rewrite refund_usage_other.
  - pose proof (drop_permit_quotas u r) as Hs. split; [by eapply quota_state_same|].
    by rewrite (proj1 Hs).
Qed.

Lemma quota_bound r r' w :
  1 <= N -> quota_state r -> used (usage r !! k) <= L ->
  rtc bounded_step (r, []) (r', w) -> used (usage r' !! k) <= L + N - 1.
Proof.
  intros HN Hq Hu Hr.
  assert (quota_inv (r', w)) as (_ & H & _).
  { remember (r, []) as s eqn:Es. remember (r', w) as s' eqn:Es'. clear Es'.
    assert (quota_inv s) as Hinv.
    { subst s. split; [done|]. split; [cbn; unfold waiting; cbn; lia | constructor]. }
    clear Es. induction Hr as [|s1 s2 s3 H1 _ IH]; [done|].
    by apply IH, (bounded_step_inv s1). }
  pose proof (waiting_nonneg k w). cbn in H. lia.
Qed.
End QuotaBound.

(** ** Properties: quotas *)

Definition total_calls {G : Governor} (k : string) (r : LimitRegistry) : Z :=
  default 0 (total <$> usage r !! k).
Definition calls_on {G : Governor} (d : Z) (k : string) (r : LimitRegistry) : Z :=
  default 0 (today_on d <$> usage r !! k).

Lemma total_counts {G : Governor} k L :
  1 <= L ->
  counts k L (fun _ => True) (fun c => Z.max 0 (default 0 (total <$> c)))
    (fun L e => max_calls e = Some L).
Proof.
  intros HL. split.
  - congruence.
  - intros now u _. rewrite record_call_usage_self. unfold saturating_add, roll_to.
    destruct (u !! k); cbn; [case_if; cbn; lia|]. rewrite Z.eqb_refl. cbn. lia.
  - intros now u _. rewrite refund_usage_self. unfold saturating_sub.
    destruct (u !! k); cbn; lia.
  - intros now r _ (e & He & Hl). unfold check_call_quotas. rewrite He.
    destruct (usage r !! k) as [c|]; cbn; rewrite Hl; cbn;
      (case_if; [done|]; intros _; lia).
Qed.

Lemma daily_counts {G : Governor} k L d :
  1 <= L ->
  counts k L (fun now => date_naive now = d)
    (fun c => Z.max 0 (default 0 (today_on d <$> c)))
    (fun L e => max_calls_per_day e = Some L).
Proof.
  intros HL. split.
  - congruence.
  - intros now u Hn. rewrite record_call_usage_self, Hn.
    unfold saturating_add, roll_to, today_on.
    destruct (u !! k) as [c|]; cbn.
    + destruct (Z.eqb_spec (day c) d) as [E|E]; cbn; [rewrite (proj2 (Z.eqb_eq _ _) E); lia|].
      rewrite Z.eqb_refl. lia.
    + rewrite Z.eqb_refl. cbn. rewrite Z.eqb_refl. lia.
  - intros now u Hn. rewrite refund_usage_self, Hn. unfold saturating_sub, today_on.
    destruct (u !! k) as [c|]; cbn; [|done]. destruct (Z.eqb_spec (day c) d); lia.
  - intros now r Hn (e & He & Hl). unfold check_call_quotas. rewrite He, Hn.
    destruct (usage r !! k) as [c|]; cbn; destruct (reached (max_calls e) _); try done;
      rewrite Hl; cbn; (case_if; [done|]; intros _; lia).
Qed.

(** C6: the cumulative quota holds under any interleaving of
    admissions, refunds and releases: with at most [N] calls of a key between
    check and count at a time, its counted calls never exceed [max_calls + N - 1];
    with one at a time they never exceed [max_calls]. *)
Theorem cumulative_quota_bound {G : Governor} k L N r r' w e :
  1 <= N -> 1 <= L -> lkeys r !! k = Some e -> max_calls e = Some L ->
  total_calls k r <= L ->
  rtc (bounded_step k N (fun _ => True)) (r, []) (r', w) ->
  total_calls k r' <= L + N - 1.
Proof.
  intros HN HL He Hl Hu Hr. unfold total_calls in *.
  pose proof (quota_bound k L N (fun _ => True) _ _ (total_counts k L HL) r r' w HN) as H.
  assert (quota_state k L (fun L e => max_calls e = Some L) r) as Hq by by exists e.
  assert (Z.max 0 (default 0 (total <$> usage r !! k)) <= L) as Hu' by lia.
  specialize (H Hq Hu' Hr). cbn in H. lia.
Qed.

(** The daily quota holds the same way among the admissions and
    refunds of one UTC day, whatever earlier days left in the counters. *)
Theorem daily_quota_bound {G : Governor} k L N d r r' w e :
  1 <= N -> 1 <= L -> lkeys r !! k = Some e -> max_calls_per_day e = Some L ->
  calls_on d k r <= L ->
  rtc (bounded_step k N (fun now => date_naive now = d)) (r, []) (r', w) ->
  calls_on d k r' <= L + N - 1.
Proof.
  intros HN HL He Hl Hu Hr. unfold calls_on in *.
  pose proof (quota_bound k L N _ _ _ (daily_counts k L d HL) r r' w HN) as H.
  assert (quota_state k L (fun L e => max_calls_per_day e = Some L) r) as Hq by by exists e.
  assert (Z.max 0 (default 0 (today_on d <$> usage r !! k)) <= L) as Hu' by lia.
  specialize (H Hq Hu' Hr). cbn in H. lia.
Qed.

(** A limiter that always lets the call pass, for the witnesses. *)
Definition open_governor : Governor :=
  {| limiter := unit; limiter_per_second := fun _ => tt; limiter_per_minute := fun _ => tt;
     limiter_check := fun _ l => (l, None) |}.

Definition demo_limits (total_quota daily_quota : option Z) : LimitRegistry (G := open_governor) :=
  mkLimitRegistry (G := open_governor) ∅
    {["k" := mkLimitKeyEntry (G := open_governor) None None total_quota daily_quota]} ∅.

(** Two calls pass the check of a quota of one before either is counted. *)
Definition demo_overshoot (total_quota daily_quota : option Z) : LimitRegistry :=
  record_call (G := open_governor) "k" 0
    (record_call (G := open_governor) "k" 0 (demo_limits total_quota daily_quota)).

Lemma demo_overshoot_reached (during : Z -> Prop) tq dq :
  during 0 -> (tq = Some 1 /\ dq = None) \/ (tq = None /\ dq = Some 1) ->
  rtc (bounded_step (G := open_governor) "k" 2 during)
    (demo_limits tq dq, []) (demo_overshoot tq dq, []).
Proof.
  intros Hd Hq.
  assert (forall r, r = demo_limits tq dq ->
    begin_admit (G := open_governor) "k" "u" 0 (fun _ => 0) r = (r, Ok tt)) as Hb.
  { intros r ->. destruct Hq as [[-> ->]|[-> ->]]; vm_compute; reflexivity. }
  apply (rtc_l _ _ (demo_limits tq dq, [("k", "u", 0)])).
  { split; [|vm_compute; discriminate]. by apply (limit_start _ _ _ _ (fun _ => 0)), Hb. }
  apply (rtc_l _ _ (demo_limits tq dq, [("k", "u", 0); ("k", "u", 0)])).
  { split; [|vm_compute; discriminate]. by apply (limit_start _ _ _ _ (fun _ => 0)), Hb. }
  apply (rtc_l _ _ (record_call "k" 0 (demo_limits tq dq), [("k", "u", 0)])).
  { split; [|vm_compute; discriminate].
    by apply (limit_admitted _ "k" "u" 0 Acquired _ _ false [] [("k", "u", 0)]). }
  apply (rtc_l _ _ (demo_overshoot tq dq, [])); [|apply rtc_refl].
  split; [|vm_compute; discriminate].
  by apply (limit_admitted _ "k" "u" 0 Acquired _ _ false [] []).
Qed.

Lemma cumulative_quota_bound_witness :
  total_calls (G := open_governor) "k" (demo_overshoot (Some 1) None) = 2 /\
  total_calls (G := open_governor) "k" (demo_overshoot (Some 1) None) <= 1 + 2 - 1.
Proof.
  split; [vm_compute; reflexivity|].
  apply (cumulative_quota_bound (G := open_governor) "k" 1 2 (demo_limits (Some 1) None) _ []
    (mkLimitKeyEntry (G := open_governor) None None (Some 1) None));
    [lia | lia | reflexivity | reflexivity | vm_compute; discriminate |].
  apply demo_overshoot_reached; [done | by left].
Defined.

Lemma daily_quota_bound_witness :
  calls_on (G := open_governor) 0 "k" (demo_overshoot None (Some 1)) = 2 /\
  calls_on (G := open_governor) 0 "k" (demo_overshoot None (Some 1)) <= 1 + 2 - 1.
Proof.
  split; [vm_compute; reflexivity|].
  apply (daily_quota_bound (G := open_governor) "k" 1 2 0 (demo_limits None (Some 1)) _ []
    (mkLimitKeyEntry (G := open_governor) None None None (Some 1)));
    [lia | lia | reflexivity | reflexivity | vm_compute; discriminate |].
  apply demo_overshoot_reached; [reflexivity | by right].
Defined.

(** Across midnight the daily count can be lost: a call admitted before midnight
    is counted, with the time of its admission, after calls of the new day, and
    takes the counter back to the old day. *)
Example late_count_resets_day :
  let late := ns_per_day - 1 in
  let r := record_call (G := open_governor) "k" ns_per_day (demo_limits None (Some 1)) in
  check_call_quotas (G := open_governor) "k" ns_per_day r
    = Err (DailyCallsExhausted ns_per_day) /\
  check_call_quotas (G := open_governor) "k" ns_per_day (record_call "k" late r) = Ok tt.
Proof. vm_compute. split; reflexivity. Qed.

(** ** Properties: one admission *)

(** A rejected admission leaves all call counters as they were,
    and when the key itself is the reason (its rate limit or a quota) no limiter
    or queue of the upstream is touched; an accepted admission had both quotas
    left and counts one call of the key. *)
Theorem admit_outcome {G : Governor} k u now clock wait r :
  match admit_at k u now clock wait r with
  | (r', Ok _) =>
      check_call_quotas k now r = Ok tt /\ usage r' = record_call_usage k now (usage r)
  | (r', Err e) =>
      usage r' = usage r /\
      (match e with
       | CallsExhausted | DailyCallsExhausted _ => True
       | QuotaExceeded d _ => d = "principal"
       | _ => False
       end -> upstreams r' = upstreams r)
  end.
Proof.
  rewrite admit_at_phases.
  pose proof (begin_admit_quotas k u now clock r) as [Hu _].
  pose proof (begin_admit_checked k u now clock r) as Hc.
  assert (forall e, (begin_admit k u now clock r).2 = Err e ->
    match e with CallsExhausted | DailyCallsExhausted _ => True
            | QuotaExceeded d _ => d = "principal" | _ => False end ->
    upstreams (begin_admit k u now clock r).1 = upstreams r) as Hup.
  { intros e. unfold begin_admit, check_key, check_upstream.
    destruct (lkeys r !! k) as [le|]; [destruct (check_pair (lk_rps le) _ _ _ _) as [[? ?] [[]|?]]|];
      try done; case_match; try done;
      (destruct (upstreams _ !! u) as [ue|]; [|done]);
      unfold check_pair, check_direct;
      repeat (case_match; simplify_eq; try done); intros [= <-]; done. }
  destruct (begin_admit k u now clock r) as [r1 [[]|e]]; [|by split; [|apply Hup]].
  pose proof (enter_queue_quotas u wait r1) as [Hu2 _]. cbn in Hu.
  destruct (enter_queue u wait r1) as [r2 [p|e]] eqn:Eq; cbn in Hu2.
  - split; [by eapply Hc|]. cbn. congruence.
  - split; [congruence|]. intros He. exfalso.
    unfold enter_queue in Eq. destruct (upstreams r1 !! u) as [[? ? [q|]]|]; try done.
    by destruct wait; cbn in Eq; simplify_eq.
Qed.

(** An admitted call that succeeds leaves the key's total and daily count one
    higher.  One that fails leaves the total as it was, and the count of the day of
    its admission too when it fails on that day; one that fails on a later day
    stays counted on the day it was admitted. *)
Lemma admitted_call_counts {G : Governor} k now later r committed :
  0 <= total_calls k r < u64_max -> 0 <= calls_on (date_naive now) k r < u64_max ->
  let r' := drop_guard k committed later (record_call k now r) in
  total_calls k r' = total_calls k r + (if committed then 1 else 0) /\
  calls_on (date_naive now) k r' = calls_on (date_naive now) k r +
    (if committed then 1 else if date_naive later =? date_naive now then 0 else 1).
Proof.
  intros Ht Hc. cbv zeta. unfold drop_guard, refund_call_at, total_calls, calls_on in *.
  assert (record_call_usage k now (usage r) !! k =
    Some (mkKeyCounters (default 0 (total <$> usage r !! k) + 1) (date_naive now)
            (default 0 (today_on (date_naive now) <$> usage r !! k) + 1))) as E.
  { rewrite record_call_usage_self. unfold roll_to, today_on, saturating_add in *.
    destruct (usage r !! k) as [c|]; cbn in *; [|by rewrite Z.eqb_refl].
    destruct (Z.eqb_spec (day c) (date_naive now)) as [->|]; cbn; do 2 f_equal; lia. }
  generalize dependent (default 0 (today_on (date_naive now) <$> usage r !! k)).
  generalize dependent (default 0 (total <$> usage r !! k)). intros t Ht n Hn E.
  destruct committed; cbn.
  - rewrite E. cbn. unfold today_on. cbn. rewrite Z.eqb_refl. lia.
  - rewrite refund_usage_self, E. cbn. unfold today_on, saturating_sub. cbn.
    rewrite Z.eqb_refl, (Z.eqb_sym (date_naive now)).
    destruct (date_naive later =? date_naive now); lia.
Qed.

(** What an admission does to the counters. *)
Lemma admit_usage {G : Governor} k u now clock wait r :
  match admit_at k u now clock wait r with
  | (r', Ok _) => usage r' = record_call_usage k now (usage r)
  | (r', Err _) => usage r' = usage r
  end.
Proof.
  rewrite admit_at_phases. pose proof (begin_admit_quotas k u now clock r) as [Hu _].
  destruct (begin_admit k u now clock r) as [r1 [[]|e]]; [|done]. cbn in Hu.
  pose proof (enter_queue_quotas u wait r1) as [Hu2 _].
  destruct (enter_queue u wait r1) as [r2 [p|e]]; cbn in *; congruence.
Qed.

(** The free permits of an upstream's queue. *)
Definition permits_of {G : Governor} (u : string) (r : LimitRegistry) : option Z :=
  available_permits <$> (upstreams r !! u ≫= ue_queue).

Lemma check_upstream_permits {G : Governor} u c1 c2 v r :
  permits_of v (check_upstream u c1 c2 r).1 = permits_of v r.
Proof.
  unfold check_upstream, permits_of. destruct (upstreams r !! u) as [e|] eqn:E; [|done].
  destruct (check_pair _ _ _ _ _) as [[? ?] ?]. cbn. destruct (decide (u = v)) as [->|Hne].
  - by rewrite lookup_insert_eq, E.
  - by rewrite lookup_insert_ne.
Qed.

Lemma begin_admit_permits {G : Governor} k u now clock v r :
  permits_of v (begin_admit k u now clock r).1 = permits_of v r.
Proof.
  unfold begin_admit.
  assert (upstreams (check_key k (clock 0%nat) (clock 1%nat) r).1 = upstreams r) as Hk.
  { unfold check_key. destruct (lkeys r !! k); [|done]. by destruct (check_pair _ _ _ _ _) as [[? ?] ?]. }
  destruct (check_key _ _ _ r) as [r1 [[]|e]]; cbn in Hk; unfold permits_of in *; [|cbn; by rewrite Hk].
  destruct (check_call_quotas k now r1) as [[]|e]; [|cbn; by rewrite Hk].
  change (permits_of v (check_upstream u (clock 2%nat) (clock 3%nat) r1).1 =
    available_permits <$> (upstreams r !! v ≫= ue_queue)).
  rewrite check_upstream_permits. unfold permits_of. by rewrite Hk.
Qed.

(** An admission that holds a permit took one from the queue of its upstream;
    any other outcome leaves all queues as they were. *)
Lemma admit_permits {G : Governor} k u now clock wait v r :
  match admit_at k u now clock wait r with
  | (r', Ok true) =>
      exists n, permits_of u r = Some n /\
        permits_of v r' = if decide (u = v) then Some (n - 1) else permits_of v r
  | (r', _) => permits_of v r' = permits_of v r
  end.
Proof.
  rewrite admit_at_phases. pose proof (begin_admit_permits k u now clock) as Hb.
  pose proof (Hb u r) as Hu. pose proof (Hb v r) as Hv. clear Hb.
  destruct (begin_admit k u now clock r) as [r1 [[]|e]]; [|done]. cbn in Hu, Hv.
  rewrite <- Hu, <- Hv. clear Hu Hv. unfold enter_queue, permits_of.
  destruct (upstreams r1 !! u) as [[rps rpm [q|]]|] eqn:E; [|done..].
  destruct wait; cbn.
  - exists (available_permits q). split; [done|]. destruct (decide (u = v)) as [->|Hne].
    + by rewrite lookup_insert_eq.
    + by rewrite lookup_insert_ne.
  - destruct (decide (u = v)) as [->|Hne]; [by rewrite lookup_insert_eq, E | by rewrite lookup_insert_ne].
  - destruct (decide (u = v)) as [->|Hne]; [by rewrite lookup_insert_eq, E | by rewrite lookup_insert_ne].
Qed.

Lemma drop_permit_permits {G : Governor} u v r :
  permits_of v (drop_permit u r) =
  if decide (u = v) then (fun n => n + 1) <$> permits_of u r else permits_of v r.
Proof.
  unfold drop_permit, permits_of. destruct (decide (u = v)) as [->|Hne].
  - destruct (upstreams r !! v) as [[rps rpm [q|]]|] eqn:E; cbn; rewrite ?E; try done.
    by rewrite lookup_insert_eq.
  - destruct (upstreams r !! u) as [[rps rpm [q|]]|] eqn:E; cbn; try done.
    by rewrite lookup_insert_ne.
Qed.

(** ** Properties: dates and configuration *)

(** The announced wait of an exhausted daily quota is positive,
    at most a day, and ends exactly at a UTC midnight, at which the day of the
    counters has changed. *)
Theorem retry_after_is_midnight now :
  date_naive now < naive_date_max ->
  0 < until_next_utc_midnight now <= ns_per_day /\
  (now + until_next_utc_midnight now) mod ns_per_day = 0 /\
  date_naive (now + until_next_utc_midnight now) = date_naive now + 1.
Proof.
  unfold until_next_utc_midnight, date_naive. intros H.
  assert (0 < ns_per_day) as Hpos by (vm_compute; reflexivity).
  pose proof (Z.div_mod now ns_per_day ltac:(lia)) as Hdm.
  pose proof (Z.mod_pos_bound now ns_per_day Hpos) as Hb.
  rewrite (proj2 (Z.leb_le _ _)) by lia. cbv zeta.
  rewrite (proj2 (Z.leb_le _ _)) by nia.
  split; [nia|].
  replace (now + ((now / ns_per_day + 1) * ns_per_day - now))
    with ((now / ns_per_day + 1) * ns_per_day) by lia.
  split; [apply Z.mod_mul; lia | apply Z.div_mul; lia].
Qed.

Lemma retry_after_is_midnight_witness :
  0 < until_next_utc_midnight 1700000000000000000 <= ns_per_day.
Proof. apply retry_after_is_midnight. vm_compute. reflexivity. Defined.

Definition upstream_limits_positive (l : UpstreamLimits) : bool :=
  negb (is_zero (ul_rps l)) && negb (is_zero (ul_rpm l)) && negb (is_zero (ul_max_concurrent l)).
Definition key_limits_positive (l : KeyLimits) : bool :=
  negb (is_zero (kl_rps l)) && negb (is_zero (kl_rpm l))
  && negb (is_zero (kl_max_calls l)) && negb (is_zero (kl_max_calls_per_day l)).

Definition opt_all {A} (p : A -> bool) (o : option A) : bool :=
  match o with Some a => p a | None => true end.

Lemma upstream_entry_Ok {G : Governor} l id :
  is_Ok (upstream_entry l id) = upstream_limits_positive l.
Proof.
  unfold upstream_entry, upstream_limits_positive, direct_limiter.
  destruct (ul_max_concurrent l) as [n|], (ul_rps l) as [a|], (ul_rpm l) as [b|]; cbn;
    repeat match goal with |- context [?x =? 0] => destruct (x =? 0); cbn end; done.
Qed.

Lemma limit_key_entry_Ok {G : Governor} l id :
  is_Ok (limit_key_entry l id) = key_limits_positive l.
Proof.
  unfold limit_key_entry, key_limits_positive, direct_limiter.
  destruct (is_zero (kl_max_calls l)), (is_zero (kl_max_calls_per_day l)),
    (kl_rps l) as [a|], (kl_rpm l) as [b|]; cbn;
    repeat match goal with |- context [?x =? 0] => destruct (x =? 0); cbn end; done.
Qed.

Lemma insert_entries_Ok {A B L} (id : A -> string) (limits : A -> option L)
    (entry : L -> string -> result AsterlaneError B) (ok : L -> bool) l m :
  (forall lim i, is_Ok (entry lim i) = ok lim) ->
  is_Ok (insert_entries id limits entry l m) = forallb (fun x => opt_all ok (limits x)) l.
Proof.
  intros H. revert m. induction l as [|x l IH]; intros m; cbn; [done|].
  destruct (limits x) as [lim|]; cbn; [|apply IH]. rewrite <- (H lim (id x)).
  destruct (entry lim (id x)); cbn; [apply IH | done].
Qed.

(** The registry is built exactly from the configurations in
    which no limit of a resource, a server or a key is zero. *)
Theorem limits_config_valid {G : Governor} c :
  is_Ok (limits_from_config c) =
  forallb (fun r => opt_all upstream_limits_positive (ar_limits r)) (api_resources c)
  && forallb (fun s => opt_all upstream_limits_positive (ms_limits s)) (mcp_servers c)
  && forallb (fun k => opt_all key_limits_positive (pk_limits k)) (proxy_keys c).
Proof.
  unfold limits_from_config.
  rewrite <- (insert_entries_Ok ar_id ar_limits upstream_entry _ (api_resources c) ∅
                upstream_entry_Ok).
  destruct (insert_entries ar_id _ _ _ _) as [m|]; cbn; [|done].
  rewrite <- (insert_entries_Ok ms_id ms_limits upstream_entry _ (mcp_servers c) m
                upstream_entry_Ok).
  destruct (insert_entries ms_id _ _ _ _) as [m'|]; cbn; [|done].
  rewrite <- (insert_entries_Ok pk_id pk_limits limit_key_entry _ (proxy_keys c) ∅
                limit_key_entry_Ok).
  by destruct (insert_entries pk_id _ _ _ _).
Qed.
