(* ===== verification/Egress.v ===== *)
(** * Outbound address checks ([src/src/egress.rs])

    Classification of IP addresses, of URLs before a request, of DNS answers and
    of redirects.  URL parsing is the [url] crate ([UrlParser]); address literals
    are parsed as [std::net] does.  The guarded client itself is assembled from
    library parts and is not modelled beyond the resolver and the redirect
    policy that are installed in it. *)

From S2P Require Import Prelude RustStr.
From Stdlib Require Import Ascii.

Local Open Scope string_scope.
Local Open Scope list_scope.
Local Open Scope Z_scope.
Local Open Scope gateway_scope.

Definition SAFE_MESSAGE : string := "upstream address is not allowed".
Definition MAX_REDIRECTS : nat := 10.

Inductive BlockReason :=
| Unspecified | Loopback | Private | LinkLocal | Cgnat | Multicast | Reserved
| Metadata | UniqueLocal | Hostname | Scheme | Unpinned | InvalidUrl | LookupFailed | Empty.
#[export] Instance BlockReason_eq_dec : EqDecision BlockReason.
Proof. solve_decision. Defined.

Record EgressBlocked := mkEgressBlocked { reason : BlockReason }.

Definition reason_name (e : EgressBlocked) : string :=
  match reason e with
  | Unspecified => "unspecified" | Loopback => "loopback" | Private => "private"
  | LinkLocal => "link_local" | Cgnat => "cgnat" | Multicast => "multicast"
  | Reserved => "reserved" | Metadata => "metadata" | UniqueLocal => "unique_local"
  | Hostname => "hostname" | Scheme => "scheme" | Unpinned => "unpinned"
  | InvalidUrl => "invalid_url" | LookupFailed => "lookup_failed" | Empty => "empty"
  end.

Definition EgressBlocked_to_string (e : EgressBlocked) : string := SAFE_MESSAGE.

(** ** Addresses *)

Record Ipv4Addr := mkV4 { oct0 : Z; oct1 : Z; oct2 : Z; oct3 : Z }.
#[export] Instance Ipv4Addr_eq_dec : EqDecision Ipv4Addr.
Proof. solve_decision. Defined.

(** The eight segments. *)
Record Ipv6Addr := mkV6 {
  seg0 : Z; seg1 : Z; seg2 : Z; seg3 : Z; seg4 : Z; seg5 : Z; seg6 : Z; seg7 : Z }.

Inductive IpAddr := V4 (a : Ipv4Addr) | V6 (a : Ipv6Addr).

Definition hi8 (s : Z) : Z := Z.shiftr s 8.
Definition lo8 (s : Z) : Z := Z.land s 0xff.

(** [Ipv6Addr::to_ipv4_mapped], [is_unspecified], [is_loopback], [is_multicast]. *)
Definition to_ipv4_mapped (a : Ipv6Addr) : option Ipv4Addr :=
  if (seg0 a =? 0) && (seg1 a =? 0) && (seg2 a =? 0) && (seg3 a =? 0) && (seg4 a =? 0)
     && (seg5 a =? 0xffff)
  then Some (mkV4 (hi8 (seg6 a)) (lo8 (seg6 a)) (hi8 (seg7 a)) (lo8 (seg7 a)))
  else None.

Definition high_zero (a : Ipv6Addr) : bool :=
  (seg0 a =? 0) && (seg1 a =? 0) && (seg2 a =? 0) && (seg3 a =? 0) && (seg4 a =? 0)
  && (seg5 a =? 0).

Definition is_unspecified (a : Ipv6Addr) : bool :=
  high_zero a && (seg6 a =? 0) && (seg7 a =? 0).
Definition is_loopback (a : Ipv6Addr) : bool :=
  high_zero a && (seg6 a =? 0) && (seg7 a =? 1).
Definition is_multicast (a : Ipv6Addr) : bool := Z.land (seg0 a) 0xff00 =? 0xff00.

Definition classify_v4 (ip : Ipv4Addr) : option BlockReason :=
  if bool_decide (ip = mkV4 168 63 129 16) then Some Metadata
  else
    let a := oct0 ip in
    let b := oct1 ip in
    if a =? 0 then Some Unspecified
    else if a =? 10 then Some Private
    else if a =? 127 then Some Loopback
    else if (a =? 100) && ((64 <=? b) && (b <? 128)) then Some Cgnat
    else if (a =? 169) && (b =? 254) then Some LinkLocal
    else if (a =? 172) && ((16 <=? b) && (b <? 32)) then Some Private
    else if (a =? 192) && (b =? 168) then Some Private
    else if (224 <=? a) && (a <=? 239) then Some Multicast
    else if (240 <=? a) && (a <=? 255) then Some Reserved
    else None.

Definition is_nat64 (s : Ipv6Addr) : bool :=
  (seg0 s =? 0x0064) && (seg1 s =? 0xff9b) && (seg2 s =? 0) && (seg3 s =? 0)
  && (seg4 s =? 0) && (seg5 s =? 0).
Definition is_ipv4_compatible (s : Ipv6Addr) : bool := high_zero s.
Definition last_ipv4 (s : Ipv6Addr) : Ipv4Addr :=
  mkV4 (hi8 (seg6 s)) (lo8 (seg6 s)) (hi8 (seg7 s)) (lo8 (seg7 s)).

Definition embedded_block (s : Ipv6Addr) : option BlockReason :=
  if is_nat64 s || is_ipv4_compatible s then classify_v4 (last_ipv4 s)
  else if seg0 s =? 0x2002
  then classify_v4 (mkV4 (hi8 (seg1 s)) (lo8 (seg1 s)) (hi8 (seg2 s)) (lo8 (seg2 s)))
  else None.

Definition classify_v6 (ip : Ipv6Addr) : option BlockReason :=
  match to_ipv4_mapped ip with
  | Some v4 => classify_v4 v4
  | None =>
      if is_unspecified ip then Some Unspecified
      else if is_loopback ip then Some Loopback
      else if is_multicast ip then Some Multicast
      else if Z.land (seg0 ip) 0xffc0 =? 0xfe80 then Some LinkLocal
      else if (Z.land (seg0 ip) 0xfe00 =? 0xfc00) || (Z.land (seg0 ip) 0xffc0 =? 0xfec0)
      then Some UniqueLocal
      else embedded_block ip
  end.

Definition classify_ip (ip : IpAddr) : option BlockReason :=
  match ip with V4 a => classify_v4 a | V6 a => classify_v6 a end.

(** ** Address literals ([std::net]'s parser) *)

Definition to_digit (radix : Z) (c : ascii) : option Z :=
  d ← to_digit16 c; if d <? radix then Some d else None.

(** [read_number]: the digits at the front, at most [max] of them, as a number,
    with their count and whether the first one is [0]. *)
Fixpoint read_digits (radix : Z) (acc : Z) (count : nat) (s : string) : Z * nat * string :=
  match s with
  | String c s' =>
      match to_digit radix c with
      | Some d => read_digits radix (acc * radix + d) (S count) s'
      | None => (acc, count, s)
      end
  | "" => (acc, count, s)
  end.

Definition read_number (radix : Z) (max : nat) (limit : Z) (allow_zero_prefix : bool)
    (s : string) : option (Z * string) :=
  let '(n, count, rest) := read_digits radix 0 0 s in
  if (count =? 0)%nat || (max <? count)%nat || (limit <? n) then None
  else if negb allow_zero_prefix && starts_with "0" s && (1 <? count)%nat then None
  else Some (n, rest).

Definition read_v4 (s : string) : option (Ipv4Addr * string) :=
  '(a, s) ← read_number 10 3 255 false s; s ← strip_prefix "." s;
  '(b, s) ← read_number 10 3 255 false s; s ← strip_prefix "." s;
  '(c, s) ← read_number 10 3 255 false s; s ← strip_prefix "." s;
  '(d, s) ← read_number 10 3 255 false s; Some (mkV4 a b c d, s).

(** [read_groups]: at most [limit] groups separated by [:], the last two of which
    may be an IPv4 address; returns the groups and whether that was the case. *)
Fixpoint read_groups (limit : nat) (first : bool) (s : string) : list Z * bool * string :=
  match limit with
  | O => ([], false, s)
  | S limit' =>
      match (if first then Some s else strip_prefix ":" s) with
      | None => ([], false, s)
      | Some body =>
          match (if (1 <? limit)%nat then read_v4 body else None) with
          | Some (v4, rest) =>
              ([oct0 v4 * 256 + oct1 v4; oct2 v4 * 256 + oct3 v4], true, rest)
          | None =>
              match read_number 16 4 0xffff true body with
              | Some (g, rest) =>
                  let '(gs, v4, rest) := read_groups limit' false rest in
                  (g :: gs, v4, rest)
              | None => ([], false, s)
              end
          end
      end
  end.

Definition v6_of_groups (l : list Z) : option Ipv6Addr :=
  match l with
  | [a; b; c; d; e; f; g; h] => Some (mkV6 a b c d e f g h)
  | _ => None
  end.

Definition read_v6 (s : string) : option (Ipv6Addr * string) :=
  let '(head, head_v4, rest) := read_groups 8 true s in
  if (length head =? 8)%nat then a ← v6_of_groups head; Some (a, rest)
  else if head_v4 then None
  else
    rest ← strip_prefix "::" rest;
    let '(tail, _, rest) := read_groups (8 - (length head + 1)) true rest in
    a ← v6_of_groups (head ++ repeat 0 (8 - length head - length tail) ++ tail);
    Some (a, rest).

Definition parse_ip (s : string) : option IpAddr :=
  match read_v4 s with
  | Some (a, rest) => if is_empty rest then Some (V4 a) else None
  | None =>
      match read_v6 s with
      | Some (a, rest) => if is_empty rest then Some (V6 a) else None
      | None => None
      end
  end.

(** ** URLs *)

(** [url_port] is [port_or_known_default]. *)
Record Url := mkUrl { scheme : string; host_str : option string;
                      query : option string; fragment : option string;
                      url_port : option Z; url_path : string }.

Class UrlParser := { Url_parse : string -> option Url }.

Definition blocked_hostname (host : string) : bool :=
  let host := to_ascii_lowercase (trim_end_matches "." host) in
  (host =s "localhost") || ends_with ".localhost" host || (host =s "metadata")
  || (host =s "metadata.google.internal") || (host =s "metadata.azure.internal").

Definition unbracketed (host : string) : option string :=
  h ← strip_prefix "[" host; strip_suffix "]" h.

Definition host_reason (host : string) : option BlockReason :=
  match parse_ip (default host (unbracketed host)) with
  | Some ip => classify_ip ip
  | None =>
      match unbracketed host with
      | Some _ => Some InvalidUrl
      | None => if blocked_hostname host then Some Hostname else None
      end
  end.

Definition check_parsed (url : Url) (dns_pinned : bool) : result EgressBlocked () :=
  if negb (scheme url =s "http") && negb (scheme url =s "https")
  then Err (mkEgressBlocked Scheme)
  else if negb dns_pinned then Err (mkEgressBlocked Unpinned)
  else match host_str url with
       | None => Err (mkEgressBlocked InvalidUrl)
       | Some host =>
           match host_reason host with
           | Some r => Err (mkEgressBlocked r)
           | None => Ok tt
           end
       end.

Definition check_url {UP : UrlParser} (url : string) (dns_pinned : bool)
    : result EgressBlocked () :=
  parsed ← ok_or (mkEgressBlocked InvalidUrl) (Url_parse url);
  check_parsed parsed dns_pinned.

(** ** DNS answers *)

Record SocketAddr := mkSocketAddr { sa_ip : IpAddr; sa_port : Z }.

(** The loop of [retain_allowed]: the allowed addresses in order and the reason
    of the first blocked one. *)
Fixpoint retain_loop (addrs : list SocketAddr) (first_reason : option BlockReason)
    : list SocketAddr * option BlockReason :=
  match addrs with
  | [] => ([], first_reason)
  | addr :: addrs =>
      match classify_ip (sa_ip addr) with
      | Some r =>
          retain_loop addrs (match first_reason with None => Some r | Some _ => first_reason end)
      | None =>
          let '(allowed, first_reason) := retain_loop addrs first_reason in
          (mkSocketAddr (sa_ip addr) 0 :: allowed, first_reason)
      end
  end.

Definition retain_allowed (addrs : list SocketAddr) : result EgressBlocked (list SocketAddr) :=
  let '(allowed, first_reason) := retain_loop addrs None in
  match allowed with
  | [] => Err (mkEgressBlocked (default Empty first_reason))
  | _ :: _ => Ok allowed
  end.

(** [lookup] is the system's answer for the host. *)
Definition resolve_host (lookup : string -> option (list SocketAddr)) (host : string)
    : result EgressBlocked (list SocketAddr) :=
  if blocked_hostname host then Err (mkEgressBlocked Hostname)
  else match lookup host with
       | None => Err (mkEgressBlocked LookupFailed)
       | Some addrs => retain_allowed addrs
       end.

(** ** Redirects *)

Inductive RedirectChoice := Follow | Blocked (e : EgressBlocked) | Stopped.

Definition decide_redirect {UP : UrlParser} (next : string) (previous : list string)
    : RedirectChoice :=
  if (MAX_REDIRECTS <? length previous)%nat || (next ∈s previous) then Stopped
  else match check_url next true with
       | Ok _ => Follow
       | Err e => Blocked e
       end.

(** ** The blocked ranges as CIDR blocks *)

Definition v4_valid (ip : Ipv4Addr) : Prop :=
  0 <= oct0 ip < 256 /\ 0 <= oct1 ip < 256 /\ 0 <= oct2 ip < 256 /\ 0 <= oct3 ip < 256.

Definition v4_bits (ip : Ipv4Addr) : Z :=
  ((oct0 ip * 256 + oct1 ip) * 256 + oct2 ip) * 256 + oct3 ip.

(** Membership in [base/len]: the first [len] bits agree. *)
Definition in_cidr (ip : Ipv4Addr) (block : Ipv4Addr * Z) : bool :=
  v4_bits ip / 2 ^ (32 - block.2) =? v4_bits block.1 / 2 ^ (32 - block.2).

Definition blocked_v4_cidrs : list (Ipv4Addr * Z) :=
  [(mkV4 0 0 0 0, 8); (mkV4 10 0 0 0, 8); (mkV4 127 0 0 0, 8); (mkV4 100 64 0 0, 10);
   (mkV4 169 254 0 0, 16); (mkV4 172 16 0 0, 12); (mkV4 192 168 0 0, 16);
   (mkV4 224 0 0 0, 4); (mkV4 240 0 0 0, 4); (mkV4 168 63 129 16, 32)].

(** The ten blocks as bounds on the address. *)
Definition blocked_range (x : Z) : Prop :=
  0x00000000 <= x < 0x01000000 \/ 0x0A000000 <= x < 0x0B000000 \/
  0x7F000000 <= x < 0x80000000 \/ 0x64400000 <= x < 0x64800000 \/
  0xA9FE0000 <= x < 0xA9FF0000 \/ 0xAC100000 <= x < 0xAC200000 \/
  0xC0A80000 <= x < 0xC0A90000 \/ 0xE0000000 <= x < 0xF0000000 \/
  0xF0000000 <= x < 0x100000000 \/ 0xA83F8110 <= x < 0xA83F8111.

Lemma cidr_range ip block lo hi :
  0 < 2 ^ (32 - block.2) ->
  v4_bits block.1 / 2 ^ (32 - block.2) * 2 ^ (32 - block.2) = lo ->
  lo + 2 ^ (32 - block.2) = hi ->
  in_cidr ip block = true <-> lo <= v4_bits ip < hi.
Proof.
  unfold in_cidr. intros Hk <- <-.
  set (k := 2 ^ (32 - block.2)) in *. set (x := v4_bits ip).
  generalize (v4_bits block.1 / k) as q. intros q.
  pose proof (Z.div_mod x k ltac:(lia)). pose proof (Z.mod_pos_bound x k Hk).
  rewrite Z.eqb_eq. split; [intros <-; lia | nia].
Qed.

Lemma blocked_cidrs_ranges ip :
  existsb (in_cidr ip) blocked_v4_cidrs = true <-> blocked_range (v4_bits ip).
Proof.
  unfold blocked_v4_cidrs, blocked_range. cbn [existsb].
  rewrite !orb_true_iff.
  rewrite (cidr_range ip (mkV4 0 0 0 0, 8) 0x00000000 0x01000000),
    (cidr_range ip (mkV4 10 0 0 0, 8) 0x0A000000 0x0B000000),
    (cidr_range ip (mkV4 127 0 0 0, 8) 0x7F000000 0x80000000),
    (cidr_range ip (mkV4 100 64 0 0, 10) 0x64400000 0x64800000),
    (cidr_range ip (mkV4 169 254 0 0, 16) 0xA9FE0000 0xA9FF0000),
    (cidr_range ip (mkV4 172 16 0 0, 12) 0xAC100000 0xAC200000),
    (cidr_range ip (mkV4 192 168 0 0, 16) 0xC0A80000 0xC0A90000),
    (cidr_range ip (mkV4 224 0 0 0, 4) 0xE0000000 0xF0000000),
    (cidr_range ip (mkV4 240 0 0 0, 4) 0xF0000000 0x100000000),
    (cidr_range ip (mkV4 168 63 129 16, 32) 0xA83F8110 0xA83F8111)
    by (vm_compute; reflexivity).
  assert (false = true <-> False) as -> by done. tauto.
Qed.

Lemma classify_v4_ranges ip :
  v4_valid ip -> classify_v4 ip <> None <-> blocked_range (v4_bits ip).
Proof.
  destruct ip as [a b c d]. intros (Ha & Hb & Hc & Hd). cbn in Ha, Hb, Hc, Hd.
  assert (forall (c : bool) (x : BlockReason) r,
    (if c then Some x else r) <> None <-> c = true \/ r <> None) as Hif.
  { intros [] x r; naive_solver. }
  unfold classify_v4. cbv zeta. cbn [oct0 oct1]. rewrite !Hif.
  rewrite bool_decide_eq_true, !andb_true_iff, !Z.eqb_eq, !Z.leb_le, !Z.ltb_lt.
  assert (mkV4 a b c d = mkV4 168 63 129 16 <-> a = 168 /\ b = 63 /\ c = 129 /\ d = 16)
    as -> by naive_solver.
  assert (@None BlockReason <> None <-> False) as -> by naive_solver.
  unfold v4_bits, blocked_range. cbn [oct0 oct1 oct2 oct3].
  split; intros H; repeat destruct H as [H|H]; lia.
Qed.

(** C10: an IPv4 address is refused exactly when it lies in one of ten
    CIDR blocks: this-network, the three private networks, loopback, link-local,
    carrier NAT, multicast, reserved, and the Azure metadata address. *)
Theorem v4_blocked_cidrs ip :
  v4_valid ip ->
  classify_v4 ip <> None <-> existsb (in_cidr ip) blocked_v4_cidrs = true.
Proof. intros H. by rewrite classify_v4_ranges, blocked_cidrs_ranges. Qed.

Lemma v4_blocked_cidrs_witness :
  classify_v4 (mkV4 100 100 100 200) <> None /\ classify_v4 (mkV4 8 8 8 8) = None.
Proof.
  split; [|reflexivity].
  apply (v4_blocked_cidrs (mkV4 100 100 100 200)); [vm_compute; repeat split; congruence | reflexivity].
Defined.

(** ** IPv6 *)

(** A test of the [n] numbers from [k] on. *)
Fixpoint all_from (n : nat) (k : Z) (p : Z -> bool) : bool :=
  match n with O => true | S n => p k && all_from n (k + 1) p end.

Lemma all_from_spec n k p x :
  all_from n k p = true -> k <= x < k + Z.of_nat n -> p x = true.
Proof.
  revert k. induction n as [|n IH]; intros k H Hx; [lia|].
  cbn in H. apply andb_true_iff in H as [Hk H].
  destruct (decide (x = k)) as [->|]; [done|]. apply (IH (k + 1)); [done | lia].
Qed.

(** A test of a 16-bit segment, checked on all of them. *)
Lemma by_all_u16 (p : Z -> bool) x :
  all_from (Z.to_nat 65536) 0 p = true -> 0 <= x < 65536 -> p x = true.
Proof. intros H Hx. apply (all_from_spec _ _ _ _ H). lia. Qed.

(** The prefixes of multicast, link-local, unique-local and site-local addresses
    cover [fc00]..[fdff] and [fe80]..[ffff] of the first segment. *)
Definition special_prefix (s : Z) : bool :=
  (Z.land s 0xff00 =? 0xff00) || (Z.land s 0xffc0 =? 0xfe80)
  || ((Z.land s 0xfe00 =? 0xfc00) || (Z.land s 0xffc0 =? 0xfec0)).

Lemma special_prefix_range s :
  0 <= s < 65536 ->
  special_prefix s = true <-> 0xfc00 <= s < 0xfe00 \/ 0xfe80 <= s.
Proof.
  intros H.
  pose proof (by_all_u16 (fun s => Bool.eqb (special_prefix s)
    (((0xfc00 <=? s) && (s <? 0xfe00)) || (0xfe80 <=? s))) s ltac:(vm_compute; reflexivity) H) as K.
  apply Bool.eqb_prop in K. rewrite K, orb_true_iff, andb_true_iff, !Z.leb_le, Z.ltb_lt. done.
Qed.

(** The IPv4 address that an IPv6 address carries: mapped, compatible, NAT64 or
    6to4. *)
Definition embedded_v4 (s : Ipv6Addr) : option Ipv4Addr :=
  match to_ipv4_mapped s with
  | Some v4 => Some v4
  | None =>
      if is_nat64 s || is_ipv4_compatible s then Some (last_ipv4 s)
      else if seg0 s =? 0x2002
      then Some (mkV4 (hi8 (seg1 s)) (lo8 (seg1 s)) (hi8 (seg2 s)) (lo8 (seg2 s)))
      else None
  end.

Definition v6_valid (s : Ipv6Addr) : Prop := 0 <= seg0 s < 65536.

Lemma embedded_block_spec s :
  to_ipv4_mapped s = None -> embedded_block s = embedded_v4 s ≫= classify_v4.
Proof.
  intros H. unfold embedded_block, embedded_v4. rewrite H. by repeat case_if.
Qed.

Lemma high_zero_embedded s :
  high_zero s = true -> embedded_v4 s = Some (last_ipv4 s) /\ to_ipv4_mapped s = None.
Proof.
  unfold high_zero. intros H. rewrite !andb_true_iff, !Z.eqb_eq in H.
  destruct H as [[[[[H0 H1] H2] H3] H4] H5].
  unfold embedded_v4, to_ipv4_mapped, is_ipv4_compatible, high_zero.
  rewrite H0, H1, H2, H3, H4, H5. cbn. by rewrite orb_true_r.
Qed.

(** An IPv6 address is refused exactly when its first segment lies in
    the unique-local, link-local, site-local or multicast range, or the IPv4
    address it carries (mapped, compatible, which covers [::] and [::1], NAT64 or
    6to4) is refused. *)
Theorem v6_blocked s :
  v6_valid s ->
  classify_v6 s <> None <->
  (0xfc00 <= seg0 s < 0xfe00 \/ 0xfe80 <= seg0 s) \/
  exists v4, embedded_v4 s = Some v4 /\ classify_v4 v4 <> None.
Proof.
  intros Hv. rewrite <- (special_prefix_range (seg0 s) Hv). unfold classify_v6.
  destruct (to_ipv4_mapped s) as [v4|] eqn:Em.
  - assert (seg0 s = 0) as H0.
    { unfold to_ipv4_mapped in Em. case_if_in Em; [|done]. rewrite !andb_true_iff in E. lia. }
    rewrite H0. unfold embedded_v4. rewrite Em.
    assert (special_prefix 0 = true <-> False) as -> by (vm_compute; naive_solver). naive_solver.
  - assert (forall x (y : BlockReason), high_zero s && (seg6 s =? 0) && (seg7 s =? x) = true -> 0 <= x <= 1 ->
      Some y <> None <-> special_prefix (seg0 s) = true \/
      exists v4, embedded_v4 s = Some v4 /\ classify_v4 v4 <> None) as Hlow.
    { intros x y H Hx. rewrite !andb_true_iff, !Z.eqb_eq in H. destruct H as [[Hz H6] H7].
      split; [|done]. intros _. right. exists (last_ipv4 s).
      split; [by apply high_zero_embedded|]. unfold last_ipv4. rewrite H6, H7.
      assert (x = 0 \/ x = 1) as [->| ->] by lia; vm_compute; discriminate. }
    unfold is_unspecified, is_loopback, is_multicast. case_if; [apply (Hlow 0); [done | lia]|].
    case_if; [apply (Hlow 1); [done | lia]|].
    rewrite embedded_block_spec by done. unfold special_prefix.
    destruct (Z.land (seg0 s) 0xff00 =? 0xff00); [naive_solver|].
    destruct (Z.land (seg0 s) 0xffc0 =? 0xfe80); [naive_solver|].
    destruct (_ || _); [naive_solver|]. cbn.
    destruct (embedded_v4 s); cbn; naive_solver.
Qed.

Lemma v6_blocked_witness :
  classify_v6 (mkV6 0x64 0xff9b 0 0 0 0 0x0a00 1) <> None /\
  classify_v6 (mkV6 0x2606 0x4700 0 0 0 0 0 0x1111) = None.
Proof.
  split; [|reflexivity].
  apply (v6_blocked (mkV6 0x64 0xff9b 0 0 0 0 0x0a00 1)); [vm_compute; split; congruence|].
  right. eexists. split; [vm_compute; reflexivity | vm_compute; discriminate].
Defined.

(** ** URLs, DNS answers and redirects *)

Lemma retain_loop_spec addrs fr :
  retain_loop addrs fr =
  ((fun a => mkSocketAddr (sa_ip a) 0)
     <$> List.filter (fun a => match classify_ip (sa_ip a) with None => true | _ => false end) addrs,
   match fr with
   | Some r => Some r
   | None => head (omap (fun a => classify_ip (sa_ip a)) addrs)
   end).
Proof.
  revert fr. induction addrs as [|a addrs IH]; intros fr; cbn; [by destruct fr|].
  destruct (classify_ip (sa_ip a)) as [r|]; cbn.
  - rewrite IH. by destruct fr.
  - by rewrite IH.
Qed.

(** The resolver hands out, in order and with the port cleared,
    exactly the addresses of the answer that are not refused; it fails when the
    name is refused, the lookup failed, or no address is left, with the reason of
    the first refused address. *)
Theorem resolver_pins lookup host :
  resolve_host lookup host =
  if blocked_hostname host then Err (mkEgressBlocked Hostname)
  else match lookup host with
       | None => Err (mkEgressBlocked LookupFailed)
       | Some addrs =>
           match List.filter
                   (fun a => bool_decide (classify_ip (sa_ip a) = None)) addrs with
           | [] => Err (mkEgressBlocked (default Empty
                     (head (omap (fun a => classify_ip (sa_ip a)) addrs))))
           | allowed => Ok ((fun a => mkSocketAddr (sa_ip a) 0) <$> allowed)
           end
       end.
Proof.
  unfold resolve_host, retain_allowed. case_if; [done|].
  destruct (lookup host) as [addrs|]; [|done]. rewrite retain_loop_spec.
  rewrite (filter_ext_elem (fun a => bool_decide (classify_ip (sa_ip a) = None))
    (fun a => match classify_ip (sa_ip a) with None => true | _ => false end)).
  - by destruct (List.filter _ addrs).
  - intros a _. case_bool_decide as Ec; [by rewrite Ec | by destruct (classify_ip (sa_ip a))].
Qed.

Lemma host_reason_None host :
  host_reason host = None <->
  match parse_ip (default host (unbracketed host)) with
  | Some ip => classify_ip ip = None
  | None => unbracketed host = None /\ blocked_hostname host = false
  end.
Proof.
  unfold host_reason. destruct (parse_ip _); [done|].
  destruct (unbracketed host); [naive_solver|]. destruct (blocked_hostname host); naive_solver.
Qed.

(** A URL passes the check exactly when it parses, its scheme is
    http or https, the pinning client is in use, and its host is an address that
    is not refused or a name that is not refused. *)
Theorem url_allowed {UP : UrlParser} url dns_pinned :
  check_url url dns_pinned = Ok tt <->
  exists u host, Url_parse url = Some u /\ (scheme u = "http" \/ scheme u = "https") /\
    dns_pinned = true /\ host_str u = Some host /\
    match parse_ip (default host (unbracketed host)) with
    | Some ip => classify_ip ip = None
    | None => unbracketed host = None /\ blocked_hostname host = false
    end.
Proof.
  unfold check_url, check_parsed. destruct (Url_parse url) as [u|]; cbn.
  2:{ split; [done|]. by intros (? & ? & ? & _). }
  assert (negb (scheme u =s "http") && negb (scheme u =s "https") = false <->
          scheme u = "http" \/ scheme u = "https") as Hs.
  { rewrite andb_false_iff, !negb_false_iff, !String.eqb_eq. done. }
  destruct (_ && _); [split; [done|]; intros (u' & _ & [= <-] & H & _); by apply Hs in H|].
  destruct dns_pinned; cbn; [|split; [done | naive_solver]].
  destruct (host_str u) as [host|] eqn:Eh; [|split; [done | naive_solver]].
  destruct (host_reason host) eqn:Er; split; try done.
  - intros (u' & h & [= <-] & _ & _ & Hh & H). rewrite Eh in Hh. injection Hh as <-.
    apply host_reason_None in H. congruence.
  - intros _. exists u, host. rewrite <- host_reason_None, Eh. naive_solver.
Qed.

(** The URLs of a request whose redirects were all followed, oldest first. *)
Inductive followed {UP : UrlParser} : list string -> Prop :=
| followed_start url : followed [url]
| followed_next previous next :
    followed previous -> decide_redirect next previous = Follow ->
    followed (previous ++ [next]).

(** A chain of followed redirects ends: it visits at most
    eleven URLs, none twice, and every URL after the first passed the address
    check. *)
Theorem redirects_end {UP : UrlParser} urls :
  followed urls ->
  (length urls <= 11)%nat /\ NoDup urls /\
  Forall (fun u => check_url u true = Ok tt) (tail urls).
Proof.
  induction 1 as [u|previous next Hf IH Hd].
  - cbn. split; [lia|]. split; [apply NoDup_singleton | constructor].
  - destruct IH as (Hlen & Hnd & Hall). unfold decide_redirect, MAX_REDIRECTS in Hd.
    destruct (10 <? length previous)%nat eqn:El; [done|]. cbn in Hd.
    destruct (next ∈s previous) eqn:Ein; [done|]. rewrite existsb_eqb_not_elem in Ein.
    destruct (check_url next true) as [[]|] eqn:Ec; [|done].
    apply Nat.ltb_ge in El. split; [rewrite length_app; cbn; lia|]. split.
    + apply NoDup_app. split; [done|]. split; [set_solver | apply NoDup_singleton].
    + destruct previous; [inversion Hf; by destruct previous|]. cbn in *.
      apply Forall_app. by repeat constructor.
Qed.

(** A URL parser for plain [https://host] texts. *)
Definition https_parser : UrlParser :=
  {| Url_parse := fun s => h ← strip_prefix "https://" s; Some (mkUrl "https" (Some h) None None (Some 443) "/") |}.

Lemma redirects_end_witness :
  (length ["https://a.example"; "https://8.8.8.8"] <= 11)%nat /\
  check_url (UP := https_parser) "https://8.8.8.8" true = Ok tt.
Proof.
  destruct (redirects_end (UP := https_parser) ["https://a.example"; "https://8.8.8.8"])
    as (H1 & _ & H2).
  - apply (followed_next (UP := https_parser) ["https://a.example"]);
      [constructor | vm_compute; reflexivity].
  - split; [exact H1|]. inversion H2; assumption.
Defined.

(** The name check ignores case and trailing dots. *)
Example hostname_spellings :
  blocked_hostname "LocalHost." = true /\ blocked_hostname "a.localhost.." = true /\
  blocked_hostname "Metadata.Google.Internal" = true /\ blocked_hostname "localhost.evil.com" = false.
Proof. vm_compute. repeat split. Qed.
