(* ===== verification/Shaping.v ===== *)
(** * Result shaping ([src/src/shaping.rs])

    Results over the budget are cut at a character boundary and kept in a cache
    from which the client pages through the rest.  A text is its list of UTF-8
    bytes.  The cache is behind a mutex, so each operation is atomic; the order
    in which the hash map is iterated is a parameter ([HashOrder]) and matters
    only for which of several equally old entries is evicted. *)

From S2P Require Import Prelude RustStr.
From Stdlib Require Import Ascii.

Local Open Scope string_scope.
Local Open Scope list_scope.
Local Open Scope Z_scope.
Local Open Scope gateway_scope.

Notation bytes := (list ascii).

Definition DEFAULT_BUDGET_BYTES : Z := 48 * 1024.
Definition CACHE_TTL_SECS : Z := 15 * 60.
Definition MAX_CACHE_ENTRIES : nat := 64.
Definition MAX_CACHE_BYTES : Z := 64 * 1024 * 1024.

Record ShapingConfig := mkShapingConfig { budget_bytes : Z }.
Definition ShapingConfig_default : ShapingConfig := mkShapingConfig DEFAULT_BUDGET_BYTES.

Definition len (s : bytes) : Z := Z.of_nat (length s).

(** ** Character boundaries *)

Definition is_continuation (c : ascii) : bool := in_range 0x80 0xBF (code c).

(** [str::is_char_boundary]. *)
Definition is_char_boundary (s : bytes) (i : nat) : bool :=
  match i with
  | O => true
  | S _ =>
      match s !! i with
      | Some c => negb (is_continuation c)
      | None => (i =? length s)%nat
      end
  end.

(** The loop: down from [i] to the first boundary. *)
Fixpoint floor_from (s : bytes) (i : nat) : nat :=
  match i with
  | O => O
  | S i' => if is_char_boundary s i then i else floor_from s i'
  end.

Definition floor_char_boundary (s : bytes) (index : Z) : Z :=
  if len s <=? index then len s else Z.of_nat (floor_from s (Z.to_nat index)).

(** [&s[from..to]] with both ends on boundaries; panics when [from > to]. *)
Definition slice (s : bytes) (from to : Z) : outcome bytes :=
  if (from <=? to) && (to <=? len s)
  then Returns (take (Z.to_nat to - Z.to_nat from) (drop (Z.to_nat from) s))
  else Panics.

Definition truncate_utf8 (s : bytes) (max_bytes : Z) : bytes :=
  if len s <=? max_bytes then s else take (Z.to_nat (floor_char_boundary s max_bytes)) s.

(** ** The cache *)

Record CachedResult := mkCachedResult {
  body : bytes;
  created_at : Z;
  proxy_key : string;
}.

Record ResultCache := mkResultCache { rc_entries : gmap string CachedResult; counter : Z }.

Definition ResultCache_new : ResultCache := mkResultCache ∅ 0.

(** [created_at.elapsed().as_secs()]. *)
Definition elapsed_secs (now created : Z) : Z := as_secs (saturating_sub now created).

Definition is_fresh (now : Z) (e : CachedResult) : bool :=
  elapsed_secs now (created_at e) <? CACHE_TTL_SECS.

Definition sweep_entries (now : Z) (m : gmap string CachedResult) : gmap string CachedResult :=
  omap (fun e => if is_fresh now e then Some e else None) m.

Definition sweep (now : Z) (c : ResultCache) : ResultCache :=
  mkResultCache (sweep_entries now (rc_entries c)) (counter c).

Class HashOrder := { hash_order : gmap string CachedResult -> list (string * CachedResult) }.
Class HashOrderLaws (H : HashOrder) : Prop := {
  hash_order_perm m : hash_order m ≡ₚ map_to_list m }.

Definition total_bytes (m : gmap string CachedResult) : Z :=
  foldr (fun p n => len (body p.2) + n) 0 (map_to_list m).

Record ShapedChunk := mkShapedChunk {
  text : bytes;
  ch_offset : Z;
  total_len : Z;
  has_more : bool;
}.

Definition cursor_of (id : Z) : string := "r" +:+ fmt_Z id.

Section Cache.
Context {HO : HashOrder}.

Definition oldest_key (m : gmap string CachedResult) : option string :=
  fst <$> min_by_key (fun p => created_at p.2) (hash_order m).

Definition cache_full (m : gmap string CachedResult) : bool :=
  (MAX_CACHE_ENTRIES <=? size m)%nat || (MAX_CACHE_BYTES <=? total_bytes m).

(** The eviction loop; every round removes an entry, so [size m] rounds are
    enough. *)
Fixpoint evict (fuel : nat) (m : gmap string CachedResult) : gmap string CachedResult :=
  match fuel with
  | O => m
  | S fuel =>
      if cache_full m then
        match oldest_key m with
        | Some k => evict fuel (delete k m)
        | None => m
        end
      else m
  end.

(** [t0] is the clock of the sweep, [now] that of the new entry. *)
Definition store (b : bytes) (key : string) (t0 now : Z) (c : ResultCache)
    : ResultCache * string :=
  let c := sweep t0 c in
  let cursor := cursor_of (counter c) in
  let m := evict (size (rc_entries c)) (rc_entries c) in
  (mkResultCache (<[cursor := mkCachedResult b now key]> m) (wrapping 64 (counter c + 1)),
   cursor).

(** The part of [fetch] that cuts the answer out of the body. *)
Definition read_chunk (b : bytes) (offset limit : Z) : outcome ShapedChunk :=
  let total := len b in
  if total <=? offset then Returns (mkShapedChunk [] offset total false)
  else
    let end_ := Z.min total (wrapping 64 (offset + limit)) in
    let safe_end := floor_char_boundary b end_ in
    let safe_offset := floor_char_boundary b offset in
    text ← slice b safe_offset safe_end;
    Returns (mkShapedChunk text safe_offset total (safe_end <? total)).

Definition fetch (cursor key : string) (offset limit t0 now : Z) (c : ResultCache)
    : outcome (ResultCache * option ShapedChunk) :=
  let c := sweep t0 c in
  match rc_entries c !! cursor with
  | None => Returns (c, None)
  | Some e =>
      if negb (proxy_key e =s key) then Returns (c, None)
      else if negb (is_fresh now e) then Returns (c, None)
      else
        chunk ← read_chunk (body e) offset limit;
        Returns (c, Some chunk)
  end.

Inductive ShapingOutcome :=
| Unchanged
| Shaped (head : bytes) (cursor : string) (total_len : Z).

Definition budget_for (per_resource : option Z) : Z := default DEFAULT_BUDGET_BYTES per_resource.

Definition shape_result (b : bytes) (config : ShapingConfig) (key : string) (t0 now : Z)
    (c : ResultCache) : ResultCache * ShapingOutcome :=
  if len b <=? budget_bytes config then (c, Unchanged)
  else
    let head := truncate_utf8 b (budget_bytes config) in
    let '(c, cursor) := store b key t0 now c in
    (c, Shaped head cursor (len b)).
End Cache.

(** ** Lemmas: boundaries *)

Lemma floor_from_le s i : (floor_from s i <= i)%nat.
Proof. induction i as [|i IH]; cbn -[is_char_boundary]; [lia|]. case_if; lia. Qed.

Lemma floor_from_boundary s i : is_char_boundary s (floor_from s i) = true.
Proof. induction i as [|i IH]; cbn -[is_char_boundary]; [done|]. by case_if. Qed.

Lemma floor_from_max s i j :
  (j <= i)%nat -> is_char_boundary s j = true -> (j <= floor_from s i)%nat.
Proof.
  induction i as [|i IH]; cbn -[is_char_boundary]; intros Hj Hb; [lia|].
  case_if; [lia|]. apply IH; [|done]. destruct (decide (j = S i)) as [->|]; [congruence | lia].
Qed.

Lemma floor_bounds s i : 0 <= i -> 0 <= floor_char_boundary s i <= Z.min i (len s).
Proof.
  unfold floor_char_boundary, len. intros H. destruct (Z.leb_spec (Z.of_nat (length s)) i); [lia|].
  pose proof (floor_from_le s (Z.to_nat i)). lia.
Qed.

Lemma is_char_boundary_end s : is_char_boundary s (length s) = true.
Proof.
  unfold is_char_boundary. destruct (length s) eqn:E; [done|]. rewrite <- E.
  rewrite lookup_ge_None_2 by lia. apply Nat.eqb_refl.
Qed.

Lemma floor_boundary s i :
  0 <= i -> is_char_boundary s (Z.to_nat (floor_char_boundary s i)) = true.
Proof.
  unfold floor_char_boundary, len. intros H. case_if.
  - rewrite Nat2Z.id. apply is_char_boundary_end.
  - rewrite Nat2Z.id. apply floor_from_boundary.
Qed.

Lemma floor_greatest s i j :
  0 <= i -> 0 <= j <= i -> j <= len s -> is_char_boundary s (Z.to_nat j) = true ->
  j <= floor_char_boundary s i.
Proof.
  unfold floor_char_boundary, len. intros Hi Hj Hl Hb. case_if; [lia|].
  pose proof (floor_from_max s (Z.to_nat i) (Z.to_nat j) ltac:(lia) Hb). lia.
Qed.

(** Truncation returns the longest prefix of at most the
    budget that ends on a character boundary. *)
Theorem truncate_longest_prefix s max :
  0 <= max ->
  let t := truncate_utf8 s max in
  (exists rest, s = t ++ rest) /\ len t <= max /\
  is_char_boundary s (length t) = true /\
  (forall j, (j <= length s)%nat -> Z.of_nat j <= max -> is_char_boundary s j = true ->
     (j <= length t)%nat).
Proof.
  intros Hm. unfold truncate_utf8. destruct (Z.leb_spec (len s) max) as [Hle|Hgt]; cbv zeta.
  - split; [by exists []; rewrite app_nil_r|]. split; [done|].
    split; [apply is_char_boundary_end|]. done.
  - pose proof (floor_bounds s max Hm) as Hb. set (k := floor_char_boundary s max) in *.
    assert (length (take (Z.to_nat k) s) = Z.to_nat k) as Hl.
    { rewrite length_take. unfold len in *. lia. }
    split; [exists (drop (Z.to_nat k) s); by rewrite take_drop|].
    unfold len at 1. rewrite Hl. split; [lia|]. split; [by apply floor_boundary|].
    intros j Hj Hjm Hbj.
    pose proof (floor_greatest s max (Z.of_nat j) Hm ltac:(lia) ltac:(unfold len; lia)) as K.
    rewrite Nat2Z.id in K. specialize (K Hbj). subst k. lia.
Qed.

Definition demo_text : bytes := String.list_ascii_of_string "aé世".

Lemma truncate_longest_prefix_witness :
  len (truncate_utf8 demo_text 5) = 3 /\ len (truncate_utf8 demo_text 5) <= 5.
Proof.
  split; [vm_compute; reflexivity|]. apply (truncate_longest_prefix demo_text 5). lia.
Defined.

(** ** Lemmas: paging *)

(** The shape of UTF-8 that paging relies on: a text does not start with a
    continuation byte, and at most three of them follow each other. *)
Fixpoint short_runs (n : nat) (s : bytes) : bool :=
  match s with
  | [] => true
  | c :: s =>
      if is_continuation c then match n with O => false | S n => short_runs n s end
      else short_runs 3 s
  end.
Definition utf8_shape (s : bytes) : bool := short_runs 0 s.

Lemma short_runs_next n s :
  short_runs n s = true ->
  exists j, (j <= n)%nat /\ (j <= length s)%nat /\
    match s !! j with Some c => is_continuation c = false | None => j = length s end.
Proof.
  revert n. induction s as [|c s IH]; intros n H; cbn in H; [exists 0%nat; cbn; lia|].
  destruct (is_continuation c) eqn:E.
  - destruct n as [|n]; [done|]. destruct (IH n H) as (j & Hj & Hl & Hb).
    exists (S j). cbn. split; [lia|]. split; [lia|]. destruct (s !! j); [done | lia].
  - exists 0%nat. cbn. split; [lia|]. split; [lia | done].
Qed.

Lemma short_runs_drop n s i c :
  short_runs n s = true -> s !! i = Some c -> is_continuation c = false ->
  short_runs 3 (drop (S i) s) = true.
Proof.
  revert n i. induction s as [|a s IH]; intros n i H Hi Hc; [done|]. cbn in H.
  destruct i as [|i]; cbn in *.
  - injection Hi as ->. by rewrite Hc in H.
  - destruct (is_continuation a); [destruct n; [done|]|]; by eapply IH.
Qed.

(** The next boundary is at most four bytes away. *)
Lemma next_boundary s i :
  utf8_shape s = true -> is_char_boundary s i = true -> (i < length s)%nat ->
  exists j, (i < j <= i + 4)%nat /\ (j <= length s)%nat /\ is_char_boundary s j = true.
Proof.
  intros Hu Hb Hi. destruct (lookup_lt_is_Some_2 s i Hi) as [c Hc].
  assert (is_continuation c = false) as Hcont.
  { destruct i as [|i].
    - destruct s as [|a s]; [done|]. injection Hc as ->. unfold utf8_shape in Hu. cbn in Hu.
      by destruct (is_continuation c).
    - unfold is_char_boundary in Hb. rewrite Hc in Hb. by apply negb_true_iff in Hb. }
  destruct (short_runs_next 3 _ (short_runs_drop 0 s i c Hu Hc Hcont)) as (j & Hj & Hl & Hn).
  rewrite length_drop in Hl. rewrite lookup_drop in Hn.
  exists (S i + j)%nat. split; [lia|]. split; [lia|]. cbn [is_char_boundary plus].
  change (S (i + j)) with (S i + j)%nat. destruct (s !! (S i + j)%nat); [by rewrite Hn|].
  rewrite length_drop in Hn. apply Nat.eqb_eq. lia.
Qed.

(** A read from a boundary returns a non-empty piece up to a later boundary, and
    never panics. *)
Lemma read_chunk_progress b o limit :
  utf8_shape b = true -> 4 <= limit -> 0 <= o < len b -> o + limit < 2 ^ 64 ->
  is_char_boundary b (Z.to_nat o) = true ->
  exists e, o < e <= len b /\ is_char_boundary b (Z.to_nat e) = true /\
    read_chunk b o limit =
      Returns (mkShapedChunk (take (Z.to_nat e - Z.to_nat o) (drop (Z.to_nat o) b)) o (len b)
                 (e <? len b)).
Proof.
  intros Hu Hl Ho Hmax Hb. unfold read_chunk.
  rewrite (proj2 (Z.leb_gt (len b) o)) by lia. rewrite wrapping_small by lia.
  set (e := floor_char_boundary b (Z.min (len b) (o + limit))).
  assert (floor_char_boundary b o = o) as ->.
  { apply Z.le_antisymm; [pose proof (floor_bounds b o); lia|].
    apply floor_greatest; [lia | lia | lia | done]. }
  assert (0 <= Z.min (len b) (o + limit)) as H0 by lia.
  pose proof (floor_bounds b _ H0) as He. fold e in He.
  assert (o < e) as Hlt.
  { destruct (next_boundary b (Z.to_nat o) Hu Hb) as (j & Hj & Hjl & Hbj);
      [unfold len in *; lia|].
    pose proof (floor_greatest b (Z.min (len b) (o + limit)) (Z.of_nat j) H0) as K.
    rewrite Nat2Z.id in K. fold e in K. unfold len in *. specialize (K ltac:(lia) ltac:(lia) Hbj).
    lia. }
  exists e. split; [lia|]. split; [by apply floor_boundary|]. unfold slice.
  rewrite (proj2 (Z.leb_le o e)), (proj2 (Z.leb_le e (len b))) by lia. done.
Qed.

(** A client that reads a cached result to its end; [None] when the fuel is used
    up, a fetch fails or the server panics.  [clock n] is the time of the [n]-th
    fetch. *)
Fixpoint fetch_all (fuel : nat) (cursor key : string) (limit offset : Z) (clock : nat -> Z)
    (n : nat) (c : ResultCache) : option bytes :=
  match fuel with
  | O => None
  | S fuel =>
      match fetch cursor key offset limit (clock n) (clock n) c with
      | Returns (c, Some ch) =>
          if has_more ch
          then app (text ch)
                 <$> fetch_all fuel cursor key limit (ch_offset ch + len (text ch)) clock (S n) c
          else Some (text ch)
      | _ => None
      end
  end.

Lemma sweep_keeps now c cursor e :
  rc_entries c !! cursor = Some e -> is_fresh now e = true ->
  rc_entries (sweep now c) !! cursor = Some e.
Proof. intros H Hf. cbn. unfold sweep_entries. rewrite lookup_omap, H. cbn. by rewrite Hf. Qed.

Lemma fetch_all_from fuel cursor key limit offset clock n c e :
  rc_entries c !! cursor = Some e -> proxy_key e = key ->
  (forall i, is_fresh (clock i) e = true) ->
  utf8_shape (body e) = true -> 4 <= limit -> len (body e) + limit < 2 ^ 64 ->
  0 <= offset < len (body e) -> is_char_boundary (body e) (Z.to_nat offset) = true ->
  len (body e) - offset <= Z.of_nat fuel ->
  fetch_all fuel cursor key limit offset clock n c = Some (drop (Z.to_nat offset) (body e)).
Proof.
  intros He Hk Hf Hu Hl Hmax. revert offset n c He.
  induction fuel as [|fuel IH]; intros offset n c He Ho Hb Hfuel; [lia|].
  destruct (read_chunk_progress (body e) offset limit) as (z & Hz & Hbz & Hread);
    [done | done | done | lia | done|].
  cbn [fetch_all]. unfold fetch. cbv zeta. rewrite (sweep_keeps _ _ _ _ He (Hf n)).
  rewrite Hk, String.eqb_refl, Hf. cbn [negb]. rewrite Hread. cbn [mbind outcome_bind has_more
    text ch_offset].
  set (piece := take (Z.to_nat z - Z.to_nat offset) (drop (Z.to_nat offset) (body e))).
  assert (len piece = z - offset) as Hlen.
  { subst piece. unfold len in *. rewrite length_take, length_drop. lia. }
  destruct (Z.ltb_spec z (len (body e))) as [Hlt|Hge].
  - replace (offset + len piece) with z by lia.
    rewrite IH by (try done; try lia; by apply sweep_keeps). cbn. f_equal. subst piece.
    rewrite <- (take_drop (Z.to_nat z - Z.to_nat offset) (drop (Z.to_nat offset) (body e))) at 2.
    rewrite drop_drop. by replace (Z.to_nat offset + (Z.to_nat z - Z.to_nat offset))%nat
      with (Z.to_nat z) by lia.
  - f_equal. subst piece. apply take_ge. rewrite length_drop. unfold len in *. lia.
Qed.

(** C9: a client that follows the announced offsets with a page
    size of at least four bytes reads back exactly the cached text, in at most as
    many fetches as it has bytes, and without a panic, while the entry is fresh. *)
Theorem paging_reassembles cursor key limit clock c e fuel :
  rc_entries c !! cursor = Some e -> proxy_key e = key ->
  (forall i, is_fresh (clock i) e = true) ->
  utf8_shape (body e) = true -> body e <> [] ->
  4 <= limit -> len (body e) + limit < 2 ^ 64 ->
  (length (body e) <= fuel)%nat ->
  fetch_all fuel cursor key limit 0 clock 0 c = Some (body e).
Proof.
  intros He Hk Hf Hu Hne Hl Hmax Hfuel.
  rewrite (fetch_all_from fuel cursor key limit 0 clock 0 c e); try done; unfold len in *; try lia.
  destruct (body e); [done|]. cbn. lia.
Qed.

Definition list_order : HashOrder := {| hash_order := fun m => map_to_list m |}.
#[export] Instance list_order_laws : HashOrderLaws list_order.
Proof. by split. Qed.

Definition demo_cache : ResultCache :=
  (store (HO := list_order) demo_text "k" 0 0 ResultCache_new).1.

Lemma paging_reassembles_witness :
  fetch_all 10 "r0" "k" 4 0 (fun _ => 5) 0 demo_cache = Some demo_text.
Proof.
  apply (paging_reassembles "r0" "k" 4 (fun _ => 5) demo_cache
    (mkCachedResult demo_text 0 "k") 10);
    first [done | vm_compute; congruence | vm_compute; reflexivity | vm_compute; lia
          | intros; vm_compute; reflexivity].
Defined.

(** With a smaller page a character can block the reader for ever. *)
Example small_pages_stall :
  exists ch, read_chunk demo_text 1 1 = Returns ch /\ text ch = [] /\ has_more ch = true /\
    ch_offset ch + len (text ch) = 1.
Proof. eexists. split; [vm_compute; reflexivity|]. vm_compute. repeat split. Qed.

(** ** Properties of the cache *)

(** The operations that change the cache; a fetch changes it as its sweep does. *)
Inductive cache_op :=
| OpStore (b : bytes) (key : string) (t0 now : Z)
| OpSweep (now : Z).

Section CacheFacts.
Context {HO : HashOrder} {HL : HashOrderLaws HO}.

Definition run_cache_op (c : ResultCache) (op : cache_op) : ResultCache :=
  match op with
  | OpStore b key t0 now => (store b key t0 now c).1
  | OpSweep now => sweep now c
  end.

Definition run_cache (ops : list cache_op) (c : ResultCache) : ResultCache :=
  fold_left run_cache_op ops c.

(** Never more than 64 entries, and cursors are those already handed out. *)
Record cache_ok (c : ResultCache) : Prop := {
  ok_size : (size (rc_entries c) <= MAX_CACHE_ENTRIES)%nat;
  ok_counter : 0 <= counter c;
  ok_cursors k : is_Some (rc_entries c !! k) -> exists i, 0 <= i < counter c /\ k = cursor_of i;
}.

Lemma cache_new_ok : cache_ok ResultCache_new.
Proof.
  split; cbn; [rewrite map_size_empty; unfold MAX_CACHE_ENTRIES; lia | lia|].
  intros k [e He]. by rewrite lookup_empty in He.
Qed.

Lemma sweep_subseteq now m : sweep_entries now m ⊆ m.
Proof.
  apply map_subseteq_spec. intros k e. unfold sweep_entries. rewrite lookup_omap.
  destruct (m !! k); cbn; [case_if|]; congruence.
Qed.

Lemma oldest_key_elem m k : oldest_key m = Some k -> is_Some (m !! k).
Proof.
  unfold oldest_key. intros ([k' e] & H & ->)%fmap_Some.
  apply min_by_key_Some in H as [H _]. rewrite (hash_order_perm m) in H.
  apply elem_of_map_to_list in H. cbn. eauto.
Qed.

Lemma oldest_key_None m : oldest_key m = None -> m = ∅.
Proof.
  unfold oldest_key. intros H%fmap_None%min_by_key_None.
  apply map_to_list_empty_iff, Permutation_nil_r. by rewrite <- (hash_order_perm m), H.
Qed.

Lemma evict_spec n m :
  (size m <= n)%nat -> evict n m ⊆ m /\ cache_full (evict n m) = false.
Proof.
  revert m. induction n as [|n IH]; intros m Hn; cbn.
  - assert (m = ∅) as -> by (apply map_size_empty_inv; lia). split; [done|]. by vm_compute.
  - destruct (cache_full m) eqn:Ef; [|by split].
    destruct (oldest_key m) as [k|] eqn:Ek.
    + apply oldest_key_elem in Ek. destruct (IH (delete k m)) as [H1 H2].
      { rewrite map_size_delete_Some by done. lia. }
      split; [|done]. etransitivity; [exact H1 | apply delete_subseteq].
    + apply oldest_key_None in Ek as ->. by vm_compute in Ef.
Qed.

Lemma cursor_of_inj i j : cursor_of i = cursor_of j -> i = j.
Proof. unfold cursor_of, fmt_Z. intros H. by apply (inj (String.append "r")), (inj pretty) in H. Qed.

Lemma store_entries t0 c :
  cache_ok c ->
  let m := evict (size (rc_entries (sweep t0 c))) (rc_entries (sweep t0 c)) in
  m ⊆ rc_entries c /\ cache_full m = false /\ m !! cursor_of (counter c) = None.
Proof.
  intros Hok m. destruct (evict_spec _ (rc_entries (sweep t0 c)) (le_n _)) as [H1 H2].
  assert (m ⊆ rc_entries c) as Hsub by (etransitivity; [exact H1 | apply sweep_subseteq]).
  split; [done|]. split; [done|].
  destruct (m !! cursor_of (counter c)) as [e|] eqn:E; [|done].
  apply (lookup_weaken _ _ _ _ E) in Hsub.
  destruct (ok_cursors c Hok (cursor_of (counter c))) as (i & Hi & Hc); [eauto|].
  apply cursor_of_inj in Hc. lia.
Qed.

Lemma store_ok b key t0 now c :
  counter c + 1 < 2 ^ 64 -> cache_ok c -> cache_ok (store b key t0 now c).1.
Proof.
  intros Hmax Hok. destruct (store_entries t0 c Hok) as (Hsub & Hfull & Hnew).
  cbn -[evict] in Hsub, Hfull, Hnew.
  pose proof (ok_counter c Hok). split; cbn -[evict].
  - rewrite map_size_insert_None by done. unfold cache_full in Hfull.
    apply orb_false_iff in Hfull as [Hs _]. apply Nat.leb_gt in Hs. lia.
  - apply wrapping_bound. lia.
  - intros k [e He]. rewrite wrapping_small by lia.
    apply lookup_insert_Some in He as [[<- _]|[_ He]]; [exists (counter c); split; [lia | done]|].
    destruct (ok_cursors c Hok k) as (i & Hi & ->); [|exists i; split; [lia | done]].
    exists e. by eapply lookup_weaken.
Qed.

Lemma sweep_ok now c : cache_ok c -> cache_ok (sweep now c).
Proof.
  intros Hok. split; cbn.
  - etransitivity; [|apply (ok_size c Hok)]. apply map_subseteq_size, sweep_subseteq.
  - apply Hok.
  - intros k [e He]. apply (ok_cursors c Hok). exists e.
    eapply lookup_weaken; [exact He | apply sweep_subseteq].
Qed.

Lemma run_cache_counter ops c :
  cache_ok c -> counter c + Z.of_nat (length ops) < 2 ^ 64 ->
  cache_ok (run_cache ops c) /\ counter (run_cache ops c) <= counter c + Z.of_nat (length ops).
Proof.
  revert c. induction ops as [|op ops IH]; cbn [run_cache fold_left length]; intros c Hok Hmax;
    [split; [done | lia]|].
  assert (cache_ok (run_cache_op c op) /\ counter (run_cache_op c op) <= counter c + 1) as [H1 H2].
  { pose proof (ok_counter c Hok). destruct op as [b key t0 now|now]; cbn [run_cache_op].
    - split; [apply store_ok; [lia | done]|]. cbn. rewrite wrapping_small; lia.
    - split; [by apply sweep_ok | cbn; lia]. }
  destruct (IH _ H1) as [H3 H4]; [lia|]. split; [done|]. unfold run_cache in *. lia.
Qed.

(** What is stored under a cursor stays as it is until it is gone for good. *)
Lemma run_cache_entry ops c k e :
  cache_ok c -> counter c + Z.of_nat (length ops) < 2 ^ 64 ->
  (exists i, 0 <= i < counter c /\ k = cursor_of i) ->
  (rc_entries c !! k = Some e \/ rc_entries c !! k = None) ->
  rc_entries (run_cache ops c) !! k = Some e \/ rc_entries (run_cache ops c) !! k = None.
Proof.
  revert c. induction ops as [|op ops IH]; intros c Hok Hmax Hk He; [done|].
  cbn [length] in Hmax. pose proof (ok_counter c Hok).
  assert (rc_entries (run_cache_op c op) !! k = Some e \/
          rc_entries (run_cache_op c op) !! k = None) as He'.
  { assert (forall m, m ⊆ rc_entries c -> m !! k = Some e \/ m !! k = None) as Hm.
    { intros m Hm. destruct (m !! k) as [e'|] eqn:E; [|by right].
      apply (lookup_weaken _ _ _ _ E) in Hm. left. destruct He; congruence. }
    destruct op as [b key t0 now|now]; cbn -[evict]; [|by apply Hm, sweep_subseteq].
    destruct (store_entries t0 c Hok) as (Hsub & _ & _).
    rewrite lookup_insert_ne; [by apply Hm|]. destruct Hk as (i & Hi & ->).
    intros E%cursor_of_inj. lia. }
  destruct (run_cache_counter [op] c Hok) as [Hok' _]; [cbn; lia|].
  assert (counter c <= counter (run_cache_op c op) <= counter c + 1) as Hc.
  { destruct op; cbn; [rewrite wrapping_small by lia|]; lia. }
  apply (IH (run_cache_op c op)); [done | lia | | done].
  destruct Hk as (i & Hi & ->). exists i. split; [lia | done].
Qed.
End CacheFacts.

(** Whatever is stored, swept and fetched, the cache holds at
    most 64 results, and when a result is added the others together have less
    than 64 MiB. *)
Theorem cache_bounded {HO : HashOrder} {HL : HashOrderLaws HO} ops b key t0 now :
  Z.of_nat (length ops) + 1 < 2 ^ 64 ->
  let c := run_cache ops ResultCache_new in
  let '(c', cursor) := store b key t0 now c in
  (size (rc_entries c') <= MAX_CACHE_ENTRIES)%nat /\
  rc_entries c' !! cursor = Some (mkCachedResult b now key) /\
  total_bytes (delete cursor (rc_entries c')) < MAX_CACHE_BYTES.
Proof.
  intros Hmax. cbv zeta.
  pose proof cache_new_ok as H0.
  destruct (run_cache_counter ops ResultCache_new H0) as [Hok Hc]; [cbn; lia|]. cbn in Hc.
  set (c := run_cache ops ResultCache_new) in *.
  pose proof (store_ok b key t0 now c ltac:(lia) Hok) as Hok'.
  destruct (store_entries t0 c Hok) as (_ & Hfull & Hnew).
  cbn -[evict] in Hfull, Hnew.
  destruct (store b key t0 now c) as [c' cur] eqn:Es. split; [apply Hok'|].
  unfold store in Es. injection Es as <- <-. cbn -[evict].
  split; [by rewrite lookup_insert_eq|]. rewrite delete_insert_id by done.
  unfold cache_full in Hfull. apply orb_false_iff in Hfull as [_ Hb].
  by apply Z.leb_gt.
Qed.

Lemma cache_bounded_witness :
  (size (rc_entries (store (HO := list_order) demo_text "k" 1 1
     (run_cache (HO := list_order) [OpStore demo_text "j" 0 0] ResultCache_new)).1) <= 64)%nat.
Proof.
  pose proof (cache_bounded (HO := list_order) [OpStore demo_text "j" 0 0] demo_text "k" 1 1
    ltac:(vm_compute; reflexivity)) as H. cbv zeta in H.
  destruct (store demo_text "k" 1 1 _) as [c' cur]. exact (proj1 H).
Defined.

(** A cursor only ever leads to the text it was issued for, and
    only for the key it was issued to: however the cache is used in between, a
    fetch that returns a piece was made with that key and the piece is cut out of
    that text. *)
Theorem cursor_private {HO : HashOrder} {HL : HashOrderLaws HO}
    before b owner t0 now between cursor key offset limit t1 t2 c' ch :
  Z.of_nat (length before) + Z.of_nat (length between) + 1 < 2 ^ 64 ->
  (store b owner t0 now (run_cache before ResultCache_new)).2 = cursor ->
  fetch cursor key offset limit t1 t2
    (run_cache between (store b owner t0 now (run_cache before ResultCache_new)).1)
  = Returns (c', Some ch) ->
  key = owner /\ read_chunk b offset limit = Returns ch.
Proof.
  intros Hmax Hcur Hf.
  pose proof cache_new_ok as H0.
  destruct (run_cache_counter before ResultCache_new H0) as [Hok Hc]; [cbn; lia|]. cbn in Hc.
  set (c := run_cache before ResultCache_new) in *. pose proof (ok_counter c Hok).
  pose proof (store_ok b owner t0 now c ltac:(lia) Hok) as Hok'.
  assert (counter (store b owner t0 now c).1 = counter c + 1) as Hcnt.
  { cbn. rewrite wrapping_small; lia. }
  assert (cursor = cursor_of (counter c)) as -> by done. clear Hcur.
  destruct (run_cache_entry between (store b owner t0 now c).1 (cursor_of (counter c))
    (mkCachedResult b now owner) Hok') as [He|He]; [lia| | | |].
  { exists (counter c). split; [lia | done]. }
  { left. cbn -[evict]. by rewrite lookup_insert_eq. }
  all: unfold fetch in Hf; cbv zeta in Hf.
  - destruct (rc_entries (sweep t1 _) !! _) as [e|] eqn:Ee; [|done].
    assert (e = mkCachedResult b now owner) as ->.
    { pose proof (lookup_weaken _ _ _ _ Ee (sweep_subseteq t1 _)) as K.
      rewrite He in K. by injection K. }
    cbn [proxy_key body] in Hf. destruct (String.eqb_spec owner key) as [<-|]; [|done].
    cbn in Hf. case_if_in Hf; [done|].
    apply bind_Returns_inv in Hf as (ch' & Hr & [= _ <-]). done.
  - destruct (rc_entries (sweep t1 _) !! _) as [e|] eqn:Ee; [|done].
    pose proof (lookup_weaken _ _ _ _ Ee (sweep_subseteq t1 _)) as K. by rewrite He in K.
Qed.

Lemma cursor_private_witness :
  exists c' ch, fetch "r0" "k" 1 4 3 3
      (run_cache (HO := list_order) [OpStore demo_text "other" 2 2]
         (store (HO := list_order) demo_text "k" 0 0 (run_cache (HO := list_order) []
            ResultCache_new)).1) = Returns (c', Some ch) /\
    read_chunk demo_text 1 4 = Returns ch.
Proof.
  do 2 eexists. split; [vm_compute; reflexivity|].
  eapply (cursor_private (HO := list_order) [] demo_text "k" 0 0
    [OpStore demo_text "other" 2 2] "r0" "k" 1 4 3 3);
    [vm_compute; reflexivity | vm_compute; reflexivity | vm_compute; reflexivity].
Defined.

(** A result within the budget is passed on unchanged and the
    cache is not touched; a longer one is answered with its longest prefix within
    the budget and a cursor under which the whole text is stored for the key, and
    the rest can be read from where the prefix ends. *)
Theorem shaped_result_resumes {HO : HashOrder} {HL : HashOrderLaws HO}
    b config key t0 now clock c fuel :
  cache_ok c -> utf8_shape b = true -> 0 <= budget_bytes config ->
  match shape_result b config key t0 now c with
  | (c', Unchanged) => c' = c /\ len b <= budget_bytes config
  | (c', Shaped h cursor total) =>
      budget_bytes config < len b /\ total = len b /\ h = truncate_utf8 b (budget_bytes config) /\
      rc_entries c' !! cursor = Some (mkCachedResult b now key) /\
      ((forall i, is_fresh (clock i) (mkCachedResult b now key) = true) ->
       4 <= budget_bytes config -> len b + budget_bytes config < 2 ^ 64 ->
       (length b <= fuel)%nat ->
       app h <$> fetch_all fuel cursor key (budget_bytes config) (len h) clock 0 c' = Some b)
  end.
Proof.
  intros Hok Hu Hb. unfold shape_result. destruct (Z.leb_spec (len b) (budget_bytes config)); [done|].
  destruct (store b key t0 now c) as [c' cursor] eqn:Es. split; [done|]. split; [done|].
  split; [done|].
  assert (rc_entries c' !! cursor = Some (mkCachedResult b now key)) as He.
  { unfold store in Es. injection Es as <- <-. cbn -[evict]. by rewrite lookup_insert_eq. }
  split; [done|]. intros Hf Hl Hmax Hfuel.
  set (h := truncate_utf8 b (budget_bytes config)).
  pose proof (floor_bounds b (budget_bytes config) Hb) as Hfl.
  assert (h = take (Z.to_nat (floor_char_boundary b (budget_bytes config))) b) as Hh.
  { subst h. unfold truncate_utf8. by rewrite (proj2 (Z.leb_gt _ _)). }
  assert (len h = floor_char_boundary b (budget_bytes config)) as Hlen.
  { rewrite Hh. unfold len in *. rewrite length_take. lia. }
  rewrite (fetch_all_from fuel cursor key _ (len h) clock 0 c' (mkCachedResult b now key));
    cbn [body proxy_key]; try done.
  - cbn. f_equal. rewrite Hlen, Hh. apply take_drop.
  - lia.
  - rewrite Hlen. by apply floor_boundary.
  - unfold len in *. lia.
Qed.

Lemma shaped_result_resumes_witness :
  exists c' h cursor, shape_result (HO := list_order) demo_text (mkShapingConfig 4) "k" 0 0
      ResultCache_new = (c', Shaped h cursor 6) /\
    rc_entries c' !! cursor = Some (mkCachedResult demo_text 0 "k").
Proof.
  pose proof (shaped_result_resumes (HO := list_order) demo_text (mkShapingConfig 4) "k" 0 0
    (fun _ => 0) ResultCache_new 6) as H.
  pose proof cache_new_ok as H0.
  specialize (H H0 ltac:(vm_compute; reflexivity) ltac:(cbn; lia)).
  destruct (shape_result (HO := list_order) demo_text (mkShapingConfig 4) "k" 0 0 ResultCache_new)
    as [c' [|h cursor total]] eqn:E; [vm_compute in E; discriminate E|].
  exists c', h, cursor. destruct H as (_ & -> & _ & He & _). split; [reflexivity | exact He].
Defined.
