(* ===== verification/GatewayAuth.v ===== *)
(** * Gateway key authentication ([src/src/gateway_auth.rs])

    Tokens are kept as SHA-256 digests; a key without a token is accepted by its
    id alone.  The hash function is a parameter ([Sha256]); so is the outcome of
    resolving a [token_ref].  Digests are strings of 32 bytes.  UTC instants are
    nanoseconds. *)

From S2P Require Import Prelude RustStr Naming Errors Config Secrets.
From Stdlib Require Import Ascii.

Local Open Scope string_scope.
Local Open Scope list_scope.
Local Open Scope Z_scope.
Local Open Scope gateway_scope.

Class Sha256 := { sha256 : string -> string }.

Record GatewayAuth := mkGatewayAuth {
  tokens : gmap string string;
  token_keys : gset string;
  legacy : gset string;
  expires : gmap string Z;
}.

Definition empty_auth : GatewayAuth := mkGatewayAuth ∅ ∅ ∅ ∅.

(** [to_str] fails for values that are not visible ASCII: [None] here. *)
Definition bearer_token (authorization : option string) : option string :=
  v ← authorization; strip_prefix "Bearer " v.

Definition invalid_key : AsterlaneError := internal AuthInvalidGatewayKey "invalid gateway key".

(** [tokens.retain(|_, id| id != key_id)]. *)
Definition forget (key_id : string) (m : gmap string string) : gmap string string :=
  omap (fun id => if id =s key_id then None else Some id) m.

Definition insert_token (key_id digest : string) (a : GatewayAuth) : GatewayAuth :=
  mkGatewayAuth (<[digest := key_id]> (forget key_id (tokens a)))
    ({[key_id]} ∪ token_keys a) (legacy a ∖ {[key_id]}) (expires a).

Definition insert_expiry (key_id : string) (exp : option Z) (a : GatewayAuth) : GatewayAuth :=
  match exp with
  | Some e => mkGatewayAuth (tokens a) (token_keys a) (legacy a) (<[key_id := e]> (expires a))
  | None => a
  end.

Definition add_token_key (key_id : string) (a : GatewayAuth) : GatewayAuth :=
  mkGatewayAuth (tokens a) ({[key_id]} ∪ token_keys a) (legacy a) (expires a).
Definition add_legacy (key_id : string) (a : GatewayAuth) : GatewayAuth :=
  mkGatewayAuth (tokens a) (token_keys a) ({[key_id]} ∪ legacy a) (expires a).

(** Two hexadecimal digits at a time. *)
Fixpoint decode_pairs (s : string) : option string :=
  match s with
  | "" => Some ""
  | String a (String b s) =>
      hi ← to_digit16 a; lo ← to_digit16 b; rest ← decode_pairs s;
      Some (String (chr (Z.lor (Z.shiftl hi 4) lo)) rest)
  | String _ "" => None
  end.

Definition decode_digest_hex (hex : string) : option string :=
  if negb (String.length hex =? 64)%nat || negb (str_forallb is_ascii hex) then None
  else decode_pairs hex.

Definition unresolved_key (a : GatewayAuth) (k : ProxyKey) : GatewayAuth :=
  let a := insert_expiry (pk_id k) (expires_at k) a in
  match token_ref k with
  | Some _ => add_token_key (pk_id k) a
  | None =>
      match token_digest k with
      | Some hex =>
          match decode_digest_hex hex with
          | Some digest => insert_token (pk_id k) digest a
          | None => add_token_key (pk_id k) a
          end
      | None => add_legacy (pk_id k) a
      end
  end.

Definition from_config_unresolved (c : GatewayConfig) : GatewayAuth :=
  fold_left unresolved_key (proxy_keys c) empty_auth.

Section Auth.
Context {H : Sha256}.

(** [resolve] is the secret store's answer for a reference. *)
Definition config_key (resolve : SecretRef -> result SecretError string) (a : GatewayAuth)
    (k : ProxyKey) : result AsterlaneError GatewayAuth :=
  let a := insert_expiry (pk_id k) (expires_at k) a in
  match token_ref k, token_digest k with
  | Some token_ref, _ =>
      secret_ref ← map_err secret_to_asterlane (parse_ref token_ref);
      token ← map_err secret_to_asterlane (resolve secret_ref);
      Ok (insert_token (pk_id k) (sha256 token) a)
  | None, Some hex =>
      digest ← ok_or (internal ConfigInvalidYaml
                 ("proxy key " +:+ pk_id k +:+ ": token_digest must be 64 hex chars"))
                 (decode_digest_hex hex);
      Ok (insert_token (pk_id k) digest a)
  | None, None => Ok (add_legacy (pk_id k) a)
  end.

Fixpoint config_keys (resolve : SecretRef -> result SecretError string) (ks : list ProxyKey)
    (a : GatewayAuth) : result AsterlaneError GatewayAuth :=
  match ks with
  | [] => Ok a
  | k :: ks => a ← config_key resolve a k; config_keys resolve ks a
  end.

Definition auth_from_config (c : GatewayConfig) (resolve : SecretRef -> result SecretError string)
    : result AsterlaneError GatewayAuth :=
  config_keys resolve (proxy_keys c) empty_auth.

Definition check_expiry (key_id : string) (now : Z) (a : GatewayAuth)
    : result AsterlaneError () :=
  match expires a !! key_id with
  | Some exp =>
      if exp <=? now then Err (internal AuthExpiredGatewayKey "gateway key token expired")
      else Ok tt
  | None => Ok tt
  end.

Definition authenticate (bearer query_key : option string) (now : Z) (a : GatewayAuth)
    : result AsterlaneError string :=
  match bearer with
  | Some token =>
      key_id ← ok_or invalid_key (if is_empty token then None else tokens a !! sha256 token);
      _ ← check_expiry key_id now a;
      Ok key_id
  | None =>
      match query_key with
      | Some id =>
          if negb (bool_decide (id ∈ legacy a)) then Err invalid_key
          else _ ← check_expiry id now a; Ok id
      | None => Err (internal AuthMissingGatewayKey "missing gateway key")
      end
  end.

Definition set_token (key_id digest : string) (exp : option Z) (a : GatewayAuth) : GatewayAuth :=
  let a := insert_token key_id digest a in
  mkGatewayAuth (tokens a) (token_keys a) (legacy a)
    (match exp with
     | Some e => <[key_id := e]> (expires a)
     | None => delete key_id (expires a)
     end).

Definition clear_token (key_id : string) (a : GatewayAuth) : GatewayAuth :=
  mkGatewayAuth (forget key_id (tokens a)) (token_keys a ∖ {[key_id]})
    ({[key_id]} ∪ legacy a) (delete key_id (expires a)).

Definition mcp_auth_required (a : GatewayAuth) : bool := negb (bool_decide (token_keys a = ∅)).

(** The middleware of [/mcp]: the key id that is attached to the request. *)
Definition require_mcp_auth (authorization : option string) (now : Z) (a : GatewayAuth)
    : result AsterlaneError (option string) :=
  if mcp_auth_required a then
    id ← authenticate (bearer_token authorization) None now a; Ok (Some id)
  else Ok None.
End Auth.

(** ** The invariant *)

(** Every token belongs to a key with a token, a key has at most one token, and
    no key with a token is accepted by its id. *)
Record auth_ok (a : GatewayAuth) : Prop := {
  ok_known d id : tokens a !! d = Some id -> id ∈ token_keys a;
  ok_single d d' id : tokens a !! d = Some id -> tokens a !! d' = Some id -> d = d';
  ok_disjoint id : id ∈ token_keys a -> id ∉ legacy a;
}.

Lemma forget_lookup k m d id :
  forget k m !! d = Some id <-> m !! d = Some id /\ id <> k.
Proof.
  unfold forget. rewrite lookup_omap. destruct (m !! d) as [i|]; cbn; [|naive_solver].
  destruct (String.eqb_spec i k); naive_solver.
Qed.

Lemma empty_auth_ok : auth_ok empty_auth.
Proof. split; cbn; [intros d id; by rewrite lookup_empty.. | set_solver]. Qed.

Lemma insert_token_ok k d a : auth_ok a -> auth_ok (insert_token k d a).
Proof.
  intros [H1 H2 H3]. split; cbn.
  - intros d' id [[_ <-]|[_ [Hd _]%forget_lookup]]%lookup_insert_Some; [set_solver|].
    apply H1 in Hd. set_solver.
  - intros d1 d2 id [[<- <-]|[N1 [E1 K1]%forget_lookup]]%lookup_insert_Some
      [[<- E]|[N2 [E2 K2]%forget_lookup]]%lookup_insert_Some; try done.
    by eapply H2.
  - intros id. rewrite elem_of_union, elem_of_difference, elem_of_singleton.
    intros [->|Hid]; [tauto|]. apply H3 in Hid. tauto.
Qed.

Lemma set_token_ok k d exp a : auth_ok a -> auth_ok (set_token k d exp a).
Proof. intros H%(insert_token_ok k d). split; apply H. Qed.

Lemma clear_token_ok k a : auth_ok a -> auth_ok (clear_token k a).
Proof.
  intros [H1 H2 H3]. split; cbn.
  - intros d id [Hd Hne]%forget_lookup. apply H1 in Hd. set_solver.
  - intros d d' id [Hd _]%forget_lookup [Hd' _]%forget_lookup. by eapply H2.
  - intros id. rewrite elem_of_difference, elem_of_union, !elem_of_singleton.
    intros [Hid Hne]. apply H3 in Hid. tauto.
Qed.

Lemma insert_expiry_ok k exp a : auth_ok a -> auth_ok (insert_expiry k exp a).
Proof. intros H. destruct exp; [split; apply H | done]. Qed.

Lemma add_legacy_ok k a : k ∉ token_keys a -> auth_ok a -> auth_ok (add_legacy k a).
Proof.
  intros Hn [H1 H2 H3]. split; cbn; [done..|]. intros id Hid.
  rewrite elem_of_union, elem_of_singleton. intros [->|Hl]; [done|]. by apply H3 in Hid.
Qed.

Lemma config_keys_ok {H : Sha256} resolve ks a a' :
  config_keys resolve ks a = Ok a' -> NoDup (pk_id <$> ks) ->
  (forall k, k ∈ ks -> pk_id k ∉ token_keys a) -> auth_ok a -> auth_ok a'.
Proof.
  revert a. induction ks as [|k ks IH]; cbn; intros a Hc Hnd Hfresh Hok; [by injection Hc as <-|].
  apply bind_Ok_inv in Hc as (a1 & Ha1 & Hc). apply NoDup_cons in Hnd as [Hk Hnd].
  assert (auth_ok a1 /\ token_keys a1 ⊆ {[pk_id k]} ∪ token_keys a) as [Hok1 Hsub].
  { unfold config_key in Ha1. pose proof (insert_expiry_ok (pk_id k) (expires_at k) a Hok) as Hok'.
    assert (token_keys (insert_expiry (pk_id k) (expires_at k) a) = token_keys a) as Et
      by by destruct (expires_at k).
    destruct (token_ref k) as [r|]; [|destruct (token_digest k) as [hex|]]; inv_ok.
    - split; [by apply insert_token_ok|]. cbn. rewrite Et. set_solver.
    - split; [by apply insert_token_ok|]. cbn. rewrite Et. set_solver.
    - split; [apply add_legacy_ok; [rewrite Et; apply Hfresh; apply list_elem_of_here | done]|].
      cbn. rewrite Et. set_solver. }
  apply (IH a1 Hc Hnd); [|done]. intros k' Hk' Hin. apply Hsub in Hin.
  apply elem_of_union in Hin as [Heq%elem_of_singleton|Hin].
  - apply Hk. rewrite <- Heq. by apply list_elem_of_fmap_2.
  - by apply (Hfresh k'); [apply list_elem_of_further|].
Qed.

(** Runtime changes: issuing or rotating a token, and revoking it. *)
Inductive auth_op :=
| OpSetToken (key_id digest : string) (exp : option Z)
| OpClearToken (key_id : string).

Definition run_auth_op (a : GatewayAuth) (op : auth_op) : GatewayAuth :=
  match op with
  | OpSetToken k d exp => set_token k d exp a
  | OpClearToken k => clear_token k a
  end.

Definition run_auth (ops : list auth_op) (a : GatewayAuth) : GatewayAuth :=
  fold_left run_auth_op ops a.

Lemma run_auth_ok ops a : auth_ok a -> auth_ok (run_auth ops a).
Proof.
  revert a. induction ops as [|op ops IH]; intros a H; [done|].
  apply IH. destruct op; [by apply set_token_ok | by apply clear_token_ok].
Qed.

Lemma bearer_Ok {H : Sha256} t q now a id :
  authenticate (Some t) q now a = Ok id ->
  tokens a !! sha256 t = Some id /\ check_expiry id now a = Ok tt.
Proof.
  unfold authenticate. intros Ha.
  apply bind_Ok_inv in Ha as (k & Hk%ok_or_Ok_inv & Ha).
  apply bind_Ok_inv in Ha as ([] & Hc & [= <-]). by destruct (is_empty t).
Qed.

(** ** Properties *)

(** C8: in every state that a configuration with distinct key ids
    and later issuing, rotating and revoking can reach, a key that has a token is
    never accepted by its id, and at most one token digest authenticates as a
    given key. *)
Theorem token_required {H : Sha256} c resolve a0 ops :
  auth_from_config c resolve = Ok a0 -> NoDup (pk_id <$> proxy_keys c) ->
  let a := run_auth ops a0 in
  (forall id now, id ∈ token_keys a -> authenticate None (Some id) now a = Err invalid_key) /\
  (forall t t' now now' q q' id,
     authenticate (Some t) q now a = Ok id -> authenticate (Some t') q' now' a = Ok id ->
     sha256 t = sha256 t').
Proof.
  intros Hc Hnd a.
  assert (auth_ok a) as [_ H2 H3].
  { apply run_auth_ok, (config_keys_ok resolve (proxy_keys c) empty_auth a0 Hc Hnd);
      [set_solver | apply empty_auth_ok]. }
  split.
  - intros id now Hid. unfold authenticate. by rewrite bool_decide_false by (by apply H3).
  - intros t t' now now' q q' id [E1 _]%bearer_Ok [E2 _]%bearer_Ok. by eapply H2.
Qed.

Definition toy_sha : Sha256 := {| sha256 := fun s => "#" +:+ s |}.

Definition demo_auth_config : GatewayConfig :=
  with_proxy_keys GatewayConfig_default
    [mkProxyKey "agent" "" [] [] [] [] None (Some "secret://env/TOKEN") None None 20 None None;
     mkProxyKey "dev" "" [] [] [] [] None None None None 20 None None].

Lemma token_required_witness :
  exists a0, auth_from_config (H := toy_sha) demo_auth_config (fun _ => Ok "t0") = Ok a0 /\
    authenticate (H := toy_sha) None (Some "agent") 0
      (run_auth [OpSetToken "agent" "#t1" None] a0) = Err invalid_key.
Proof.
  eexists. split; [vm_compute; reflexivity|].
  apply (token_required (H := toy_sha) demo_auth_config (fun _ => Ok "t0"));
    [vm_compute; reflexivity | apply (bool_decide_unpack _); vm_compute; exact I
    | apply (bool_decide_unpack _); vm_compute; exact I].
Defined.

(** With the same id twice in the configuration the first clause fails: the entry
    without a token opens the key that has one. *)
Example duplicate_id_opens_key :
  let k tok := mkProxyKey "agent" "" [] [] [] [] None tok None None 20 None None in
  exists a, auth_from_config (H := toy_sha)
      (with_proxy_keys GatewayConfig_default [k (Some "secret://env/T"); k None])
      (fun _ => Ok "t") = Ok a /\
    authenticate (H := toy_sha) None (Some "agent") 0 a = Ok "agent".
Proof. eexists. split; [vm_compute; reflexivity|]. vm_compute. reflexivity. Qed.

(** Rotating a key's token takes effect at once: the new token
    authenticates until its expiry and not from then on, every other token of the
    key is rejected, and tokens of other keys work as before unless they are the
    new token itself. *)
Theorem rotation_effective {H : Sha256} k digest exp a now q :
  auth_ok a ->
  let a' := set_token k digest exp a in
  (forall t, t <> "" -> sha256 t = digest ->
     authenticate (Some t) q now a' =
     match exp with
     | Some e => if e <=? now
                 then Err (internal AuthExpiredGatewayKey "gateway key token expired") else Ok k
     | None => Ok k
     end) /\
  (forall t, sha256 t <> digest -> authenticate (Some t) q now a' <> Ok k) /\
  (forall t id, id <> k -> sha256 t <> digest ->
     authenticate (Some t) q now a' = Ok id <-> authenticate (Some t) q now a = Ok id).
Proof.
  intros Hok a'. subst a'. split; [|split].
  - intros t Ht <-. unfold authenticate. destruct t as [|c t]; [done|]. cbn.
    rewrite lookup_insert_eq. cbn. unfold check_expiry. cbn.
    destruct exp; [rewrite lookup_insert_eq; by case_if | by rewrite lookup_delete_eq].
  - intros t Hne [Ha _]%bearer_Ok. cbn in Ha. rewrite lookup_insert_ne in Ha by done.
    by apply forget_lookup in Ha as [_ Ha].
  - intros t id Hne Hd. unfold authenticate. destruct (is_empty t); [done|].
    cbn [tokens set_token insert_token]. rewrite lookup_insert_ne by done.
    assert (forall x, x <> k -> check_expiry x now (set_token k digest exp a)
                                = check_expiry x now a) as He.
    { intros x Hx. unfold check_expiry. cbn.
      destruct exp; [by rewrite lookup_insert_ne | by rewrite lookup_delete_ne]. }
    destruct (tokens a !! sha256 t) as [id'|] eqn:E.
    + destruct (decide (id' = k)) as [->|Hk].
      * assert (forget k (tokens a) !! sha256 t = None) as ->.
        { destruct (forget k (tokens a) !! sha256 t) eqn:F; [|done].
          apply forget_lookup in F as [F1 F2]. congruence. }
        cbn. split; [done|]. destruct (check_expiry k now a); cbn; [|done]. congruence.
      * rewrite (proj2 (forget_lookup k (tokens a) (sha256 t) id') (conj E Hk)). cbn.
        by rewrite He.
    + assert (forget k (tokens a) !! sha256 t = None) as ->; [|done].
      destruct (forget k (tokens a) !! sha256 t) eqn:F; [|done].
      apply forget_lookup in F as [F1 F2]. congruence.
Qed.

Lemma rotation_effective_witness :
  authenticate (H := toy_sha) (Some "new") None 5
    (set_token "agent" "#new" (Some 9) (insert_token "agent" "#old" empty_auth)) = Ok "agent" /\
  authenticate (H := toy_sha) (Some "old") None 5
    (set_token "agent" "#new" (Some 9) (insert_token "agent" "#old" empty_auth)) <> Ok "agent".
Proof.
  destruct (rotation_effective (H := toy_sha) "agent" "#new" (Some 9)
    (insert_token "agent" "#old" empty_auth) 5 None
    (insert_token_ok _ _ _ empty_auth_ok)) as (H1 & H2 & _).
  split; [rewrite H1; [reflexivity | discriminate | reflexivity]|].
  apply H2. vm_compute. discriminate.
Defined.

(** Revoking a key's token rejects every token of it at once and
    opens the key to its id, without an expiry. *)
Theorem revocation_effective {H : Sha256} k a now :
  (forall t q, authenticate (Some t) q now (clear_token k a) <> Ok k) /\
  authenticate None (Some k) now (clear_token k a) = Ok k.
Proof.
  split.
  - intros t q [Ha _]%bearer_Ok. cbn in Ha. by apply forget_lookup in Ha as [_ Ha].
  - unfold authenticate. cbn. rewrite bool_decide_true by set_solver. cbn.
    unfold check_expiry. cbn. by rewrite lookup_delete_eq.
Qed.

(** A presented bearer token settles the request: the id in the
    query is not looked at, whether the token is valid or not; and [/mcp], once
    any key has a token, accepts bearer tokens only. *)
Theorem bearer_is_decisive {H : Sha256} t q q' now authorization a :
  authenticate (Some t) q now a = authenticate (Some t) q' now a /\
  (mcp_auth_required a = true -> bearer_token authorization = None ->
   require_mcp_auth authorization now a
   = Err (internal AuthMissingGatewayKey "missing gateway key")).
Proof.
  split; [done|]. intros Hr Hb. unfold require_mcp_auth. by rewrite Hr, Hb.
Qed.

Lemma bearer_is_decisive_witness :
  require_mcp_auth (H := toy_sha) (Some "Basic x") 0 (insert_token "agent" "#t" empty_auth)
  = Err (internal AuthMissingGatewayKey "missing gateway key").
Proof.
  apply (bearer_is_decisive (H := toy_sha) "" None None 0 (Some "Basic x")
    (insert_token "agent" "#t" empty_auth)); vm_compute; reflexivity.
Defined.

(** ** Digests in hexadecimal *)

Definition hex_digit (d : Z) : ascii := chr (if d <? 10 then d + 48 else d + 87).
Fixpoint encode_hex (s : string) : string :=
  match s with
  | "" => ""
  | String c s => String (hex_digit (Z.shiftr (code c) 4))
                    (String (hex_digit (Z.land (code c) 15)) (encode_hex s))
  end.

Lemma hex_pair_byte c :
  (hi ← to_digit16 (hex_digit (Z.shiftr (code c) 4));
   lo ← to_digit16 (hex_digit (Z.land (code c) 15));
   Some (chr (Z.lor (Z.shiftl hi 4) lo))) = Some c.
Proof.
  assert (forall c, bool_decide ((hi ← to_digit16 (hex_digit (Z.shiftr (code c) 4));
    lo ← to_digit16 (hex_digit (Z.land (code c) 15));
    Some (chr (Z.lor (Z.shiftl hi 4) lo))) = Some c) = true) as K
    by (apply by_all_bytes; vm_compute; reflexivity).
  specialize (K c). by apply bool_decide_eq_true_1 in K.
Qed.

Lemma hex_digit_lower c :
  lower_hex (hex_digit (Z.shiftr (code c) 4)) && lower_hex (hex_digit (Z.land (code c) 15)) = true.
Proof. revert c. apply by_all_bytes. vm_compute. reflexivity. Qed.

Lemma decode_encode s : decode_pairs (encode_hex s) = Some s.
Proof.
  induction s as [|c s IH]; [done|]. cbn [encode_hex decode_pairs].
  pose proof (hex_pair_byte c) as K.
  apply bind_Some in K as (hi & -> & K). apply bind_Some in K as (lo & -> & [= K]).
  cbn. rewrite IH. cbn. by rewrite K.
Qed.

Lemma encode_hex_shape s :
  String.length (encode_hex s) = (2 * String.length s)%nat /\
  str_forallb lower_hex (encode_hex s) = true.
Proof.
  induction s as [|c s [IH1 IH2]]; [done|]. cbn [encode_hex String.length str_forallb].
  rewrite IH1, IH2. pose proof (hex_digit_lower c) as K. apply andb_true_iff in K as [-> ->].
  split; [lia | done].
Qed.

(** Every digest of 32 bytes is recovered from its hexadecimal
    form, and that form is what the configuration check accepts. *)
Theorem digest_hex_roundtrip s :
  String.length s = 32%nat ->
  decode_digest_hex (encode_hex s) = Some s /\ digest_well_formed (encode_hex s) = true.
Proof.
  intros Hl. destruct (encode_hex_shape s) as [H1 H2].
  unfold decode_digest_hex, digest_well_formed. rewrite H1, Hl, H2. cbn [Nat.mul Nat.add Nat.eqb negb orb].
  assert (str_forallb is_ascii (encode_hex s) = true) as ->.
  { eapply str_forallb_impl; [|exact H2]. byte_cases. }
  split; [apply decode_encode | done].
Qed.

Lemma digest_hex_roundtrip_witness :
  decode_digest_hex (encode_hex "0123456789abcdef0123456789abcdef")
  = Some "0123456789abcdef0123456789abcdef".
Proof. apply digest_hex_roundtrip. reflexivity. Defined.
