(* ===== verification/Render.v ===== *)
(** * Response rendering ([src/src/render.rs])

    The choice of the response format and the projection of a JSON value to
    YAML or Markdown.  serde_norway's YAML and serde_json's compact text are
    parameters ([Serializers]).  Functions that push onto [out] return what they
    push. *)

From S2P Require Import Prelude RustStr Naming Errors Config.
From Stdlib Require Import Ascii.

Local Open Scope string_scope.
Local Open Scope list_scope.
Local Open Scope Z_scope.
Local Open Scope gateway_scope.

(** ** Formats *)

Definition format_as_str (f : ResponseFormat) : string :=
  match f with Json => "json" | Yaml => "yaml" | Markdown => "markdown" end.

Definition format_content_type (f : ResponseFormat) : string :=
  match f with
  | Json => "application/json"
  | Yaml => "application/yaml"
  | Markdown => "text/markdown; charset=utf-8"
  end.

Inductive RenderError := UnknownFormat (given : string).

Definition RenderError_to_string (e : RenderError) : string :=
  match e with
  | UnknownFormat g => "unknown response format `" +:+ g +:+ "` (expected json | yaml | markdown)"
  end.

Definition render_to_asterlane (e : RenderError) : AsterlaneError :=
  internal McpInvalidToolCall (RenderError_to_string e).

Definition format_from_str (s : string) : result RenderError ResponseFormat :=
  let s := to_ascii_lowercase s in
  if s =s "json" then Ok Json
  else if s =s "yaml" then Ok Yaml
  else if s =s "markdown" then Ok Markdown
  else Err (UnknownFormat s).

Definition resolve_format (request_override : option string)
    (key_format global_default : option ResponseFormat) : result RenderError ResponseFormat :=
  match request_override with
  | Some raw => format_from_str raw
  | None => Ok (default Json (match key_format with Some f => Some f | None => global_default end))
  end.

Definition format_from_accept (accept : string) : option string :=
  if contains "application/yaml" accept || contains "text/yaml" accept then Some "yaml"
  else if contains "text/markdown" accept then Some "markdown"
  else if contains "application/json" accept then Some "json"
  else None.

(** ** The Markdown projection *)

Class Serializers := {
  norway_to_string : JSON -> result string string;
  value_to_string : JSON -> string;
}.

Definition newline : ascii := chr 10.
Definition nl : string := String newline "".

(** [str::lines]: a line ends with LF or CR LF; [acc] is the line read so far. *)
Fixpoint lines_from (acc : string) (s : string) : list string :=
  match s with
  | "" => if is_empty acc then [] else [acc]
  | String c s =>
      if Ascii.eqb c newline
      then default acc (strip_suffix (String (chr 13) "") acc) :: lines_from "" s
      else lines_from (acc +:+ String c "") s
  end.
Definition lines (s : string) : list string := lines_from "" s.

Definition MAX_DEPTH : nat := 4.

Definition indent (depth : nat) : string := String.concat "" (repeat "  " depth).

Definition is_scalar (v : JSON) : bool :=
  match v with JObject _ | JArray _ => false | _ => true end.

Definition has_newline (s : string) : bool := contains nl s.

Definition is_multiline (v : JSON) : bool :=
  match v with JString s => has_newline s | _ => false end.

Definition is_empty_container (v : JSON) : bool :=
  match v with JObject [] | JArray [] => true | _ => false end.

Definition empty_literal (v : JSON) : string :=
  match v with JObject _ => "{}" | _ => "[]" end.

Definition table_able (items : list JSON) : bool :=
  forallb (fun i => match i with JObject m => forallb (fun f => is_scalar f.2) m | _ => false end)
    items.

Definition push_new (cols : list string) (k : string) : list string :=
  if k ∈s cols then cols else cols ++ [k].

Definition columns (items : list JSON) : list string :=
  fold_left (fun cols i => match i with
                           | JObject m => fold_left push_new (fst <$> m) cols
                           | _ => cols
                           end) items [].

Definition as_str (v : JSON) : option string := match v with JString s => Some s | _ => None end.

Section Markdown.
Context {S : Serializers}.

Definition inline (v : JSON) : string :=
  match v with
  | JNull => "null"
  | JString s => s
  | other => value_to_string other
  end.

Definition cell (v : JSON) : string :=
  replace_char newline " " (replace_char "|" "\|" (inline v)).

Definition fence_lines (pad : string) (ls : list string) : string :=
  String.concat "" ((fun l => pad +:+ l +:+ nl) <$> ls).

Definition text_fence (text : string) (depth : nat) : string :=
  let pad := indent depth in
  let fence := if contains "```" text then "````" else "```" in
  pad +:+ fence +:+ nl +:+ fence_lines pad (lines text) +:+ pad +:+ fence +:+ nl.

Definition yaml_fence (v : JSON) (depth : nat) : string :=
  let yaml := match norway_to_string v with Ok y => y | Err _ => value_to_string v end in
  let pad := indent depth in
  pad +:+ "```yaml" +:+ nl +:+ fence_lines pad (lines yaml) +:+ pad +:+ "```" +:+ nl.

Definition table_row (pad : string) (cols : list string) (m : list (string * JSON)) : string :=
  pad +:+ "| "
    +:+ join " | " ((fun c => default "" (cell <$> obj_get c m)) <$> cols) +:+ " |" +:+ nl.

Definition table (items : list JSON) (depth : nat) : string :=
  let cols := columns items in
  let pad := indent depth in
  pad +:+ "| " +:+ join " | " cols +:+ " |" +:+ nl
    +:+ pad +:+ "|" +:+ String.concat "" ((fun _ => " --- |") <$> cols) +:+ nl
    +:+ String.concat ""
          ((fun i => match i with JObject m => table_row pad cols m | _ => "" end) <$> items).

Definition md_scalar (v : JSON) (depth : nat) : string :=
  if is_multiline v then text_fence (default "" (as_str v)) depth
  else indent depth +:+ inline v +:+ nl.

Definition md_array (items : list JSON) (depth : nat) : string :=
  match items with
  | [] => indent depth +:+ "[]" +:+ nl
  | _ =>
      if forallb (fun i => is_scalar i && negb (is_multiline i)) items
      then String.concat "" ((fun i => indent depth +:+ "- " +:+ inline i +:+ nl) <$> items)
      else if table_able items then table items depth
      else yaml_fence (JArray items) depth
  end.

(** One field of an object; [nested] renders a value one level deeper. *)
Definition md_field (nested : JSON -> string) (depth : nat) (f : string * JSON) : string :=
  let '(k, v) := f in
  let head := indent depth +:+ "- **" +:+ k +:+ "**:" in
  if is_multiline v then head +:+ nl +:+ text_fence (default "" (as_str v)) (depth + 1)
  else if is_scalar v then head +:+ " " +:+ inline v +:+ nl
  else if is_empty_container v then head +:+ " " +:+ empty_literal v +:+ nl
  else head +:+ nl +:+ nested v.

(** [levels] is [MAX_DEPTH - depth]: below the maximal depth nothing recurses. *)
Fixpoint md_value (levels depth : nat) (v : JSON) : string :=
  match levels with
  | O => if is_scalar v then md_scalar v depth else yaml_fence v depth
  | Datatypes.S levels =>
      match v with
      | JObject [] => indent depth +:+ "{}" +:+ nl
      | JObject m => String.concat "" (md_field (md_value levels (depth + 1)) depth <$> m)
      | JArray items => md_array items depth
      | scalar => md_scalar scalar depth
      end
  end.

Definition markdown (v : JSON) : string := trim_end (md_value MAX_DEPTH 0 v).

Definition render (v : JSON) (f : ResponseFormat) : option string :=
  match f with
  | Json => None
  | Yaml => match norway_to_string v with Ok s => Some s | Err _ => None end
  | Markdown => Some (markdown v)
  end.
End Markdown.

(** ** Properties *)

(** Every format name is read back, in any case; an override in
    the request decides alone and an unknown one is an error, otherwise the key's
    format, then the global one, then JSON applies. *)
Theorem format_resolution f raw key global :
  format_from_str (format_as_str f) = Ok f /\
  resolve_format (Some raw) key global =
    format_from_str (to_ascii_lowercase raw) /\
  resolve_format None (Some f) global = Ok f /\
  resolve_format None None (Some f) = Ok f /\
  resolve_format None None None = Ok Json.
Proof.
  assert (forall s, to_ascii_lowercase (to_ascii_lowercase s) = to_ascii_lowercase s) as Hl.
  { intros s. apply str_map_id. induction s as [|c s IH]; [done|]. cbn. rewrite IH, andb_true_r.
    apply (by_all_bytes (fun c => Ascii.eqb (to_ascii_lowercase_char (to_ascii_lowercase_char c))
      (to_ascii_lowercase_char c))). vm_compute. reflexivity. }
  split; [by destruct f|]. split; [|done]. cbn. unfold format_from_str. by rewrite Hl.
Qed.

(** The number of newlines. *)
Fixpoint newlines (s : string) : nat :=
  match s with
  | "" => 0
  | String c s => (if Ascii.eqb c newline then 1 else 0) + newlines s
  end.

Lemma newlines_app s t : newlines (s +:+ t) = (newlines s + newlines t)%nat.
Proof. induction s as [|c s IH]; cbn; [done|]. rewrite IH. lia. Qed.

Lemma newlines_concat l : newlines (String.concat "" l) = sum_list (newlines <$> l).
Proof.
  induction l as [|x l IH]; [done|]. cbn. destruct l as [|y l]; [cbn; lia|].
  rewrite newlines_app. cbn in *. by rewrite IH.
Qed.

Lemma newlines_join sep l :
  newlines sep = 0%nat -> Forall (fun s => newlines s = 0%nat) l -> newlines (join sep l) = 0%nat.
Proof.
  intros Hs. induction 1 as [|x l Hx Hl IH]; [done|]. cbn. destruct l as [|y l]; [done|].
  by rewrite !newlines_app, Hx, Hs, IH.
Qed.

Lemma newlines_replaced s : newlines (replace_char newline " " s) = 0%nat.
Proof.
  induction s as [|c s IH]; cbn [replace_char newlines]; [done|].
  destruct (Ascii.eqb c newline) eqn:E; [exact IH|]. cbn [newlines]. by rewrite E, IH.
Qed.

Lemma newlines_indent d : newlines (indent d) = 0%nat.
Proof. unfold indent. rewrite newlines_concat. induction d; cbn; auto. Qed.

Lemma newlines_nl : newlines nl = 1%nat.
Proof. reflexivity. Qed.

Lemma newlines_row {S : Serializers} depth cols m : newlines (table_row (indent depth) cols m) = 1%nat.
Proof.
  unfold table_row. rewrite !newlines_app, newlines_indent, newlines_nl.
  rewrite newlines_join; [done|done|]. apply Forall_fmap, Forall_true. intros c. cbn.
  destruct (obj_get c m); cbn; [apply newlines_replaced | done].
Qed.

(** A list of flat objects becomes a table with one line per
    object under a header line and a separator line: no text inside a cell can
    break a row, as long as the column names are single lines. *)
Theorem table_line_count {S : Serializers} items depth :
  table_able items = true ->
  Forall (fun k => newlines k = 0%nat) (columns items) ->
  newlines (table items depth) = (length items + 2)%nat.
Proof.
  intros Ht Hk. unfold table. rewrite !newlines_app, newlines_indent, newlines_nl.
  rewrite (newlines_join " | ") by done. rewrite !newlines_concat.
  assert (forall cols, sum_list (newlines <$> ((fun _ : string => " --- |") <$> cols)) = 0%nat)
    as ->.
  { intros cols. induction cols as [|c cols IH]; cbn; [done|]. apply IH. }
  assert (sum_list (newlines <$> ((fun i => match i with
    | JObject m => table_row (indent depth) (columns items) m | _ => "" end) <$> items))
    = length items) as ->; [|cbn; lia].
  clear Hk. generalize (columns items) as cols. intros cols.
  induction items as [|i items IH]; [done|]. cbn in Ht. apply andb_true_iff in Ht as [Hi Ht].
  cbn. rewrite IH by done. destruct i; try done. by rewrite newlines_row.
Qed.

Definition demo_serializers : Serializers :=
  {| norway_to_string := fun _ => Err "unsupported"; value_to_string := fun _ => "0" |}.

Lemma table_line_count_witness :
  newlines (table (S := demo_serializers)
    [JObject [("a", JString ("x" +:+ nl +:+ "y|z"))]; JObject [("b", JNull)]] 0) = 4%nat.
Proof.
  apply (table_line_count (S := demo_serializers)
    [JObject [("a", JString ("x" +:+ nl +:+ "y|z"))]; JObject [("b", JNull)]] 0);
    [reflexivity | repeat constructor].
Defined.
