(* ===== verification/Retry.v ===== *)
(** * Upstream calls with retry and failover ([src/src/proxy/])

    [proxy/error.rs], [proxy/auth.rs] and [proxy/retry.rs]: the errors of the
    proxy layer, the injection of credentials, the construction of one upstream
    request, and the loop that retries, cools keys down and fails over.  What
    comes from outside (reqwest, serde_json, the secret store, clocks, random
    draws, the other tasks that use the same key pool) is the class [Upstream];
    each of its members takes the number of the attempt. *)

From S2P Require Import Prelude RustStr Naming Errors Config Policy.
From S2P Require Import Secrets Catalog KeyPool Limits Egress Render.

Local Open Scope string_scope.
Local Open Scope list_scope.
Local Open Scope Z_scope.
Local Open Scope gateway_scope.

(** ** Errors ([proxy/error.rs], [mcp/error.rs]) *)

Inductive McpError :=
| Mcp_UnknownTool (wire_name : string)
| Mcp_InvalidToolCall (detail : string)
| Mcp_UpstreamFailure (detail : string)
| Mcp_UpstreamAuthRequired
| Mcp_EgressBlocked
| Mcp_Secret (e : SecretError)
| Mcp_UnknownServer (server_id : string).

Definition mcp_to_asterlane (e : McpError) : AsterlaneError :=
  match e with
  | Mcp_UnknownTool n => internal CatalogUnknownTool ("unknown tool: " +:+ n)
  | Mcp_InvalidToolCall d => internal McpInvalidToolCall ("invalid tool call: " +:+ d)
  | Mcp_UpstreamFailure d =>
      internal McpUpstreamMcpFailure ("upstream MCP server error: " +:+ d)
  | Mcp_UpstreamAuthRequired =>
      internal McpUpstreamAuthRequired "upstream MCP server requires administrator authorization"
  | Mcp_EgressBlocked => internal ProxyEgressBlocked "upstream address is not allowed"
  | Mcp_Secret e => secret_to_asterlane e
  | Mcp_UnknownServer s => internal AdminNotFound ("unknown MCP server: " +:+ s)
  end.

Inductive ProxyError :=
| PE_UpstreamTimeout (ms : Z)
| PE_RetryExhausted (attempts : Z)
| PE_UpstreamError (status : Z)
| PE_ConnectionFailed
| PE_EgressBlocked
| PE_UnknownTool (name : string)
| PE_UnknownResource (id : string)
| PE_ForbiddenTool (name : string)
| PE_InvalidToolCall (detail : string)
| PE_Secret (e : SecretError)
| PE_KeyPool (e : KeyPoolError)
| PE_Limit (e : LimitError)
| PE_Policy (e : PolicyError)
| PE_Mcp (e : McpError).

Definition proxy_to_asterlane (e : ProxyError) : AsterlaneError :=
  match e with
  | PE_UpstreamTimeout ms =>
      internal ProxyUpstreamTimeout ("upstream timeout after " +:+ fmt_Z ms +:+ "ms")
  | PE_RetryExhausted n =>
      internal ProxyRetryExhausted
        ("upstream retry exhausted after " +:+ fmt_Z n +:+ " attempts")
  | PE_UpstreamError s =>
      internal ProxyUpstreamError ("upstream returned status " +:+ fmt_Z s)
  | PE_ConnectionFailed => internal ProxyConnectionFailed "upstream connection failed"
  | PE_EgressBlocked => internal ProxyEgressBlocked "upstream address is not allowed"
  | PE_UnknownTool n => internal CatalogUnknownTool ("unknown tool: " +:+ n)
  | PE_UnknownResource id => internal ConfigUnknownResource ("unknown resource: " +:+ id)
  | PE_ForbiddenTool n =>
      internal AuthForbiddenTool ("tool " +:+ n +:+ " not permitted for this key")
  | PE_InvalidToolCall d => internal McpInvalidToolCall ("invalid tool call: " +:+ d)
  | PE_Secret e => secret_to_asterlane e
  | PE_KeyPool e => key_pool_to_asterlane e
  | PE_Limit e => limit_to_asterlane e
  | PE_Policy e => PolicyErr e
  | PE_Mcp e => mcp_to_asterlane e
  end.

(** ** Requests and responses *)

(** A [reqwest::RequestBuilder]: the method, the URL and the calls made on it. *)
Inductive BuilderCall :=
| BearerAuth (token : string)
| Header (name value : string)
| JsonBody (body : JSON).

Record RequestBuilder := mkRequestBuilder {
  rb_method : HttpMethod;
  rb_url : string;
  rb_calls : list BuilderCall;
}.

Definition builder_call (c : BuilderCall) (b : RequestBuilder) : RequestBuilder :=
  mkRequestBuilder (rb_method b) (rb_url b) (rb_calls b ++ [c]).

(** A response: header values are raw bytes; [rsp_body] is [None] when reading
    the body fails; [rsp_elapsed] is the time until the body was read. *)
Record Response := mkResponse {
  rsp_status : Z;
  rsp_content_type : option string;
  rsp_retry_after : option string;
  rsp_body : option string;
  rsp_elapsed : Z;
}.

(** How [timeout(.., builder.send())] ends.  [SendFailed timed_out blocked]: a
    reqwest error, with [is_timeout] and with what [find_blocked] finds in its
    source chain. *)
Inductive SendResult :=
| SendElapsed
| SendFailed (timed_out : bool) (blocked : option EgressBlocked)
| SendOk (r : Response).

Class Upstream := {
  up_send : nat -> RequestBuilder -> SendResult;
  up_resolve : nat -> SecretRef -> result SecretError string;
  up_draw : nat -> Draw;
  (** clocks of the acquisition and of the cooldown of an attempt *)
  up_acquire_now : nat -> Z;
  up_cool_now : nat -> Z;
  (** what the other tasks do to the pool while this one awaits *)
  up_others : nat -> PoolState -> PoolState;
  up_serializers :: Serializers;
  (** http's header conversions *)
  header_to_str : string -> option string;
  header_value_ok : string -> bool;
  header_name_ok : string -> bool;
}.

Record InvokeResult := mkInvokeResult {
  request_id : string;
  ir_status : Z;
  body : string;
  content_type : option string;
  content_defense_flag : bool;
  shaped : bool;
  rendered_format : option ResponseFormat;
}.

Record UpstreamResponse := mkUpstreamResponse {
  ur_result : InvokeResult;
  ur_retry_count : Z;
  ur_key_ref : string;
  ur_latency_ms : Z;
}.

Record ExecutionError := mkExecutionError {
  proxy_error : ProxyError;
  ee_retry_count : Z;
  ee_key_ref : string;
  ee_latency_ms : option Z;
}.

Record UpstreamRequest := mkUpstreamRequest {
  req_method : HttpMethod;
  req_path : string;
  req_base_url : string;
  req_auth : UpstreamAuth;
  req_args : JSON;
  req_secret : option string;
  req_param_locations : option ParamLocations;
}.

(** The fields of the executor that the loop reads. *)
Record ExecutorConfig := mkExecutorConfig {
  block_private : bool;
  egress_dns_pinned : bool;
  max_attempts : Z;
  request_timeout : Z;
}.

Inductive AttemptOutcome :=
| Success (response : UpstreamResponse) (latency : Z)
| Status (status : Z) (retry_after : option Z) (latency : Z)
| Transport (e : ProxyError).

Record RetryProgress := mkRetryProgress { rp_retry_count : Z; rp_key_ref : string }.

Definition fail (p : RetryProgress) (e : ProxyError) (latency : option Z) : ExecutionError :=
  mkExecutionError e (rp_retry_count p) (rp_key_ref p) latency.

Definition duration_ms (d : Z) : Z := Z.min (as_millis d) u32_max.

(** ** Which outcomes are retried *)

Definition RETRYABLE_STATUSES : list Z := [429; 500; 502; 503; 504].
Definition is_retryable_status (status : Z) : bool := existsb (Z.eqb status) RETRYABLE_STATUSES.

Definition is_idempotent_method (m : HttpMethod) : bool :=
  match m with Get => true | _ => false end.

Definition retry_attempt_limit (m : HttpMethod) (configured : Z) : Z :=
  if is_idempotent_method m then Z.max configured 1 else 1.

Definition final_status_error (status retry_count attempt : Z) : ProxyError :=
  if (0 <? retry_count) && is_retryable_status status
  then PE_RetryExhausted attempt else PE_UpstreamError status.

(** ** Credentials ([proxy/auth.rs]) *)

Definition apply_auth (auth : UpstreamAuth) (secret : option string) (b : RequestBuilder)
    : RequestBuilder :=
  match auth with
  | AuthNone | AuthOAuth _ _ _ _ => b
  | AuthBearer _ =>
      match secret with Some token => builder_call (BearerAuth token) b | None => b end
  | AuthHeader name _ =>
      match secret with Some value => builder_call (Header name value) b | None => b end
  end.

Section Retry.
Context {UP : UrlParser} {U : Upstream}.

Definition resolve_ref (n : nat) (r : string) : result ProxyError string :=
  secret_ref ← map_err PE_Secret (parse_ref r);
  map_err PE_Secret (up_resolve n secret_ref).

Definition resolve_auth_secret (auth : UpstreamAuth) : result ProxyError (option string) :=
  match auth with
  | AuthNone => Ok None
  | AuthBearer token_ref => s ← resolve_ref 0 token_ref; Ok (Some s)
  | AuthHeader _ value_ref => s ← resolve_ref 0 value_ref; Ok (Some s)
  | AuthOAuth _ _ _ _ =>
      Err (PE_InvalidToolCall "oauth auth is only supported for MCP servers")
  end.

(** ** One attempt *)

Definition parse_retry_after (r : Response) : option Z :=
  v ← rsp_retry_after r; s ← header_to_str v; secs ← parse_u64 (trim s);
  Some (from_secs secs).

(** A string as it is, any other value as JSON text. *)
Definition arg_text (v : JSON) : string :=
  match v with JString s => s | other => value_to_string other end.

Definition fill_placeholder (resolved : string) (field : string * JSON) : string :=
  let placeholder := "{" +:+ field.1 +:+ "}" in
  if contains placeholder resolved then replace placeholder (arg_text field.2) resolved
  else resolved.

Fixpoint push_query (names : list string) (obj : list (string * JSON)) (first : bool)
    (url : string) : string :=
  match names with
  | [] => url
  | n :: names =>
      match obj_get n obj with
      | Some v =>
          push_query names obj false
            (url +:+ (if first then "?" else "&") +:+ n +:+ "=" +:+ arg_text v)
      | None => push_query names obj first url
      end
  end.

Definition build_url (base_url path : string) (args : JSON) (pl : option ParamLocations)
    : string :=
  let resolved := match as_object args with
                  | Some obj => fold_left fill_placeholder obj path
                  | None => path
                  end in
  let url := base_url +:+ resolved in
  match pl, as_object args with
  | Some pl, Some obj => push_query (query_params pl) obj true url
  | _, _ => url
  end.

Definition push_header (obj : list (string * JSON)) (b : RequestBuilder)
    (h : string * string) : RequestBuilder :=
  match obj_get h.1 obj with
  | Some (JString v) =>
      if header_value_ok v && header_name_ok h.2 then builder_call (Header h.2 v) b else b
  | _ => b
  end.

Definition apply_params (b : RequestBuilder) (args : JSON) (pl : option ParamLocations)
    (is_get : bool) : RequestBuilder :=
  match pl with
  | Some pl =>
      match as_object args with
      | Some obj =>
          let b := fold_left (push_header obj) (header_params pl) b in
          match has_body pl, obj_get "body" obj with
          | true, Some body => builder_call (JsonBody body) b
          | _, _ => b
          end
      | None => b
      end
  | None => if is_get then b else builder_call (JsonBody args) b
  end.

Definition egress_block (cfg : ExecutorConfig) (url : string) : option ProxyError :=
  if block_private cfg then
    match check_url url (egress_dns_pinned cfg) with
    | Ok _ => None
    | Err _ => Some PE_EgressBlocked
    end
  else None.

Definition attempt_request (req : UpstreamRequest) (url : string) (secret : option string)
    : RequestBuilder :=
  apply_params (apply_auth (req_auth req) secret (mkRequestBuilder (req_method req) url []))
    (req_args req) (req_param_locations req) (bool_decide (req_method req = Get)).

(** What a response becomes. *)
Definition read_response (r : Response) : AttemptOutcome :=
  let status := rsp_status r in
  if negb ((200 <=? status) && (status <? 300))
  then Status status (parse_retry_after r) (rsp_elapsed r)
  else Success
         (mkUpstreamResponse
            (mkInvokeResult "" status (default "" (rsp_body r))
               (v ← rsp_content_type r; header_to_str v) false false None)
            0 "" (duration_ms (rsp_elapsed r)))
         (rsp_elapsed r).

(** Returns the request that was sent, [None] when nothing was. *)
Definition send_attempt (cfg : ExecutorConfig) (req : UpstreamRequest) (url : string)
    (secret : option string) (n : nat) : option RequestBuilder * AttemptOutcome :=
  match egress_block cfg url with
  | Some blocked => (None, Transport blocked)
  | None =>
      let b := attempt_request req url secret in
      let timeout := Transport (PE_UpstreamTimeout (wrapping 64 (as_millis (request_timeout cfg)))) in
      (Some b,
       match up_send n b with
       | SendElapsed => timeout
       | SendFailed true _ => timeout
       | SendFailed false (Some _) => Transport PE_EgressBlocked
       | SendFailed false None => Transport PE_ConnectionFailed
       | SendOk r => read_response r
       end)
  end.

(** ** The loop *)

Definition with_pool (rp : ResourceKeyPool) (st : PoolState) : ResourceKeyPool :=
  mkResourceKeyPool st (rp_strategy rp) (refs rp).

(** Dropping the guard of an attempt, if there is one. *)
Definition drop_key (guard : option Z) (pool : option ResourceKeyPool) : option ResourceKeyPool :=
  match pool, guard with
  | Some p, Some id => Some (with_pool p (release id (rp_pool p)))
  | _, _ => pool
  end.

Definition others (i : nat) (pool : option ResourceKeyPool) : option ResourceKeyPool :=
  (fun p => with_pool p (up_others i (rp_pool p))) <$> pool.

(** The key of an attempt with its secret.  The guard is dropped on the error
    paths after the acquisition. *)
Definition acquire_pool_key (p : ResourceKeyPool) (n : nat)
    : ResourceKeyPool * result ProxyError (Z * string) :=
  let '(st, r) := acquire (rp_strategy p) (up_draw n) (up_acquire_now n) (rp_pool p) in
  let p := with_pool p st in
  match r with
  | Err e => (p, Err (PE_KeyPool e))
  | Ok id =>
      match secret_ref_for id p with
      | None => (with_pool p (release id st), Err (PE_KeyPool (NotFound id)))
      | Some ref_str =>
          match parse_ref ref_str with
          | Err e => (with_pool p (release id st), Err (PE_Secret e))
          | Ok secret_ref =>
              let st := up_others (3 * n) st in
              match up_resolve n secret_ref with
              | Err e => (with_pool p (release id st), Err (PE_Secret e))
              | Ok s => (with_pool p st, Ok (id, s))
              end
          end
      end
  end.

Definition cool_key (pool : option ResourceKeyPool) (guard retry_after : option Z) (n : nat)
    : outcome (option ResourceKeyPool) :=
  match pool, guard with
  | Some p, Some id =>
      st ← mark_cooling id retry_after (up_cool_now n) (rp_pool p);
      Returns (Some (with_pool p st))
  | _, _ => Returns pool
  end.

Definition latency_feedback (pool : option ResourceKeyPool) (guard : option Z) (latency : Z)
    : option ResourceKeyPool :=
  match pool, guard with
  | Some p, Some id => Some (with_pool p (record_latency id latency (rp_pool p)))
  | _, _ => pool
  end.

Definition complete (r : UpstreamResponse) (p : RetryProgress) : UpstreamResponse :=
  mkUpstreamResponse (ur_result r) (rp_retry_count p) (rp_key_ref p) (ur_latency_ms r).

(** The guard and the secret of a round: from the pool when there is one. *)
Definition attempt_key (pool : option ResourceKeyPool) (n : nat)
    : option ResourceKeyPool * result ProxyError (option Z * option string) :=
  match pool with
  | Some p =>
      let '(p, r) := acquire_pool_key p n in
      (Some p, '(id, s) ← r; Ok (Some id, Some s))
  | None => (None, Ok (None, None))
  end.

Definition using_key (guard : option Z) (p : RetryProgress) : RetryProgress :=
  match guard with
  | Some id => mkRetryProgress (rp_retry_count p) (KeyId_to_string id)
  | None => p
  end.

(** One round of the loop after the request: [Some] is the value returned by
    the function, [None] says that the loop goes on. *)
Definition settle (o : AttemptOutcome) (pool : option ResourceKeyPool) (guard : option Z)
    (p : RetryProgress) (attempt : Z) (can_retry : bool) (n : nat)
    : outcome (option ResourceKeyPool * option (result ExecutionError UpstreamResponse)) :=
  match o with
  | Success response latency =>
      Returns (latency_feedback pool guard latency, Some (Ok (complete response p)))
  | Status status retry_after latency =>
      if negb (can_retry && is_retryable_status status)
      then Returns (pool, Some (Err (fail p (final_status_error status (rp_retry_count p) attempt)
                                       (Some (duration_ms latency)))))
      else pool ← cool_key pool guard retry_after n; Returns (pool, None)
  | Transport PE_EgressBlocked => Returns (pool, Some (Err (fail p PE_EgressBlocked None)))
  | Transport e =>
      pool ← cool_key pool guard None n;
      Returns (pool, if can_retry then None else Some (Err (fail p e None)))
  end.

(** What one round did: the key it used, the request it sent and the outcome. *)
Record Attempt := mkAttempt {
  at_key : option Z;
  at_sent : option RequestBuilder;
  at_outcome : AttemptOutcome;
}.

(** [remaining] rounds are left, the next one has number [n] (from 0); the rounds
    made so far are logged in order.  The loop counter of the source is [n + 1]. *)
Fixpoint attempts (cfg : ExecutorConfig) (req : UpstreamRequest) (url : string) (limit : Z)
    (remaining n : nat) (p : RetryProgress) (pool : option ResourceKeyPool)
    : outcome (option ResourceKeyPool * list Attempt * result ExecutionError UpstreamResponse) :=
  match remaining with
  | O => Returns (pool, [], Err (fail p (PE_RetryExhausted limit) None))
  | S remaining =>
      let '(pool, key) := attempt_key pool n in
      match key with
      | Err e => Returns (pool, [], Err (fail p e None))
      | Ok (guard, pool_secret) =>
          let p := using_key guard p in
          let secret := match pool_secret with Some s => Some s | None => req_secret req end in
          let attempt := Z.of_nat n + 1 in
          let '(sent, o) := send_attempt cfg req url secret n in
          let pool := others (3 * n + 1) pool in
          '(pool, done) ← settle o pool guard p attempt (attempt <? limit) n;
          let pool := drop_key guard pool in
          match done with
          | Some r => Returns (pool, [mkAttempt guard sent o], r)
          | None =>
              '(pool, log, r) ←
                attempts cfg req url limit remaining (S n)
                  (mkRetryProgress (wrapping 8 (rp_retry_count p + 1)) (rp_key_ref p))
                  (others (3 * n + 2) pool);
              Returns (pool, mkAttempt guard sent o :: log, r)
          end
      end
  end.

Definition execute_with_retry (cfg : ExecutorConfig) (req : UpstreamRequest)
    (pool : option ResourceKeyPool)
    : outcome (option ResourceKeyPool * list Attempt * result ExecutionError UpstreamResponse) :=
  let url := build_url (req_base_url req) (req_path req) (req_args req)
               (req_param_locations req) in
  let limit := retry_attempt_limit (req_method req) (max_attempts cfg) in
  attempts cfg req url limit (Z.to_nat limit) 0 (mkRetryProgress 0 "<none>") pool.
End Retry.

(** ** Properties of the loop *)

(** The outcomes after which another attempt may be made. *)
Definition retried (o : AttemptOutcome) : bool :=
  match o with
  | Success _ _ => false
  | Status status _ _ => is_retryable_status status
  | Transport PE_EgressBlocked => false
  | Transport _ => true
  end.

(** The error reported when the loop ends with outcome [o] after [before]
    retried attempts. *)
Definition outcome_error (before : nat) (o : AttemptOutcome) : option ProxyError :=
  match o with
  | Success _ _ => None
  | Status s _ _ =>
      Some (if (0 <? Z.of_nat before) && is_retryable_status s
            then PE_RetryExhausted (Z.of_nat before + 1) else PE_UpstreamError s)
  | Transport e => Some e
  end.

Definition is_key_error (e : ProxyError) : bool :=
  match e with PE_KeyPool _ | PE_Secret _ => true | _ => false end.

(** The error of an attempt that did not get as far as a request. *)
Definition no_key (r : result ExecutionError UpstreamResponse) : Prop :=
  exists e, r = Err e /\ is_key_error (proxy_error e) = true.

(** The answer that belongs to a last attempt [a] after [before] retries. *)
Definition answers (before : nat) (a : Attempt) (r : result ExecutionError UpstreamResponse)
    : Prop :=
  match r with
  | Ok resp => exists resp0 latency, at_outcome a = Success resp0 latency /\
      ur_result resp = ur_result resp0 /\ ur_retry_count resp = Z.of_nat before
  | Err e => outcome_error before (at_outcome a) = Some (proxy_error e) /\
      ee_retry_count e = Z.of_nat before
  end.

(** How a loop that starts with round [n] ends. *)
Definition ends_well (limit : Z) (n : nat) (log : list Attempt)
    (r : result ExecutionError UpstreamResponse) : Prop :=
  exists before, Forall (fun a => retried (at_outcome a) = true) before /\
    ((exists a, log = before ++ [a] /\
        Z.of_nat (n + length log) <= limit /\
        (retried (at_outcome a) = true -> Z.of_nat (n + length log) = limit) /\
        answers (n + length before) a r) \/
     (log = before /\ Z.of_nat (n + length log) < limit /\ no_key r)).

Section LoopLemmas.
Context {UP : UrlParser} {U : Upstream}.

Lemma acquire_pool_key_error p n q e :
  acquire_pool_key p n = (q, Err e) -> is_key_error e = true.
Proof.
  unfold acquire_pool_key. destruct (acquire _ _ _ _) as [st [id|e']]; [|naive_solver].
  destruct (secret_ref_for _ _); [|naive_solver].
  destruct (parse_ref _); [|naive_solver]. destruct (up_resolve _ _); naive_solver.
Qed.

(** A round that goes on had a retryable outcome; one that ends gives the answer
    of its outcome. *)
Lemma settle_spec o pool guard p attempt can_retry n pool' d :
  settle o pool guard p attempt can_retry n = Returns (pool', d) ->
  rp_retry_count p = Z.of_nat n -> attempt = Z.of_nat n + 1 ->
  match d with
  | None => retried o = true /\ can_retry = true
  | Some r => (retried o = true -> can_retry = false) /\
      forall key sent, answers n (mkAttempt key sent o) r
  end.
Proof.
  unfold settle, answers. intros H Hp ->. destruct o as [resp lat|s ra lat|e].
  - injection H as <- <-. cbn. split; [done|]. intros _ _. exists resp, lat. by rewrite Hp.
  - destruct (can_retry && is_retryable_status s) eqn:E; cbn [negb] in H.
    + apply bind_Returns_inv in H as (q & _ & H). injection H as <- <-.
      by apply andb_true_iff in E as [-> ?].
    + injection H as <- <-. cbn [retried at_outcome outcome_error]. split.
      * intros K. rewrite K in E. by destruct can_retry.
      * intros _ _. cbn [fail proxy_error ee_retry_count]. unfold final_status_error. by rewrite Hp.
  - destruct e;
      try (apply bind_Returns_inv in H as (q & _ & H); injection H as <- <-;
           destruct can_retry; [done | by split; [|intros; cbn; rewrite Hp]]).
    injection H as <- <-. split; [done|]. intros; cbn. by rewrite Hp.
Qed.

Lemma attempt_key_error pool n pool' e :
  attempt_key pool n = (pool', Err e) -> is_key_error e = true.
Proof.
  unfold attempt_key. destruct pool as [q|]; [|done].
  destruct (acquire_pool_key q n) as [q' [[id s]|e']] eqn:E; [done|].
  intros H. injection H as _ <-. by eapply acquire_pool_key_error.
Qed.

(** The three ways a round can go. *)
Lemma attempts_inv cfg req url limit remaining n p pool pool' log r :
  attempts cfg req url limit (S remaining) n p pool = Returns (pool', log, r) ->
  (exists e, attempt_key pool n = (pool', Err e) /\ log = [] /\ r = Err (fail p e None)) \/
  exists pool1 guard psecret sent o pool2 d,
    attempt_key pool n = (pool1, Ok (guard, psecret)) /\
    send_attempt cfg req url (match psecret with Some s => Some s | None => req_secret req end) n
      = (sent, o) /\
    settle o (others (3 * n + 1) pool1) guard (using_key guard p) (Z.of_nat n + 1)
      (Z.of_nat n + 1 <? limit) n = Returns (pool2, d) /\
    ((d = Some r /\ log = [mkAttempt guard sent o] /\ pool' = drop_key guard pool2) \/
     exists log', d = None /\ log = mkAttempt guard sent o :: log' /\
       attempts cfg req url limit remaining (S n)
         (mkRetryProgress (wrapping 8 (rp_retry_count (using_key guard p) + 1))
            (rp_key_ref (using_key guard p)))
         (others (3 * n + 2) (drop_key guard pool2)) = Returns (pool', log', r)).
Proof.
  cbn [attempts]. intros H. destruct (attempt_key pool n) as [pool1 [[guard psecret]|e]].
  2: { injection H as <- <- <-. left. by exists e. }
  destruct (send_attempt _ _ _ _ _) as [sent o] eqn:Eo.
  apply bind_Returns_inv in H as ([pool2 d] & Hs & H). right.
  exists pool1, guard, psecret, sent, o, pool2, d. split_and!; [done..|].
  destruct d as [res|]; [left; by injection H as <- <- <-|right].
  apply bind_Returns_inv in H as ([[pool3 log'] r'] & H & Hr). injection Hr as <- <- <-.
  by exists log'.
Qed.

Lemma attempts_spec cfg req url limit remaining n p pool pool' log r :
  limit = Z.of_nat (n + remaining) -> limit <= 256 -> (0 < remaining)%nat ->
  rp_retry_count p = Z.of_nat n ->
  attempts cfg req url limit remaining n p pool = Returns (pool', log, r) ->
  ends_well limit n log r.
Proof.
  intros Hl Hmax. revert n p pool pool' log r Hl.
  induction remaining as [|remaining IH]; intros n p pool pool' log r Hl Hr Hp H; [lia|].
  apply attempts_inv in H as [(e & Ek & -> & ->)|
    (pool1 & guard & psecret & sent & o & pool2 & d & Ek & Eo & Es & H)].
  { exists []. split; [constructor|]. right. split; [done|]. split; [cbn; lia|].
    eexists. split; [done|]. by eapply attempt_key_error. }
  assert (rp_retry_count (using_key guard p) = Z.of_nat n) as Hp1 by (by destruct guard).
  pose proof (settle_spec _ _ _ _ _ _ _ _ _ Es Hp1 eq_refl) as Hspec.
  destruct H as [(-> & -> & ->)|(log' & -> & -> & H)].
  - destruct Hspec as [Hf Ha]. exists []. split; [constructor|]. left.
    exists (mkAttempt guard sent o). cbn. split; [done|]. split; [lia|].
    split; [intros K; specialize (Hf K); lia|]. rewrite Nat.add_0_r. apply Ha.
  - destruct Hspec as [Hret Hcan]. apply IH in H as (before & Hb & K); [|lia|lia|].
    2: { cbn. rewrite Hp1. unfold wrapping. rewrite Z.mod_small; lia. }
    exists (mkAttempt guard sent o :: before). split; [by constructor|].
    destruct K as [(a & -> & K1 & K2 & K3)|(-> & K1 & K2)].
    + left. exists a. cbn. rewrite length_app in *. cbn in *. split; [done|].
      split; [lia|]. split; [intros K; specialize (K2 K); lia|].
      by replace (n + S (length before))%nat with (S (n + length before)) by lia.
    + right. split; [done|]. split; [cbn; lia | done].
Qed.
End LoopLemmas.

Lemma retry_attempt_limit_pos m k : 1 <= retry_attempt_limit m k.
Proof. unfold retry_attempt_limit. case_if; lia. Qed.

(** C3: a call makes at most [retry_attempt_limit] attempts, so at most
    one unless the method is GET.  All attempts but the last had a retryable
    outcome, and a last one with a retryable outcome used up the limit.  The
    answer is that of the last attempt, with the number of retries before it; the
    only other way to end is a key or secret that cannot be obtained. *)
Theorem retry_loop_contract {UP : UrlParser} {U : Upstream} cfg req pool pool' log r :
  max_attempts cfg <= 256 ->
  execute_with_retry cfg req pool = Returns (pool', log, r) ->
  ends_well (retry_attempt_limit (req_method req) (max_attempts cfg)) 0 log r.
Proof.
  intros Hmax H. pose proof (retry_attempt_limit_pos (req_method req) (max_attempts cfg)).
  unfold execute_with_retry in H. cbv zeta in H.
  apply attempts_spec in H; [done|lia| |lia|done].
  unfold retry_attempt_limit. case_if; lia.
Qed.

(** *** What is sent *)

(** The secret of key [id]: its own reference, resolved. *)
Definition secret_of_key {U : Upstream} (p : ResourceKeyPool) (id : Z) (s : string) : Prop :=
  exists ref_str r n, secret_ref_for id p = Some ref_str /\ parse_ref ref_str = Ok r /\
    up_resolve n r = Ok s.

(** The request of an attempt: it is built for the URL and the method of the
    call, the URL passed the address check, and it carries the secret of the key
    that the attempt leased, or the secret of the resource when there is no pool. *)
Definition request_ok {UP : UrlParser} {U : Upstream} (cfg : ExecutorConfig)
    (req : UpstreamRequest) (url : string) (pool : option ResourceKeyPool) (a : Attempt) : Prop :=
  forall b, at_sent a = Some b ->
    (block_private cfg = true -> check_url url (egress_dns_pinned cfg) = Ok tt) /\
    match at_key a, pool with
    | Some id, Some p => exists s, secret_of_key p id s /\ b = attempt_request req url (Some s)
    | None, None => b = attempt_request req url (req_secret req)
    | _, _ => False
    end.

Definition same_refs (p q : option ResourceKeyPool) : Prop := (refs <$> p) = (refs <$> q).

Section RequestLemmas.
Context {UP : UrlParser} {U : Upstream}.

Lemma same_refs_others i p q : same_refs p q -> same_refs p (others i q).
Proof. unfold same_refs. intros ->. by destruct q. Qed.

Lemma same_refs_drop g p q : same_refs p q -> same_refs p (drop_key g q).
Proof. unfold same_refs. intros ->. destruct q, g; done. Qed.

Lemma acquire_pool_key_refs p n : refs (acquire_pool_key p n).1 = refs p.
Proof.
  unfold acquire_pool_key. destruct (acquire _ _ _ _) as [st [id|e']]; [|done].
  destruct (secret_ref_for _ _); [|done].
  destruct (parse_ref _); [|done]. by destruct (up_resolve _ _).
Qed.

Lemma acquire_pool_key_secret p n q id s :
  acquire_pool_key p n = (q, Ok (id, s)) -> secret_of_key p id s.
Proof.
  unfold acquire_pool_key. destruct (acquire _ _ _ _) as [st [i|e']]; [|naive_solver].
  destruct (secret_ref_for _ _) as [ref_str|] eqn:Er; [|naive_solver].
  destruct (parse_ref _) as [r|] eqn:Ep; [|naive_solver].
  destruct (up_resolve _ _) as [s'|] eqn:Eu; [|naive_solver].
  intros H. injection H as _ -> ->. by exists ref_str, r, n.
Qed.

Lemma attempt_key_refs pool n pool' k :
  attempt_key pool n = (pool', k) -> same_refs pool pool'.
Proof.
  unfold attempt_key, same_refs. destruct pool as [p|]; [|naive_solver].
  pose proof (acquire_pool_key_refs p n) as E. destruct (acquire_pool_key p n) as [q r].
  intros H. injection H as <- _. cbn in *. by rewrite E.
Qed.

Lemma cool_key_refs pool g ra n pool' :
  cool_key pool g ra n = Returns pool' -> same_refs pool pool'.
Proof.
  unfold cool_key. destruct pool as [p|], g as [id|]; try naive_solver.
  intros (st & _ & H)%bind_Returns_inv. by injection H as <-.
Qed.

Lemma settle_refs o pool g p a c n pool' d :
  settle o pool g p a c n = Returns (pool', d) -> same_refs pool pool'.
Proof.
  unfold settle. destruct o as [resp lat|s ra lat|e].
  - intros H. injection H as <- _. by destruct pool, g.
  - case_if; [naive_solver|]. intros (q & Hq & H)%bind_Returns_inv. injection H as <- _.
    by eapply cool_key_refs.
  - destruct e; try (intros (q & Hq & H)%bind_Returns_inv; injection H as <- _;
      by eapply cool_key_refs). naive_solver.
Qed.

Lemma secret_of_key_refs p q id s : refs p = refs q -> secret_of_key q id s -> secret_of_key p id s.
Proof. unfold secret_of_key, secret_ref_for. intros ->. done. Qed.

Lemma send_attempt_sent cfg req url secret n b o :
  send_attempt cfg req url secret n = (Some b, o) ->
  (block_private cfg = true -> check_url url (egress_dns_pinned cfg) = Ok tt) /\
  b = attempt_request req url secret.
Proof.
  unfold send_attempt, egress_block. destruct (block_private cfg).
  - destruct (check_url _ _) as [[]|]; [|done]. intros H. by injection H as <- _.
  - intros H. by injection H as <- _.
Qed.

(** The log of a loop over a pool with the references of [pool0]. *)
Lemma attempts_requests pool0 cfg req url limit remaining n p pool pool' log r :
  same_refs pool0 pool ->
  attempts cfg req url limit remaining n p pool = Returns (pool', log, r) ->
  Forall (request_ok cfg req url pool0) log.
Proof.
  revert n p pool pool' log r.
  induction remaining as [|remaining IH]; intros n p pool pool' log r Hp H.
  { injection H as <- <- <-. constructor. }
  apply attempts_inv in H as [(e & _ & -> & _)|
    (pool1 & guard & psecret & sent & o & pool2 & d & Ek & Eo & Es & H)]; [constructor|].
  assert (request_ok cfg req url pool0 (mkAttempt guard sent o)) as Ha.
  { intros b Hb. cbn in *. subst sent. apply send_attempt_sent in Eo as [H1 H2].
    split; [done|]. unfold attempt_key in Ek. destruct pool as [q|].
    - destruct (acquire_pool_key q n) as [q' [[id s]|e]] eqn:Eq; [|done].
      injection Ek as <- <- <-. apply acquire_pool_key_secret in Eq.
      destruct pool0 as [q0|]; [|done]. injection Hp as Hp.
      exists s. split; [by eapply secret_of_key_refs | done].
    - injection Ek as <- <- <-. by destruct pool0. }
  destruct H as [(_ & -> & _)|(log' & _ & -> & H)]; [by apply Forall_singleton|].
  constructor; [done|]. eapply IH; [|exact H].
  apply same_refs_others, same_refs_drop. unfold same_refs in *. rewrite Hp.
  transitivity (refs <$> pool1); [by eapply attempt_key_refs|].
  rewrite <- (settle_refs _ _ _ _ _ _ _ _ _ Es). by destruct pool1.
Qed.
End RequestLemmas.


(** When the address check rejects the URL of a call, nothing is
    sent, there is no retry, no key is put into cooldown, and the answer is the
    fixed egress error (unless no key could be leased in the first place). *)
Theorem egress_block_final {UP : UrlParser} {U : Upstream} cfg req pool e :
  block_private cfg = true ->
  check_url (build_url (req_base_url req) (req_path req) (req_args req) (req_param_locations req))
    (egress_dns_pinned cfg) = Err e ->
  exists log key_ref,
    execute_with_retry cfg req pool =
      match attempt_key pool 0 with
      | (pool1, Err e) => Returns (pool1, [], Err (mkExecutionError e 0 "<none>" None))
      | (pool1, Ok (guard, _)) =>
          Returns (drop_key guard (others 1 pool1), log,
                   Err (mkExecutionError PE_EgressBlocked 0 key_ref None))
      end /\ Forall (fun a => at_sent a = None) log.
Proof.
  intros Hb Hc. unfold execute_with_retry.
  set (url := build_url _ _ _ _) in *. set (limit := retry_attempt_limit _ _).
  assert (exists m, Z.to_nat limit = S m) as [m ->].
  { exists (pred (Z.to_nat limit)). pose proof (retry_attempt_limit_pos (req_method req) (max_attempts cfg)).
    subst limit. lia. }
  cbn [attempts]. destruct (attempt_key pool 0) as [pool1 [[guard psecret]|ke]].
  - assert (forall s, send_attempt cfg req url s 0 = (None, Transport PE_EgressBlocked)) as Hs.
    { intros s. unfold send_attempt, egress_block. by rewrite Hb, Hc. }
    rewrite Hs. cbn. exists [mkAttempt guard None (Transport PE_EgressBlocked)],
      (rp_key_ref (using_key guard (mkRetryProgress 0 "<none>"))).
    split; [by destruct guard | by repeat constructor].
  - exists [], "". split; [done | constructor].
Qed.

(** *** The loop as a client of the pool

    [guards i] are the guards that other tasks hold when this one awaits for the
    [i]-th time. *)

Section PoolClient.
Context {UP : UrlParser} {U : Upstream}.
Variable guards : nat -> list Z.

Record pool_environment : Prop := {
  env_draws n : DrawLaws (up_draw n);
  env_capacity i : Z.of_nat (length (guards i)) < u32_max;
  env_others i st mine :
    rtc (pool_step true) (st, mine ++ guards i) (up_others i st, mine ++ guards (S i));
}.

Lemma step_release id st G : pool_step true (st, id :: G) (release id st, G).
Proof. apply (step_drop true st id []). Qed.

Lemma acquire_pool_key_steps p n q r :
  pool_environment -> acquire_pool_key p n = (q, r) ->
  match r with
  | Ok (id, _) =>
      rtc (pool_step true) (rp_pool p, guards (3 * n)) (rp_pool q, id :: guards (S (3 * n)))
  | Err _ => exists m, rtc (pool_step true) (rp_pool p, guards (3 * n)) (rp_pool q, guards m)
  end.
Proof.
  intros [D C O]. unfold acquire_pool_key.
  destruct (acquire _ _ _ _) as [st [id|e]] eqn:Ea.
  2: { intros H. injection H as <- <-. exists (3 * n)%nat.
       apply rtc_once. by eapply step_acquire_fails. }
  assert (pool_step true (rp_pool p, guards (3 * n)) (st, id :: guards (3 * n))) as H1.
  { by eapply step_acquire. }
  pose proof (O (3 * n)%nat st [id]) as H2.
  destruct (secret_ref_for _ _) as [ref_str|].
  2: { intros H. injection H as <- <-. exists (3 * n)%nat.
       eapply rtc_l; [exact H1|]. apply rtc_once, step_release. }
  destruct (parse_ref _) as [sr|].
  2: { intros H. injection H as <- <-. exists (3 * n)%nat.
       eapply rtc_l; [exact H1|]. apply rtc_once, step_release. }
  destruct (up_resolve _ _) as [s|]; intros H; injection H as <- <-.
  - eapply rtc_l; [exact H1 | exact H2].
  - exists (S (3 * n)). eapply rtc_l; [exact H1|]. eapply rtc_r; [exact H2 | apply step_release].
Qed.

Lemma cool_key_steps p id ra n pool' G :
  cool_key (Some p) (Some id) ra n = Returns pool' ->
  exists q, pool' = Some q /\ rtc (pool_step true) (rp_pool p, G) (rp_pool q, G).
Proof.
  unfold cool_key. intros (st & Hm & H)%bind_Returns_inv. injection H as <-.
  eexists. split; [done|]. apply rtc_once. by eapply step_cool.
Qed.

Lemma settle_steps o p id pr a c n pool' d G :
  settle o (Some p) (Some id) pr a c n = Returns (pool', d) ->
  exists q, pool' = Some q /\ rtc (pool_step true) (rp_pool p, G) (rp_pool q, G).
Proof.
  unfold settle. destruct o as [resp lat|s ra lat|e].
  - intros H. injection H as <- _. eexists. split; [done|]. apply rtc_once, step_latency.
  - case_if; [intros H; injection H as <- _; eexists; by split|].
    intros (q & Hq & H)%bind_Returns_inv. injection H as <- _. by eapply cool_key_steps.
  - destruct e; try (intros (q & Hq & H)%bind_Returns_inv; injection H as <- _;
      by eapply cool_key_steps).
    intros H; injection H as <- _; eexists; by split.
Qed.

Lemma attempts_steps cfg req url limit remaining n pr p pool' log r :
  pool_environment ->
  attempts cfg req url limit remaining n pr (Some p) = Returns (pool', log, r) ->
  exists q m, pool' = Some q /\
    rtc (pool_step true) (rp_pool p, guards (3 * n)) (rp_pool q, guards m).
Proof.
  intros E. revert n pr p pool' log r.
  induction remaining as [|remaining IH]; intros n pr p pool' log r H.
  { injection H as <- <- <-. by exists p, (3 * n)%nat. }
  apply attempts_inv in H as [(e & Ek & -> & _)|
    (pool1 & guard & psecret & sent & o & pool2 & d & Ek & _ & Es & H)];
    unfold attempt_key in Ek; destruct (acquire_pool_key p n) as [q kr] eqn:Eq;
    apply acquire_pool_key_steps in Eq; try done.
  { destruct kr as [[id s]|e']; [done|]. destruct Eq as [m Eq].
    injection Ek as <- _. by exists q, m. }
  destruct kr as [[id s]|e']; [|done]. injection Ek as <- <- <-.
  pose proof (env_others E (3 * n + 1) (rp_pool q) [id]) as H1.
  apply (settle_steps _ _ _ _ _ _ _ _ _ (id :: guards (S (3 * n + 1)))) in Es as (q2 & -> & H2).
  assert (rtc (pool_step true) (rp_pool p, guards (3 * n))
            (release id (rp_pool q2), guards (S (3 * n + 1)))) as H3.
  { etransitivity; [exact Eq|]. replace (S (3 * n)) with (3 * n + 1)%nat by lia.
    etransitivity; [exact H1|]. eapply rtc_r; [exact H2 | apply step_release]. }
  destruct H as [(_ & _ & ->)|(log' & _ & _ & H)]; [by eexists _, _|].
  apply IH in H as (q3 & m & -> & H4). exists q3, m. split; [done|].
  etransitivity; [exact H3|]. etransitivity; [|exact H4].
  pose proof (env_others E (3 * n + 2) (release id (rp_pool q2)) []) as H5.
  replace (S (3 * n + 1)) with (3 * n + 2)%nat by lia.
  by replace (3 * S n)%nat with (S (3 * n + 2)) by lia.
Qed.
End PoolClient.

(** A call uses the pool only through its operations and, on every
    path, drops each guard it acquired: interleaved with the steps of other
    tasks, it takes the pool from a state where only the others hold guards to
    such a state again.  The lease theorems of the pool therefore cover it. *)
Theorem retry_returns_leases {UP : UrlParser} {U : Upstream} guards cfg req p pool' log r :
  pool_environment guards ->
  execute_with_retry cfg req (Some p) = Returns (pool', log, r) ->
  exists q m, pool' = Some q /\
    rtc (pool_step true) (rp_pool p, guards 0%nat) (rp_pool q, guards m).
Proof. intros E H. by apply (attempts_steps guards _ _ _ _ _ 0) in H. Qed.

(** *** Failover *)

(** How long the key of an attempt is put aside. *)
Definition cooldown_of (o : AttemptOutcome) : Z :=
  match o with Status _ (Some d) _ => d | _ => DEFAULT_COOLDOWN end.

(** Key [id] is cooling until [until], or not in the pool at all. *)
Definition set_aside (id until : Z) (st : PoolState) : Prop :=
  forall e, entries st !! id = Some e -> ke_state e = CoolingUntil until.

Definition pool_set_aside (id until : Z) (pool : option ResourceKeyPool) : Prop :=
  forall p, pool = Some p -> set_aside id until (rp_pool p).

Section Failover.
Context {UP : UrlParser} {U : Upstream}.

(** Other tasks do not wake a key whose cooldown they did not set. *)
Definition others_respect_cooldowns : Prop :=
  forall i st id until, set_aside id until st -> set_aside id until (up_others i st).

Lemma set_aside_release id k until st : set_aside id until st -> set_aside id until (release k st).
Proof.
  intros H e He. cbn in He. rewrite lookup_alter_Some in He.
  destruct He as [(-> & e0 & He0 & ->)|[_ He]]; [|by apply H].
  cbn. by rewrite (H _ He0).
Qed.

Lemma acquire_not_set_aside s d now st st' id until :
  DrawLaws d -> set_aside id until st -> now < until -> acquire s d now st <> (st', Ok id).
Proof.
  intros D Hs Hn Ha. destruct (acquire_cases s d now st D)
    as [[_ K]|(c & cur & e & _ & He & Hc & _ & K)]; rewrite K in Ha; [done|].
  injection Ha as _ <-. cbn in He. rewrite lookup_fmap in He.
  apply fmap_Some in He as (e0 & He0 & ->). unfold expire_entry in Hc.
  rewrite (Hs _ He0) in Hc. rewrite (proj2 (Z.leb_gt until now)) in Hc by lia.
  by rewrite (Hs _ He0) in Hc.
Qed.

Lemma attempt_key_not_set_aside pool n pool' id s until :
  (forall n, DrawLaws (up_draw n)) -> pool_set_aside id until pool -> up_acquire_now n < until ->
  attempt_key pool n <> (pool', Ok (Some id, s)).
Proof.
  intros D Hp Hn. unfold attempt_key. destruct pool as [p|]; [|done].
  unfold acquire_pool_key. destruct (acquire _ _ _ _) as [st [k|e]] eqn:Ea; [|done].
  destruct (secret_ref_for _ _); [|done]. destruct (parse_ref _); [|done].
  destruct (up_resolve _ _); [|done]. intros H. injection H as _ -> _. revert Ea.
  eapply acquire_not_set_aside; [apply D | by apply Hp | done].
Qed.

Lemma cool_key_sets_aside pool id ra n pool' :
  cool_key pool (Some id) ra n = Returns pool' ->
  pool_set_aside id (up_cool_now n + default DEFAULT_COOLDOWN ra) pool'.
Proof.
  unfold cool_key. destruct pool as [p|]; [|by intros H; injection H as <-].
  intros (st & Hm & H)%bind_Returns_inv. injection H as <-. intros q Hq. injection Hq as <-.
  intros e. cbn. unfold mark_cooling in Hm.
  destruct (entries (rp_pool p) !! id) as [e0|] eqn:E0; [|injection Hm as <-; by rewrite E0].
  unfold instant_checked_add in Hm. case_if_in Hm; [|done]. injection Hm as <-.
  cbn. rewrite lookup_insert_eq. intros H. by injection H as <-.
Qed.

Lemma settle_sets_aside o pool id p a c n pool' :
  settle o pool (Some id) p a c n = Returns (pool', None) ->
  pool_set_aside id (up_cool_now n + cooldown_of o) pool'.
Proof.
  unfold settle. destruct o as [resp lat|s ra lat|e]; [done| |].
  - case_if; [done|]. intros (q & Hq & H)%bind_Returns_inv. injection H as <-.
    apply cool_key_sets_aside in Hq. by destruct ra.
  - destruct e; try (intros (q & Hq & H)%bind_Returns_inv; injection H as <- _;
      by apply cool_key_sets_aside in Hq). done.
Qed.

Lemma attempts_first_key cfg req url limit remaining n p pool pool' a log r id until :
  (forall n, DrawLaws (up_draw n)) -> pool_set_aside id until pool -> up_acquire_now n < until ->
  attempts cfg req url limit remaining n p pool = Returns (pool', a :: log, r) ->
  at_key a <> Some id.
Proof.
  intros D Hp Hn H. destruct remaining as [|remaining]; [done|].
  apply attempts_inv in H as [(e & _ & ? & _)|
    (pool1 & guard & psecret & sent & o & pool2 & d & Ek & _ & _ & H)]; [done|].
  assert (a = mkAttempt guard sent o) as ->.
  { destruct H as [(_ & H & _)|(log' & _ & H & _)]; congruence. }
  cbn. intros ->. by eapply attempt_key_not_set_aside in Ek.
Qed.

Lemma attempts_rotate cfg req url limit remaining n p pool pool' log r i a b id :
  (forall n, DrawLaws (up_draw n)) -> others_respect_cooldowns ->
  attempts cfg req url limit remaining n p pool = Returns (pool', log, r) ->
  log !! i = Some a -> log !! S i = Some b -> at_key a = Some id ->
  up_acquire_now (n + S i) < up_cool_now (n + i) + cooldown_of (at_outcome a) ->
  at_key b <> Some id.
Proof.
  intros D O. revert n p pool pool' log r i.
  induction remaining as [|remaining IH]; intros n p pool pool' log r i H Ha Hb Hk Ht.
  { injection H as <- <- <-. done. }
  apply attempts_inv in H as [(e & _ & -> & _)|
    (pool1 & guard & psecret & sent & o & pool2 & d & _ & _ & Es & H)]; [done|].
  destruct H as [(_ & -> & _)|(log' & -> & -> & H)]; [done|].
  destruct i as [|i].
  - injection Ha as <-. cbn in *. subst guard. destruct log' as [|b' log']; [done|].
    injection Hb as ->. apply settle_sets_aside in Es.
    eapply attempts_first_key in H; [exact H | exact D | |].
    2: { rewrite Nat.add_1_r, Nat.add_0_r in Ht. exact Ht. }
    intros q Hq. destruct pool2 as [q2|]; [|done]. injection Hq as <-.
    apply O, set_aside_release. by apply Es.
  - eapply (IH (S n)); [exact H | exact Ha | exact Hb | exact Hk |].
    by replace (S n + S i)%nat with (n + S (S i))%nat by lia;
    replace (S n + i)%nat with (n + S i)%nat by lia.
Qed.
End Failover.

(** An attempt after a failed one uses another key, as long as
    the cooldown of the failed key (the upstream's [Retry-After], or 60 seconds)
    has not passed. *)
Theorem failover_rotates {UP : UrlParser} {U : Upstream} cfg req p pool' log r i a b id :
  (forall n, DrawLaws (up_draw n)) -> others_respect_cooldowns ->
  execute_with_retry cfg req (Some p) = Returns (pool', log, r) ->
  log !! i = Some a -> log !! S i = Some b -> at_key a = Some id ->
  up_acquire_now (S i) < up_cool_now i + cooldown_of (at_outcome a) ->
  at_key b <> Some id.
Proof. intros D O H. by apply (attempts_rotate _ _ _ _ _ 0 _ _ _ _ _ i a b id D O H). Qed.

(** *** The loop returns *)

Section Returns.
Context {UP : UrlParser} {U : Upstream}.

(** The cooldowns asked for stay in the range of [Instant]. *)
Definition cooldowns_in_range : Prop :=
  forall n, up_cool_now n + DEFAULT_COOLDOWN <= instant_max /\
    forall b r d, up_send n b = SendOk r -> parse_retry_after r = Some d ->
      up_cool_now n + d <= instant_max.

Lemma cool_key_returns pool g ra n :
  up_cool_now n + default DEFAULT_COOLDOWN ra <= instant_max ->
  exists q, cool_key pool g ra n = Returns q.
Proof.
  intros H. unfold cool_key. destruct pool as [p|], g as [id|]; eauto.
  unfold mark_cooling, instant_checked_add. destruct (entries _ !! id); cbn; [|eauto].
  rewrite (proj2 (Z.leb_le _ _) H). cbn. eauto.
Qed.

Lemma send_attempt_cooldown cfg req url s n sent o :
  cooldowns_in_range -> send_attempt cfg req url s n = (sent, o) ->
  up_cool_now n + cooldown_of o <= instant_max.
Proof.
  intros [H0 H1]%(fun H => H n) H. unfold send_attempt in H.
  destruct (egress_block _ _); [by injection H as _ <-|].
  destruct (up_send n _) as [|[] [eb|]|resp] eqn:Es; injection H as _ <-; try done.
  unfold read_response. case_if; [|done]. cbn.
  destruct (parse_retry_after resp) eqn:Ep; [by eapply H1 | done].
Qed.

Lemma settle_returns o pool g p a c n :
  up_cool_now n + cooldown_of o <= instant_max -> up_cool_now n + DEFAULT_COOLDOWN <= instant_max ->
  exists x, settle o pool g p a c n = Returns x.
Proof.
  intros H0 H1. unfold settle. destruct o as [resp lat|s ra lat|e]; [eauto| |].
  - case_if; [eauto|].
    destruct (cool_key_returns pool g ra n) as [q ->]; [by destruct ra|]. cbn. eauto.
  - destruct (cool_key_returns pool g None n H1) as [q Hq].
    destruct e; rewrite ?Hq; cbn; eauto.
Qed.

Lemma attempts_return cfg req url limit remaining n p pool :
  cooldowns_in_range -> exists x, attempts cfg req url limit remaining n p pool = Returns x.
Proof.
  intros C. revert n p pool. induction remaining as [|remaining IH]; intros n p pool; cbn; [eauto|].
  destruct (attempt_key pool n) as [pool1 [[g ps]|e]]; [|eauto].
  destruct (send_attempt _ _ _ _ _) as [sent o] eqn:Es.
  destruct (settle_returns o (others (n + (n + (n + 0)) + 1) pool1) g (using_key g p)
    (Z.of_nat n + 1) (Z.of_nat n + 1 <? limit) n) as [[pool2 d] Hd].
  - by eapply send_attempt_cooldown.
  - apply C.
  - rewrite Hd. cbn. destruct d; [eauto|].
    match goal with |- context [attempts ?a ?b ?c ?d ?e ?f ?g ?h] =>
      destruct (IH f g h) as [[[pool3 log] r] ->] end. cbn. eauto.
Qed.
End Returns.

(** A call returns after finitely many attempts, with at least
    one attempt or an error, unless an upstream asks for a cooldown beyond the
    range of the clock. *)
Theorem retry_returns {UP : UrlParser} {U : Upstream} cfg req pool :
  cooldowns_in_range ->
  exists pool' log r, execute_with_retry cfg req pool = Returns (pool', log, r) /\
    (log = [] -> exists e, r = Err e).
Proof.
  intros C. destruct (attempts_return cfg req
    (build_url (req_base_url req) (req_path req) (req_args req) (req_param_locations req))
    (retry_attempt_limit (req_method req) (max_attempts cfg))
    (Z.to_nat (retry_attempt_limit (req_method req) (max_attempts cfg))) 0
    (mkRetryProgress 0 "<none>") pool C) as [[[pool' log] r] H].
  exists pool', log, r. split; [exact H|]. intros ->.
  destruct (Z.to_nat _) as [|m]; [by injection H as <- <-; eauto|].
  apply attempts_inv in H as [(e & _ & _ & ->)|(? & ? & ? & ? & ? & ? & ? & _ & _ & _ & H)]; [eauto|].
  destruct H as [(_ & H & _)|(? & _ & H & _)]; done.
Qed.

(** ** Witnesses: a pool of two keys whose first request is refused *)

(** URLs [https://host/..]. *)
Definition demo_parser : UrlParser := {|
  Url_parse := fun s =>
    rest ← strip_prefix "https://" s;
    Some (mkUrl "https" (Some (default rest (fst <$> split_once (chr 47) rest))) None None (Some 443) "/")
|}.

Definition demo_upstream : Upstream := {|
  up_send := fun n _ =>
    match n with
    | O => SendOk (mkResponse 503 None (Some "30") None (from_secs 1))
    | _ => SendOk (mkResponse 200 None None (Some "pong") (from_secs 1))
    end;
  up_resolve := fun _ r => Ok (path r);
  up_draw := fun _ => first_draw;
  up_acquire_now := fun n => from_secs (Z.of_nat n);
  up_cool_now := fun n => from_secs 1;
  up_others := fun _ st => st;
  up_serializers := demo_serializers;
  header_to_str := Some;
  header_value_ok := fun _ => true;
  header_name_ok := fun _ => true;
|}.

Definition demo_key_pool : ResourceKeyPool :=
  ResourceKeyPool_new LeastRequests [("secret://env/KEY_A", 1); ("secret://env/KEY_B", 1)].

Definition demo_request (m : HttpMethod) (base : string) : UpstreamRequest :=
  mkUpstreamRequest m "/ping" base (AuthBearer "") (JObject []) None None.

Definition demo_executor : ExecutorConfig := mkExecutorConfig true true 3 (from_secs 30).

Definition demo_run (base : string) :=
  execute_with_retry (UP := demo_parser) (U := demo_upstream) demo_executor
    (demo_request Get base) (Some demo_key_pool).

Definition demo_log : list Attempt :=
  match demo_run "https://api.example" with Returns (_, log, _) => log | Panics => [] end.

Lemma first_draw_everywhere n : DrawLaws (up_draw (Upstream := demo_upstream) n).
Proof. apply first_draw_laws. Qed.

Lemma retry_loop_contract_witness :
  exists pool' log r, demo_run "https://api.example" = Returns (pool', log, r) /\
    length log = 2%nat /\ ends_well 3 0 log r.
Proof.
  destruct (demo_run "https://api.example") as [[[pool' log] r]|] eqn:E;
    [|vm_compute in E; discriminate].
  exists pool', log, r. split; [done|]. split.
  - vm_compute in E. by injection E as _ <- _.
  - refine (retry_loop_contract (UP := demo_parser) (U := demo_upstream) demo_executor
      (demo_request Get "https://api.example") (Some demo_key_pool) pool' log r _ E).
    vm_compute. congruence.
Defined.


Lemma egress_block_final_witness :
  exists log key_ref,
    demo_run "https://127.0.0.1" =
      match attempt_key (U := demo_upstream) (Some demo_key_pool) 0 with
      | (pool1, Err e) => Returns (pool1, [], Err (mkExecutionError e 0 "<none>" None))
      | (pool1, Ok (guard, _)) =>
          Returns (drop_key guard (others (U := demo_upstream) 1 pool1), log,
                   Err (mkExecutionError PE_EgressBlocked 0 key_ref None))
      end /\ Forall (fun a => at_sent a = None) log.
Proof.
  apply (egress_block_final (UP := demo_parser) (U := demo_upstream) demo_executor
    (demo_request Get "https://127.0.0.1") (Some demo_key_pool) (mkEgressBlocked Loopback));
    vm_compute; reflexivity.
Defined.

Lemma demo_environment : pool_environment (U := demo_upstream) (fun _ => []).
Proof.
  split.
  - apply first_draw_everywhere.
  - intros _. vm_compute. reflexivity.
  - intros i st mine. apply rtc_refl.
Qed.

Lemma retry_returns_leases_witness :
  exists pool' log r q m, demo_run "https://api.example" = Returns (pool', log, r) /\
    pool' = Some q /\ rtc (pool_step true) (rp_pool demo_key_pool, []) (rp_pool q, []) /\ m = 0%nat.
Proof.
  destruct (demo_run "https://api.example") as [[[pool' log] r]|] eqn:E;
    [|vm_compute in E; discriminate].
  destruct (retry_returns_leases (UP := demo_parser) (U := demo_upstream) (fun _ => [])
    demo_executor (demo_request Get "https://api.example") demo_key_pool pool' log r
    demo_environment E) as (q & m & Hq & Hr).
  exists pool', log, r, q, 0%nat. done.
Defined.

Lemma failover_rotates_witness :
  exists a b, demo_log !! 0%nat = Some a /\ demo_log !! 1%nat = Some b /\
    at_key a = Some 1 /\ at_key b <> Some 1.
Proof.
  unfold demo_log. destruct (demo_run "https://api.example") as [[[pool' log] r]|] eqn:E;
    [|vm_compute in E; discriminate].
  destruct (log !! 0%nat) as [a|] eqn:Ea, (log !! 1%nat) as [b|] eqn:Eb;
    try (vm_compute in E; injection E as _ <- _; discriminate).
  assert (at_key a = Some 1 /\ at_outcome a = Status 503 (Some (from_secs 30)) (from_secs 1))
    as [Hk Ho].
  { vm_compute in E. injection E as _ <- _. by injection Ea as <-. }
  exists a, b. split; [done|]. split; [done|]. split; [done|].
  apply (failover_rotates (UP := demo_parser) (U := demo_upstream) demo_executor
    (demo_request Get "https://api.example") demo_key_pool pool' log r 0 a b 1
    first_draw_everywhere); [|exact E|exact Ea|exact Eb|exact Hk|].
  - intros i st id until H. exact H.
  - rewrite Ho. vm_compute. reflexivity.
Defined.

Lemma retry_returns_witness :
  exists pool' log r, demo_run "https://api.example" = Returns (pool', log, r) /\
    (log = [] -> exists e, r = Err e).
Proof.
  apply (retry_returns (UP := demo_parser) (U := demo_upstream)).
  intros n. split; [vm_compute; congruence|]. intros b r d Hs Hp.
  destruct n; injection Hs as <-; vm_compute in Hp; [|discriminate].
  injection Hp as <-. vm_compute. congruence.
Defined.

(** A POST is sent once, even though the status is retryable. *)
Example post_sent_once :
  match execute_with_retry (UP := demo_parser) (U := demo_upstream) demo_executor
          (demo_request Post "https://api.example") (Some demo_key_pool) with
  | Returns (Some q, log, Err e) =>
      (length log, proxy_error e, ke_state <$> entries (rp_pool q) !! 1)
      = (1%nat, PE_UpstreamError 503, Some Available)
  | _ => False
  end.
Proof. vm_compute. reflexivity. Qed.
