(* ===== verification/Observe.v ===== *)
(** * Observability and content defense ([src/src/observability/], [src/src/defense/])

    The event records, the redaction helpers, the capture of payload previews,
    and the scan for prompt-injection phrases.  A text is a string of UTF-8
    bytes.  The regex crate is a parameter: [regex_segments pattern text] cuts the
    text at the non-overlapping matches of the pattern. *)

From S2P Require Import Prelude RustStr Naming Errors Config Secrets Shaping.
From Stdlib Require Import Ascii.

Local Open Scope string_scope.
Local Open Scope list_scope.
Local Open Scope Z_scope.
Local Open Scope gateway_scope.

(** ** UTF-8 as [core::str] decodes it *)

Definition byte_in (lo hi : Z) (o : option ascii) : bool :=
  match o with Some c => in_range lo hi (code c) | None => false end.

Definition second_byte_ok (first : Z) (o : option ascii) : bool :=
  if first =? 0xE0 then byte_in 0xA0 0xBF o
  else if first =? 0xED then byte_in 0x80 0x9F o
  else if first =? 0xF0 then byte_in 0x90 0xBF o
  else if first =? 0xF4 then byte_in 0x80 0x8F o
  else byte_in 0x80 0xBF o.

Definition utf8_char_width (first : Z) : nat :=
  if first <? 0x80 then 1
  else if in_range 0xC2 0xDF first then 2
  else if in_range 0xE0 0xEF first then 3
  else if in_range 0xF0 0xF4 first then 4
  else 0.

(** The sequence at the head of the text: whether it is valid, and its length;
    an invalid one is a maximal prefix of a valid sequence, or one byte. *)
Definition utf8_head (s : string) : bool * nat :=
  match s with
  | "" => (true, 0%nat)
  | String c rest =>
      let first := code c in
      match utf8_char_width first with
      | 1%nat => (true, 1%nat)
      | 2%nat => if byte_in 0x80 0xBF (String.get 0 rest) then (true, 2%nat) else (false, 1%nat)
      | 3%nat =>
          if negb (second_byte_ok first (String.get 0 rest)) then (false, 1%nat)
          else if byte_in 0x80 0xBF (String.get 1 rest) then (true, 3%nat) else (false, 2%nat)
      | 4%nat =>
          if negb (second_byte_ok first (String.get 0 rest)) then (false, 1%nat)
          else if negb (byte_in 0x80 0xBF (String.get 1 rest)) then (false, 2%nat)
          else if byte_in 0x80 0xBF (String.get 2 rest) then (true, 4%nat) else (false, 3%nat)
      | _ => (false, 1%nat)
      end
  end.

(** [str::from_utf8(s).is_ok()]; [skip] bytes belong to the current sequence. *)
Fixpoint utf8_valid_from (skip : nat) (s : string) : bool :=
  match s with
  | "" => true
  | String _ s' =>
      match skip with
      | S k => utf8_valid_from k s'
      | O => let '(ok, w) := utf8_head s in ok && utf8_valid_from (w - 1) s'
      end
  end.
Definition utf8_valid (s : string) : bool := utf8_valid_from 0 s.

(** U+FFFD. *)
Definition replacement_char : string :=
  String (chr 0xEF) (String (chr 0xBF) (String (chr 0xBD) "")).

(** [String::from_utf8_lossy]; the next [n] bytes are kept or dropped. *)
Fixpoint lossy_from (keep : bool) (n : nat) (s : string) : string :=
  match s with
  | "" => ""
  | String c s' =>
      match n with
      | S k => if keep then String c (lossy_from keep k s') else lossy_from keep k s'
      | O =>
          let '(ok, w) := utf8_head s in
          if ok then String c (lossy_from true (w - 1) s')
          else replacement_char +:+ lossy_from false (w - 1) s'
      end
  end.
Definition from_utf8_lossy (s : string) : string := lossy_from true 0 s.

(** ** Events ([observability/model.rs], [observability/security.rs]) *)

Inductive RequestStatus :=
| RS_Success
| RS_UpstreamError (code : Z)
| RS_Timeout
| RS_ConnectionFailed
| RS_Limited.

Definition status_label (s : RequestStatus) : string :=
  match s with
  | RS_Success => "200"
  | RS_UpstreamError c => fmt_Z c
  | RS_Timeout | RS_ConnectionFailed => "0"
  | RS_Limited => "429"
  end.

Definition is_transport_failure (s : RequestStatus) : bool :=
  match s with
  | RS_UpstreamError c => c =? 0
  | RS_Timeout | RS_ConnectionFailed => true
  | _ => false
  end.

Inductive RequestKind := KindTool | KindPrompt | KindResource.

Definition kind_as_str (k : RequestKind) : string :=
  match k with KindTool => "tool" | KindPrompt => "prompt" | KindResource => "resource" end.

Definition kind_parse (s : string) : option RequestKind :=
  if s =s "tool" then Some KindTool
  else if s =s "prompt" then Some KindPrompt
  else if s =s "resource" then Some KindResource
  else None.

Record RequestEvent := mkRequestEvent {
  ev_timestamp : Z;
  ev_request_id : string;
  ev_proxy_key_id : string;
  ev_resource_id : string;
  ev_request_kind : RequestKind;
  ev_tool_name : string;
  ev_upstream_key_ref : string;
  ev_status : RequestStatus;
  ev_latency_ms : Z;
  ev_request_units : Z;
  ev_retry_count : Z;
  ev_rate_limited : bool;
  ev_queued_ms : Z;
  ev_request_args : option string;
  ev_response_preview : option string;
  ev_upstream_latency_ms : option Z;
}.

Inductive SecurityEventKind :=
| IntegrityToolChanged | IntegrityToolAdded | IntegrityToolRemoved | IntegrityHintFlipped
| ContentDefenseFlag | AdminAudit.

Inductive Severity := SevInfo | SevWarn | SevError.

Record SecurityEvent := mkSecurityEvent {
  se_timestamp : Z;
  se_resource_id : string;
  se_tool_name : option string;
  se_kind : SecurityEventKind;
  se_severity : Severity;
  se_details : JSON;
}.

(** [format!("req_{:020}", n)]. *)
Definition request_id_of (n : Z) : string :=
  let digits := fmt_Z n in
  "req_" +:+ String.concat "" (repeat "0" (20 - String.length digits)) +:+ digits.

(** ** Redaction ([observability/redaction.rs]) *)

Definition KEY_PREFIX_LEN : nat := 4.
Definition KEY_SUFFIX_LEN : nat := 4.
Definition MIN_REDACT_LEN : nat := KEY_PREFIX_LEN + KEY_SUFFIX_LEN.
Definition KNOWN_KEY_PREFIXES : list string := ["sk-"; "sk_"; "pk-"; "pk_"].

Fixpoint strip_first_prefix (prefixes : list string) (s : string) : string :=
  match prefixes with
  | [] => s
  | p :: ps => match strip_prefix p s with Some r => r | None => strip_first_prefix ps s end
  end.

Definition strip_key_prefix (plaintext : string) : string :=
  strip_first_prefix KNOWN_KEY_PREFIXES plaintext.

(** [&s[from..to]], which panics inside a character. *)
Definition str_slice (s : string) (from to : nat) : outcome string :=
  let b := String.list_ascii_of_string s in
  if is_char_boundary b from && is_char_boundary b to && (from <=? to)%nat
     && (to <=? String.length s)%nat
  then Returns (String.substring from (to - from) s) else Panics.

(** U+2026. *)
Definition ellipsis : string := String (chr 0xE2) (String (chr 0x80) (String (chr 0xA6) "")).

Definition redact_secret_key (plaintext : string) : outcome string :=
  let body := strip_key_prefix plaintext in
  if (String.length body <? MIN_REDACT_LEN)%nat then Returns "<redacted>"
  else
    prefix ← str_slice body 0 KEY_PREFIX_LEN;
    suffix ← str_slice body (String.length body - KEY_SUFFIX_LEN) (String.length body);
    Returns ("key:" +:+ prefix +:+ ellipsis +:+ suffix).

(** ** Capture ([observability/capture.rs]) *)

Inductive Replacement := ReplaceKey | ReplaceRef | ReplaceAll.

Definition dquote : string := String (chr 34) "".

Definition BEARER_PATTERN : string := "(?i)\bbearer\s+[A-Za-z0-9._~+/=-]+".
Definition HEADER_PATTERN : string :=
  "(?i)\b(?:authorization|x-api-key)[" +:+ dquote +:+ "']?\s*[:=]\s*[" +:+ dquote +:+ "']?[^\s"
    +:+ dquote +:+ "',;}]+".
Definition KEY_PATTERN : string := "\b(?:sk|pk)[-_][A-Za-z0-9_-]{8,}".
Definition REF_PATTERN : string := "secret://[A-Za-z0-9._/-]+".

Definition PATTERN_TABLE : list (string * Replacement) :=
  [(BEARER_PATTERN, ReplaceAll); (HEADER_PATTERN, ReplaceAll);
   (KEY_PATTERN, ReplaceKey); (REF_PATTERN, ReplaceRef)].

(** The text as pairs (text before a match, match) and the text after the last
    match; [None] when the pattern does not compile. *)
Class RegexReplace := {
  regex_segments : string -> string -> option (list (string * string) * string);
}.

(** What the crate's documentation promises and the code relies on: the segments
    make up the text, and a match of the key pattern is ASCII. *)
Class RegexReplaceLaws (R : RegexReplace) : Prop := {
  segments_text p s segs tail : regex_segments p s = Some (segs, tail) ->
    s = foldr (fun g t => g.1 +:+ g.2 +:+ t) tail segs;
  key_match_ascii s segs tail : regex_segments KEY_PATTERN s = Some (segs, tail) ->
    Forall (fun g => str_forallb is_ascii g.2 = true) segs;
}.

Definition replace_match (r : Replacement) (m : string) : outcome string :=
  match r with
  | ReplaceKey => redact_secret_key m
  | ReplaceRef => Returns (redact_secret_ref m)
  | ReplaceAll => Returns "<redacted>"
  end.

Fixpoint replace_segments (r : Replacement) (segs : list (string * string)) (tail : string)
    : outcome string :=
  match segs with
  | [] => Returns tail
  | (before, m) :: segs =>
      m ← replace_match r m;
      rest ← replace_segments r segs tail;
      Returns (before +:+ m +:+ rest)
  end.

Section Capture.
Context {R : RegexReplace}.

Fixpoint redact_patterns (table : list (string * Replacement)) (text : string) : outcome string :=
  match table with
  | [] => Returns text
  | (p, r) :: table =>
      text ← match regex_segments p text with
             | Some (segs, tail) => replace_segments r segs tail
             | None => Returns text
             end;
      redact_patterns table text
  end.

Definition redact_text (text : string) : outcome string := redact_patterns PATTERN_TABLE text.

(** [truncate_utf8] of this module: down from [max_bytes] to a boundary. *)
Definition cut_text (s : string) (max_bytes : nat) : string :=
  if (String.length s <=? max_bytes)%nat then s
  else
    let b := String.list_ascii_of_string s in
    String.string_of_list_ascii (take (floor_from b max_bytes) b).

Definition capture_text (s : string) (max_bytes : nat) : outcome string :=
  redact_text (cut_text s max_bytes).

Definition capture_bytes (s : string) (max_bytes : nat) : outcome string :=
  if utf8_valid s then capture_text s max_bytes
  else Returns ("<non-utf8 " +:+ fmt_nat (String.length s) +:+ " bytes>").
End Capture.

(** ** Content defense ([defense/mod.rs]) *)

Record DefenseResult := mkDefenseResult { flagged : bool; matched_rules : list string }.

Definition DEFENSE_RULES : list (string * list string) :=
  [("ignore_previous", ["ignore previous"; "ignore prior"; "ignore above"]);
   ("disregard_above", ["disregard the above"]);
   ("forget_instructions", ["forget your instructions"; "forget instructions"]);
   ("do_not_follow", ["do not follow your instructions"; "do not follow your rules";
                      "do not follow instructions"]);
   ("you_are_now", ["you are now "]);
   ("act_as", ["act as a "; "act as an "]);
   ("pretend_you_are", ["pretend you are "; "pretend to be "]);
   ("you_are_ai", ["you are an ai"; "you are now an ai"; "you are a ai"; "you are an assistant";
                   "you are a language model"]);
   ("system_prompt", ["system prompt"]);
   ("new_instructions", ["new instructions"; "new instruction"]);
   ("override", ["override"]);
   ("system_tag", ["<system>"; "[system]"; "### system"; "###system"])].

Definition rule_hits (lower : string) (rule : string * list string) : bool :=
  existsb (fun kw => contains kw lower) rule.2.

(** [to_lowercase] is Unicode's. *)
Definition scan_content (to_lowercase : string -> string) (text : string) : DefenseResult :=
  let lower := to_lowercase text in
  let matched := fst <$> List.filter (rule_hits lower) DEFENSE_RULES in
  mkDefenseResult (negb (bool_decide (matched = []))) matched.

(** ** Lemmas *)

Lemma list_ascii_lookup s i :
  String.list_ascii_of_string s !! i = String.get i s.
Proof. revert i. induction s as [|c s IH]; intros [|i]; cbn; auto. Qed.

Lemma str_forallb_get p s i c :
  str_forallb p s = true -> String.get i s = Some c -> p c = true.
Proof.
  revert i. induction s as [|a s IH]; intros [|i]; cbn; try done;
    intros [Ha Hs]%andb_true_iff H; [congruence | eauto].
Qed.

Lemma list_ascii_length s : length (String.list_ascii_of_string s) = String.length s.
Proof. induction s; cbn; congruence. Qed.

Lemma get_length s i : (i < String.length s)%nat -> exists c, String.get i s = Some c.
Proof.
  revert i. induction s as [|a s IH]; intros [|i]; cbn; intros H; try lia; [eauto|].
  apply IH. lia.
Qed.

(** In an ASCII text every position is a character boundary. *)
Lemma ascii_boundary s i :
  str_forallb is_ascii s = true -> (i <= String.length s)%nat ->
  is_char_boundary (String.list_ascii_of_string s) i = true.
Proof.
  intros Ha Hi. unfold is_char_boundary. destruct i as [|i]; [done|].
  rewrite list_ascii_lookup, list_ascii_length. destruct (String.get (S i) s) as [c|] eqn:E.
  - apply (str_forallb_get _ _ _ _ Ha) in E. unfold is_ascii in E.
    unfold is_continuation, in_range. lia.
  - apply Nat.eqb_eq. destruct (decide (S i < String.length s)%nat) as [Hl|]; [|lia].
    apply get_length in Hl as [c Hc]. congruence.
Qed.

Lemma substring_prefix a s : String.substring 0 (String.length a) (a +:+ s) = a.
Proof. induction a; cbn; [by destruct s | congruence]. Qed.

Lemma substring_suffix a s n :
  String.substring (String.length a) n (a +:+ s) = String.substring 0 n s.
Proof. induction a; cbn; [done | auto]. Qed.

Lemma str_slice_ascii s from to :
  str_forallb is_ascii s = true -> (from <= to <= String.length s)%nat ->
  str_slice s from to = Returns (String.substring from (to - from) s).
Proof.
  intros Ha H. unfold str_slice. rewrite !ascii_boundary by (done || lia).
  rewrite (proj2 (Nat.leb_le from to)), (proj2 (Nat.leb_le to (String.length s))) by lia. done.
Qed.

(** Of an ASCII secret of at least eight characters, only the first
    four and the last four appear in the redacted form, whatever lies between; a
    shorter one does not appear at all. *)
Theorem key_redaction plaintext :
  str_forallb is_ascii (strip_key_prefix plaintext) = true ->
  ((String.length (strip_key_prefix plaintext) < 8)%nat ->
   redact_secret_key plaintext = Returns "<redacted>") /\
  (forall a middle z, strip_key_prefix plaintext = a +:+ middle +:+ z ->
   String.length a = 4%nat -> String.length z = 4%nat ->
   redact_secret_key plaintext = Returns ("key:" +:+ a +:+ ellipsis +:+ z)).
Proof.
  intros Hascii. unfold redact_secret_key. set (body := strip_key_prefix plaintext) in *. split.
  - intros Hlt. unfold MIN_REDACT_LEN, KEY_PREFIX_LEN, KEY_SUFFIX_LEN. by rewrite (proj2 (Nat.ltb_lt _ _)) by lia.
  - intros a m z Hb Ha Hz.
    assert (String.length body = (8 + String.length m)%nat) as Hlen.
    { rewrite Hb, !str_app_length. lia. }
    rewrite (proj2 (Nat.ltb_ge _ _)) by (unfold MIN_REDACT_LEN, KEY_PREFIX_LEN, KEY_SUFFIX_LEN; lia).
    rewrite !str_slice_ascii by (done || unfold KEY_PREFIX_LEN, KEY_SUFFIX_LEN; lia). cbn [mbind outcome_bind].
    unfold KEY_PREFIX_LEN, KEY_SUFFIX_LEN. rewrite Nat.sub_0_r.
    replace (String.length body - (String.length body - 4))%nat with 4%nat by lia.
    replace (String.length body - 4)%nat with (String.length (a +:+ m))
      by (rewrite str_app_length; lia).
    rewrite Hb. rewrite <- Ha at 1. rewrite substring_prefix.
    rewrite <- (str_app_assoc a m z), (substring_suffix (a +:+ m) z).
    rewrite <- Hz at 1. by rewrite substring_all.
Qed.

Lemma key_redaction_witness :
  redact_secret_key "sk-1234567890abcdefwxyz" = Returns ("key:1234" +:+ ellipsis +:+ "wxyz").
Proof.
  apply (proj2 (key_redaction "sk-1234567890abcdefwxyz" ltac:(vm_compute; reflexivity))
    "1234" "567890abcdef" "wxyz"); vm_compute; reflexivity.
Defined.

Lemma strip_prefix_forallb p q s r :
  strip_prefix q s = Some r -> str_forallb p s = true -> str_forallb p r = true.
Proof.
  intros ->%strip_prefix_Some. rewrite str_forallb_app. by intros [_ ?]%andb_true_iff.
Qed.

Lemma strip_first_prefix_forallb p ps s :
  str_forallb p s = true -> str_forallb p (strip_first_prefix ps s) = true.
Proof.
  intros H. induction ps as [|q ps IH]; cbn; [done|].
  destruct (strip_prefix q s) eqn:E; [by eapply strip_prefix_forallb | done].
Qed.

Lemma redact_secret_key_returns s :
  str_forallb is_ascii s = true -> exists t, redact_secret_key s = Returns t.
Proof.
  intros H. apply (strip_first_prefix_forallb _ KNOWN_KEY_PREFIXES) in H.
  unfold redact_secret_key, strip_key_prefix. case_if; [eauto|].
  apply Nat.ltb_ge in E. unfold MIN_REDACT_LEN, KEY_PREFIX_LEN, KEY_SUFFIX_LEN in *.
  rewrite !str_slice_ascii by (done || lia). cbn. eauto.
Qed.

Lemma replace_segments_returns r segs tail :
  Forall (fun g => exists t, replace_match r g.2 = Returns t) segs ->
  exists t, replace_segments r segs tail = Returns t.
Proof.
  induction 1 as [|[b m] segs [t Ht] _ [t' IH]]; cbn in *; [eauto|].
  rewrite Ht. cbn. rewrite IH. cbn. eauto.
Qed.

Lemma redact_patterns_returns `{RegexReplaceLaws} table text :
  Forall (fun e => e.2 = ReplaceKey -> e.1 = KEY_PATTERN) table ->
  exists t, redact_patterns table text = Returns t.
Proof.
  intros Ht. revert text. induction Ht as [|[p r] table Hk _ IH]; intros text; cbn; [eauto|].
  destruct (regex_segments p text) as [[segs tail]|] eqn:Es; cbn; [|apply IH].
  destruct (replace_segments_returns r segs tail) as [t ->]; [|apply IH].
  destruct r; cbn.
  - cbn in Hk. rewrite (Hk eq_refl) in Es. apply key_match_ascii in Es.
    eapply Forall_impl; [exact Es|]. intros g. apply redact_secret_key_returns.
  - apply Forall_true. eauto.
  - apply Forall_true. eauto.
Qed.

Lemma capture_text_returns `{RegexReplaceLaws} s max : exists t, capture_text s max = Returns t.
Proof. apply (redact_patterns_returns PATTERN_TABLE). repeat constructor; cbn; congruence. Qed.

(** Capturing a payload preview never panics; a body that is
    not UTF-8 is recorded by its length only. *)
Theorem capture_returns `{RegexReplaceLaws} s max :
  exists t, capture_bytes s max = Returns t /\
    (utf8_valid s = false -> t = "<non-utf8 " +:+ fmt_nat (String.length s) +:+ " bytes>").
Proof.
  unfold capture_bytes. destruct (utf8_valid s); [|eauto].
  destruct (capture_text_returns s max) as [t Ht]. exists t. by split.
Qed.

(** A regex crate that finds nothing. *)
Definition no_matches : RegexReplace := {| regex_segments := fun _ s => Some ([], s) |}.

Lemma no_matches_laws : RegexReplaceLaws no_matches.
Proof.
  split; cbn; intros; simplify_eq; [done | constructor].
Qed.

Lemma capture_returns_witness :
  exists t, capture_bytes (R := no_matches) (String (chr 0xFF) "x") 10 = Returns t /\
    t = "<non-utf8 2 bytes>".
Proof.
  destruct (capture_returns (R := no_matches) (H := no_matches_laws) (String (chr 0xFF) "x") 10)
    as (t & H1 & H2).
  exists t. split; [exact H1 | apply H2; vm_compute; reflexivity].
Defined.

(** A text is flagged exactly when one of the phrases occurs in
    its lower-case form, at any position, and the report names exactly the rules
    that have such a phrase, never the text. *)
Theorem defense_scan_spec lc text :
  let hit rule := exists kw l r, kw ∈ rule.2 /\ lc text = l +:+ kw +:+ r in
  (flagged (scan_content lc text) = true <-> exists rule, rule ∈ DEFENSE_RULES /\ hit rule) /\
  (forall n, n ∈ matched_rules (scan_content lc text) <->
     exists rule, rule ∈ DEFENSE_RULES /\ rule.1 = n /\ hit rule).
Proof.
  intros hit.
  assert (forall rule, rule_hits (lc text) rule = true <-> hit rule) as Hh.
  { intros rule. unfold rule_hits, hit. rewrite existsb_exists. split.
    - intros (kw & Hin & (l & r & Hr)%contains_spec). exists kw, l, r. by rewrite list_elem_of_In.
    - intros (kw & l & r & Hin & Hr). exists kw. rewrite <- list_elem_of_In. split; [done|].
      apply contains_spec. eauto. }
  assert (forall n, n ∈ matched_rules (scan_content lc text) <->
     exists rule, rule ∈ DEFENSE_RULES /\ rule.1 = n /\ hit rule) as Hm.
  { intros n. cbn [scan_content matched_rules]. rewrite list_elem_of_fmap.
    setoid_rewrite filter_elem. setoid_rewrite Hh. naive_solver. }
  split; [|exact Hm]. cbn [scan_content flagged]. rewrite negb_true_iff, bool_decide_eq_false.
  split.
  - intros Hne. cbn [scan_content matched_rules] in Hm.
    destruct (fst <$> List.filter (rule_hits (lc text)) DEFENSE_RULES) as [|n l]; [done|].
    destruct (proj1 (Hm n) (list_elem_of_here n l)) as (rule & H1 & _ & H2). eauto.
  - intros (rule & H1 & H2) Hnil.
    assert (rule.1 ∈ matched_rules (scan_content lc text)) as Hin by (apply Hm; eauto).
    cbn [scan_content matched_rules] in Hin. rewrite Hnil in Hin. by apply elem_of_nil in Hin.
Qed.
