(* ===== verification/SchemaView.v ===== *)
(** * Schemas shown to agents ([src/src/schema_view.rs])

    The capped description, the compact signature and the projected schema of
    [asl__search] and [asl__describe].  A Rust [char] is the string of its UTF-8
    bytes; the upper-case property of Unicode is the class [UnicodeTables]. *)

From S2P Require Import Prelude RustStr Config Render.
From Stdlib Require Import Ascii.

Local Open Scope string_scope.
Local Open Scope list_scope.
Local Open Scope Z_scope.
Local Open Scope gateway_scope.

Class UnicodeTables := { unicode_uppercase : Z -> bool }.

Definition as_array (v : JSON) : option (list JSON) :=
  match v with JArray l => Some l | _ => None end.

(** ** Characters of a UTF-8 string *)

Definition is_continuation (c : ascii) : bool := in_range 0x80 0xBF (code c).

Definition starts_continuation (s : string) : bool :=
  match s with "" => false | String c _ => is_continuation c end.

(** [str::chars]: every byte that is not a continuation byte begins a character. *)
Fixpoint chars (s : string) : list string :=
  match s with
  | "" => []
  | String a r =>
      match chars r with
      | c :: cs => if starts_continuation r then String a c :: cs else String a "" :: c :: cs
      | [] => [String a ""]
      end
  end.

Definition concat_chars (cs : list string) : string := fold_right String.append "" cs.

(** [char as u32]. *)
Definition code_point (c : string) : Z :=
  match code <$> String.list_ascii_of_string c with
  | [a] => a
  | [a; b] => (a - 0xC0) * 64 + (b - 0x80)
  | [a; b; d] => (a - 0xE0) * 4096 + (b - 0x80) * 64 + (d - 0x80)
  | [a; b; d; e] =>
      (a - 0xF0) * 262144 + (b - 0x80) * 4096 + (d - 0x80) * 64 + (e - 0x80)
  | _ => 0
  end.

Definition is_whitespace (c : string) : bool :=
  let z := code_point c in
  in_range 9 13 z || (z =? 32) || (z =? 0x85) || (z =? 0xA0) || (z =? 0x1680)
  || in_range 0x2000 0x200A z || (z =? 0x2028) || (z =? 0x2029) || (z =? 0x202F)
  || (z =? 0x205F) || (z =? 0x3000).

Definition is_cjk (c : string) : bool :=
  let z := code_point c in
  in_range 0x4E00 0x9FFF z || in_range 0x3400 0x4DBF z || in_range 0x3000 0x303F z.

Definition TEXT_CAP : nat := 200.

Definition LF : string := String (chr 10) "".
Definition CR : string := String (chr 13) "".
Definition double_quote : string := String (chr 34) "".
Definition is_line_end (c : string) : bool := (c =s LF) || (c =s CR).

Section Caps.
Context {UT : UnicodeTables}.

Definition is_uppercase (c : string) : bool := unicode_uppercase (code_point c).

(** After the first white space: what the next visible character is. *)
Fixpoint sentence_end_after (cs : list string) : bool :=
  match cs with
  | [] => true
  | c :: cs =>
      if is_line_end c then true
      else if is_whitespace c then sentence_end_after cs
      else is_uppercase c || is_cjk c || (c ∈s [double_quote; "'"; "“"; "‘"; "("; "["])
  end.

Definition ascii_sentence_end (rest : list string) : bool :=
  match rest with
  | [] => true
  | first :: cs =>
      if negb (is_whitespace first) then false
      else if is_line_end first then true
      else sentence_end_after cs
  end.

(** [acc] is the text up to the current character. *)
Fixpoint first_sentence_from (acc : string) (cs : list string) : string :=
  match cs with
  | [] => acc
  | c :: cs =>
      if is_line_end c then trim_end acc
      else if c ∈s ["。"; "！"; "？"] then acc +:+ c
      else if (c ∈s ["."; "!"; "?"]) && ascii_sentence_end cs then acc +:+ c
      else first_sentence_from (acc +:+ c) cs
  end.

Definition first_sentence (text : string) : string := first_sentence_from "" (chars text).

Definition cap_text (text : string) : string :=
  let text := trim text in
  if is_empty text then ""
  else
    let sentence := first_sentence text in
    if (length (chars sentence) <=? TEXT_CAP)%nat then sentence
    else concat_chars (take (TEXT_CAP - 1) (chars sentence)) +:+ "…".
End Caps.

(** ** The compact signature *)

Definition required_names (schema : JSON) : list string :=
  match (r ← json_get "required" schema; as_array r) with
  | Some l => omap as_str l
  | None => []
  end.

Definition is_ascii_alphabetic (c : ascii) : bool := is_ascii_upper c || is_ascii_lower c.

Definition is_ident (n : string) : bool :=
  match n with
  | "" => false
  | String c r =>
      (Ascii.eqb c "_" || is_ascii_alphabetic c)
      && str_forallb (fun c => Ascii.eqb c "_" || is_ascii_alphanumeric c) r
  end.

(** [s.rsplit(['/', '#'])] from the left: the parts between the separators. *)
Fixpoint split_ref (s : string) : list string :=
  match s with
  | "" => [""]
  | String c r =>
      if Ascii.eqb c "/" || Ascii.eqb c "#" then "" :: split_ref r
      else match split_ref r with
           | [] => [String c ""]
           | w :: ws => String c w :: ws
           end
  end.

Definition ref_label (reference : string) : string :=
  default reference (List.find (fun p => negb (is_empty p)) (rev (split_ref reference))).

(** [for item in items { if !parts.contains(&item) { parts.push(item) } }]. *)
Definition push_unique (items : list string) : list string :=
  fold_left (fun parts item => if item ∈s parts then parts else parts ++ [item]) items [].

Definition join_unique (items : list string) : string :=
  match push_unique items with [] => "value" | parts => join " | " parts end.

Definition has_space_or_bar (s : string) : bool := contains " " s || contains "|" s.

Section Signature.
Context {SE : Serializers}.

Definition display_name (n : string) : string :=
  if is_ident n then n else value_to_string (JString n).

Definition json_literal (v : JSON) : string := value_to_string v.

Definition small_enum (e : option JSON) : option string :=
  v ← e; values ← as_array v;
  if (length values =? 0)%nat || (6 <? length values)%nat then None
  else if negb (forallb is_scalar values) then None
  else let rendered := join " | " (json_literal <$> values) in
       if (length (chars rendered) <=? 80)%nat then Some rendered else None.

(** [type_stub] returns ["value"] below depth 8; [levels] is 9 minus the depth. *)
Fixpoint type_stub (levels : nat) (schema : JSON) : string :=
  match levels, schema with
  | O, _ => "value"
  | S levels, JObject fields =>
      let array_stub (items : option JSON) :=
        match items with
        | None => "array"
        | Some items =>
            let inner := type_stub levels items in
            if has_space_or_bar inner then "(" +:+ inner +:+ ")[]" else inner +:+ "[]"
        end in
      let typed (ty : string) := if ty =s "array" then array_stub (obj_get "items" fields) else ty in
      let union_stub :=
        u ← match obj_get "oneOf" fields with Some v => Some v | None => obj_get "anyOf" fields end;
        branches ← as_array u;
        if (length branches =? 0)%nat then None
        else Some (join " | " (push_unique (type_stub levels <$> branches))) in
      match small_enum (obj_get "enum" fields) with
      | Some text => text
      | None =>
          match obj_get "const" fields with
          | Some v => json_literal v
          | None =>
              match union_stub with
              | Some text => text
              | None =>
                  match (r ← obj_get "$ref" fields; as_str r) with
                  | Some reference => ref_label reference
                  | None =>
                      match obj_get "type" fields with
                      | Some (JString ty) => typed ty
                      | Some (JArray types) => join_unique (omap as_str types)
                      | _ => if bool_decide (is_Some (obj_get "properties" fields))
                             then "object" else "value"
                      end
                  end
              end
          end
      end
  | S _, _ => "value"
  end.

Definition compact_signature (schema : JSON) : string :=
  match (p ← json_get "properties" schema; as_object p) with
  | None => ""
  | Some properties =>
      let required := required_names schema in
      join ", " ((fun f => display_name f.1 +:+ (if f.1 ∈s required then "" else "?")
                           +:+ ": " +:+ type_stub 9 f.2) <$> properties)
  end.
End Signature.

(** ** The projected schema *)

Section Projection.
Context {UT : UnicodeTables}.

Definition strip_entry (key : string) (value : JSON) (name : option string) : bool :=
  if key ∈s ["$schema"; "$id"; "example"; "examples"] then true
  else if key =s "title" then
    match name, as_str value with Some field, Some t => t =s field | _, _ => false end
  else if key =s "description" then
    match as_str value with Some text => is_empty (trim text) | None => false end
  else if key =s "additionalProperties" then
    match as_bool value with Some b => b | None => false end
  else false.

Definition named_keys : list string :=
  ["properties"; "patternProperties"; "$defs"; "definitions"; "dependentSchemas"].
Definition node_keys : list string :=
  ["additionalProperties"; "unevaluatedItems"; "unevaluatedProperties"; "contains";
   "propertyNames"; "not"; "if"; "then"; "else"].
Definition list_keys : list string := ["oneOf"; "anyOf"; "allOf"; "prefixItems"].

Section Entry.
Variable project_node : option string -> JSON -> JSON.

Definition project_named (value : JSON) : JSON :=
  match value with
  | JObject m => JObject (map (fun f => (f.1, project_node (Some f.1) f.2)) m)
  | _ => value
  end.

Definition project_schema_list (value : JSON) : JSON :=
  match value with
  | JArray items => JArray (map (project_node None) items)
  | _ => value
  end.

Definition project_items (value : JSON) : JSON :=
  match value with
  | JArray items => project_schema_list (JArray items)
  | other => project_node None other
  end.

(** The value of an entry that is not stripped. *)
Definition project_value (key : string) (value : JSON) : JSON :=
  if key ∈s named_keys then project_named value
  else if key =s "items" then project_items value
  else if key ∈s node_keys then project_node None value
  else if key ∈s list_keys then project_schema_list value
  else if key =s "description" then
    match as_str value with Some text => JString (cap_text text) | None => value end
  else value.

Fixpoint project_entries (name : option string) (m : list (string * JSON))
    : list (string * JSON) :=
  match m with
  | [] => []
  | (key, value) :: m =>
      if strip_entry key value name then project_entries name m
      else (key, project_value key value) :: project_entries name m
  end.
End Entry.

Fixpoint project_node (name : option string) (value : JSON) {struct value} : JSON :=
  match value with
  | JObject m => JObject (project_entries project_node name m)
  | _ => value
  end.

Definition project_schema (schema : JSON) : JSON := project_node None schema.
End Projection.

(** ** The projection keeps the meaning of a schema

    An interpretation of JSON Schema is an algebra: the value of a schema object is
    computed from its keywords, where a keyword that holds subschemas is seen through
    their values and any other keyword as it is written.  Descriptions, titles,
    examples, [$schema] and [$id], and [additionalProperties: true] (the default)
    carry no constraint and are not passed on. *)

Inductive Keyword (D : Type) :=
| KVerbatim (v : JSON)
| KSchema (d : D)
| KNamed (l : list (string * D))
| KList (l : list D).
Arguments KVerbatim {D} v.
Arguments KSchema {D} d.
Arguments KNamed {D} l.
Arguments KList {D} l.

Class SchemaAlgebra (D : Type) := {
  schema_leaf : JSON -> D;
  schema_node : list (string * Keyword D) -> D;
}.

(** What [strip_entry] takes as carrying no meaning. *)
Definition is_annotation (key : string) (value : JSON) : bool :=
  (key ∈s ["$schema"; "$id"; "example"; "examples"; "title"; "description"])
  || ((key =s "additionalProperties") && bool_decide (as_bool value = Some true)).

Section Meaning.
Context {D : Type} {SA : SchemaAlgebra D}.

Section Keyword.
Variable meaning : JSON -> D.

Definition keyword (key : string) (value : JSON) : Keyword D :=
  if key ∈s named_keys then
    match value with
    | JObject m => KNamed (map (fun f => (f.1, meaning f.2)) m)
    | _ => KVerbatim value
    end
  else if key =s "items" then
    match value with JArray l => KList (map meaning l) | _ => KSchema (meaning value) end
  else if key ∈s node_keys then KSchema (meaning value)
  else if key ∈s list_keys then
    match value with JArray l => KList (map meaning l) | _ => KVerbatim value end
  else KVerbatim value.

Fixpoint keywords (m : list (string * JSON)) : list (string * Keyword D) :=
  match m with
  | [] => []
  | (key, value) :: m =>
      if is_annotation key value then keywords m else (key, keyword key value) :: keywords m
  end.
End Keyword.

Fixpoint meaning (value : JSON) : D :=
  match value with
  | JObject m => schema_node (keywords meaning m)
  | _ => schema_leaf value
  end.
End Meaning.

(** Induction over nested values. *)
Section JSON_induction.
Variable P : JSON -> Prop.
Hypothesis Hnull : P JNull.
Hypothesis Hbool : forall b, P (JBool b).
Hypothesis Hnumber : forall t, P (JNumber t).
Hypothesis Hstring : forall s, P (JString s).
Hypothesis Harray : forall l, Forall P l -> P (JArray l).
Hypothesis Hobject : forall m, Forall (fun f => P f.2) m -> P (JObject m).

Fixpoint JSON_nested_ind (v : JSON) : P v :=
  match v with
  | JNull => Hnull
  | JBool b => Hbool b
  | JNumber t => Hnumber t
  | JString s => Hstring s
  | JArray l => Harray l ((fix go l := match l return Forall P l with
                           | [] => List.Forall_nil _
                           | x :: l => List.Forall_cons _ _ _ (JSON_nested_ind x) (go l)
                           end) l)
  | JObject m => Hobject m ((fix go m := match m return Forall (fun f => P f.2) m with
                             | [] => List.Forall_nil _
                             | f :: m => List.Forall_cons _ _ _ (JSON_nested_ind f.2) (go m)
                             end) m)
  end.
End JSON_induction.

(** Every part of a value, up to depth two, satisfies [P]: what an entry of a schema
    object needs of its subschemas. *)
Definition parts (P : JSON -> Prop) (v : JSON) : Prop :=
  P v /\ match v with
         | JArray l => Forall P l
         | JObject m => Forall (fun f => P f.2) m
         | _ => True
         end.

Lemma JSON_parts_ind (P : JSON -> Prop) :
  (forall v, match v with JArray _ | JObject _ => True | _ => P v end) ->
  (forall l, Forall (parts P) l -> P (JArray l)) ->
  (forall m, Forall (fun f => parts P f.2) m -> P (JObject m)) ->
  forall v, parts P v.
Proof.
  intros Hs Ha Ho. apply JSON_nested_ind.
  - split; [apply (Hs JNull) | done].
  - intros b. split; [apply (Hs (JBool b)) | done].
  - intros t. split; [apply (Hs (JNumber t)) | done].
  - intros s. split; [apply (Hs (JString s)) | done].
  - intros l Hl. split; [by apply Ha|]. eapply Forall_impl; [exact Hl|]. by intros x [].
  - intros m Hm. split; [by apply Ho|]. eapply Forall_impl; [exact Hm|]. by intros x [].
Qed.

Lemma map_fst_snd_ext {A B} (f g : string -> A -> B) (m : list (string * A)) :
  Forall (fun x => f x.1 x.2 = g x.1 x.2) m ->
  map (fun x => (x.1, f x.1 x.2)) m = map (fun x => (x.1, g x.1 x.2)) m.
Proof. induction 1 as [|x m Hx _ IH]; cbn; [done|]. by rewrite Hx, IH. Qed.

Lemma map_ext_Forall {A B} (f g : A -> B) l : Forall (fun x => f x = g x) l -> map f l = map g l.
Proof. induction 1 as [|x l Hx _ IH]; cbn; [done|]. by rewrite Hx, IH. Qed.

Section Preserved.
Context {UT : UnicodeTables} {D : Type} {SA : SchemaAlgebra D}.

Definition kept (v : JSON) : Prop := forall name, meaning (project_node name v) = meaning v.

(** An entry that is stripped is an annotation, and projecting an entry neither makes
    nor removes one. *)
Lemma strip_is_annotation key value name :
  strip_entry key value name = true -> is_annotation key value = true.
Proof.
  unfold strip_entry, is_annotation. cbn [existsb].
  destruct (key =s "$schema"), (key =s "$id"), (key =s "example"), (key =s "examples"); cbn;
    try done.
  destruct (key =s "title"); cbn; [done|]. destruct (key =s "description"); cbn; [done|].
  destruct (key =s "additionalProperties"); cbn; [|done].
  destruct (as_bool value) as [[]|]; [|done..]. intros _. by case_bool_decide.
Qed.

Lemma project_node_bool name v : as_bool (project_node name v) = as_bool v.
Proof. by destruct v. Qed.

Lemma annotation_projected key value :
  is_annotation key (project_value project_node key value) = is_annotation key value.
Proof.
  unfold is_annotation. destruct (key ∈s _) eqn:E; [done|]. cbn [orb].
  destruct (String.eqb_spec key "additionalProperties") as [->|]; [|done].
  cbn. by rewrite project_node_bool.
Qed.

Lemma keyword_projected key value :
  is_annotation key value = false -> parts kept value ->
  keyword meaning key (project_value project_node key value) = keyword meaning key value.
Proof.
  intros Hann [Hv Hp]. unfold keyword, project_value.
  destruct (key ∈s named_keys).
  { destruct value as [| | | | |m]; try done. cbn. f_equal. rewrite map_map.
    apply (map_fst_snd_ext (fun k v => meaning (project_node (Some k) v)) (fun _ => meaning)).
    eapply Forall_impl; [exact Hp|]. intros f Hf. apply Hf. }
  destruct (key =s "items").
  { destruct value as [| | | |l|m]; cbn; try done.
    - f_equal. rewrite map_map. apply map_ext_Forall. eapply Forall_impl; [exact Hp|].
      intros x Hx. apply Hx.
    - f_equal. apply (Hv None). }
  destruct (key ∈s node_keys); [f_equal; apply (Hv None)|].
  destruct (key ∈s list_keys).
  { destruct value as [| | | |l|m]; cbn; try done. f_equal. rewrite map_map.
    apply map_ext_Forall. eapply Forall_impl; [exact Hp|]. intros x Hx. apply Hx. }
  destruct (String.eqb_spec key "description") as [->|]; [done|done].
Qed.

Lemma keywords_projected name m :
  Forall (fun f => parts kept f.2) m ->
  keywords meaning (project_entries project_node name m) = keywords meaning m.
Proof.
  induction 1 as [|[key value] m Hf _ IH]; cbn; [done|].
  destruct (strip_entry key value name) eqn:Es.
  - by rewrite (strip_is_annotation _ _ _ Es).
  - cbn. rewrite annotation_projected, IH. destruct (is_annotation key value) eqn:Ea; [done|].
    by rewrite keyword_projected.
Qed.

Lemma project_kept v : parts kept v.
Proof.
  apply JSON_parts_ind.
  - by intros [].
  - intros l _ name. done.
  - intros m Hm name. cbn. by rewrite keywords_projected.
Qed.
End Preserved.


(** ** Bounds of the shown text *)

Lemma chars_nil s : chars s = [] -> s = "".
Proof.
  destruct s as [|a r]; cbn; [done|]. destruct (chars r); [done|].
  by destruct (starts_continuation r).
Qed.

Lemma chars_head s c cs :
  chars s = c :: cs -> c <> "" /\ starts_continuation c = starts_continuation s.
Proof.
  destruct s as [|a r]; cbn; [done|].
  destruct (chars r) as [|d ds]; [by intros [= <- <-]|].
  destruct (starts_continuation r); by intros [= <- <-].
Qed.

Lemma chars_app s t :
  starts_continuation t = false -> chars (s +:+ t) = chars s ++ chars t.
Proof.
  intros Ht. induction s as [|a r IH]; cbn [String.append chars app]; [done|].
  rewrite IH. destruct r as [|b r']; cbn [String.append].
  - cbn [chars app]. rewrite Ht. by destruct (chars t).
  - destruct (chars (String b r')) as [|c cs] eqn:Er; [by apply chars_nil in Er|].
    cbn [app]. change (starts_continuation (String b (r' +:+ t)))
      with (starts_continuation (String b r')).
    by destruct (starts_continuation (String b r')).
Qed.

Lemma chars_take n s : chars (concat_chars (take n (chars s))) = take n (chars s).
Proof.
  revert n. induction s as [|a r IH]; intros n; [by destruct n|]. cbn [chars].
  destruct (chars r) as [|c cs] eqn:Er; [by destruct n as [|[]]|].
  destruct (chars_head r c cs Er) as [Hc Hs].
  destruct (starts_continuation r) eqn:Es; destruct n as [|n]; try done; cbn [take concat_chars fold_right].
  - specialize (IH (S n)). cbn [take concat_chars fold_right] in IH.
    cbn [String.append chars].
    change (fold_right String.append "" (take n cs)) with (concat_chars (take n cs)) in *.
    rewrite IH. destruct c as [|b c]; [done|]. cbn [String.append starts_continuation].
    by rewrite (Hs : is_continuation b = true).
  - specialize (IH n). cbn [String.append chars].
    change (fold_right String.append "" (take n (c :: cs))) with (concat_chars (take n (c :: cs))) in *.
    rewrite IH. destruct n as [|n]; [done|]. cbn [take concat_chars fold_right].
    destruct c as [|b c]; [done|]. cbn [String.append starts_continuation].
    by rewrite (Hs : is_continuation b = false).
Qed.

(** What an agent sees of a description is at most two hundred characters, and nothing
    for a blank description. *)
Theorem cap_text_bounded {UT : UnicodeTables} text :
  (length (chars (cap_text text)) <= TEXT_CAP)%nat /\
  (is_empty (trim text) = true -> cap_text text = "").
Proof.
  unfold cap_text. split; [|by intros ->].
  destruct (is_empty (trim text)); [cbn; lia|].
  destruct (length (chars (first_sentence (trim text))) <=? TEXT_CAP)%nat eqn:E.
  { by apply Nat.leb_le in E. }
  rewrite chars_app by done. rewrite chars_take, length_app, length_take.
  change (length (chars "…")) with 1%nat. unfold TEXT_CAP in *. lia.
Qed.

(** ** Witnesses *)

Definition ascii_tables : UnicodeTables := {| unicode_uppercase := in_range 65 90 |}.

Example cap_first_sentence :
  cap_text (UT := ascii_tables) " Search the web, e.g. for news. Use sparingly." =
    "Search the web, e.g. for news.".
Proof. vm_compute. reflexivity. Qed.

Example project_drops_boilerplate :
  project_schema (UT := ascii_tables)
    (JObject [("$schema", JString "https://json-schema.org"); ("type", JString "object");
              ("properties", JObject [("title", JObject [("title", JString "title");
                                                         ("type", JString "string")])]);
              ("additionalProperties", JBool true)]) =
    JObject [("type", JString "object");
             ("properties", JObject [("title", JObject [("type", JString "string")])])].
Proof. vm_compute. reflexivity. Qed.

Example signature_of_tool :
  compact_signature (SE := demo_serializers)
    (JObject [("properties", JObject [("limit", JObject [("type", JString "integer")]);
                                      ("q", JObject [("type", JString "string")])]);
              ("required", JArray [JString "q"])]) = "limit?: integer, q: string".
Proof. vm_compute. reflexivity. Qed.
