(* ===== verification/Semantic.v ===== *)
(** * Semantic search ([src/src/semantic.rs])

    The cache of tool embeddings and the ranking of the visible tools.  [f32] is
    the IEEE binary32 format of [SpecFloat]; the sign of a computed NaN, which
    Rust leaves open and [total_cmp] observes, the hasher of the standard library
    and the embeddings endpoint are parameters.  The cache is shared: what other
    searches insert between the three locked sections is an argument of [rank]. *)

From S2P Require Import Prelude RustStr Config Secrets SchemaView.
From Stdlib Require Import Ascii SpecFloat.

Local Open Scope string_scope.
Local Open Scope list_scope.
Local Open Scope Z_scope.
Local Open Scope gateway_scope.

(** ** [f32] *)

Definition f32 : Type := spec_float.
Definition f32_zero : f32 := S754_zero false.
Definition f32_add : f32 -> f32 -> f32 := SFadd 24 128.
Definition f32_mul : f32 -> f32 -> f32 := SFmul 24 128.
Definition f32_div : f32 -> f32 -> f32 := SFdiv 24 128.
Definition f32_sqrt : f32 -> f32 := SFsqrt 24 128.

Class NaNSign := { nan_negative : bool }.

(** The exponent and mantissa bits of a number. *)
Definition magnitude_bits (x : f32) : Z :=
  match x with
  | S754_zero _ => 0
  | S754_infinity _ => 0x7F800000
  | S754_nan => 0x7FC00000
  | S754_finite _ m e =>
      if Zpos m <? 2 ^ 23 then Zpos m else (e + 150) * 2 ^ 23 + (Zpos m - 2 ^ 23)
  end.

Definition sign_bit `{NaNSign} (x : f32) : bool :=
  match x with
  | S754_zero s | S754_infinity s | S754_finite s _ _ => s
  | S754_nan => nan_negative
  end.

(** [f32::total_cmp] compares these integers. *)
Definition total_key `{NaNSign} (x : f32) : Z :=
  if sign_bit x then - magnitude_bits x - 1 else magnitude_bits x.

Fixpoint cosine_sums (a b : list f32) (acc : f32 * f32 * f32) : f32 * f32 * f32 :=
  match a, b with
  | x :: a, y :: b =>
      let '(dot, norm_a, norm_b) := acc in
      cosine_sums a b (f32_add dot (f32_mul x y), f32_add norm_a (f32_mul x x),
                       f32_add norm_b (f32_mul y y))
  | _, _ => acc
  end.

Definition cosine (a b : list f32) : f32 :=
  if negb (length a =? length b)%nat then f32_zero
  else
    let '(dot, norm_a, norm_b) := cosine_sums a b (f32_zero, f32_zero, f32_zero) in
    if SFeqb norm_a f32_zero || SFeqb norm_b f32_zero then f32_zero
    else f32_div dot (f32_mul (f32_sqrt norm_a) (f32_sqrt norm_b)).

(** ** The index *)

Definition EMBED_BATCH : nat := 128.
Definition MAX_EMBED_CHARS : nat := 2000.

Inductive SemanticError := Request (s : string) | Malformed (s : string).

Record CachedEmbedding := mkCachedEmbedding { text_hash_of : Z; vector : list f32 }.
Notation Cache := (gmap string CachedEmbedding).

Record SemanticSearchConfig := mkSemanticSearchConfig {
  ss_base_url : string;
  ss_model : string;
  ss_api_key_ref : option string;
  ss_timeout_secs : Z;
}.

Record SemanticIndex := mkSemanticIndex {
  si_base_url : string;
  si_model : string;
  si_api_key : option string;
  si_timeout : Z;
}.

Record EmbeddingData := mkEmbeddingData { index : Z; embedding : list f32 }.

(** [fetch n] is the endpoint's answer to the [n]-th request of a ranking: the
    transport error, or the status and the decoded body. *)
Record EmbeddingRequest := mkEmbeddingRequest {
  er_url : string;
  er_timeout : Z;
  er_bearer : option string;
  er_model : string;
  er_input : list string;
}.

Class Embeddings := {
  fetch : nat -> EmbeddingRequest ->
    result string (Z * result string (list EmbeddingData));
  status_display : Z -> string;
  default_hash : string -> Z;
}.

Definition index_from_config (config : option SemanticSearchConfig)
    (secrets : SecretRef -> result SecretError string)
    : result SecretError (option SemanticIndex) :=
  match config with
  | None => Ok None
  | Some c =>
      key ← match ss_api_key_ref c with
            | Some key_ref => r ← parse_ref key_ref; k ← secrets r; Ok (Some k)
            | None => Ok None
            end;
      Ok (Some (mkSemanticIndex (trim_end_matches "/"%char (ss_base_url c)) (ss_model c) key
                  (from_secs (ss_timeout_secs c))))
  end.

Definition embed_text (wire_name description : string) : string :=
  let text := wire_name +:+ ": " +:+ description in
  if (length (chars text) <=? MAX_EMBED_CHARS)%nat then text
  else concat_chars (take MAX_EMBED_CHARS (chars text)).

Section Index.
Context {EM : Embeddings} {NS : NaNSign}.

Definition text_hash (text : string) : Z := default_hash text.

Definition index_leb (a b : EmbeddingData) : bool := index a <=? index b.

Definition embed_request (s : SemanticIndex) (chunk : list string) : EmbeddingRequest :=
  mkEmbeddingRequest (si_base_url s +:+ "/embeddings") (si_timeout s) (si_api_key s)
    (si_model s) chunk.

Definition is_success (status : Z) : bool := in_range 200 299 status.

(** One pass of the loop over the chunks. *)
Definition embed_chunk (s : SemanticIndex) (n : nat) (chunk : list string)
    : result SemanticError (list (list f32)) :=
  response ← map_err Request (fetch n (embed_request s chunk));
  if negb (is_success response.1)
  then Err (Request ("embeddings endpoint returned " +:+ status_display response.1))
  else
    data ← map_err Malformed response.2;
    if negb (length data =? length chunk)%nat
    then Err (Malformed ("expected " +:+ fmt_nat (length chunk) +:+ " embeddings, got "
                           +:+ fmt_nat (length data)))
    else Ok (embedding <$> sort_by index_leb data).

(** [slice::chunks]; the fuel is the length of the list. *)
Fixpoint chunks_fuel {A} (fuel size : nat) (l : list A) : list (list A) :=
  match fuel, l with
  | S fuel, _ :: _ => take size l :: chunks_fuel fuel size (drop size l)
  | _, _ => []
  end.
Definition chunks_of {A} (size : nat) (l : list A) : list (list A) :=
  chunks_fuel (length l) size l.

(** The requests that were sent and the vectors; a chunk that fails is the last. *)
Fixpoint embed_chunks (s : SemanticIndex) (n : nat) (cs : list (list string))
    : list EmbeddingRequest * result SemanticError (list (list f32)) :=
  match cs with
  | [] => ([], Ok [])
  | c :: cs =>
      match embed_chunk s n c with
      | Err e => ([embed_request s c], Err e)
      | Ok v =>
          let '(sent, vs) := embed_chunks s (S n) cs in
          (embed_request s c :: sent, vs ← vs; Ok (v ++ vs))
      end
  end.

Definition embed (s : SemanticIndex) (n : nat) (inputs : list string)
    : list EmbeddingRequest * result SemanticError (list (list f32)) :=
  embed_chunks s n (chunks_of EMBED_BATCH inputs).

Definition is_missing (cache : Cache) (candidate : string * string) : bool :=
  match cache !! candidate.1 with
  | Some cached => negb (text_hash_of cached =? text_hash (embed_text candidate.1 candidate.2))
  | None => true
  end.

Definition missing_of (cache : Cache) (candidates : list (string * string))
    : list (string * Z * string) :=
  (fun c => let text := embed_text c.1 c.2 in (c.1, text_hash text, text))
    <$> List.filter (is_missing cache) candidates.

Definition insert_vectors (missing : list (string * Z * string)) (vectors : list (list f32))
    (cache : Cache) : Cache :=
  fold_left (fun cache mv => <[mv.1.1.1 := mkCachedEmbedding mv.1.1.2 mv.2]> cache)
    (zip missing vectors) cache.

Definition scored_leb (a b : f32 * string) : bool :=
  (total_key b.1 <? total_key a.1)
  || ((total_key b.1 =? total_key a.1) && String.leb a.2 b.2).

Definition scored_of (cache : Cache) (query_vector : list f32)
    (candidates : list (string * string)) : list (f32 * string) :=
  omap (fun c => cached ← cache !! c.1; Some (cosine query_vector (vector cached), c.1))
    candidates.

(** [before] and [after] are what other searches do to the cache before this
    one's write lock and before its second read lock.  The answer names the requests
    that were sent. *)
Definition rank (s : SemanticIndex) (query : string) (candidates : list (string * string))
    (limit : option nat) (before after : Cache -> Cache) (cache : Cache)
    : Cache * list EmbeddingRequest * result SemanticError (list string) :=
  let missing := missing_of cache candidates in
  let '(sent, filled) :=
    match missing with
    | [] => ([], Ok (before cache))
    | _ =>
        let '(sent, vectors) := embed s 0 ((fun m => m.2) <$> missing) in
        (sent, vectors ← vectors; Ok (insert_vectors missing vectors (before cache)))
    end in
  match filled with
  | Err e => (before cache, sent, Err e)
  | Ok cache =>
      let cache := after cache in
      let '(asked, vs) := embed s (length sent) [query] in
      (cache, sent ++ asked,
       vs ← vs;
       query_vector ← ok_or (Malformed "empty query embedding") (last vs);
       let scored := sort_by scored_leb (scored_of cache query_vector candidates) in
       Ok (snd <$> match limit with Some n => take n scored | None => scored end))
  end.
End Index.

(** ** Lemmas: the vectors follow the inputs *)

Section Rank.
Context {EM : Embeddings} {NS : NaNSign}.

Lemma embed_chunk_length s n c vs : embed_chunk s n c = Ok vs -> length vs = length c.
Proof.
  unfold embed_chunk. intros H. inv_ok. case_if_in H; [done|]. inv_ok.
  case_if_in H; [done|]. inv_ok. rewrite length_fmap, sort_by_length.
  match goal with E : negb _ = false |- _ => apply negb_false_iff, Nat.eqb_eq in E; exact E end.
Qed.

Lemma embed_chunks_length s cs n vs :
  (embed_chunks s n cs).2 = Ok vs -> length vs = length (mjoin cs).
Proof.
  revert n vs. induction cs as [|c cs IH]; intros n vs H; cbn in H; [by inv_ok|].
  destruct (embed_chunk s n c) as [v|e] eqn:Ev; [|done].
  specialize (IH (S n)). destruct (embed_chunks s (S n) cs) as [sent r]. cbn in H, IH. inv_ok.
  cbn. rewrite !length_app. erewrite embed_chunk_length, IH by done. done.
Qed.

(** What is sent goes to the endpoint of the index, chunk by chunk. *)
Lemma embed_chunks_sent s cs n q :
  q ∈ (embed_chunks s n cs).1 -> exists c, c ∈ cs /\ q = embed_request s c.
Proof.
  revert n. induction cs as [|c cs IH]; intros n H; cbn in H; [by apply elem_of_nil in H|].
  destruct (embed_chunk s n c) as [v|e].
  - specialize (IH (S n)). destruct (embed_chunks s (S n) cs) as [sent r]. cbn in H, IH.
    apply elem_of_cons in H as [->|H]; [by exists c; split; [constructor|]|].
    destruct (IH H) as (d & Hd & ->). exists d. split; [by constructor|done].
  - apply list_elem_of_singleton in H as ->. exists c. split; [constructor|done].
Qed.

Lemma chunks_fuel_elem {A} size fuel (l : list A) c x :
  c ∈ chunks_fuel fuel size l -> x ∈ c -> x ∈ l.
Proof.
  revert l. induction fuel as [|fuel IH]; intros l Hc Hx; [by apply elem_of_nil in Hc|].
  destruct l as [|y l]; [by apply elem_of_nil in Hc|]. cbn in Hc.
  apply elem_of_cons in Hc as [->|Hc].
  - rewrite <- (take_drop size (y :: l)). apply elem_of_app. by left.
  - rewrite <- (take_drop size (y :: l)). apply elem_of_app. right. by apply IH.
Qed.

Lemma embed_sent s n inputs q :
  q ∈ (embed s n inputs).1 ->
  q = embed_request s (er_input q) /\ forall text, text ∈ er_input q -> text ∈ inputs.
Proof.
  intros (c & Hc & ->)%embed_chunks_sent. split; [done|]. intros text Ht.
  by eapply chunks_fuel_elem.
Qed.

Lemma chunks_fuel_join {A} size fuel (l : list A) :
  (0 < size)%nat -> (length l <= fuel)%nat -> mjoin (chunks_fuel fuel size l) = l.
Proof.
  intros Hs. revert l. induction fuel as [|fuel IH]; intros l Hl.
  - by destruct l; cbn in *; [|lia].
  - destruct l as [|x l]; [done|]. cbn [chunks_fuel mjoin list_join].
    rewrite IH, take_drop; [done|]. rewrite length_drop. cbn in *. lia.
Qed.

Lemma embed_length s n inputs vs : (embed s n inputs).2 = Ok vs -> length vs = length inputs.
Proof.
  intros H%embed_chunks_length. rewrite H. unfold chunks_of.
  rewrite chunks_fuel_join; [done| |done]. unfold EMBED_BATCH. lia.
Qed.

(** ** Lemmas: the cache after the write *)

Lemma insert_vectors_Some missing vs cache w :
  is_Some (cache !! w) -> is_Some (insert_vectors missing vs cache !! w).
Proof.
  unfold insert_vectors. revert vs cache. induction missing as [|m ms IH]; intros vs cache H;
    [done|]. destruct vs as [|v vs]; [done|]. cbn. apply IH.
  destruct (decide (m.1.1 = w)) as [<-|]; [rewrite lookup_insert_eq|rewrite lookup_insert_ne];
    eauto.
Qed.

Lemma insert_vectors_In missing vs cache w :
  length vs = length missing -> w ∈ (fun m => m.1.1) <$> missing ->
  is_Some (insert_vectors missing vs cache !! w).
Proof.
  revert vs cache. induction missing as [|m ms IH]; intros vs cache Hl Hw; [by apply elem_of_nil in Hw|].
  destruct vs as [|v vs]; [done|]. cbn in Hl, Hw. apply elem_of_cons in Hw as [->|Hw].
  - cbn. apply insert_vectors_Some. rewrite lookup_insert_eq. eauto.
  - cbn. apply IH; [lia|done].
Qed.

Lemma insert_vectors_notin missing vs cache w :
  w ∉ (fun m => m.1.1) <$> missing -> insert_vectors missing vs cache !! w = cache !! w.
Proof.
  unfold insert_vectors. revert vs cache. induction missing as [|m ms IH]; intros vs cache H;
    [done|]. destruct vs as [|v vs]; [done|]. cbn in *. apply not_elem_of_cons in H as [Hne H].
  rewrite IH by done. by rewrite lookup_insert_ne.
Qed.

Lemma insert_vectors_lookup missing vs cache w h t :
  length vs = length missing -> NoDup ((fun m => m.1.1) <$> missing) ->
  (w, h, t) ∈ missing ->
  exists v, insert_vectors missing vs cache !! w = Some (mkCachedEmbedding h v).
Proof.
  revert vs cache. induction missing as [|m ms IH]; intros vs cache Hl Hnd Hw;
    [by apply elem_of_nil in Hw|].
  destruct vs as [|v vs]; [done|]. cbn in Hl, Hnd. apply NoDup_cons in Hnd as [Hm Hnd].
  apply elem_of_cons in Hw as [<-|Hw].
  - exists v. change (insert_vectors ms vs (<[w := mkCachedEmbedding h v]> cache) !! w
            = Some (mkCachedEmbedding h v)).
    rewrite insert_vectors_notin by done. by rewrite lookup_insert_eq.
  - apply IH; [lia|done|done].
Qed.

Lemma missing_of_elem cache candidates c :
  c ∈ candidates -> is_missing cache c = true ->
  (c.1, text_hash (embed_text c.1 c.2), embed_text c.1 c.2) ∈ missing_of cache candidates.
Proof.
  intros Hc Hm. unfold missing_of. apply list_elem_of_fmap. exists c. split; [done|].
  by apply filter_elem.
Qed.

Lemma missing_of_names cache candidates :
  sublist ((fun m => m.1.1) <$> missing_of cache candidates) candidates.*1.
Proof.
  unfold missing_of. rewrite <- list_fmap_compose. cbn.
  induction candidates as [|c l IH]; cbn; [constructor|].
  destruct (is_missing cache c); cbn; by constructor.
Qed.

Lemma is_missing_false_Some cache c : is_missing cache c = false -> is_Some (cache !! c.1).
Proof. unfold is_missing. destruct (cache !! c.1); [eauto|done]. Qed.

Lemma scored_of_names cache q candidates :
  (forall c, c ∈ candidates -> is_Some (cache !! c.1)) ->
  (scored_of cache q candidates).*2 = candidates.*1.
Proof.
  unfold scored_of. induction candidates as [|c l IH]; intros H; [done|].
  destruct (H c) as [e He]; [constructor|]. cbn. rewrite He. cbn.
  rewrite IH; [done|]. intros x Hx. apply H. by constructor.
Qed.

Lemma scored_leb_total a b : scored_leb a b = false -> scored_leb b a = true.
Proof.
  unfold scored_leb. intros H. rewrite orb_false_iff, andb_false_iff in H.
  destruct H as [H1%Z.ltb_ge H2]. apply orb_true_iff. destruct H2 as [H2|H2].
  - left. apply Z.eqb_neq in H2. apply Z.ltb_lt. lia.
  - destruct (Z.ltb_spec (total_key a.1) (total_key b.1)); [by left|right].
    apply andb_true_iff. split; [apply Z.eqb_eq; lia|].
    destruct (String.leb_total a.2 b.2); congruence.
Qed.

(** Other searches only add to the cache. *)
Definition grows (f : Cache -> Cache) : Prop :=
  forall cache w, is_Some (cache !! w) -> is_Some (f cache !! w).

(** A ranking sends to the endpoint of the index nothing but the query and the texts
    of the candidates. *)
Lemma rank_sent s query candidates limit before after cache q :
  q ∈ (rank s query candidates limit before after cache).1.2 ->
  q = embed_request s (er_input q) /\
  forall text, text ∈ er_input q ->
    text = query \/ exists c, c ∈ candidates /\ text = embed_text c.1 c.2.
Proof.
  assert (forall n, q ∈ (embed s n [query]).1 -> q = embed_request s (er_input q) /\
    forall text, text ∈ er_input q -> text = query \/ exists c, c ∈ candidates /\
      text = embed_text c.1 c.2) as Hq.
  { intros n [H1 H2]%embed_sent. split; [done|]. intros text Ht. left.
    by apply list_elem_of_singleton, H2. }
  unfold rank. set (missing := missing_of cache candidates).
  assert (forall n, q ∈ (embed s n ((fun m => m.2) <$> missing)).1 ->
    q = embed_request s (er_input q) /\ forall text, text ∈ er_input q -> text = query \/
      exists c, c ∈ candidates /\ text = embed_text c.1 c.2) as Hm.
  { intros n [H1 H2]%embed_sent. split; [done|]. intros text Ht. right.
    apply H2, list_elem_of_fmap in Ht as (m & -> & Hm). unfold missing, missing_of in Hm.
    apply list_elem_of_fmap in Hm as (c & -> & [Hc _]%filter_elem). exists c. by split. }
  destruct missing as [|m ms].
  - specialize (Hq 0%nat). cbn [length].
    destruct (embed s 0 [query]) as [asked vs]. exact Hq.
  - specialize (Hm 0%nat). destruct (embed s 0 _) as [sent vectors].
    destruct vectors as [vectors|e]; [|exact Hm]. cbn [mbind].
    specialize (Hq (length sent)). cbn [mbind result_bind fst snd].
    destruct (embed s (length sent) [query]) as [asked vs].
    cbn [fst snd]. intros [H|H]%elem_of_app; [by apply Hm|by apply Hq].
Qed.

(** A successful ranking lists every candidate exactly once, best score first; the
    scores are those of the cache that the ranking leaves. *)
Lemma rank_Ok s query candidates before after cache cache' sent ws :
  grows before -> grows after ->
  rank s query candidates None before after cache = (cache', sent, Ok ws) ->
  exists q scored, scored_of cache' q candidates ≡ₚ scored /\
    Sorted (fun a b => scored_leb a b = true) scored /\
    ws = scored.*2 /\ ws ≡ₚ candidates.*1.
Proof.
  intros Hb Ha H. unfold rank in H.
  set (missing := missing_of cache candidates) in *.
  destruct (match missing with [] => _ | _ => _ end) as [sent1 [c1|e]] eqn:E; [|done].
  destruct (embed s (length sent1) [query]) as [asked rs]. injection H as <- _ Hr. inv_ok.
  match goal with K : last _ = Some ?v |- _ => rename v into q; clear K end.
  exists q, (sort_by scored_leb (scored_of (after c1) q candidates)).
  assert (forall c, c ∈ candidates -> is_Some (after c1 !! c.1)) as Hall.
  { intros c Hin. apply Ha. destruct (is_missing cache c) eqn:Em.
    - pose proof (missing_of_elem _ _ _ Hin Em) as Hm. fold missing in Hm.
      destruct missing as [|m ms] eqn:EM'; [by apply elem_of_nil in Hm|].
      destruct (embed _ _ _) as [sent2 rv] eqn:Em2. injection E as <- E. inv_ok.
      apply insert_vectors_In.
      + match goal with |- length ?v = _ =>
          pose proof (embed_length s 0 ((fun m => m.2) <$> m :: ms) v) as Hl end.
        rewrite Em2 in Hl. rewrite Hl by done. by rewrite length_fmap.
      + apply list_elem_of_fmap. by eexists; split; [|exact Hm].
    - apply is_missing_false_Some in Em. apply Hb in Em.
      destruct missing as [|m ms]; [by injection E as _ <-|].
      destruct (embed _ _ _) as [sent2 rv]. injection E as _ E. inv_ok.
      by apply insert_vectors_Some. }
  split_and!; [by rewrite sort_by_perm| |done|].
  - apply sort_by_Sorted, scored_leb_total.
  - rewrite sort_by_perm. by rewrite scored_of_names.
Qed.

(** After an undisturbed ranking every candidate's vector is the one of its present
    text, so that ranking the same tools again embeds only the query. *)
Theorem rank_leaves_fresh s query candidates limit cache cache' sent ws :
  NoDup candidates.*1 ->
  rank s query candidates limit id id cache = (cache', sent, Ok ws) ->
  missing_of cache' candidates = [].
Proof.
  intros Hnd H. unfold rank in H. cbv [id] in H.
  set (missing := missing_of cache candidates) in *.
  destruct (match missing with [] => _ | _ => _ end) as [sent1 [c1|e]] eqn:E; [|done].
  destruct (embed s (length sent1) [query]) as [asked rs].
  injection H as <- _ _. unfold missing_of. cbn.
  assert (List.filter (is_missing c1) candidates = []) as ->; [|done].
  apply filter_none. intros c Hin. destruct (is_missing cache c) eqn:Em.
  - pose proof (missing_of_elem _ _ _ Hin Em) as Hm. fold missing in Hm.
    assert (NoDup ((fun m => m.1.1) <$> missing)) as Hn
      by exact (sublist_NoDup _ _ Hnd (missing_of_names cache candidates)).
    destruct missing as [|m ms]; [by apply elem_of_nil in Hm|].
    pose proof (embed_length s 0 ((fun m => m.2) <$> m :: ms)) as Hl.
    destruct (embed _ _ _) as [sent2 rv]. injection E as _ E. inv_ok.
    match goal with |- context [insert_vectors _ ?vs _] => specialize (Hl vs eq_refl);
      destruct (insert_vectors_lookup (m :: ms) vs cache _ _ _
                  ltac:(by rewrite Hl, length_fmap) Hn Hm) as [v Hv] end.
    unfold is_missing. rewrite Hv. cbn. by rewrite Z.eqb_refl.
  - destruct missing as [|m ms] eqn:EM'; [by injection E as _ <-|].
    destruct (embed _ _ _) as [sent2 rv]. injection E as _ E. inv_ok.
    unfold is_missing in *. rewrite insert_vectors_notin; [done|].
    rewrite <- EM'. unfold missing. intros (y & Hy & Hin2)%list_elem_of_fmap.
    apply list_elem_of_fmap in Hin2 as (c' & -> & [Hf Hc']%filter_elem). cbn in Hy.
    assert (c' = c) as -> by exact (NoDup_key_inj fst candidates c' c Hnd Hf Hin (eq_sym Hy)).
    unfold is_missing in Hc'. congruence.
Qed.
End Rank.
