(* ===== verification/Invoke.v ===== *)
(** * The call pipeline ([src/src/proxy/invoke/], [src/src/proxy/post.rs])

    One tool call from the caller's name to the answer: resolution in the
    catalog, quarantine, scope, admission, credentials, the upstream call (HTTP
    with retries, or a remote MCP server), the event, and the post-processing of
    the result (content defense, rendering, shaping).  The state the calls share
    is [GatewayState]; what happens outside a call (clocks, the other tasks, the
    MCP client, serde) is the class [CallEnv].  [Contact]s log what the call
    touched outside the gateway. *)

From S2P Require Import Prelude RustStr Naming Errors Config Policy Secrets.
From S2P Require Import Semantic.
From S2P Require Import Catalog KeyPool Limits Egress Shaping Render Retry Observe.
From Stdlib Require Import Ascii.

Local Open Scope string_scope.
Local Open Scope list_scope.
Local Open Scope Z_scope.
Local Open Scope gateway_scope.

(** ** MCP data ([mcp/model.rs]) *)

(** [ToolContent::Text] is the only kind of content. *)
Record ToolCallResult := mkToolCallResult { tr_content : list string; is_error : bool }.

Record ToolCallExtras := mkToolCallExtras {
  input_responses : option JSON;
  request_state : option string;
}.

Inductive UpstreamCallOutcome :=
| Complete (r : ToolCallResult)
| InputRequired (payload : JSON).

Definition MCP_INPUT_REQUIRED_CONTENT_TYPE : string := "application/vnd.mcp.input-required+json".
Definition MCP_KEY_REF : string := "<mcp>".

(** The remote MCP registry as the pipeline uses it. *)
Record McpRegistry := mkMcpRegistry {
  contains_tool : string -> bool;
  call_tool_ex : string -> JSON -> ToolCallExtras -> result McpError UpstreamCallOutcome;
}.

(** ** State and environment *)

Section State.
Context {G : Governor}.

(** [ProxyExecutor]; [has_repo] says whether an event repository is injected. *)
Record Executor := mkExecutor {
  config : GatewayConfig;
  catalog : ToolCatalog;
  http_config : ExecutorConfig;
  mcp_registry : option McpRegistry;
  quarantined : option (gmap string IntegrityPolicy);
  response_format : ResponseFormat;
  has_repo : bool;
}.

Record GatewayState := mkGatewayState {
  limits : option LimitRegistry;
  key_pools : option KeyPoolRegistry;
  result_cache : option ResultCache;
  events : list RequestEvent;
  security_events : list SecurityEvent;
  request_counter : Z;
}.

Definition with_limits (s : GatewayState) (l : option LimitRegistry) : GatewayState :=
  mkGatewayState l (key_pools s) (result_cache s) (events s) (security_events s)
    (request_counter s).
Definition with_key_pools (s : GatewayState) (p : option KeyPoolRegistry) : GatewayState :=
  mkGatewayState (limits s) p (result_cache s) (events s) (security_events s)
    (request_counter s).
Definition with_cache (s : GatewayState) (c : option ResultCache) : GatewayState :=
  mkGatewayState (limits s) (key_pools s) c (events s) (security_events s) (request_counter s).
Definition add_event (e : RequestEvent) (s : GatewayState) : GatewayState :=
  mkGatewayState (limits s) (key_pools s) (result_cache s) (events s ++ [e]) (security_events s)
    (request_counter s).
Definition add_security_event (e : SecurityEvent) (s : GatewayState) : GatewayState :=
  mkGatewayState (limits s) (key_pools s) (result_cache s) (events s)
    (security_events s ++ [e]) (request_counter s).

Definition next_request_id (s : GatewayState) : GatewayState * string :=
  (mkGatewayState (limits s) (key_pools s) (result_cache s) (events s) (security_events s)
     (wrapping 64 (request_counter s + 1)), request_id_of (request_counter s)).

Class CallEnv := {
  (** admission: UTC time, the limiters' clocks, how the wait for a permit ends *)
  ce_admit_now : Z;
  ce_clock : nat -> Z;
  ce_wait : QueueWait;
  (** UTC time when the quota guard is dropped, and of the events *)
  ce_drop_now : Z;
  ce_event_now : Z;
  ce_elapsed : Z;
  ce_cache_sweep : Z;
  ce_cache_now : Z;
  (** what other tasks do to the limit registry during the upstream call *)
  ce_others : LimitRegistry -> LimitRegistry;
  json_parse : string -> option JSON;
  tool_result_json : ToolCallResult -> string;
  to_lowercase : string -> string;
}.
End State.

(** What a request touches outside the gateway; the endpoint of the embeddings is
    asked by a search, never by a call. *)
Inductive Contact :=
| ContactSecret (auth : UpstreamAuth)
| ContactHttp (request : UpstreamRequest) (log : list Attempt)
| ContactMcp (canonical : string) (args : JSON)
| ContactEmbeddings (request : EmbeddingRequest).

Record ResolvedCall := mkResolvedCall {
  rc_wire_name : string;
  rc_key : ProxyKey;
  rc_tool : WrappedTool;
  canonical : string;
  captured_args : option string;
}.

(** The resources of an admitted call: whether a quota guard and a permit are
    held. *)
Record Admission := mkAdmission { quota : bool; permit : bool }.

Section Pipeline.
Context {G : Governor} {RE : RegexEngine} {RR : RegexReplace} {UP : UrlParser} {U : Upstream}
  {HO : HashOrder} {CE : CallEnv}.

(** ** Resolution and authorisation *)

Definition resolve_tool (ex : Executor) (wire_name : string) (key : ProxyKey)
    : result ProxyError WrappedTool :=
  match resolve_for_key wire_name no_qualifiers key (catalog ex) with
  | Ok (Some t) => Ok t
  | Ok None => Err (PE_UnknownTool wire_name)
  | Err (Catalog_Policy e) => Err (PE_Policy e)
  | Err e => Err (PE_InvalidToolCall (CatalogError_to_string e))
  end.

Definition check_quarantine (ex : Executor) (wire_name canon : string) : result ProxyError () :=
  match q ← quarantined ex; q !! canon with
  | None => Ok tt
  | Some p =>
      Err (PE_InvalidToolCall
             (match p with
              | Quarantine => "tool quarantined due to integrity drift: " +:+ wire_name
              | Block => "tool blocked due to integrity drift: " +:+ wire_name
              | Warn => "unexpected warn policy in quarantine set for: " +:+ wire_name
              end))
  end.

(** [b.then(|| f)]. *)
Definition capture_when (b : bool) (f : outcome string) : outcome (option string) :=
  if b then t ← f; Returns (Some t) else Returns None.

Definition capture_args (ex : Executor) (args : JSON) : outcome (option string) :=
  let obs := observability (config ex) in
  capture_when (capture_payloads obs) (capture_text (value_to_string args) (capture_max_bytes obs)).

Definition capture_body_preview (ex : Executor) (b : string) : outcome (option string) :=
  let obs := observability (config ex) in
  capture_when (capture_payloads obs) (capture_bytes b (capture_max_bytes obs)).

Definition capture_tool_result (ex : Executor) (r : ToolCallResult) : outcome (option string) :=
  capture_body_preview ex (tool_result_json r).

Definition resolve_call (ex : Executor) (wire_name : string) (args : JSON) (key : ProxyKey)
    : outcome (result ProxyError ResolvedCall) :=
  match resolve_tool ex wire_name key with
  | Err e => Returns (Err e)
  | Ok t =>
      let canon := wire t in
      captured ← capture_args ex args;
      Returns (_ ← check_quarantine ex wire_name canon;
               Ok (mkResolvedCall wire_name key t canon captured))
  end.

Definition ensure_allowed (c : ResolvedCall) : result ProxyError () :=
  match key_can_use_tool (rc_key c) (name (rc_tool c)) (resource_id (rc_tool c)) with
  | Err e => Err (PE_Policy e)
  | Ok true => Ok tt
  | Ok false => Err (PE_ForbiddenTool (rc_wire_name c))
  end.

(** ** Admission ([invoke/admission.rs]) *)

Definition limited_event (c : ResolvedCall) (id : string) : RequestEvent :=
  mkRequestEvent ce_event_now id (pk_id (rc_key c)) (resource_id (rc_tool c)) KindTool
    (canonical c) "<limited>" RS_Limited 0 1 0 true 0 (captured_args c) None None.

Definition record_limited (c : ResolvedCall) (s : GatewayState) : GatewayState :=
  let '(s, id) := next_request_id s in add_event (limited_event c id) s.

Definition admit_call (c : ResolvedCall) (s : GatewayState)
    : GatewayState * result ProxyError Admission :=
  match limits s with
  | None => (s, Ok (mkAdmission false false))
  | Some r =>
      let '(r, res) := admit_at (pk_id (rc_key c)) (resource_id (rc_tool c)) ce_admit_now ce_clock
                         ce_wait r in
      let s := with_limits s (Some r) in
      match res with
      | Ok p => (s, Ok (mkAdmission true p))
      | Err e => (record_limited c s, Err (PE_Limit e))
      end
  end.

(** Taking the guard out of the admission and committing it. *)
Definition commit (a : Admission) : Admission := mkAdmission false (permit a).

(** Dropping the admission: first the quota guard that is still there, which was
    not committed, then the permit. *)
Definition drop_admission (c : ResolvedCall) (a : Admission) (s : GatewayState) : GatewayState :=
  with_limits s
    ((fun r =>
        let r := if quota a then drop_guard (pk_id (rc_key c)) false ce_drop_now r else r in
        if permit a then drop_permit (resource_id (rc_tool c)) r else r) <$> limits s).

(** The awaits of the upstream call. *)
Definition await (s : GatewayState) : GatewayState := with_limits s (ce_others <$> limits s).

(** ** Events and post-processing ([proxy/post.rs]) *)

Definition request_status_from_proxy_error (e : ProxyError) : RequestStatus :=
  match e with
  | PE_UpstreamTimeout _ => RS_Timeout
  | PE_ConnectionFailed | PE_EgressBlocked => RS_ConnectionFailed
  | PE_UpstreamError status => RS_UpstreamError status
  | PE_RetryExhausted _ | PE_Mcp _ => RS_UpstreamError 0
  | PE_Limit _ => RS_Limited
  | _ => RS_ConnectionFailed
  end.

Definition record_event (c : ResolvedCall) (id key_ref : string) (status : RequestStatus)
    (retry_count : Z) (preview : option string) (upstream_latency : option Z) (s : GatewayState)
    : GatewayState :=
  add_event
    (mkRequestEvent ce_event_now id (pk_id (rc_key c)) (resource_id (rc_tool c)) KindTool
       (canonical c) key_ref status (duration_ms ce_elapsed) 1 retry_count false 0
       (captured_args c) preview upstream_latency) s.

Definition scan_defense (ex : Executor) (text res_id wire_name : string) (sec : SecurityConfig)
    (s : GatewayState) : GatewayState * bool :=
  if negb (defense_enabled sec) then (s, false)
  else
    let d := scan_content to_lowercase text in
    if negb (flagged d) then (s, false)
    else
      (if has_repo ex
       then add_security_event
              (mkSecurityEvent ce_event_now res_id (Some wire_name) ContentDefenseFlag SevWarn
                 (JObject [("matched_rules", JArray (JString <$> matched_rules d))])) s
       else s, true).

Definition truncation_note (head : bytes) (cursor : string) (total : Z) : string :=
  String.string_of_list_ascii head +:+ nl +:+ nl +:+ "[Result truncated. Total " +:+ fmt_Z total
    +:+ " bytes. Use asl__fetch with cursor " +:+ dquote +:+ cursor +:+ dquote +:+ " to get more.]".

Definition shape_text (text : string) (sec : SecurityConfig) (key_id : string) (s : GatewayState)
    : GatewayState * option string :=
  match result_cache s with
  | None => (s, None)
  | Some cache =>
      let '(cache, o) := shape_result (String.list_ascii_of_string text)
                           (mkShapingConfig (budget_for (Z.of_nat <$> result_budget_bytes sec))) key_id
                           ce_cache_sweep ce_cache_now cache in
      (with_cache s (Some cache),
       match o with
       | Unchanged => None
       | Shaped head cursor total => Some (truncation_note head cursor total)
       end)
  end.

Definition render_text (ex : Executor) (text : string) : option string :=
  v ← json_parse text; render v (response_format ex).

Definition rewrite_body (r : InvokeResult) (b : string) (ct : option string) (fl sh : bool)
    (f : option ResponseFormat) : InvokeResult :=
  mkInvokeResult (Retry.request_id r) (ir_status r) b ct fl sh f.

Definition apply_defense_and_shaping (ex : Executor) (r : InvokeResult)
    (res_id wire_name key_id : string) (sec : SecurityConfig) (s : GatewayState)
    : GatewayState * InvokeResult :=
  if (ir_status r <? 200) || (300 <=? ir_status r) then (s, r)
  else
    let text := from_utf8_lossy (Retry.body r) in
    let '(s, hit) := scan_defense ex text res_id wire_name sec s in
    let fl := content_defense_flag r || hit in
    let '(text, r) :=
      match (if bool_decide (response_format ex = Json) then None else render_text ex text) with
      | Some t => (t, rewrite_body r t (Some (format_content_type (response_format ex))) fl
                        (shaped r) (Some (response_format ex)))
      | None => (text, rewrite_body r (Retry.body r) (content_type r) fl (shaped r)
                         (rendered_format r))
      end in
    let '(s, cut) := shape_text text sec key_id s in
    (s, match cut with
        | Some t => rewrite_body r t (Some "text/plain; charset=utf-8") (content_defense_flag r)
                      true (rendered_format r)
        | None => r
        end).

Definition joined_text (r : ToolCallResult) : string := join nl (tr_content r).

(** Each part that renders is replaced; the format is reported when one was. *)
Definition render_tool_content (ex : Executor) (r : ToolCallResult)
    : ToolCallResult * option ResponseFormat :=
  if bool_decide (response_format ex = Json) || is_error r then (r, None)
  else
    (mkToolCallResult ((fun t => default t (render_text ex t)) <$> tr_content r) (is_error r),
     if existsb (fun t => bool_decide (is_Some (render_text ex t))) (tr_content r)
     then Some (response_format ex) else None).

Definition shape_remote_mcp_result (ex : Executor) (r : ToolCallResult)
    (res_id wire_name key_id : string) (sec : SecurityConfig) (s : GatewayState)
    : GatewayState * InvokeResult :=
  let '(s, hit) := scan_defense ex (joined_text r) res_id wire_name sec s in
  let '(r, fmt) := render_tool_content ex r in
  let '(s, cut) := shape_text (joined_text r) sec key_id s in
  let r := match cut with Some t => mkToolCallResult [t] (is_error r) | None => r end in
  (s, mkInvokeResult "" 200 (tool_result_json r) (Some "application/json") hit
        (bool_decide (is_Some cut)) fmt).

(** ** The remote MCP branch ([invoke/mod.rs]) *)

Definition with_request_id (id : string) (r : InvokeResult) : InvokeResult :=
  mkInvokeResult id (ir_status r) (Retry.body r) (content_type r) (content_defense_flag r)
    (shaped r) (rendered_format r).

(** The state, the admission as the function leaves it, and the answer. *)
Notation finished := (GatewayState * Admission * result ProxyError InvokeResult)%type.

Definition finish_remote_input_required (c : ResolvedCall) (a : Admission) (id : string)
    (payload : JSON) (s : GatewayState) : finished :=
  let a := commit a in
  let s := record_event c id MCP_KEY_REF RS_Success 0 (Some "input_required")
             (Some (duration_ms ce_elapsed)) s in
  (s, a, Ok (mkInvokeResult id 200 (value_to_string payload) (Some MCP_INPUT_REQUIRED_CONTENT_TYPE)
               false false None)).

Definition finish_remote_complete (ex : Executor) (c : ResolvedCall) (a : Admission)
    (id : string) (r : ToolCallResult) (s : GatewayState) : outcome finished :=
  let a := commit a in
  preview ← capture_tool_result ex r;
  let s := record_event c id MCP_KEY_REF RS_Success 0 preview (Some (duration_ms ce_elapsed)) s in
  let rid := resource_id (rc_tool c) in
  let sec := default SecurityConfig_default (ms_security <$> mcp_server (config ex) rid) in
  let '(s, res) := shape_remote_mcp_result ex r rid (canonical c) (pk_id (rc_key c)) sec s in
  Returns (s, a, Ok (with_request_id id res)).

Definition finish_remote_error (c : ResolvedCall) (a : Admission) (id : string) (e : ProxyError)
    (s : GatewayState) : finished :=
  (record_event c id MCP_KEY_REF (request_status_from_proxy_error e) 0 None None s, a, Err e).

(** The admission is dropped when the function returns. *)
Definition leave (c : ResolvedCall) (contacts : list Contact) (p : finished)
    : GatewayState * list Contact * result ProxyError InvokeResult :=
  let '(s, a, r) := p in (drop_admission c a s, contacts, r).

Definition invoke_remote_mcp (ex : Executor) (registry : McpRegistry) (c : ResolvedCall)
    (args : JSON) (extras : ToolCallExtras) (s : GatewayState)
    : outcome (GatewayState * list Contact * result ProxyError InvokeResult) :=
  match ensure_allowed c with
  | Err e => Returns (s, [], Err e)
  | Ok _ =>
      let '(s, adm) := admit_call c s in
      match adm with
      | Err e => Returns (s, [], Err e)
      | Ok a =>
          let '(s, id) := next_request_id s in
          let outcome_ := call_tool_ex registry (canonical c) args extras in
          let contacts := [ContactMcp (canonical c) args] in
          let s := await s in
          p ← match outcome_ with
              | Ok (InputRequired payload) => Returns (finish_remote_input_required c a id payload s)
              | Ok (Complete r) => finish_remote_complete ex c a id r s
              | Err e => Returns (finish_remote_error c a id (PE_Mcp e) s)
              end;
          Returns (leave c contacts p)
      end
  end.

(** ** The HTTP branch *)

Definition finish_http_success (ex : Executor) (c : ResolvedCall) (a : Admission) (id : string)
    (sec : SecurityConfig) (u : UpstreamResponse) (s : GatewayState) : outcome finished :=
  let a := commit a in
  preview ← capture_body_preview ex (Retry.body (ur_result u));
  let s := record_event c id (ur_key_ref u) RS_Success (ur_retry_count u) preview
             (Some (ur_latency_ms u)) s in
  let '(s, res) := apply_defense_and_shaping ex (ur_result u) (resource_id (rc_tool c))
                     (canonical c) (pk_id (rc_key c)) sec s in
  Returns (s, a, Ok (with_request_id id res)).

Definition finish_http_failure (c : ResolvedCall) (a : Admission) (id : string)
    (e : ExecutionError) (s : GatewayState) : finished :=
  (record_event c id (ee_key_ref e) (request_status_from_proxy_error (proxy_error e))
     (ee_retry_count e) None (ee_latency_ms e) s, a, Err (proxy_error e)).

Definition resource_pool (r : ApiResource) (s : GatewayState) : option ResourceKeyPool :=
  pools ← key_pools s; pools !! ar_id r.

(** A resource with a key pool has its secrets resolved inside the loop. *)
Definition resolve_upstream_secret (r : ApiResource) (s : GatewayState)
    : list Contact * result ProxyError (option string) :=
  match resource_pool r s with
  | Some _ => ([], Ok None)
  | None => ([ContactSecret (ar_auth r)], resolve_auth_secret (ar_auth r))
  end.

(** The pool is shared by reference: the loop updates it in place. *)
Definition store_pool (r : ApiResource) (p : option ResourceKeyPool) (s : GatewayState)
    : GatewayState :=
  match p with
  | Some p => with_key_pools s ((fun pools => <[ar_id r := p]> pools) <$> key_pools s)
  | None => s
  end.

Definition http_request (c : ResolvedCall) (r : ApiResource) (args : JSON)
    (secret : option string) : UpstreamRequest :=
  mkUpstreamRequest (http_method (rc_tool c)) (upstream_path (rc_tool c)) (base_url r) (ar_auth r)
    args secret (param_locations (rc_tool c)).

Definition invoke_http (ex : Executor) (c : ResolvedCall) (args : JSON) (s : GatewayState)
    : outcome (GatewayState * list Contact * result ProxyError InvokeResult) :=
  match resource (config ex) (resource_id (rc_tool c)) with
  | None => Returns (s, [], Err (PE_UnknownResource (resource_id (rc_tool c))))
  | Some r =>
      match ensure_allowed c with
      | Err e => Returns (s, [], Err e)
      | Ok _ =>
          let '(s, adm) := admit_call c s in
          match adm with
          | Err e => Returns (s, [], Err e)
          | Ok a =>
              let '(touched, secret) := resolve_upstream_secret r s in
              match secret with
              | Err e => Returns (leave c touched (await s, a, Err e))
              | Ok secret =>
                  let '(s, id) := next_request_id s in
                  '(pool, log, res) ← execute_with_retry (http_config ex)
                                        (http_request c r args secret) (resource_pool r s);
                  let contacts := touched ++ [ContactHttp (http_request c r args secret) log] in
                  let s := await (store_pool r pool s) in
                  p ← match res with
                      | Ok u => finish_http_success ex c a id (ar_security r) u s
                      | Err e => Returns (finish_http_failure c a id e s)
                      end;
                  Returns (leave c contacts p)
              end
          end
      end
  end.

Definition invoke_call (ex : Executor) (wire_name : string) (args : JSON) (key : ProxyKey)
    (extras : ToolCallExtras) (s : GatewayState)
    : outcome (GatewayState * list Contact * result ProxyError InvokeResult) :=
  call ← resolve_call ex wire_name args key;
  match call with
  | Err e => Returns (s, [], Err e)
  | Ok c =>
      match mcp_registry ex with
      | Some registry =>
          if contains_tool registry (canonical c) then invoke_remote_mcp ex registry c args extras s
          else invoke_http ex c args s
      | None => invoke_http ex c args s
      end
  end.
End Pipeline.

(** ** How a call goes *)

(** What holds of every call that gets as far as admission. *)
Record gate {G : Governor} {RE : RegexEngine} (ex : Executor) (key : ProxyKey) (c : ResolvedCall)
    : Prop := {
  gate_key : rc_key c = key;
  gate_tool : rc_tool c ∈ tools (catalog ex);
  gate_canonical : canonical c = wire (rc_tool c);
  gate_quarantine : (q ← quarantined ex; q !! canonical c) = None;
  gate_allowed : ensure_allowed c = Ok tt;
}.

(** The event of a call with answer [r]. *)
Definition event_for (c : ResolvedCall) (r : result ProxyError InvokeResult) (e : RequestEvent)
    : Prop :=
  ev_proxy_key_id e = pk_id (rc_key c) /\ ev_resource_id e = resource_id (rc_tool c) /\
  ev_tool_name e = canonical c /\ ev_rate_limited e = false /\
  (ev_status e = RS_Success <-> is_Ok r = true).

(** What a call of tool [t] may touch: the tool's own MCP server under the tool's
    name, or the URL, the operation and the credential of the tool's resource. *)
Definition contact_of {G : Governor} (ex : Executor) (t : WrappedTool) (x : Contact) : Prop :=
  match x with
  | ContactMcp n _ => n = wire t
  | ContactHttp q _ => exists r, resource (config ex) (resource_id t) = Some r /\
      req_base_url q = base_url r /\ req_auth q = ar_auth r /\
      req_method q = http_method t /\ req_path q = upstream_path t
  | ContactSecret auth => exists r, resource (config ex) (resource_id t) = Some r /\
      auth = ar_auth r
  | ContactEmbeddings _ => False
  end.

(** From the admission [a] in state [s1] to the drop of [a2] in state [s2]. *)
Record ran {G : Governor} {CE : CallEnv} (ex : Executor) (c : ResolvedCall) (a : Admission) (s1 : GatewayState)
    (s2 : GatewayState) (a2 : Admission) (contacts : list Contact)
    (r : result ProxyError InvokeResult) : Prop := {
  ran_limits : limits s2 = ce_others <$> limits s1;
  ran_quota : a2 = if is_Ok r then commit a else a;
  ran_contacts : contacts <> [];
  ran_owned : canonical c = wire (rc_tool c) -> Forall (contact_of ex (rc_tool c)) contacts;
  ran_events :
    (events s2 = events s1 /\ is_Ok r = false /\ exists auth, contacts = [ContactSecret auth]) \/
    (exists e, events s2 = events s1 ++ [e] /\ event_for c r e);
}.

(** The three ways a call can end. *)
Inductive call_ends {G : Governor} {RE : RegexEngine} {CE : CallEnv} (ex : Executor)
    (key : ProxyKey) (s : GatewayState)
    : GatewayState * list Contact * result ProxyError InvokeResult -> Prop :=
| ends_refused e :
    call_ends ex key s (s, [], Err e)
| ends_limited c s1 le :
    gate ex key c -> admit_call c s = (s1, Err (PE_Limit le)) ->
    call_ends ex key s (s1, [], Err (PE_Limit le))
| ends_ran c a s1 s2 a2 contacts r :
    gate ex key c -> admit_call c s = (s1, Ok a) -> ran ex c a s1 s2 a2 contacts r ->
    call_ends ex key s (drop_admission c a2 s2, contacts, r).

Section CallLemmas.
Context {G : Governor} {RE : RegexEngine} {RR : RegexReplace} {UP : UrlParser} {U : Upstream}
  {HO : HashOrder} {CE : CallEnv}.

Lemma resolve_tier_elem n q k m c t :
  resolve_tier n q k m c = Ok (Some t) -> t ∈ tools c.
Proof.
  unfold resolve_tier. intros H. apply bind_Ok_inv in H as (l & Hl & H).
  destruct l as [|x [|y l]]; [done| |done]. injection H as ->.
  by apply (try_filter_Ok _ _ _ Hl), list_elem_of_here.
Qed.

Lemma resolve_tool_elem ex w key t : resolve_tool ex w key = Ok t -> t ∈ tools (catalog ex).
Proof.
  unfold resolve_tool. destruct (resolve_for_key _ _ _ _) as [[t'|]|[]] eqn:E; try done.
  intros H. injection H as ->. unfold resolve_for_key in E.
  apply bind_Ok_inv in E as (t0 & E0 & E). destruct t0; [injection E as ->; by eapply resolve_tier_elem|].
  apply bind_Ok_inv in E as (t1 & E1 & E). destruct t1; [injection E as ->; by eapply resolve_tier_elem|].
  by eapply resolve_tier_elem.
Qed.

Lemma admit_error c s s1 e : admit_call c s = (s1, Err e) -> exists le, e = PE_Limit le.
Proof.
  unfold admit_call. destruct (limits s) as [r|]; [|done].
  destruct (admit_at _ _ _ _ _ _) as [r' [p|le]]; [done|]. intros H. injection H as _ <-. eauto.
Qed.

Lemma status_not_success e : request_status_from_proxy_error e <> RS_Success.
Proof. by destruct e. Qed.

Lemma scan_defense_frame ex t rid w sec s s' b :
  scan_defense ex t rid w sec s = (s', b) -> limits s' = limits s /\ events s' = events s.
Proof.
  unfold scan_defense. destruct (negb (defense_enabled sec)); [by intros [= <- _]|].
  generalize (scan_content to_lowercase t). intros d.
  destruct (negb (flagged d)); [by intros [= <- _]|].
  destruct (has_repo ex); by intros [= <- _].
Qed.

Lemma shape_text_frame t sec k s s' o :
  shape_text t sec k s = (s', o) -> limits s' = limits s /\ events s' = events s.
Proof.
  unfold shape_text. destruct (result_cache s) as [cache|]; [|naive_solver].
  destruct (shape_result _ _ _ _ _ _). intros H. by injection H as <- _.
Qed.

Lemma apply_frame ex r rid w k sec s s' r' :
  apply_defense_and_shaping ex r rid w k sec s = (s', r') ->
  limits s' = limits s /\ events s' = events s.
Proof.
  unfold apply_defense_and_shaping. case_if; [naive_solver|].
  destruct (scan_defense _ _ _ _ _ _) as [s1 b] eqn:E1. apply scan_defense_frame in E1 as [H1 H2].
  destruct (match _ with Some _ => _ | None => _ end) as [t r1].
  destruct (shape_text _ _ _ _) as [s2 o] eqn:E2. apply shape_text_frame in E2 as [H3 H4].
  intros H. injection H as <- _. by rewrite H3, H4.
Qed.

Lemma shape_remote_frame ex r rid w k sec s s' r' :
  shape_remote_mcp_result ex r rid w k sec s = (s', r') ->
  limits s' = limits s /\ events s' = events s.
Proof.
  unfold shape_remote_mcp_result.
  destruct (scan_defense _ _ _ _ _ _) as [s1 b] eqn:E1. apply scan_defense_frame in E1 as [H1 H2].
  destruct (render_tool_content _ _) as [r1 f].
  destruct (shape_text _ _ _ _) as [s2 o] eqn:E2. apply shape_text_frame in E2 as [H3 H4].
  intros H. injection H as <- _. by rewrite H3, H4.
Qed.

Lemma record_event_for c id kr st n pv ul s r :
  (st = RS_Success <-> is_Ok r = true) ->
  exists e, events (record_event c id kr st n pv ul s) = events s ++ [e] /\ event_for c r e.
Proof. intros H. eexists. split; [done|]. by repeat split; try apply H. Qed.

Lemma finish_http_success_ran ex c a id sec u s s2 a2 r :
  finish_http_success ex c a id sec u s = Returns (s2, a2, r) ->
  limits s2 = limits s /\ a2 = (if is_Ok r then commit a else a) /\
  exists e, events s2 = events s ++ [e] /\ event_for c r e.
Proof.
  unfold finish_http_success. intros (pv & _ & H)%bind_Returns_inv.
  destruct (apply_defense_and_shaping _ _ _ _ _ _ _) as [s1 res] eqn:E.
  apply apply_frame in E as [H1 H2]. injection H as <- <- <-. cbn [is_Ok].
  rewrite H1, H2. split; [done|]. split; [done|]. by apply record_event_for.
Qed.

Lemma finish_remote_complete_ran ex c a id t s s2 a2 r :
  finish_remote_complete ex c a id t s = Returns (s2, a2, r) ->
  limits s2 = limits s /\ a2 = (if is_Ok r then commit a else a) /\
  exists e, events s2 = events s ++ [e] /\ event_for c r e.
Proof.
  unfold finish_remote_complete. intros (pv & _ & H)%bind_Returns_inv.
  destruct (shape_remote_mcp_result _ _ _ _ _ _ _) as [s1 res] eqn:E.
  apply shape_remote_frame in E as [H1 H2]. injection H as <- <- <-. cbn [is_Ok].
  rewrite H1, H2. split; [done|]. split; [done|]. by apply record_event_for.
Qed.

Lemma finish_failed_ran c (a : Admission) id kr e n ul s :
  exists ev, events (record_event c id kr (request_status_from_proxy_error e) n None ul s)
    = events s ++ [ev] /\ event_for c (Err e) ev.
Proof.
  apply record_event_for. split; [intros H; by apply status_not_success in H | done].
Qed.

Lemma invoke_remote_mcp_ends ex reg key c args extras s x :
  (ensure_allowed c = Ok tt -> gate ex key c) ->
  invoke_remote_mcp ex reg c args extras s = Returns x -> call_ends ex key s x.
Proof.
  intros Hg H. unfold invoke_remote_mcp in H.
  destruct (ensure_allowed c) as [[]|e]; [|injection H as <-; apply ends_refused].
  specialize (Hg eq_refl). destruct (admit_call c s) as [s1 [a|e]] eqn:Ea.
  2: { injection H as <-. destruct (admit_error _ _ _ _ Ea) as [le ->]. by eapply ends_limited. }
  cbn [next_request_id] in H. apply bind_Returns_inv in H as ([[s2 a2] r] & Hf & H).
  injection H as <-. apply (ends_ran _ _ _ c a s1); [done..|].
  destruct (call_tool_ex _ _ _ _) as [[t|payload]|e].
  - apply finish_remote_complete_ran in Hf as (H1 & H2 & H3).
    split; [exact H1|exact H2|done|by intros; apply Forall_singleton|by right].
  - injection Hf as <- <- <-. split; [done..|by intros; apply Forall_singleton|]. right.
    by apply (record_event_for c _ _ _ _ _ _ (await (next_request_id s1).1)).
  - injection Hf as <- <- <-. split; [done..|by intros; apply Forall_singleton|]. right.
    by apply (finish_failed_ran c a _ _ (PE_Mcp e) _ _ (await (next_request_id s1).1)).
Qed.

Lemma store_pool_frame r p s :
  limits (store_pool r p s) = limits s /\ events (store_pool r p s) = events s.
Proof. by destruct p. Qed.

Lemma invoke_http_ends ex key c args s x :
  (ensure_allowed c = Ok tt -> gate ex key c) ->
  invoke_http ex c args s = Returns x -> call_ends ex key s x.
Proof.
  intros Hg H. unfold invoke_http in H.
  destruct (resource _ _) as [r|] eqn:Er; [|injection H as <-; apply ends_refused].
  assert (contact_of ex (rc_tool c) (ContactSecret (ar_auth r))) as Hown by (by exists r).
  destruct (ensure_allowed c) as [[]|e]; [|injection H as <-; apply ends_refused].
  specialize (Hg eq_refl). destruct (admit_call c s) as [s1 [a|e]] eqn:Ea.
  2: { injection H as <-. destruct (admit_error _ _ _ _ Ea) as [le ->]. by eapply ends_limited. }
  destruct (resolve_upstream_secret r s1) as [touched [secret|e]] eqn:Es.
  2: { injection H as <-. apply (ends_ran _ _ _ c a s1); [done..|].
       unfold resolve_upstream_secret in Es. destruct (resource_pool r s1); [done|].
       injection Es as <- _. split; [done..|by intros; apply Forall_singleton|].
       left. by repeat split; eauto. }
  cbn [next_request_id] in H. apply bind_Returns_inv in H as ([[pool log] res] & _ & H).
  apply bind_Returns_inv in H as ([[s2 a2] r'] & Hf & H). injection H as <-.
  apply (ends_ran _ _ _ c a s1); [done..|].
  set (contacts := touched ++ [ContactHttp (http_request c r args secret) log]) in *.
  assert (contacts <> []) as Hne by (by destruct touched).
  assert (Forall (contact_of ex (rc_tool c)) contacts) as Hall.
  { apply Forall_app. split; [|apply Forall_singleton; by exists r].
    unfold resolve_upstream_secret in Es. destruct (resource_pool r s1); injection Es as <- _;
      [done|by apply Forall_singleton]. }
  match type of Hf with context [store_pool r pool ?x] =>
    pose proof (store_pool_frame r pool x) as [P1 P2] end. cbn [limits events] in P1, P2.
  destruct res as [u|e].
  - apply finish_http_success_ran in Hf as (H1 & H2 & H3). cbn [await with_limits limits events] in *.
    rewrite P1 in H1. rewrite P2 in H3. split; [exact H1|exact H2|done|done|by right].
  - injection Hf as <- <- <-. split; [cbn; by rewrite P1|done|done|done|]. right. cbn [is_Ok].
    destruct (finish_failed_ran c a (request_id_of (request_counter s1)) (ee_key_ref e)
      (proxy_error e) (ee_retry_count e) (ee_latency_ms e) (await (store_pool r pool
      (next_request_id s1).1))) as (ev & E1 & E2).
    exists ev. split; [|done]. etransitivity; [exact E1|].
    f_equal. exact P2.
Qed.

(** Every call ends in one of the three ways. *)
Lemma invoke_call_ends ex w args key extras s x :
  invoke_call ex w args key extras s = Returns x -> call_ends ex key s x.
Proof.
  unfold invoke_call. intros (call & Hc & H)%bind_Returns_inv.
  unfold resolve_call in Hc. destruct (resolve_tool ex w key) as [t|e] eqn:Et.
  2: { injection Hc as <-. injection H as <-. apply ends_refused. }
  apply bind_Returns_inv in Hc as (cap & _ & Hc). injection Hc as <-.
  destruct (check_quarantine ex w (wire t)) as [[]|e] eqn:Eq; cbn in H.
  2: { injection H as <-. apply ends_refused. }
  assert (forall c, c = mkResolvedCall w key t (wire t) cap -> ensure_allowed c = Ok tt ->
    gate ex key c) as Hg.
  { intros c -> Ha. split; [done|by eapply resolve_tool_elem|done| |done].
    unfold check_quarantine in Eq. cbn.
    by destruct (q ← quarantined ex; q !! wire t). }
  destruct (mcp_registry ex) as [reg|]; [case_if_in H|].
  - eapply invoke_remote_mcp_ends; [|exact H]. by apply Hg.
  - eapply invoke_http_ends; [|exact H]. by apply Hg.
  - eapply invoke_http_ends; [|exact H]. by apply Hg.
Qed.
Lemma gate_in_scope `{!RegexLaws RE} ex key c :
  gate ex key c -> in_scope key (wire (rc_tool c)) (resource_id (rc_tool c)).
Proof.
  intros [Hk _ _ _ Ha]. unfold ensure_allowed in Ha. rewrite Hk in Ha.
  destruct (key_can_use_tool _ _ _) as [[]|] eqn:E; try done.
  by apply (key_can_use_name_in_scope _ _ _ _ E).
Qed.

(** The resources of an admission given back: the guard, committed or not, and the
    permit that was taken. *)
Definition give_back (k u : string) (p committed : bool) (R : LimitRegistry) : LimitRegistry :=
  let R := drop_guard k committed ce_drop_now (ce_others R) in
  if p then drop_permit u R else R.

(** What a call adds to the count of the day of its admission: one when it succeeds;
    none when it fails before that day is over, or before it was admitted; and one
    when it fails after midnight, since the refund leaves the count of a past day. *)
Definition counted {G : Governor} {CE : CallEnv} (committed ran : bool) : Z :=
  if committed then 1
  else if date_naive ce_drop_now =? date_naive ce_admit_now then 0
  else if ran then 1 else 0.

(** The total counts an admission once when it is committed and not at all when it
    is not, and the day of the admission by [counted]. *)
Lemma admission_counted k u b R R1 p :
  (forall R, usage (ce_others R) = usage R) ->
  0 <= total_calls k R < u64_max -> 0 <= calls_on (date_naive ce_admit_now) k R < u64_max ->
  admit_at k u ce_admit_now ce_clock ce_wait R = (R1, Ok p) ->
  total_calls k (give_back k u p b R1) = total_calls k R + (if b then 1 else 0) /\
  calls_on (date_naive ce_admit_now) k (give_back k u p b R1) =
    calls_on (date_naive ce_admit_now) k R + counted b true.
Proof.
  intros Ho Ht Hc Hadm.
  pose proof (admit_usage k u ce_admit_now ce_clock ce_wait R) as Hu. rewrite Hadm in Hu.
  assert (usage (give_back k u p b R1) =
    usage (drop_guard k b ce_drop_now (record_call k ce_admit_now R))) as E.
  { transitivity (usage (drop_guard k b ce_drop_now (ce_others R1))).
    - unfold give_back. destruct p; [|done].
      by destruct (drop_permit_quotas u (drop_guard k b ce_drop_now (ce_others R1))) as [-> _].
    - destruct b; cbn; by rewrite Ho, Hu. }
  destruct (admitted_call_counts k ce_admit_now ce_drop_now R b Ht Hc) as [K1 K2].
  unfold total_calls, calls_on in *. by rewrite E.
Qed.

Lemma counted_same_day (b ran : bool) :
  date_naive ce_drop_now = date_naive ce_admit_now -> counted b ran = if b then 1 else 0.
Proof. intros Hd. unfold counted. by rewrite (proj2 (Z.eqb_eq _ _) Hd). Qed.

(** On one day an admission counts once when it is committed and not at all when it
    is not. *)
Lemma admission_counts k u b R R1 p :
  (forall R, usage (ce_others R) = usage R) ->
  date_naive ce_drop_now = date_naive ce_admit_now ->
  0 <= total_calls k R < u64_max -> 0 <= calls_on (date_naive ce_admit_now) k R < u64_max ->
  admit_at k u ce_admit_now ce_clock ce_wait R = (R1, Ok p) ->
  total_calls k (give_back k u p b R1) = total_calls k R + (if b then 1 else 0) /\
  calls_on (date_naive ce_admit_now) k (give_back k u p b R1) =
    calls_on (date_naive ce_admit_now) k R + (if b then 1 else 0).
Proof.
  intros Ho Hd Ht Hc Hadm.
  destruct (admission_counted k u b R R1 p Ho Ht Hc Hadm) as [H1 H2].
  by rewrite (counted_same_day b true Hd) in H2.
Qed.

(** An admission takes one permit at most, and giving back returns it. *)
Lemma admission_permits k u v b R R1 p :
  (forall R, permits_of v (ce_others R) = permits_of v R) ->
  admit_at k u ce_admit_now ce_clock ce_wait R = (R1, Ok p) ->
  permits_of v (give_back k u p b R1) = permits_of v R.
Proof.
  intros Ho Hadm.
  pose proof (admit_permits k u ce_admit_now ce_clock ce_wait v R) as Hp. rewrite Hadm in Hp.
  assert (permits_of v (drop_guard k b ce_drop_now (ce_others R1)) = permits_of v R1) as Hg
    by (rewrite <- (Ho R1); by destruct b).
  unfold give_back. destruct p; [|by rewrite Hg]. rewrite drop_permit_permits.
  destruct Hp as (n & Hn & Hp). destruct (decide (u = v)) as [<-|Hne]; rewrite Hg, Hp; [|done].
  rewrite Hn. cbn. f_equal. lia.
Qed.

Lemma admit_call_Some c s R s1 res :
  limits s = Some R -> admit_call c s = (s1, res) ->
  match admit_at (pk_id (rc_key c)) (resource_id (rc_tool c)) ce_admit_now ce_clock ce_wait R with
  | (R1, Ok p) => s1 = with_limits s (Some R1) /\ res = Ok (mkAdmission true p)
  | (R1, Err e) => limits s1 = Some R1 /\ res = Err (PE_Limit e)
  end.
Proof.
  intros HR. unfold admit_call. rewrite HR.
  destruct (admit_at _ _ _ _ _ R) as [R1 [p|e]]; by intros [= <- <-].
Qed.

(** Dropping what is left of the admission of a call that ran gives it back. *)
Lemma ran_gives_back ex c p R1 s s2 a2 contacts r :
  ran ex c (mkAdmission true p) (with_limits s (Some R1)) s2 a2 contacts r ->
  limits (drop_admission c a2 s2) =
    Some (give_back (pk_id (rc_key c)) (resource_id (rc_tool c)) p (is_Ok r) R1).
Proof. intros [Hl -> _ _ _]. cbn. rewrite Hl. cbn. by destruct (is_Ok r), p. Qed.

(** The counts of the key after a call; a call that was admitted touches something. *)
Lemma invoke_counted ex w args key extras s s' contacts r R :
  (forall R, usage (ce_others R) = usage R) ->
  limits s = Some R ->
  0 <= total_calls (pk_id key) R < u64_max ->
  0 <= calls_on (date_naive ce_admit_now) (pk_id key) R < u64_max ->
  invoke_call ex w args key extras s = Returns (s', contacts, r) ->
  exists R', limits s' = Some R' /\
    total_calls (pk_id key) R' = total_calls (pk_id key) R + (if is_Ok r then 1 else 0) /\
    calls_on (date_naive ce_admit_now) (pk_id key) R' =
      calls_on (date_naive ce_admit_now) (pk_id key) R +
        counted (is_Ok r) (negb (bool_decide (length contacts = 0%nat))).
Proof.
  assert (counted false false = 0) as H0 by (unfold counted; by case_match).
  intros Ho HR Ht Hc H. apply invoke_call_ends in H.
  inversion H as [e|c s1 le Hg Hadm|c a s1 s2 a2 cs r' [Hk _ _ _ _] Hadm Hran]; subst.
  { exists R. split; [done|]. cbn [is_Ok length]. rewrite bool_decide_true by done. cbn [negb].
    rewrite H0. lia. }
  all: apply (admit_call_Some _ _ R) in Hadm; [|done].
  - pose proof (admit_usage (pk_id (rc_key c)) (resource_id (rc_tool c)) ce_admit_now ce_clock
      ce_wait R) as Hu.
    destruct (admit_at _ _ _ _ _ R) as [R1 [p|e]]; destruct Hadm as [Hs1 [=]].
    exists R1. split; [done|]. unfold total_calls, calls_on. rewrite Hu. cbn [is_Ok length].
    rewrite bool_decide_true by done. cbn [negb]. rewrite H0. lia.
  - destruct (admit_at _ _ _ _ _ R) as [R1 [p|e]] eqn:E; destruct Hadm as [Hs1 [=]]; subst.
    rewrite (ran_gives_back _ _ _ _ _ _ _ _ _ Hran). eexists. split; [done|].
    destruct Hran as [_ _ Hne _ _]. rewrite bool_decide_false by (by destruct contacts).
    by apply (admission_counted _ _ _ R).
Qed.

(** On one day they go up by one when the call succeeds and stay otherwise. *)
Lemma invoke_counts ex w args key extras s s' contacts r R :
  (forall R, usage (ce_others R) = usage R) ->
  date_naive ce_drop_now = date_naive ce_admit_now ->
  limits s = Some R ->
  0 <= total_calls (pk_id key) R < u64_max ->
  0 <= calls_on (date_naive ce_admit_now) (pk_id key) R < u64_max ->
  invoke_call ex w args key extras s = Returns (s', contacts, r) ->
  exists R', limits s' = Some R' /\
    total_calls (pk_id key) R' = total_calls (pk_id key) R + (if is_Ok r then 1 else 0) /\
    calls_on (date_naive ce_admit_now) (pk_id key) R' =
      calls_on (date_naive ce_admit_now) (pk_id key) R + (if is_Ok r then 1 else 0).
Proof.
  intros Ho Hd HR Ht Hc H.
  destruct (invoke_counted _ _ _ _ _ _ _ _ _ R Ho HR Ht Hc H) as (R' & H1 & H2 & H3).
  rewrite (counted_same_day _ _ Hd) in H3. by exists R'.
Qed.
End CallLemmas.

(** ** Properties *)


(** C2: a call moves the counts of its key by what it did, and by
    nothing else.  Whenever a call returns, while other tasks leave the counters
    alone and the counts are below the largest 64-bit integer, the key's total goes up
    by exactly one when the call succeeds and stays as it was when it fails, on every
    path: refused, limited, failed while resolving the secret or failed upstream.  The
    count of the day the call was admitted goes up by one when the call succeeds and
    stays when it fails on that day or before it was admitted; a call that was
    admitted, which is one that contacts anything, and fails after midnight UTC stays
    counted on the day before. *)
Theorem call_counts_once {G : Governor} {RE : RegexEngine} {RR : RegexReplace} {UP : UrlParser}
    {U : Upstream} {HO : HashOrder} {CE : CallEnv} ex w args key extras s s' contacts r R :
  (forall R, usage (ce_others R) = usage R) ->
  limits s = Some R ->
  0 <= total_calls (pk_id key) R < u64_max ->
  0 <= calls_on (date_naive ce_admit_now) (pk_id key) R < u64_max ->
  invoke_call ex w args key extras s = Returns (s', contacts, r) ->
  exists R', limits s' = Some R' /\
    total_calls (pk_id key) R' = total_calls (pk_id key) R + (if is_Ok r then 1 else 0) /\
    calls_on (date_naive ce_admit_now) (pk_id key) R' =
      calls_on (date_naive ce_admit_now) (pk_id key) R +
        (if is_Ok r then 1
         else if date_naive ce_drop_now =? date_naive ce_admit_now then 0
         else match contacts with [] => 0 | _ :: _ => 1 end).
Proof.
  intros Ho HR Ht Hc H.
  destruct (invoke_counted _ _ _ _ _ _ _ _ _ R Ho HR Ht Hc H) as (R' & H1 & H2 & H3).
  exists R'. split_and!; [done..|]. rewrite H3. unfold counted. by destruct contacts.
Qed.

(** C18: a call gives back the concurrency slot it took, on every
    path: when other tasks leave the free permits alone, they are the same before
    and after the call, for every upstream. *)
Theorem call_returns_permit {G : Governor} {RE : RegexEngine} {RR : RegexReplace} {UP : UrlParser}
    {U : Upstream} {HO : HashOrder} {CE : CallEnv} ex w args key extras s s' contacts r R v :
  (forall R, permits_of v (ce_others R) = permits_of v R) ->
  limits s = Some R ->
  invoke_call ex w args key extras s = Returns (s', contacts, r) ->
  exists R', limits s' = Some R' /\ permits_of v R' = permits_of v R.
Proof.
  intros Ho HR H. apply invoke_call_ends in H.
  inversion H as [e|c s1 le Hg Hadm|c a s1 s2 a2 cs r' _ Hadm Hran]; subst; [by eauto| |];
    apply (admit_call_Some _ _ R) in Hadm; [|done| |done];
    pose proof (admit_permits (pk_id (rc_key c)) (resource_id (rc_tool c)) ce_admit_now ce_clock
      ce_wait v R) as Hp;
    destruct (admit_at _ _ _ _ _ R) as [R1 [p|e]] eqn:E; destruct Hadm as [Hs1 [=]]; subst.
  - by exists R1.
  - rewrite (ran_gives_back _ _ _ _ _ _ _ _ _ Hran). eexists. split; [done|].
    by apply (admission_permits _ _ _ _ R).
Qed.

(** A call records at most one event.  A success records exactly
    one, with status success and the canonical name of the tool; a rejection by
    the limits exactly one, marked as rate limited; every upstream failure
    exactly one, which is not a success. *)
Theorem call_records_event {G : Governor} {RE : RegexEngine} {RR : RegexReplace} {UP : UrlParser}
    {U : Upstream} {HO : HashOrder} {CE : CallEnv} ex w args key extras s s' contacts r :
  invoke_call ex w args key extras s = Returns (s', contacts, r) ->
  (events s' = events s /\ is_Ok r = false /\
     (contacts = [] \/ exists auth, contacts = [ContactSecret auth])) \/
  exists c e, events s' = events s ++ [e] /\ gate ex key c /\
    (event_for c r e \/
     (ev_status e = RS_Limited /\ ev_rate_limited e = true /\ ev_tool_name e = canonical c /\
      contacts = [] /\ exists le, r = Err (PE_Limit le))).
Proof.
  intros H. apply invoke_call_ends in H.
  assert (forall c s1 a, admit_call c s = (s1, Ok a) -> events s1 = events s) as Ha.
  { intros c s1 a. unfold admit_call. destruct (limits s); [|naive_solver].
    destruct (admit_at _ _ _ _ _ _) as [R' [p|le]]; [|done]. intros K. by injection K as <- _. }
  inversion H as [e|c s1 le Hg Hadm|c a s1 s2 a2 cs r' Hg Hadm [_ _ _ _ He]]; subst.
  - left. by repeat split; auto.
  - right. unfold admit_call in Hadm. destruct (limits s) as [R|]; [|done].
    destruct (admit_at _ _ _ _ _ _) as [R' [p|e]]; [done|]. injection Hadm as <- <-.
    eexists c, _. split; [done|]. split; [done|]. right. repeat split. eauto.
  - rewrite <- (Ha _ _ _ Hadm). destruct He as [(He & Hr & Hc)|(ev & He & Hev)].
    + left. by repeat split; auto.
    + right. exists c, ev. split; [done|]. split; [done | by left].
Qed.

(** ** Witnesses *)

Definition demo_tool : WrappedTool :=
  mkWrappedTool (mkToolName "search" "tavily" "web") "tavily" "" "/ping" Get default_input_schema
    None None.

Definition demo_resource : ApiResource :=
  mkApiResource "tavily" "search" "tavily" "https://api.example" "" AuthNone None [] None
    SecurityConfig_default None.

Definition demo_gateway : Executor :=
  mkExecutor (with_api_resources GatewayConfig_default [demo_resource])
    (mkToolCatalog [demo_tool] ∅ ∅) demo_executor None None Json true.

Definition demo_caller : ProxyKey :=
  mkProxyKey "k" "" [] [] ["tavily"] [] None None None None 20 None None.

Definition demo_env : CallEnv (G := open_governor) := {|
  ce_admit_now := 0; ce_clock := fun _ => 0; ce_wait := Acquired; ce_drop_now := 5;
  ce_event_now := 4; ce_elapsed := from_secs 1; ce_cache_sweep := 4; ce_cache_now := 4;
  ce_others := fun R => R; json_parse := fun _ => None; tool_result_json := fun _ => "{}";
  to_lowercase := fun s => s;
|}.

(** One call of quota for key [k], and one slot for upstream [tavily]. *)
Definition demo_registry : LimitRegistry (G := open_governor) :=
  mkLimitRegistry (G := open_governor)
    {["tavily" := mkUpstreamEntry (G := open_governor) None None (Some (mkRequestQueue 1 0))]}
    {["k" := mkLimitKeyEntry (G := open_governor) None None (Some 1) None]} ∅.

Definition demo_state : GatewayState (G := open_governor) :=
  mkGatewayState (G := open_governor) (Some demo_registry) None None [] [] 0.

Definition demo_invoke (tool : string) :=
  invoke_call (G := open_governor) (RR := no_matches) (UP := demo_parser) (U := demo_upstream)
    (HO := list_order) (CE := demo_env) demo_gateway tool (JObject []) demo_caller
    (mkToolCallExtras None None) demo_state.


Lemma call_counts_once_witness :
  exists s' contacts r R', demo_invoke "web" = Returns (s', contacts, r) /\
    limits s' = Some R' /\ total_calls (G := open_governor) "k" R' = 1.
Proof.
  destruct (demo_invoke "web") as [[[s' contacts] r]|] eqn:E; [|vm_compute in E; discriminate].
  assert (is_Ok r = true) as Hr by (vm_compute in E; by injection E as _ _ <-).
  destruct (call_counts_once (G := open_governor) (RR := no_matches) (UP := demo_parser)
    (U := demo_upstream) (HO := list_order) (CE := demo_env) demo_gateway "web" (JObject [])
    demo_caller (mkToolCallExtras None None) demo_state s' contacts r demo_registry)
    as (R' & H1 & H2 & _);
    [done | reflexivity | vm_compute; split; congruence
     | vm_compute; split; congruence | exact E |].
  exists s', contacts, r, R'. split; [done|]. split; [done|]. rewrite Hr in H2. exact H2.
Defined.

Lemma call_returns_permit_witness :
  exists s' contacts r R', demo_invoke "web" = Returns (s', contacts, r) /\
    limits s' = Some R' /\ permits_of (G := open_governor) "tavily" R' = Some 1.
Proof.
  destruct (demo_invoke "web") as [[[s' contacts] r]|] eqn:E; [|vm_compute in E; discriminate].
  destruct (call_returns_permit (G := open_governor) (RR := no_matches) (UP := demo_parser)
    (U := demo_upstream) (HO := list_order) (CE := demo_env) demo_gateway "web" (JObject [])
    demo_caller (mkToolCallExtras None None) demo_state s' contacts r demo_registry "tavily")
    as (R' & H1 & H2); [done | reflexivity | exact E |].
  exists s', contacts, r, R'. done.
Defined.

Lemma call_records_event_witness :
  exists s' contacts r e, demo_invoke "web" = Returns (s', contacts, r) /\
    events s' = [e] /\ ev_status e = RS_Success.
Proof.
  destruct (demo_invoke "web") as [[[s' contacts] r]|] eqn:E; [|vm_compute in E; discriminate].
  assert (is_Ok r = true) as Hr by (vm_compute in E; by injection E as _ _ <-).
  destruct (call_records_event (G := open_governor) (RR := no_matches) (UP := demo_parser)
    (U := demo_upstream) (HO := list_order) (CE := demo_env) demo_gateway "web" (JObject [])
    demo_caller (mkToolCallExtras None None) demo_state s' contacts r E)
    as [(_ & H & _)|(c & e & He & _ & [Hev|(_ & _ & _ & _ & le & H)])].
  - congruence.
  - exists s', contacts, r, e. split; [done|]. split; [exact He|]. by apply Hev.
  - subst r. discriminate.
Defined.
