(* ===== verification/Integrity.v ===== *)
(** * Tool integrity ([src/src/integrity.rs])

    Fingerprints of tool definitions, the pinned baseline, the drift events
    between the baseline and a new tool list, and the quarantine that follows
    from them.  The refresh task is the only writer of the baseline and of the
    quarantine set, so [check_drift] is one function on both.  The order in which
    the hash map yields its keys is a parameter ([PinOrder]). *)

From S2P Require Import Prelude RustStr Naming Errors Config Policy Secrets GatewayAuth.
From S2P Require Import Catalog KeyPool Limits Egress Shaping Render Retry Observe Invoke.
From Stdlib Require Import Ascii.

Local Open Scope string_scope.
Local Open Scope list_scope.
Local Open Scope Z_scope.
Local Open Scope gateway_scope.

(** ** Fingerprints *)

(** [mcp/model.rs] *)
Record ToolDescriptor := mkToolDescriptor {
  td_name : string;
  td_description : string;
  td_input_schema : JSON;
}.

Record ToolFingerprint := mkToolFingerprint {
  tf_tool_name : string;
  fp : string;
  read_only_hint : option bool;
  destructive_hint : option bool;
  first_seen : Z;
  last_changed : Z;
}.

Definition read_hint (schema : JSON) (key : string) : option bool :=
  match (a ← json_get "annotations" schema; h ← json_get key a; as_bool h) with
  | Some b => Some b
  | None => h ← json_get key schema; as_bool h
  end.

Inductive IntegrityEvent :=
| ToolChanged (tool_name old_fp new_fp : string)
| ToolAdded (tool_name : string)
| ToolRemoved (tool_name : string)
| HintFlipped (tool_name hint : string) (old new : option bool).

Definition event_tool_name (e : IntegrityEvent) : string :=
  match e with
  | ToolChanged n _ _ | ToolAdded n | ToolRemoved n | HintFlipped n _ _ _ => n
  end.

Definition policy_to_string (p : IntegrityPolicy) : string :=
  match p with Warn => "warn" | Quarantine => "quarantine" | Block => "block" end.

Definition policy_from_str (s : string) : result string IntegrityPolicy :=
  if s =s "warn" then Ok Warn
  else if s =s "quarantine" then Ok Quarantine
  else if s =s "block" then Ok Block
  else Err ("unknown integrity policy: " +:+ s).

Lemma policy_roundtrip p : policy_from_str (policy_to_string p) = Ok p.
Proof. by destruct p. Qed.

Notation Pins := (gmap string ToolFingerprint).

Class PinOrder := { pin_order : Pins -> list string }.
Class PinOrderLaws (O : PinOrder) : Prop := {
  pin_order_keys pins : pin_order pins ≡ₚ (map_to_list pins).*1 }.

(** [json!] of a hint value. *)
Definition hint_json (o : option bool) : JSON :=
  match o with Some b => JBool b | None => JNull end.

(** [SecurityEventKind::from_integrity_event] ([observability/security.rs]); the
    fields of the JSON object are in key order. *)
Definition from_integrity_event (e : IntegrityEvent) : SecurityEventKind * Severity * JSON :=
  match e with
  | ToolChanged n old_fp new_fp =>
      (IntegrityToolChanged, SevWarn,
       JObject [("new_fp", JString new_fp); ("old_fp", JString old_fp); ("tool_name", JString n)])
  | ToolAdded n => (IntegrityToolAdded, SevInfo, JObject [("tool_name", JString n)])
  | ToolRemoved n => (IntegrityToolRemoved, SevWarn, JObject [("tool_name", JString n)])
  | HintFlipped n hint old new =>
      (IntegrityHintFlipped, SevWarn,
       JObject [("hint", JString hint); ("new", hint_json new); ("old", hint_json old);
                ("tool_name", JString n)])
  end.

Section Integrity.
Context {H : Sha256} {S : Serializers} {O : PinOrder}.

(** What is hashed. *)
Definition definition_text (d : ToolDescriptor) : string :=
  td_name d +:+ nl +:+ td_description d +:+ nl +:+ value_to_string (td_input_schema d).

Definition fingerprint (d : ToolDescriptor) : string :=
  "v1:" +:+ encode_hex (sha256 (definition_text d)).

(** ** The baseline *)

Definition pin_of (now : Z) (d : ToolDescriptor) : ToolFingerprint :=
  mkToolFingerprint (td_name d) (fingerprint d) (read_hint (td_input_schema d) "readOnlyHint")
    (read_hint (td_input_schema d) "destructiveHint") now now.

Definition pin_one (now : Z) (pins : Pins) (d : ToolDescriptor) : Pins :=
  match pins !! td_name d with
  | Some _ => pins
  | None => <[td_name d := pin_of now d]> pins
  end.

Definition pin_tools (now : Z) (tools : list ToolDescriptor) (pins : Pins) : Pins :=
  fold_left (pin_one now) tools pins.

Definition rebase (now : Z) (tools : list ToolDescriptor) (pins : Pins) : Pins :=
  pin_tools now tools ∅.

Definition hint_flip (d : ToolDescriptor) (hint : string) (old : option bool)
    : list IntegrityEvent :=
  let new := read_hint (td_input_schema d) hint in
  if bool_decide (new = old) then [] else [HintFlipped (td_name d) hint old new].

Definition tool_events (pins : Pins) (d : ToolDescriptor) : list IntegrityEvent :=
  match pins !! td_name d with
  | Some pinned =>
      (if fingerprint d =s fp pinned then []
       else [ToolChanged (td_name d) (fp pinned) (fingerprint d)])
        ++ hint_flip d "readOnlyHint" (read_only_hint pinned)
        ++ hint_flip d "destructiveHint" (destructive_hint pinned)
  | None => [ToolAdded (td_name d)]
  end.

Definition check (tools : list ToolDescriptor) (pins : Pins) : list IntegrityEvent :=
  List.concat (tool_events pins <$> tools)
    ++ (ToolRemoved <$>
          List.filter (fun n => negb (n ∈s (td_name <$> tools))) (pin_order pins)).

(** ** Drift *)

Notation Quarantined := (gmap string IntegrityPolicy).

Definition resource_of (pairs : list (string * ToolDescriptor)) (wire_name : string) : string :=
  default "" (fst <$> List.find (fun p => td_name p.2 =s wire_name) pairs).

Definition drift_policy (c : GatewayConfig) (res_id : string) : option IntegrityPolicy :=
  match mcp_server c res_id with
  | Some s => Some (integrity_policy (ms_security s))
  | None => (fun r => integrity_policy (ar_security r)) <$> resource c res_id
  end.

Definition isolates (p : IntegrityPolicy) : bool :=
  match p with Warn => false | Quarantine | Block => true end.

(** One event: the security event to store, and the quarantine it causes. *)
Definition drift_event (now : Z) (pairs : list (string * ToolDescriptor)) (e : IntegrityEvent)
    : SecurityEvent :=
  let '(kind, severity, details) := from_integrity_event e in
  mkSecurityEvent now (resource_of pairs (event_tool_name e)) (Some (event_tool_name e)) kind
    severity details.

Definition quarantine_event (c : GatewayConfig) (pairs : list (string * ToolDescriptor))
    (q : Quarantined) (e : IntegrityEvent) : Quarantined :=
  let res_id := resource_of pairs (event_tool_name e) in
  if is_empty res_id then q
  else match drift_policy c res_id with
       | Some p => if isolates p then <[event_tool_name e := p]> q else q
       | None => q
       end.

(** [pairs] is the registry's list of (resource, descriptor); the result is the
    new baseline, the new quarantine set and the events offered to the store. *)
Definition check_drift (now : Z) (c : GatewayConfig) (pairs : list (string * ToolDescriptor))
    (pins : Pins) (q : Quarantined) : Pins * Quarantined * list SecurityEvent :=
  let descriptors := snd <$> pairs in
  match check descriptors pins with
  | [] => (rebase now descriptors pins, q, [])
  | events =>
      (rebase now descriptors pins, fold_left (quarantine_event c pairs) events q,
       drift_event now pairs <$> events)
  end.

Definition pin_initial_baseline (now : Z) (pairs : list (string * ToolDescriptor)) (pins : Pins)
    : Pins := rebase now (snd <$> pairs) pins.
End Integrity.

(** ** What drift means *)

Section Drift.
Context {H : Sha256} {S : Serializers} {O : PinOrder} {OL : PinOrderLaws O}.

(** The pin still describes the tool. *)
Definition matches_pin (d : ToolDescriptor) (p : ToolFingerprint) : Prop :=
  fp p = fingerprint d /\
  read_only_hint p = read_hint (td_input_schema d) "readOnlyHint" /\
  destructive_hint p = read_hint (td_input_schema d) "destructiveHint".

Definition undrifted (pins : Pins) (d : ToolDescriptor) : Prop :=
  exists p, pins !! td_name d = Some p /\ matches_pin d p.

(** The policy that takes the tool [n] out of service, if its resource has one. *)
Definition isolation (c : GatewayConfig) (pairs : list (string * ToolDescriptor)) (n : string)
    : option IntegrityPolicy :=
  if is_empty (resource_of pairs n) then None
  else p ← drift_policy c (resource_of pairs n); if isolates p then Some p else None.

Lemma hint_flip_nil d hint old :
  hint_flip d hint old = [] <-> old = read_hint (td_input_schema d) hint.
Proof. unfold hint_flip. case_bool_decide; split; congruence. Qed.

Lemma tool_events_nil pins d : tool_events pins d = [] <-> undrifted pins d.
Proof.
  unfold tool_events, undrifted, matches_pin. destruct (pins !! td_name d) as [p|]; [|naive_solver].
  rewrite !app_nil, !hint_flip_nil.
  destruct (String.eqb_spec (fingerprint d) (fp p)); naive_solver.
Qed.

Lemma tool_events_name pins d e : e ∈ tool_events pins d -> event_tool_name e = td_name d.
Proof.
  unfold tool_events, hint_flip.
  repeat (case_match || case_bool_decide); set_solver.
Qed.

Lemma removed_nil (tools : list ToolDescriptor) (pins : Pins) :
  List.filter (fun n => negb (n ∈s (td_name <$> tools))) (pin_order pins) = [] <->
  forall n, is_Some (pins !! n) -> n ∈ td_name <$> tools.
Proof.
  split.
  - intros Hf n [p Hp]. apply existsb_eqb_elem. apply not_false_iff_true. intros Hn.
    assert (n ∈ List.filter (fun n => negb (n ∈s (td_name <$> tools))) (pin_order pins)) as Hin.
    { rewrite filter_elem, pin_order_keys, Hn. split; [|done].
      apply list_elem_of_fmap. exists (n, p). split; [done|]. by apply elem_of_map_to_list. }
    rewrite Hf in Hin. by apply not_elem_of_nil in Hin.
  - intros Hall. apply filter_none. intros n Hn.
    rewrite pin_order_keys in Hn. apply list_elem_of_fmap in Hn as ([k p] & -> & Hn).
    apply elem_of_map_to_list in Hn. apply negb_false_iff, existsb_eqb_elem. eauto.
Qed.

Lemma concat_nil_iff {A B} (f : A -> list B) l :
  List.concat (f <$> l) = [] <-> forall x, x ∈ l -> f x = [].
Proof.
  induction l as [|x l IH]; cbn; [split; [set_solver|done]|].
  rewrite app_nil, IH. setoid_rewrite elem_of_cons. naive_solver.
Qed.

Lemma fmap_nil_iff {A B} (f : A -> B) (l : list A) : f <$> l = [] <-> l = [].
Proof. by destruct l. Qed.

Lemma find_named tools d :
  NoDup (td_name <$> tools) -> d ∈ tools ->
  List.find (fun x => td_name x =s td_name d) tools = Some d.
Proof. apply find_unique. Qed.

(** A folded pin: an entry that is there stays, otherwise the first tool of that
    name is pinned. *)
Lemma pin_tools_lookup now tools pins n :
  pin_tools now tools pins !! n =
    match pins !! n with
    | Some p => Some p
    | None => pin_of now <$> List.find (fun d => td_name d =s n) tools
    end.
Proof.
  unfold pin_tools. revert pins. induction tools as [|d tools IH]; cbn; intros pins.
  - by destruct (pins !! n).
  - rewrite IH. unfold pin_one. destruct (String.eqb_spec (td_name d) n) as [<-|Hne].
    + destruct (pins !! td_name d) as [p|] eqn:E; [by rewrite E|]. by rewrite lookup_insert_eq.
    + destruct (pins !! td_name d); [done|]. by rewrite lookup_insert_ne.
Qed.

(** The quarantine set after a list of events. *)
Lemma quarantine_lookup c pairs (l : list IntegrityEvent) (q : gmap string IntegrityPolicy) n :
  fold_left (quarantine_event c pairs) l q !! n =
    match isolation c pairs n with
    | Some p => if n ∈s (event_tool_name <$> l) then Some p else q !! n
    | None => q !! n
    end.
Proof.
  revert q. induction l as [|e l IH]; cbn; intros q; [by destruct (isolation c pairs n)|].
  rewrite IH. unfold isolation at 1, quarantine_event.
  destruct (String.eqb_spec n (event_tool_name e)) as [->|Hne]; cbn.
  - unfold isolation. destruct (is_empty _); [done|].
    destruct (drift_policy _ _) as [p|]; cbn; [|done].
    destruct (isolates p); cbn; [|done]. rewrite lookup_insert_eq. by destruct (existsb _ _).
  - fold (isolation c pairs n).
    assert (forall p (q' : gmap string IntegrityPolicy),
      <[event_tool_name e := p]> q' !! n = q' !! n) as Hi by (intros; by rewrite lookup_insert_ne).
    destruct (is_empty (resource_of pairs (event_tool_name e))); [done|].
    destruct (drift_policy c (resource_of pairs (event_tool_name e))) as [p|]; [|done].
    destruct (isolates p); [|done]. by rewrite Hi.
Qed.

Lemma check_drift_quarantine now c pairs pins q pins' q' evs :
  check_drift now c pairs pins q = (pins', q', evs) ->
  pins' = rebase now (snd <$> pairs) pins /\
  q' = fold_left (quarantine_event c pairs) (check (snd <$> pairs) pins) q /\
  evs = drift_event now pairs <$> check (snd <$> pairs) pins.
Proof. unfold check_drift. destruct (check _ _); intros [= <- <- <-]; done. Qed.

Lemma drifted_name pins tools d :
  d ∈ tools -> ~ undrifted pins d ->
  td_name d ∈s (event_tool_name <$> check tools pins) = true.
Proof.
  intros Hd Hu. rewrite <- tool_events_nil in Hu.
  destruct (tool_events pins d) as [|e l] eqn:E; [done|].
  apply existsb_eqb_elem, list_elem_of_fmap. exists e. split.
  - symmetry. apply (tool_events_name pins). rewrite E. set_solver.
  - apply elem_of_app. left. apply list_elem_of_In, in_concat.
    exists (tool_events pins d). rewrite <- !list_elem_of_In. split; [|rewrite E; set_solver].
    by apply list_elem_of_fmap_2.
Qed.
End Drift.

(** ** One line cut off a text *)

Lemma first_line_unique x x' r r' :
  newlines x = 0%nat -> newlines x' = 0%nat ->
  x +:+ nl +:+ r = x' +:+ nl +:+ r' -> x = x' /\ r = r'.
Proof.
  revert x'. induction x as [|a x IH]; intros [|b x'] Hx Hx' E.
  - by injection E as ->.
  - injection E as <- _. discriminate.
  - injection E as -> _. discriminate.
  - injection E as <- E. cbn in Hx, Hx'.
    destruct (IH x') as [-> ->]; [destruct (Ascii.eqb a newline); lia.. | done | done].
Qed.

Lemma last_line_unique r r' y y' :
  newlines y = 0%nat -> newlines y' = 0%nat ->
  r +:+ nl +:+ y = r' +:+ nl +:+ y' -> r = r' /\ y = y'.
Proof.
  intros Hy Hy'. revert r'. induction r as [|a r IH]; intros [|b r'] E.
  - by injection E as ->.
  - injection E as _ E. apply (f_equal newlines) in E. rewrite newlines_app in E. cbn in E. lia.
  - injection E as _ E. apply (f_equal newlines) in E. rewrite newlines_app in E. cbn in E. lia.
  - injection E as <- E. by destruct (IH r' E) as [-> ->].
Qed.

(** ** Properties *)

(** The fingerprint identifies the definition.  When the hash does
    not collide on the two texts and the name and the printed schema have no line
    break (serde escapes them), equal fingerprints mean the same name, the same
    description and the same printed schema: a changed definition cannot keep its
    pin. *)
Theorem fingerprint_identifies {H : Sha256} {S : Serializers} d d' :
  (sha256 (definition_text d) = sha256 (definition_text d') ->
   definition_text d = definition_text d') ->
  newlines (td_name d) = 0%nat -> newlines (td_name d') = 0%nat ->
  newlines (value_to_string (td_input_schema d)) = 0%nat ->
  newlines (value_to_string (td_input_schema d')) = 0%nat ->
  fingerprint d = fingerprint d' ->
  td_name d = td_name d' /\ td_description d = td_description d' /\
  value_to_string (td_input_schema d) = value_to_string (td_input_schema d').
Proof.
  intros Hinj. unfold fingerprint. intros Hn Hn' Hs Hs' [= E].
  assert (decode_pairs (encode_hex (sha256 (definition_text d))) =
    decode_pairs (encode_hex (sha256 (definition_text d')))) as Hd by by rewrite E.
  rewrite !decode_encode in Hd. injection Hd as Hd. apply Hinj in Hd. clear E Hinj.
  unfold definition_text in Hd.
  apply first_line_unique in Hd as [-> Hd]; [|done..].
  by apply last_line_unique in Hd as [-> ->].
Qed.

(** The check reports no event exactly when nothing drifted: every
    tool is pinned with its present fingerprint and hints, and every pinned tool is
    still there. *)
Theorem no_events_iff {H : Sha256} {S : Serializers} {O : PinOrder} {OL : PinOrderLaws O}
    tools pins :
  check tools pins = [] <->
  (forall d, d ∈ tools -> undrifted pins d) /\
  (forall n, is_Some (pins !! n) -> n ∈ td_name <$> tools).
Proof.
  unfold check. rewrite app_nil, concat_nil_iff, fmap_nil_iff, removed_nil.
  by setoid_rewrite tool_events_nil.
Qed.

(** With distinct names, a refresh that finds the tool list the baseline was
    just built from stores no event and leaves the quarantine set alone. *)
Theorem rebased_list_clean {H : Sha256} {S : Serializers} {O : PinOrder} {OL : PinOrderLaws O}
    now now' c pairs pins q :
  NoDup (td_name <$> (snd <$> pairs)) ->
  check_drift now' c pairs (pin_initial_baseline now pairs pins) q =
    (rebase now' (snd <$> pairs) pins, q, []).
Proof.
  intros Hnd. unfold check_drift, pin_initial_baseline.
  assert (check (snd <$> pairs) (rebase now (snd <$> pairs) pins) = []) as ->; [|done].
  unfold check. rewrite app_nil, concat_nil_iff, fmap_nil_iff, removed_nil. unfold rebase. split.
  - intros d Hd. apply tool_events_nil. exists (pin_of now d). split; [|done].
    rewrite pin_tools_lookup, lookup_empty. apply fmap_Some. exists d. split; [|done].
    by apply find_named.
  - intros n. rewrite pin_tools_lookup, lookup_empty. intros [p (d & Hf & _)%fmap_Some].
    apply find_Some_elem in Hf as [Hd <-%String.eqb_eq]. by apply list_elem_of_fmap_2.
Qed.

(** After a refresh the quarantine set differs from before exactly on
    the tools with a drift event whose resource isolates drifted tools, which carry
    the policy of their resource; no tool leaves the set. *)
Theorem drift_quarantine_exact {H : Sha256} {S : Serializers} {O : PinOrder}
    {OL : PinOrderLaws O} now c pairs pins q pins' q' evs n :
  check_drift now c pairs pins q = (pins', q', evs) ->
  (is_Some (q !! n) -> is_Some (q' !! n)) /\
  q' !! n = match isolation c pairs n with
            | Some p => if n ∈s (event_tool_name <$> check (snd <$> pairs) pins)
                        then Some p else q !! n
            | None => q !! n
            end.
Proof.
  intros (_ & -> & _)%check_drift_quarantine. rewrite quarantine_lookup. split; [|done].
  intros ?. destruct (isolation c pairs n); [case_match|]; eauto.
Qed.

(** C21: a tool whose definition or hints changed, or that is new, is out of
    service as soon as the refresh is done when its resource isolates drift: every
    call that resolves to it is refused, with the state unchanged and without
    touching anything outside the gateway. *)
Theorem drifted_tool_refused {H : Sha256} {S : Serializers} {O : PinOrder} {OL : PinOrderLaws O}
    {G : Governor} {RE : RegexEngine} {RR : RegexReplace} {RL : RegexReplaceLaws RR} {UP : UrlParser}
    {U : Upstream} {HO : HashOrder} {CE : CallEnv}
    now c pairs pins q pins' q' evs d p ex w args key extras s t :
  check_drift now c pairs pins q = (pins', q', evs) ->
  d ∈ snd <$> pairs -> ~ undrifted pins d -> isolation c pairs (td_name d) = Some p ->
  quarantined ex = Some q' -> resolve_tool ex w key = Ok t -> wire t = td_name d ->
  exists message,
    invoke_call ex w args key extras s = Returns (s, [], Err (PE_InvalidToolCall message)).
Proof.
  intros (_ & -> & _)%check_drift_quarantine Hd Hu Hp Hq Ht Hw.
  assert (exists cap, capture_args ex args = Returns cap) as [cap Hcap].
  { unfold capture_args, capture_when. case_match; [|eauto].
    match goal with |- context [capture_text ?a ?b] =>
      destruct (capture_text_returns a b) as [cap Hcap] end.
    exists (Some cap). by rewrite Hcap. }
  unfold invoke_call, resolve_call, check_quarantine.
  rewrite Ht, Hcap, Hq. cbn. rewrite Hw, quarantine_lookup, Hp, drifted_name by done. eauto.
Qed.

(** ** Witnesses *)

(** A hash that keeps the text, a printer of schemas, an order of the keys. *)
Definition plain_hash : Sha256 := {| sha256 := fun s => s |}.
Definition plain_serializers : Serializers :=
  {| norway_to_string := fun _ => Err "unsupported";
     value_to_string := fun v => match v with JBool true => "true" | _ => "{}" end |}.
Definition key_order : PinOrder := {| pin_order := fun pins => (map_to_list pins).*1 |}.

Lemma key_order_laws : PinOrderLaws key_order.
Proof. by constructor. Qed.

Definition demo_web (description : string) : ToolDescriptor :=
  mkToolDescriptor "search__tavily__web" description (JObject []).

(** The only tool of [demo_gateway], of a resource that quarantines drift. *)
Definition demo_watched : GatewayConfig :=
  with_api_resources GatewayConfig_default
    [mkApiResource "tavily" "search" "tavily" "https://api.example" "" AuthNone None [] None
       (mkSecurityConfig Quarantine false None) None].

Lemma fingerprint_identifies_witness :
  fingerprint (H := plain_hash) (S := plain_serializers) (demo_web "find") =
    fingerprint (H := plain_hash) (S := plain_serializers) (demo_web "find") /\
  td_description (demo_web "find") = td_description (demo_web "find").
Proof.
  split; [reflexivity|].
  apply (fingerprint_identifies (H := plain_hash) (S := plain_serializers) (demo_web "find")
    (demo_web "find")); reflexivity.
Defined.

Lemma rebased_list_clean_witness :
  check_drift (H := plain_hash) (S := plain_serializers) (O := key_order) 9 demo_watched
    [("tavily", demo_web "find")]
    (pin_initial_baseline (H := plain_hash) (S := plain_serializers) 1
       [("tavily", demo_web "find")] ∅) ∅ =
  (rebase (H := plain_hash) (S := plain_serializers) 9 [demo_web "find"] ∅, ∅, []).
Proof.
  apply (rebased_list_clean (H := plain_hash) (S := plain_serializers) (O := key_order)
    (OL := key_order_laws)). repeat constructor. set_solver.
Defined.

Definition demo_drift :=
  check_drift (H := plain_hash) (S := plain_serializers) (O := key_order) 9 demo_watched
    [("tavily", demo_web "delete everything")]
    (pin_initial_baseline (H := plain_hash) (S := plain_serializers) 1
       [("tavily", demo_web "find")] ∅) ∅.

Lemma drift_quarantine_exact_witness :
  demo_drift.1.2 !! "search__tavily__web" = Some Quarantine.
Proof.
  destruct demo_drift as [[pins' q'] evs] eqn:E.
  destruct (drift_quarantine_exact (H := plain_hash) (S := plain_serializers) (O := key_order)
    (OL := key_order_laws) _ _ _ _ _ _ _ _ "search__tavily__web" E) as [_ Hq].
  cbn [fst snd]. rewrite Hq. vm_compute. reflexivity.
Defined.

Lemma drifted_tool_refused_witness :
  exists message,
    invoke_call (G := open_governor) (RR := no_matches) (UP := demo_parser) (U := demo_upstream)
      (HO := list_order) (CE := demo_env)
      (mkExecutor demo_watched (catalog demo_gateway) demo_executor None
         (Some demo_drift.1.2) Json true) "web" (JObject []) demo_caller
      (mkToolCallExtras None None) demo_state
    = Returns (demo_state, [], Err (PE_InvalidToolCall message)).
Proof.
  destruct demo_drift as [[pins' q'] evs] eqn:E.
  eapply (drifted_tool_refused (H := plain_hash) (S := plain_serializers) (O := key_order)
    (OL := key_order_laws) (RR := no_matches) (RL := no_matches_laws) _ _ _ _ _ _ _ _
    (demo_web "delete everything") Quarantine); [exact E|..].
  - apply list_elem_of_singleton. reflexivity.
  - intros (p & Hp & Hf & _). vm_compute in Hp. injection Hp as <-. vm_compute in Hf. discriminate.
  - vm_compute. reflexivity.
  - reflexivity.
  - vm_compute. reflexivity.
  - reflexivity.
Defined.

Lemma no_events_iff_witness :
  check (H := plain_hash) (S := plain_serializers) (O := key_order) [] ∅ = [] /\
  check (H := plain_hash) (S := plain_serializers) (O := key_order) [demo_web "find"] ∅ <> [].
Proof.
  split.
  - apply (no_events_iff (H := plain_hash) (S := plain_serializers) (O := key_order)
      (OL := key_order_laws) [] ∅).
    split; [intros d Hd; by apply not_elem_of_nil in Hd|].
    intros n [p Hp]. vm_compute in Hp. discriminate.
  - vm_compute. discriminate.
Defined.
