(* ===== verification/Surface.v ===== *)
(** * Prompts and resources of upstream MCP servers ([src/src/mcp/surface.rs])

    The snapshot of an upstream's prompts, resources and resource templates, the
    downstream names ([asterlane://server/uri]) and the choice of the name that
    the policy checks for a read.  An entry of [rmcp] is a record of the fields
    the gateway reads or rewrites; the rest of the entry, which is forwarded as it
    is, is one JSON value. *)

From S2P Require Import Prelude RustStr Naming Errors Config Policy.
From Stdlib Require Import Ascii.

Local Open Scope string_scope.
Local Open Scope list_scope.
Local Open Scope Z_scope.
Local Open Scope gateway_scope.

(** ** Entries *)

Record Prompt := mkPrompt { prompt_name : string; prompt_rest : JSON }.

Record Resource := mkResource { uri : string; resource_name : string; resource_rest : JSON }.

Record ResourceTemplate := mkResourceTemplate {
  uri_template : string;
  template_name : string;
  template_rest : JSON;
}.

(** [rmcp] marks the enumeration as open: [OtherContents] is a kind without URI. *)
Inductive ResourceContents :=
| TextResourceContents (uri : string) (rest : JSON)
| BlobResourceContents (uri : string) (rest : JSON)
| OtherContents (rest : JSON).

Record ReadResourceResult := mkReadResourceResult {
  contents : list ResourceContents;
  read_rest : JSON;
}.

Record PromptSnap := mkPromptSnap { ps_wire_name : string; prompt : Prompt }.
Record ResourceSnap := mkResourceSnap { rs_scope_name : string; rs_resource : Resource }.
Record TemplateSnap := mkTemplateSnap {
  ts_scope_name : string;
  ts_literal_prefix : string;
  template : ResourceTemplate;
}.

Record SurfaceSnapshot := mkSurfaceSnapshot {
  prompts : list PromptSnap;
  resources : list ResourceSnap;
  templates : list TemplateSnap;
}.
Definition SurfaceSnapshot_default : SurfaceSnapshot := mkSurfaceSnapshot [] [] [].

(** ** Downstream URIs *)

Definition URI_SCHEME : string := "asterlane://".

Definition gateway_uri (server_id upstream : string) : string :=
  URI_SCHEME +:+ server_id +:+ "/" +:+ upstream.

Definition parse_gateway_uri (u : string) : option (string * string) :=
  rest ← strip_prefix URI_SCHEME u;
  '(server_id, upstream) ← split_once "/" rest;
  if negb (is_empty server_id) && negb (is_empty upstream)
  then Some (server_id, upstream) else None.

(** ** Wrapping *)

(** The warnings of [skip_unwrappable] and [unique_by] are logging. *)
Definition unique_by {A} (key : A -> string) (items : list A) : list A :=
  (retain_fresh key ∅ items).2.

Definition wrap_prompt (c : McpServerConfig) (p : Prompt) : option PromptSnap :=
  match ToolName_new (ms_domain c) (ms_provider c) (prompt_name p) with
  | Ok name => Some (mkPromptSnap (to_wire_name name) p)
  | Err _ => None
  end.

Definition wrap_prompts (c : McpServerConfig) (l : list Prompt) : list PromptSnap :=
  unique_by ps_wire_name (omap (wrap_prompt c) l).

Definition wrap_resource (c : McpServerConfig) (r : Resource) : option ResourceSnap :=
  if is_empty (uri r) then None
  else match scope_match_name (ms_domain c) (ms_provider c) (resource_name r) with
       | Ok scope_name => Some (mkResourceSnap scope_name r)
       | Err _ => None
       end.

Definition wrap_resources (c : McpServerConfig) (l : list Resource) : list ResourceSnap :=
  unique_by (fun s => uri (rs_resource s)) (omap (wrap_resource c) l).

Definition literal_prefix (t : string) : string :=
  match split_once "{" t with Some (prefix, _) => prefix | None => t end.

Definition wrap_template (c : McpServerConfig) (t : ResourceTemplate) : option TemplateSnap :=
  if is_empty (uri_template t) then None
  else match scope_match_name (ms_domain c) (ms_provider c) (template_name t) with
       | Ok scope_name => Some (mkTemplateSnap scope_name (literal_prefix (uri_template t)) t)
       | Err _ => None
       end.

Definition wrap_templates (c : McpServerConfig) (l : list ResourceTemplate) : list TemplateSnap :=
  unique_by (fun s => uri_template (template s)) (omap (wrap_template c) l).

(** ** What a client sees *)

Definition to_prompt (s : PromptSnap) : Prompt :=
  mkPrompt (ps_wire_name s) (prompt_rest (prompt s)).

Definition to_resource (server_id : string) (s : ResourceSnap) : Resource :=
  mkResource (gateway_uri server_id (uri (rs_resource s))) (resource_name (rs_resource s))
    (resource_rest (rs_resource s)).

Definition to_template (server_id : string) (s : TemplateSnap) : ResourceTemplate :=
  mkResourceTemplate (gateway_uri server_id (uri_template (template s)))
    (template_name (template s)) (template_rest (template s)).

Definition scope_name_for_read (rs : list ResourceSnap) (ts : list TemplateSnap)
    (upstream_uri : string) : option string :=
  match List.find (fun s => uri (rs_resource s) =s upstream_uri) rs with
  | Some s => Some (rs_scope_name s)
  | None =>
      ts_scope_name <$>
        max_by_key (fun s => Z.of_nat (String.length (ts_literal_prefix s)))
          (List.filter (fun s => starts_with (ts_literal_prefix s) upstream_uri) ts)
  end.

(** [content_uri_mut] and the assignment through it. *)
Definition content_uri (c : ResourceContents) : option string :=
  match c with
  | TextResourceContents u _ | BlobResourceContents u _ => Some u
  | OtherContents _ => None
  end.

Definition set_content_uri (u : string) (c : ResourceContents) : ResourceContents :=
  match c with
  | TextResourceContents _ r => TextResourceContents u r
  | BlobResourceContents _ r => BlobResourceContents u r
  | OtherContents r => OtherContents r
  end.

Definition rewrite_content (server_id : string) (c : ResourceContents) : ResourceContents :=
  match content_uri c with
  | Some u => if starts_with (gateway_uri server_id "") u then c
              else set_content_uri (gateway_uri server_id u) c
  | None => c
  end.

Definition rewrite_read_uris (server_id : string) (r : ReadResourceResult) : ReadResourceResult :=
  mkReadResourceResult (rewrite_content server_id <$> contents r) (read_rest r).

(** ** Loading *)

Section Loading.
Context {E : Type}.

(** [listed] is the answer of the peer; it is not asked when not [supported]. *)
Definition load_kind {U T} (c : McpServerConfig) (supported : bool) (listed : result E (list U))
    (wrap : McpServerConfig -> list U -> list T) (previous : list T) : list T :=
  if negb supported then []
  else match listed with Ok items => wrap c items | Err _ => previous end.

Definition load_surface (c : McpServerConfig) (supports_prompts supports_resources : bool)
    (list_prompts : result E (list Prompt)) (list_resources : result E (list Resource))
    (list_resource_templates : result E (list ResourceTemplate)) (previous : SurfaceSnapshot)
    : SurfaceSnapshot :=
  mkSurfaceSnapshot
    (load_kind c supports_prompts list_prompts wrap_prompts (prompts previous))
    (load_kind c supports_resources list_resources wrap_resources (resources previous))
    (load_kind c supports_resources list_resource_templates wrap_templates (templates previous)).
End Loading.

(** ** Properties *)

(** A server id that can be told from the rest of a downstream URI. *)
Definition uri_segment (s : string) : bool :=
  negb (is_empty s) && str_forallb (fun a => negb (Ascii.eqb a "/")) s.

(** The downstream URI identifies the upstream resource: parsing is the exact
    inverse of [gateway_uri] on server ids without a slash, and it accepts nothing
    else. *)
Lemma parse_gateway_uri_Some u server_id upstream :
  parse_gateway_uri u = Some (server_id, upstream) <->
  u = gateway_uri server_id upstream /\ uri_segment server_id = true /\
  is_empty upstream = false.
Proof.
  unfold parse_gateway_uri, gateway_uri, uri_segment. split.
  - intros (rest & H1%strip_prefix_Some & H)%bind_Some.
    apply bind_Some in H as ([i up] & H2%split_once_Some & H). destruct H2 as [-> Hi].
    case_if_in H; [|done]. injection H as -> ->.
    rewrite andb_true_iff, !negb_true_iff in E. destruct E as [E1 E2].
    by rewrite Hi, E1, E2.
  - rewrite andb_true_iff, negb_true_iff. intros (-> & [H1 H2] & H3).
    rewrite (proj2 (strip_prefix_Some URI_SCHEME _ _) eq_refl). cbn [mbind option_bind].
    change ("/" +:+ upstream) with (String "/" upstream).
    rewrite split_once_app by done. cbn. by rewrite H1, H3.
Qed.

Lemma unique_by_spec {A} (key : A -> string) l :
  NoDup (key <$> unique_by key l) /\ sublist (unique_by key l) l /\
  forall x, x ∈ l -> key x ∈ key <$> unique_by key l.
Proof.
  unfold unique_by. split; [apply retain_fresh_NoDup|]. split; [apply retain_fresh_sublist|].
  intros x Hx. destruct (retain_fresh_complete key ∅ l x Hx); set_solver.
Qed.

(** What the snapshot promises: wire names are canonical and unique, resource URIs
    and templates are unique and not empty. *)
Record surface_ok (s : SurfaceSnapshot) : Prop := {
  prompts_unique : NoDup (ps_wire_name <$> prompts s);
  resources_unique : NoDup ((fun r => uri (rs_resource r)) <$> resources s);
  templates_unique : NoDup ((fun t => uri_template (template t)) <$> templates s);
  resources_named r : r ∈ resources s -> is_empty (uri (rs_resource r)) = false;
  templates_named t : t ∈ templates s -> is_empty (uri_template (template t)) = false;
  templates_prefixed t :
    t ∈ templates s -> ts_literal_prefix t = literal_prefix (uri_template (template t));
}.

Lemma surface_ok_default : surface_ok SurfaceSnapshot_default.
Proof. split; cbn; try constructor; intros ? H; by apply not_elem_of_nil in H. Qed.

Lemma unique_by_omap {A B} (key : B -> string) (f : A -> option B) l y :
  y ∈ unique_by key (omap f l) -> exists x, x ∈ l /\ f x = Some y.
Proof.
  intros Hy. destruct (unique_by_spec key (omap f l)) as (_ & Hs & _).
  apply list_elem_of_omap. by eapply elem_of_sublist.
Qed.

Lemma load_kind_P {E U T} (P : list T -> Prop) c sup (listed : result E (list U)) wrap prev :
  P [] -> P prev -> (forall l, P (wrap c l)) -> P (load_kind c sup listed wrap prev).
Proof. unfold load_kind. intros ???. destruct sup; cbn; [destruct listed|]; auto. Qed.

Lemma wrap_resources_named c l s :
  s ∈ wrap_resources c l -> is_empty (uri (rs_resource s)) = false.
Proof.
  intros (r & _ & Hr)%unique_by_omap. unfold wrap_resource in Hr.
  destruct (is_empty (uri r)) eqn:Eu; [done|].
  destruct (scope_match_name _ _ _); [|done]. by injection Hr as <-.
Qed.

Lemma wrap_templates_named c l s :
  s ∈ wrap_templates c l ->
  is_empty (uri_template (template s)) = false /\
  ts_literal_prefix s = literal_prefix (uri_template (template s)).
Proof.
  intros (t & _ & Ht)%unique_by_omap. unfold wrap_template in Ht.
  destruct (is_empty (uri_template t)) eqn:Eu; [done|].
  destruct (scope_match_name _ _ _); [|done]. by injection Ht as <-.
Qed.

Lemma load_surface_ok {E} c sp sr (lp : result E (list Prompt)) lr lt prev :
  surface_ok prev -> surface_ok (load_surface c sp sr lp lr lt prev).
Proof.
  intros [H1 H2 H3 H4 H5 H6]. unfold load_surface. split; cbn.
  - apply (load_kind_P (fun l => NoDup (ps_wire_name <$> l)));
      [constructor | done | intros; apply unique_by_spec].
  - apply (load_kind_P (fun l => NoDup ((fun r => uri (rs_resource r)) <$> l)));
      [constructor | done | intros; apply (unique_by_spec (fun s => uri (rs_resource s)))].
  - apply (load_kind_P (fun l => NoDup ((fun t => uri_template (template t)) <$> l)));
      [constructor | done | intros; apply (unique_by_spec (fun s => uri_template (template s)))].
  - apply (load_kind_P (fun l => forall r, r ∈ l -> is_empty (uri (rs_resource r)) = false));
      [set_solver | done | by intros ???%wrap_resources_named].
  - apply (load_kind_P (fun l => forall t, t ∈ l -> is_empty (uri_template (template t)) = false));
      [set_solver | done | by intros ??[]%wrap_templates_named].
  - apply (load_kind_P (fun l => forall t, t ∈ l ->
      ts_literal_prefix t = literal_prefix (uri_template (template t))));
      [set_solver | done | by intros ??[]%wrap_templates_named].
Qed.

(** A prompt that an upstream offers is wrapped unless its name is unusable or
    taken, under the wire name of its server. *)
Lemma wrap_prompts_spec c l :
  NoDup (ps_wire_name <$> wrap_prompts c l) /\
  (forall s, s ∈ wrap_prompts c l ->
     prompt s ∈ l /\ exists n, ToolName_new (ms_domain c) (ms_provider c) (prompt_name (prompt s)) = Ok n
       /\ ps_wire_name s = to_wire_name n) /\
  (forall p n, p ∈ l -> ToolName_new (ms_domain c) (ms_provider c) (prompt_name p) = Ok n ->
     to_wire_name n ∈ ps_wire_name <$> wrap_prompts c l).
Proof.
  unfold wrap_prompts.
  destruct (unique_by_spec ps_wire_name (omap (wrap_prompt c) l)) as (H1 & _ & H3).
  split; [done|]. split.
  - intros s (p & Hp & Hs)%unique_by_omap. unfold wrap_prompt in Hs.
    destruct (ToolName_new _ _ _) as [n|] eqn:En; [|done]. injection Hs as <-. eauto.
  - intros p n Hp Hn. apply (H3 (mkPromptSnap (to_wire_name n) p)).
    apply list_elem_of_omap. exists p. unfold wrap_prompt. by rewrite Hn.
Qed.

(** The name that guards a read: the resource with exactly this URI
    decides alone; without one, a template whose literal prefix begins the URI and is
    the longest such prefix; without any, the read is refused. *)
Theorem read_scope_spec rs ts u :
  match List.find (fun s => uri (rs_resource s) =s u) rs with
  | Some s => uri (rs_resource s) = u /\ scope_name_for_read rs ts u = Some (rs_scope_name s)
  | None =>
      (forall s, s ∈ rs -> uri (rs_resource s) <> u) /\
      match scope_name_for_read rs ts u with
      | Some n => exists t, t ∈ ts /\ ts_scope_name t = n /\
          starts_with (ts_literal_prefix t) u = true /\
          forall t', t' ∈ ts -> starts_with (ts_literal_prefix t') u = true ->
            (String.length (ts_literal_prefix t') <= String.length (ts_literal_prefix t))%nat
      | None => forall t, t ∈ ts -> starts_with (ts_literal_prefix t) u = false
      end
  end.
Proof.
  unfold scope_name_for_read.
  destruct (List.find (fun s => uri (rs_resource s) =s u) rs) as [s|] eqn:Ef.
  - apply find_Some_elem in Ef as [_ ->%String.eqb_eq]. done.
  - split.
    + intros s Hs Hu. rewrite find_None_all in Ef. specialize (Ef s Hs). cbn in Ef.
      by rewrite Hu, String.eqb_refl in Ef.
    + destruct (max_by_key _ _) as [t|] eqn:Em; cbn.
      * apply max_by_key_Some in Em as [Ht Hmax]. apply filter_elem in Ht as [Ht Hp].
        exists t. split; [done|]. split; [done|]. split; [done|].
        intros t' Ht' Hp'. specialize (Hmax t'). rewrite filter_elem in Hmax. cbn in Hmax.
        specialize (Hmax (conj Ht' Hp')). lia.
      * apply max_by_key_None in Em. intros t Ht. apply not_true_iff_false. intros Hp.
        assert (t ∈ List.filter (fun s => starts_with (ts_literal_prefix s) u) ts) as K
          by (by apply filter_elem).
        rewrite Em in K. by apply not_elem_of_nil in K.
Qed.

(** Contents read back are in the namespace of their server, and a second rewriting
    changes nothing. *)
Theorem rewrite_read_uris_namespaced server_id r :
  (forall c u, c ∈ contents (rewrite_read_uris server_id r) -> content_uri c = Some u ->
     starts_with (gateway_uri server_id "") u = true) /\
  rewrite_read_uris server_id (rewrite_read_uris server_id r) = rewrite_read_uris server_id r.
Proof.
  assert (forall c u, content_uri (rewrite_content server_id c) = Some u ->
    starts_with (gateway_uri server_id "") u = true) as Hns.
  { intros c u. unfold rewrite_content. destruct (content_uri c) as [v|] eqn:Ev; [|congruence].
    destruct (starts_with (gateway_uri server_id "") v) eqn:Es; [congruence|].
    intros H. assert (u = gateway_uri server_id v) as ->.
    { destruct c; cbn in *; congruence. }
    apply starts_with_spec. exists v. unfold gateway_uri. by rewrite !str_app_assoc. }
  split.
  - intros c u Hc. cbn in Hc. apply list_elem_of_fmap in Hc as (c' & -> & _). apply Hns.
  - unfold rewrite_read_uris. cbn. f_equal. rewrite <- list_fmap_compose. apply list_fmap_ext.
    intros i c _. cbn. set (d := rewrite_content server_id c). unfold rewrite_content at 1.
    destruct (content_uri d) as [u|] eqn:Eu; [|done]. by rewrite (Hns c u Eu).
Qed.

(** ** Witnesses *)

Example read_scope_prefers_longest_template :
  scope_name_for_read [mkResourceSnap "d__p__index" (mkResource "docs://a" "index" JNull)]
    [mkTemplateSnap "d__p__any" "" (mkResourceTemplate "{+u}" "any" JNull);
     mkTemplateSnap "d__p__page" "docs://" (mkResourceTemplate "docs://{p}" "page" JNull)]
    "docs://b" = Some "d__p__page".
Proof. reflexivity. Qed.

(** A server id with a slash loses its resources: the URI is read back as another
    server's. *)
Example slash_in_server_id :
  parse_gateway_uri (gateway_uri "team/docs" "file:///a") = Some ("team", "docs/file:///a").
Proof. reflexivity. Qed.
