(* ===== verification/Peers.v ===== *)
(** * Upstream MCP peers ([src/src/mcp/peer/], [convert.rs], [transport.rs])

    From the configuration of a remote MCP server to a connected peer, and the
    conversion of what the peer answers.  The [rmcp] crate is the class
    [RmcpClient]: the handshake, the requests of a running client, the header
    types.  Errors of [rmcp] are their printed text and the chain of sources that
    the gateway searches. *)

From S2P Require Import Prelude RustStr Naming Errors Config Policy Secrets.
From S2P Require Import Catalog KeyPool Limits Egress Render Retry Surface Invoke Integrity.
From Stdlib Require Import Ascii.

Local Open Scope string_scope.
Local Open Scope list_scope.
Local Open Scope Z_scope.
Local Open Scope gateway_scope.

(** ** The types of [rmcp] *)

Record RmcpTool := mkRmcpTool {
  rt_name : string;
  rt_description : option string;
  rt_input_schema : list (string * JSON);
}.

(** A content block that is not text is known by its JSON form. *)
Inductive ContentBlock :=
| CB_Text (text : string)
| CB_Other (json : JSON).

Record CallToolResult := mkCallToolResult {
  ctr_content : list ContentBlock;
  structured_content : option JSON;
  ctr_is_error : option bool;
}.

(** [CallToolResponse], and the two responses of prompts and resources: the
    enumerations are open. *)
Inductive response (A : Type) :=
| Resp_Complete (a : A)
| Resp_InputRequired (payload : JSON)
| Resp_Task
| Resp_Unknown.
Arguments Resp_Complete {A} a.
Arguments Resp_InputRequired {A} payload.
Arguments Resp_Task {A}.
Arguments Resp_Unknown {A}.

Record GetPromptResult := mkGetPromptResult { gp_json : JSON }.

(** One error of a source chain: what the two searches ask of it. *)
Record ErrorNode := mkErrorNode {
  node_auth_required : bool;
  node_egress_blocked : bool;
}.

Inductive ServiceError :=
| TransportSend (text : string) (chain : list ErrorNode)
| OtherServiceError (text : string).

Definition ServiceError_to_string (e : ServiceError) : string :=
  match e with TransportSend t _ | OtherServiceError t => t end.

Inductive ClientInitializeError :=
| CIE_Transport (text : string) (authorization_required : bool) (chain : list ErrorNode)
| CIE_Other (text : string) (authorization_required : bool).

Definition CIE_to_string (e : ClientInitializeError) : string :=
  match e with CIE_Transport t _ _ | CIE_Other t _ => t end.
Definition is_authorization_required (e : ClientInitializeError) : bool :=
  match e with CIE_Transport _ b _ | CIE_Other _ b => b end.

Record TransportConfig := mkTransportConfig {
  tc_uri : string;
  tc_auth_header : option string;
  tc_custom_headers : list (string * string);
}.

(** Which HTTP client carries the transport. *)
Inductive HttpClientKind :=
| PrivateClient
| SharedClient
| ClientCredentialsClient (id : nat)
| AuthorizationCodeClient (id : nat).

(** A running [rmcp] client. *)
Notation Client := nat.

Record CallToolRequest := mkCallToolRequest {
  req_name : string;
  req_arguments : list (string * JSON);
  req_input_responses : option JSON;
  req_request_state : option string;
}.

Class RmcpClient := {
  HeaderName_from_str : string -> result string string;
  HeaderValue_from_str : string -> option string;
  (** [serve_upstream]: the handshake, modern ([server/discover]) or not *)
  serve_upstream : HttpClientKind -> TransportConfig -> bool -> result ClientInitializeError Client;
  list_all_tools : Client -> result ServiceError (list RmcpTool);
  call_tool_once : Client -> CallToolRequest -> result ServiceError (response CallToolResult);
  list_all_prompts : Client -> result ServiceError (list Prompt);
  get_prompt_once :
    Client -> string -> option (list (string * JSON)) -> result ServiceError (response GetPromptResult);
  list_all_resources : Client -> result ServiceError (list Resource);
  list_all_resource_templates : Client -> result ServiceError (list ResourceTemplate);
  read_resource_once : Client -> string -> result ServiceError (response ReadResourceResult);
  (** [peer_info().capabilities]: prompts, resources *)
  server_capabilities : Client -> option (bool * bool);
  (** [serde_json::from_value] into the type of [input_responses] *)
  decode_input_responses : JSON -> result string JSON;
}.

(** ** Errors *)

Definition McpError_to_string (e : McpError) : string :=
  match e with
  | Mcp_UnknownTool n => "unknown tool: " +:+ n
  | Mcp_InvalidToolCall d => "invalid tool call: " +:+ d
  | Mcp_UpstreamFailure d => "upstream MCP server error: " +:+ d
  | Mcp_UpstreamAuthRequired => "upstream MCP server requires administrator authorization"
  | Mcp_EgressBlocked => "upstream address is not allowed"
  | Mcp_Secret e => SecretError_to_string e
  | Mcp_UnknownServer s => "unknown MCP server: " +:+ s
  end.

Definition is_auth_required (e : ServiceError) : bool :=
  match e with
  | TransportSend _ chain => existsb node_auth_required chain
  | OtherServiceError _ => false
  end.

Definition initialize_error_is_blocked (e : ClientInitializeError) : bool :=
  match e with
  | CIE_Transport _ _ chain => existsb node_egress_blocked chain
  | CIE_Other _ _ => false
  end.

Definition classify_connect_error (e : ClientInitializeError) (auth_required_on_401 : bool)
    : option McpError :=
  if auth_required_on_401 && is_authorization_required e then Some Mcp_UpstreamAuthRequired
  else if initialize_error_is_blocked e then Some Mcp_EgressBlocked
  else None.

Definition map_legacy_connect_error (legacy_error auto_error : ClientInitializeError)
    (auth_required_on_401 : bool) : McpError :=
  match classify_connect_error legacy_error auth_required_on_401 with
  | Some e => e
  | None =>
      Mcp_UpstreamFailure ("failed to connect remote MCP server: " +:+ CIE_to_string legacy_error
        +:+ " (discover failed: " +:+ CIE_to_string auto_error +:+ ")")
  end.

(** ** Conversion ([convert.rs]) *)

Definition wrap_tool (c : McpServerConfig) (t : RmcpTool)
    : result McpError (WrappedTool * ToolDescriptor) :=
  n ← map_err (fun e => Mcp_InvalidToolCall (ToolNameError_to_string e))
        (ToolName_new (ms_domain c) (ms_provider c) (rt_name t));
  let d := default "" (rt_description t) in
  let schema := JObject (rt_input_schema t) in
  Ok (mkWrappedTool n (ms_id c) d (rt_name t) Post schema None None,
      mkToolDescriptor (to_wire_name n) d schema).

Definition wrap_tools (c : McpServerConfig) (l : list RmcpTool)
    : result McpError (list WrappedTool * list ToolDescriptor) :=
  match try_map (wrap_tool c) l with
  | Ok ps => Ok (fst <$> ps, snd <$> ps)
  | Err e => Err e
  end.

Definition arguments_to_object (v : JSON) : result McpError (list (string * JSON)) :=
  match v with
  | JNull => Ok []
  | JObject m => Ok m
  | _ => Err (Mcp_InvalidToolCall "MCP tool arguments must be a JSON object")
  end.

Section Conversion.
Context {SE : Serializers}.

Definition content_block_to_tool_content (c : ContentBlock) : string :=
  match c with CB_Text t => t | CB_Other j => value_to_string j end.

Definition convert_call_result (r : CallToolResult) : ToolCallResult :=
  let content := content_block_to_tool_content <$> ctr_content r in
  let content := match content, structured_content r with
                 | [], Some v => [value_to_string v]
                 | _, _ => content
                 end in
  mkToolCallResult content (default false (ctr_is_error r)).

Definition convert_call_response (r : response CallToolResult) : result McpError UpstreamCallOutcome :=
  match r with
  | Resp_Complete r => Ok (Complete (convert_call_result r))
  | Resp_InputRequired p => Ok (InputRequired p)
  | Resp_Task => Err (Mcp_UpstreamFailure
      "upstream returned a task handle; Tasks extension is not proxied")
  | Resp_Unknown => Err (Mcp_UpstreamFailure "unsupported upstream tools/call result type")
  end.
End Conversion.

(** ** The running peer ([peer/mod.rs], [peer/methods.rs]) *)

(** [RmcpRemoteMcpPeer]; the task that listens for notifications is not part of
    the state. *)
Record Peer := mkPeer { client : Client; auth_required_on_401 : bool }.

Section Peer.
Context {SE : Serializers} {RC : RmcpClient}.

Definition map_service_error (p : Peer) (action : string) (e : ServiceError) : McpError :=
  if auth_required_on_401 p && is_auth_required e then Mcp_UpstreamAuthRequired
  else Mcp_UpstreamFailure ("failed to " +:+ action +:+ ": " +:+ ServiceError_to_string e).

Definition list_tools (p : Peer) : result McpError (list RmcpTool) :=
  map_err (map_service_error p "list tools") (list_all_tools (client p)).

Definition call_tool (p : Peer) (name : string) (arguments : JSON)
    : result McpError CallToolResult :=
  args ← arguments_to_object arguments;
  r ← map_err (map_service_error p "call tool")
        (call_tool_once (client p) (mkCallToolRequest name args None None));
  match r with
  | Resp_Complete r => Ok r
  | Resp_InputRequired _ => Err (Mcp_UpstreamFailure "upstream requires additional input")
  | Resp_Task => Err (Mcp_UpstreamFailure
      "upstream returned a task handle; Tasks extension is not proxied")
  | Resp_Unknown => Err (Mcp_UpstreamFailure "unsupported upstream tools/call result type")
  end.

Definition peer_call_tool_ex (p : Peer) (name : string) (arguments : JSON) (x : ToolCallExtras)
    : result McpError UpstreamCallOutcome :=
  args ← arguments_to_object arguments;
  responses ← transpose ((fun r =>
      map_err (fun e => Mcp_InvalidToolCall ("invalid input_responses: " +:+ e))
        (decode_input_responses r)) <$> input_responses x);
  r ← map_err (map_service_error p "call tool")
        (call_tool_once (client p) (mkCallToolRequest name args responses (request_state x)));
  convert_call_response r.

Definition supports_prompts (p : Peer) : bool :=
  match server_capabilities (client p) with Some (b, _) => b | None => false end.
Definition supports_resources (p : Peer) : bool :=
  match server_capabilities (client p) with Some (_, b) => b | None => false end.

Definition list_prompts (p : Peer) : result McpError (list Prompt) :=
  map_err (map_service_error p "list prompts") (list_all_prompts (client p)).

Definition get_prompt (p : Peer) (name : string) (arguments : option (list (string * JSON)))
    : result McpError GetPromptResult :=
  r ← map_err (map_service_error p "get prompt") (get_prompt_once (client p) name arguments);
  match r with
  | Resp_Complete r => Ok r
  | Resp_InputRequired _ => Err (Mcp_UpstreamFailure "upstream prompt requires additional input")
  | _ => Err (Mcp_UpstreamFailure "unsupported upstream prompts/get result type")
  end.

Definition list_resources (p : Peer) : result McpError (list Resource) :=
  map_err (map_service_error p "list resources") (list_all_resources (client p)).
Definition list_resource_templates (p : Peer) : result McpError (list ResourceTemplate) :=
  map_err (map_service_error p "list resource templates")
    (list_all_resource_templates (client p)).

Definition read_resource (p : Peer) (u : string) : result McpError ReadResourceResult :=
  r ← map_err (map_service_error p "read resource") (read_resource_once (client p) u);
  match r with
  | Resp_Complete r => Ok r
  | Resp_InputRequired _ =>
      Err (Mcp_UpstreamFailure "upstream resource requires additional input")
  | _ => Err (Mcp_UpstreamFailure "unsupported upstream resources/read result type")
  end.

(** ** Connecting *)

Definition connect_with (k : HttpClientKind) (t : TransportConfig) (on_401 : bool)
    : result McpError Peer :=
  match serve_upstream k t true with
  | Ok c => Ok (mkPeer c on_401)
  | Err auto_error =>
      match classify_connect_error auto_error on_401 with
      | Some e => Err e
      | None =>
          c ← map_err (fun legacy_error => map_legacy_connect_error legacy_error auto_error on_401)
                (serve_upstream k t false);
          Ok (mkPeer c on_401)
      end
  end.
End Peer.

(** The [UpstreamOAuth] service as the connector uses it. *)
Inductive OAuthHttpClient := OHC_ClientCredentials (id : nat) | OHC_AuthorizationCode (id : nat).

Record UpstreamOAuth := mkUpstreamOAuth {
  blocks_private : bool;
  connect_client : McpServerConfig -> option string -> result McpError OAuthHttpClient;
}.

Section Connect.
Context {SE : Serializers} {RC : RmcpClient} {UP : UrlParser}.

Definition ensure_mcp_url_allowed (url : string) : result McpError () :=
  match check_url url true with Ok _ => Ok tt | Err _ => Err Mcp_EgressBlocked end.

(** [RmcpConnector]: [connect] and [connect_oauth]. *)
Definition connect (oauth : option UpstreamOAuth) (s : McpServerConfig) (t : TransportConfig)
    : result McpError Peer :=
  _ ← match oauth with
      | Some o => if blocks_private o then ensure_mcp_url_allowed (ms_url s) else Ok tt
      | None => Ok tt
      end;
  connect_with (match oauth with Some _ => SharedClient | None => PrivateClient end) t false.

Definition connect_oauth (oauth : option UpstreamOAuth) (s : McpServerConfig) (t : TransportConfig)
    (client_secret : option string) : result McpError Peer :=
  o ← ok_or (Mcp_UpstreamFailure "OAuth is not configured for this gateway") oauth;
  c ← connect_client o s client_secret;
  match c with
  | OHC_ClientCredentials id => connect_with (ClientCredentialsClient id) t false
  | OHC_AuthorizationCode id => connect_with (AuthorizationCodeClient id) t true
  end.

(** ** Transport and secrets ([transport.rs]); [resolve] is [SecretStore::resolve] *)

Definition resolve_secret (resolve : SecretRef -> result SecretError string) (raw : string)
    : result McpError string :=
  match parse_ref raw with
  | Ok r => map_err Mcp_Secret (resolve r)
  | Err _ => Ok raw
  end.

Definition transport_config (resolve : SecretRef -> result SecretError string)
    (s : McpServerConfig) : result McpError TransportConfig :=
  match ms_auth s with
  | AuthNone | AuthOAuth _ _ _ _ => Ok (mkTransportConfig (ms_url s) None [])
  | AuthBearer token_ref =>
      secret ← resolve_secret resolve token_ref;
      Ok (mkTransportConfig (ms_url s) (Some secret) [])
  | AuthHeader n value_ref =>
      secret ← resolve_secret resolve value_ref;
      n ← map_err (fun e => Mcp_InvalidToolCall ("invalid MCP auth header name: " +:+ e))
            (HeaderName_from_str n);
      v ← ok_or (Mcp_InvalidToolCall "invalid MCP auth header value")
            (HeaderValue_from_str secret);
      Ok (mkTransportConfig (ms_url s) None [(n, v)])
  end.

Definition connect_server (oauth : option UpstreamOAuth)
    (resolve : SecretRef -> result SecretError string) (s : McpServerConfig)
    : result McpError Peer :=
  t ← transport_config resolve s;
  match ms_auth s with
  | AuthOAuth _ _ client_secret_ref _ =>
      secret ← match client_secret_ref with
               | Some raw =>
                   r ← map_err Mcp_Secret (parse_ref raw);
                   v ← map_err Mcp_Secret (resolve r); Ok (Some v)
               | None => Ok None
               end;
      connect_oauth oauth s t secret
  | _ => connect oauth s t
  end.
End Connect.

(** ** Lemmas *)

(** A wrapped tool and its descriptor name the same tool of the same server. *)
Record wraps (server_id : string) (t : WrappedTool) (d : ToolDescriptor) : Prop := {
  wraps_name : td_name d = wire t;
  wraps_resource : resource_id t = server_id;
  wraps_description : td_description d = description t;
  wraps_schema : td_input_schema d = input_schema t;
}.

Lemma wrap_tools_aligned c l ts ds :
  wrap_tools c l = Ok (ts, ds) -> Forall2 (wraps (ms_id c)) ts ds.
Proof.
  unfold wrap_tools. destruct (try_map (wrap_tool c) l) as [ps|] eqn:Em; [|done].
  intros [= <- <-]. apply try_map_Ok in Em.
  induction Em as [|x [t d] l ps Hx _ IH]; cbn; constructor; [|done].
  unfold wrap_tool in Hx. inv_ok. by split.
Qed.

(** The upstream tools are wrapped in order, each forwarded under its own name. *)
Lemma wrap_tools_forward c l ts ds :
  wrap_tools c l = Ok (ts, ds) -> upstream_path <$> ts = rt_name <$> l.
Proof.
  unfold wrap_tools. destruct (try_map (wrap_tool c) l) as [ps|] eqn:Em; [|done].
  intros [= <- <-]. apply try_map_Ok in Em.
  induction Em as [|x [t d] l ps Hx _ IH]; cbn; [done|].
  unfold wrap_tool in Hx. inv_ok. cbn in IH. by rewrite IH.
Qed.

(** Without the authorization-code grant, a rejection by the upstream is never shown
    as a request for an administrator. *)
Lemma connect_with_auth_required {RC : RmcpClient} k t b :
  connect_with k t b = Err Mcp_UpstreamAuthRequired -> b = true.
Proof.
  unfold connect_with, map_legacy_connect_error, classify_connect_error. destruct b; [done|]. cbn.
  destruct (serve_upstream k t true) as [c|e]; [done|].
  destruct (initialize_error_is_blocked e); [done|].
  destruct (serve_upstream k t false) as [c|e']; cbn; [done|].
  by destruct (initialize_error_is_blocked e').
Qed.

(** The handshake asks for an address the egress guard rejects at most once, and
    never reports it as an ordinary failure. *)
Lemma connect_with_blocked {RC : RmcpClient} k t b text auth chain :
  serve_upstream k t true = Err (CIE_Transport text auth chain) ->
  b && auth = false -> existsb node_egress_blocked chain = true ->
  connect_with k t b = Err Mcp_EgressBlocked.
Proof.
  intros H1 H2 H3. unfold connect_with, classify_connect_error. rewrite H1. cbn.
  by rewrite H2, H3.
Qed.
