(* ===== verification/Registry.v ===== *)
(** * The registry of remote MCP servers ([mcp/registry.rs], [health.rs], [dedup.rs])

    One entry per configured server: its connection, its tools with their
    descriptors, its prompts and resources, and its health.  The operations that
    talk to an upstream read a snapshot, await the answers without the lock and
    write back under it; each is the pair of the work on the snapshot and the
    commit, and [reg_step] interleaves them freely.  What the upstreams, the
    secret store and the clock answer during one operation is the class
    [World]. *)

From S2P Require Import Prelude RustStr Naming Errors Config Policy Secrets Catalog.
From S2P Require Import Egress Render Retry Surface Invoke Integrity Peers.
From Stdlib Require Import Ascii.

Local Open Scope string_scope.
Local Open Scope list_scope.
Local Open Scope Z_scope.
Local Open Scope gateway_scope.

(** ** Health ([health.rs]) *)

Inductive HealthStatus := HS_Ok | HS_Unreachable | HS_AuthRequired | HS_Unknown | HS_Disabled.
#[export] Instance HealthStatus_eq_dec : EqDecision HealthStatus.
Proof. solve_decision. Defined.

Definition is_unavailable (s : HealthStatus) : bool :=
  match s with HS_Unreachable | HS_AuthRequired => true | _ => false end.

Definition status_as_str (s : HealthStatus) : string :=
  match s with
  | HS_Ok => "ok"
  | HS_Unreachable => "unreachable"
  | HS_AuthRequired => "auth_required"
  | HS_Unknown => "unknown"
  | HS_Disabled => "disabled"
  end.

Record ServerHealth := mkServerHealth {
  sh_server_id : string;
  status : HealthStatus;
  last_check_at : option Z;
  last_ok_at : option Z;
  sh_latency_ms : option Z;
  consecutive_failures : Z;
  last_error : option string;
  tool_count : nat;
}.

Definition health_initial (c : McpServerConfig) : ServerHealth :=
  mkServerHealth (ms_id c) (if health_check_enabled c then HS_Unknown else HS_Disabled)
    None None None 0 None 0.

Definition mark_ok (now latency_ms : Z) (enabled : bool) (count : nat) (h : ServerHealth)
    : ServerHealth :=
  mkServerHealth (sh_server_id h) (if enabled then HS_Ok else HS_Disabled) (Some now) (Some now)
    (Some latency_ms) 0 None count.

Definition mark_failed (now : Z) (enabled : bool) (e : McpError) (h : ServerHealth)
    : ServerHealth :=
  mkServerHealth (sh_server_id h)
    (if negb enabled then HS_Disabled
     else match e with Mcp_UpstreamAuthRequired => HS_AuthRequired | _ => HS_Unreachable end)
    (Some now) (last_ok_at h) (sh_latency_ms h)
    (saturating_add u32_max (consecutive_failures h) 1)
    (Some (McpError_to_string e)) (tool_count h).

(** [elapsed] is the duration since the start of the probe. *)
Definition elapsed_ms (elapsed : Z) : Z :=
  if as_millis elapsed <=? u64_max then as_millis elapsed else u64_max.

(** ** Entries *)

Record McpServerEntry := mkEntry {
  e_config : McpServerConfig;
  e_peer : option Peer;
  e_tools : list WrappedTool;
  e_descriptors : list ToolDescriptor;
  e_health : ServerHealth;
  e_surface : SurfaceSnapshot;
}.

Definition e_id (e : McpServerEntry) : string := ms_id (e_config e).

Definition with_health (h : ServerHealth) (e : McpServerEntry) : McpServerEntry :=
  mkEntry (e_config e) (e_peer e) (e_tools e) (e_descriptors e) h (e_surface e).
Definition with_peer (p : option Peer) (e : McpServerEntry) : McpServerEntry :=
  mkEntry (e_config e) p (e_tools e) (e_descriptors e) (e_health e) (e_surface e).
Definition with_tools (ts : list WrappedTool) (ds : list ToolDescriptor) (e : McpServerEntry)
    : McpServerEntry :=
  mkEntry (e_config e) (e_peer e) ts ds (e_health e) (e_surface e).
Definition with_prompts (ps : list PromptSnap) (e : McpServerEntry) : McpServerEntry :=
  mkEntry (e_config e) (e_peer e) (e_tools e) (e_descriptors e) (e_health e)
    (mkSurfaceSnapshot ps (resources (e_surface e)) (templates (e_surface e))).

Definition health_view (e : McpServerEntry) : ServerHealth :=
  let h := e_health e in
  mkServerHealth (sh_server_id h) (status h) (last_check_at h) (last_ok_at h) (sh_latency_ms h)
    (consecutive_failures h) (last_error h) (length (e_tools e)).

Notation Entries := (list McpServerEntry).

(** ** Deduplication ([dedup.rs]) *)

Definition dedup_prompts (seen : gset string) (ps : list PromptSnap)
    : gset string * list PromptSnap :=
  retain_fresh ps_wire_name seen ps.

Definition prompt_wire_names (es : Entries) : gset string :=
  list_to_set (es ≫= fun e => ps_wire_name <$> prompts (e_surface e)).

Definition tool_wire_names (es : Entries) : gset string :=
  list_to_set (es ≫= fun e => wire <$> e_tools e).

Definition dedup_entry_tools (e : McpServerEntry) (seen : gset string)
    : gset string * McpServerEntry :=
  let '(seen, kept) :=
    retain_fresh (fun p => wire p.1) seen (zip (e_tools e) (e_descriptors e)) in
  (seen, with_tools (fst <$> kept) (snd <$> kept) e).

Definition push_deduped_entry (e : McpServerEntry) (new_entries : Entries) (seen : gset string)
    : Entries * gset string * nat :=
  let '(seen, e) := dedup_entry_tools e seen in
  let '(_, ps) := dedup_prompts (prompt_wire_names new_entries) (prompts (e_surface e)) in
  let e := with_prompts ps e in
  (new_entries ++ [e], seen, length (e_tools e)).

Definition others (guard : Entries) (skip : option nat) : Entries :=
  match skip with Some i => delete i guard | None => guard end.

Definition dedup_against_others (guard : Entries) (skip : option nat) (e : McpServerEntry)
    : McpServerEntry :=
  let '(_, e) := dedup_entry_tools e (tool_wire_names (others guard skip)) in
  let '(_, ps) :=
    dedup_prompts (prompt_wire_names (others guard skip)) (prompts (e_surface e)) in
  with_prompts ps e.

(** ** Probing *)

(** One operation's view of the outside: the upstreams, the secrets, the clock and
    the time since the start, by server. *)
Class World := {
  w_rmcp :: RmcpClient;
  w_serializers :: Serializers;
  w_urls :: UrlParser;
  w_oauth : option UpstreamOAuth;
  w_resolve : SecretRef -> result SecretError string;
  w_now : string -> Z;
  w_elapsed : string -> Z;
}.

Section Operations.
Context {W : World}.

Definition peer_surface (c : McpServerConfig) (p : Peer) (previous : SurfaceSnapshot)
    : SurfaceSnapshot :=
  load_surface c (supports_prompts p) (supports_resources p) (list_prompts p) (list_resources p)
    (list_resource_templates p) previous.

Definition probe_entry (e : McpServerEntry) (p : Peer) : McpServerEntry :=
  let c := e_config e in
  let outcome := l ← list_tools p; wrap_tools c l in
  match outcome with
  | Ok (ts, ds) =>
      mkEntry c (Some p) ts ds
        (mark_ok (w_now (ms_id c)) (elapsed_ms (w_elapsed (ms_id c))) (health_check_enabled c)
           (length ts) (e_health e))
        (peer_surface c p (e_surface e))
  | Err err =>
      with_peer (Some p)
        (with_health (mark_failed (w_now (ms_id c)) (health_check_enabled c) err (e_health e)) e)
  end.

Definition establish_entry (c : McpServerConfig) (prev_health : option ServerHealth)
    : McpServerEntry :=
  let h := default (health_initial c) prev_health in
  match connect_server w_oauth w_resolve c with
  | Ok p => probe_entry (mkEntry c None [] [] h SurfaceSnapshot_default) p
  | Err err =>
      mkEntry c None [] [] (mark_failed (w_now (ms_id c)) (health_check_enabled c) err h)
        SurfaceSnapshot_default
  end.

(** ** Building the registry ([registry.rs]) *)

Definition connect_step (acc : Entries * gset string) (c : McpServerConfig)
    : Entries * gset string :=
  let '(es, seen) := acc in
  let '(es, seen, _) := push_deduped_entry (establish_entry c None) es seen in (es, seen).

Definition connect_all_with (configs : list McpServerConfig) : Entries :=
  (fold_left connect_step configs ([], ∅)).1.

(** [for tool in &tools { if !seen.insert(..) { return Err } }]. *)
Fixpoint insert_all (ts : list WrappedTool) (seen : gset string) : result McpError (gset string) :=
  match ts with
  | [] => Ok seen
  | t :: ts =>
      if bool_decide (wire t ∈ seen)
      then Err (Mcp_InvalidToolCall ("duplicate remote MCP tool wire name: " +:+ wire t))
      else insert_all ts ({[wire t]} ∪ seen)
  end.

Fixpoint from_peers_loop (l : list (McpServerConfig * Peer)) (seen seen_prompts : gset string)
    : result McpError Entries :=
  match l with
  | [] => Ok []
  | (c, p) :: l =>
      upstream ← list_tools p;
      wrapped ← wrap_tools c upstream;
      seen ← insert_all wrapped.1 seen;
      let surface := peer_surface c p SurfaceSnapshot_default in
      let '(seen_prompts, ps) := dedup_prompts seen_prompts (prompts surface) in
      let e := with_prompts ps
        (mkEntry c (Some p) wrapped.1 wrapped.2
           (mark_ok (w_now (ms_id c)) (elapsed_ms (w_elapsed (ms_id c)))
              (health_check_enabled c) (length wrapped.1) (health_initial c)) surface) in
      match from_peers_loop l seen seen_prompts with
      | Ok es => Ok (e :: es)
      | Err err => Err err
      end
  end.

Definition from_peers (configs : list McpServerConfig) (peers : list Peer)
    : result McpError Entries :=
  if negb (length configs =? length peers)%nat
  then Err (Mcp_InvalidToolCall "MCP server config count does not match peer count")
  else from_peers_loop (zip configs peers) ∅ ∅.

(** ** Refresh *)

Record RefreshWork := mkRefreshWork {
  rw_entries : Entries;
  rw_seen : gset string;
  rw_failed : list string;
  rw_total : nat;
}.

Definition push_refreshed (e : McpServerEntry) (w : RefreshWork) : RefreshWork :=
  let '(es, seen, n) := push_deduped_entry e (rw_entries w) (rw_seen w) in
  mkRefreshWork es seen (rw_failed w) (rw_total w + n).
Definition push_failed (id : string) (w : RefreshWork) : RefreshWork :=
  mkRefreshWork (rw_entries w) (rw_seen w) (rw_failed w ++ [id]) (rw_total w).

(** One server; [secrets] says whether the caller has a secret store. *)
Definition refresh_one (secrets : bool) (w : RefreshWork) (e : McpServerEntry) : RefreshWork :=
  if negb (health_check_enabled (e_config e)) then push_refreshed e w
  else
    let refreshed :=
      match e_peer e, secrets with
      | Some p, _ => Some (probe_entry e p)
      | None, true => Some (establish_entry (e_config e) (Some (e_health e)))
      | None, false => None
      end in
    match refreshed with
    | None => push_refreshed e (push_failed (e_id e) w)
    | Some r =>
        push_refreshed r
          (if is_unavailable (status (e_health r)) then push_failed (e_id e) w else w)
    end.

Definition refresh_work (secrets : bool) (snapshots : Entries) : RefreshWork :=
  fold_left (refresh_one secrets) snapshots (mkRefreshWork [] ∅ [] 0).

(** [if let Some(pos) = .. { guard[pos] = e }]. *)
Definition set_by_id (e : McpServerEntry) (guard : Entries) : Entries :=
  update_first (fun x => e_id x =s e_id e) (fun _ => e) guard.

Definition refresh_commit (refreshed guard : Entries) : Entries :=
  fold_left (fun g e => set_by_id e g) refreshed guard.

Record RefreshResult := mkRefreshResult {
  old_tool_count : nat;
  new_tool_count : nat;
  failed_server_ids : list string;
}.

(** The whole operation; [meanwhile] is what other tasks did to the entries while
    the upstreams were asked. *)
Definition refresh_inner (secrets : bool) (meanwhile : Entries -> Entries) (es : Entries)
    : Entries * RefreshResult :=
  let w := refresh_work secrets es in
  let guard := meanwhile es in
  (refresh_commit (rw_entries w) guard,
   mkRefreshResult (sum_list ((fun e => length (e_tools e)) <$> guard)) (rw_total w)
     (rw_failed w)).

(** ** Single servers *)

Definition find_entry (id : string) (es : Entries) : option McpServerEntry :=
  List.find (fun e => e_id e =s id) es.

Definition replace_entry (e : McpServerEntry) (guard : Entries)
    : Entries * option ServerHealth :=
  match position (fun x => e_id x =s e_id e) guard with
  | None => (guard, None)
  | Some pos =>
      let e := dedup_against_others guard (Some pos) e in
      (<[pos := e]> guard, Some (health_view e))
  end.

Definition finish_replace (id : string) (e : McpServerEntry) (guard : Entries)
    : Entries * result McpError ServerHealth :=
  let '(g, view) := replace_entry e guard in (g, ok_or (Mcp_UnknownServer id) view).

(** The work of [probe], [reconnect] and [update_server] on the snapshot. *)
Definition probe_work (e : McpServerEntry) : McpServerEntry :=
  match e_peer e with
  | Some p => probe_entry e p
  | None => establish_entry (e_config e) (Some (e_health e))
  end.

Definition reconnect_work (e : McpServerEntry) : McpServerEntry :=
  establish_entry (e_config e) (Some (e_health e)).

Definition needs_reconnect (old : McpServerEntry) (c : McpServerConfig) : bool :=
  match e_peer old with None => true | Some _ => false end
  || negb (ms_url (e_config old) =s ms_url c)
  || negb (bool_decide (ms_auth (e_config old) = ms_auth c)).

Definition update_work (c : McpServerConfig) (old : McpServerEntry) : McpServerEntry :=
  match e_peer old, needs_reconnect old c with
  | Some p, false =>
      probe_entry
        (mkEntry c (Some p) (e_tools old) (e_descriptors old) (e_health old) (e_surface old)) p
  | _, _ => establish_entry c (Some (e_health old))
  end.

Definition on_entry (id : string) (work : McpServerEntry -> McpServerEntry)
    (meanwhile : Entries -> Entries) (es : Entries) : Entries * result McpError ServerHealth :=
  match find_entry id es with
  | None => (es, Err (Mcp_UnknownServer id))
  | Some e => finish_replace id (work e) (meanwhile es)
  end.

Definition probe (id : string) := on_entry id probe_work.
Definition reconnect (id : string) := on_entry id reconnect_work.
Definition update_server (c : McpServerConfig) := on_entry (ms_id c) (update_work c).

Definition duplicate_server (id : string) : McpError :=
  Mcp_InvalidToolCall ("MCP server already registered: " +:+ id).

Definition has_id (id : string) (es : Entries) : bool := existsb (fun e => e_id e =s id) es.

Definition add_commit (e : McpServerEntry) (guard : Entries)
    : Entries * result McpError ServerHealth :=
  if has_id (e_id e) guard then (guard, Err (duplicate_server (e_id e)))
  else let e := dedup_against_others guard None e in (guard ++ [e], Ok (health_view e)).

Definition add_server (c : McpServerConfig) (meanwhile : Entries -> Entries) (es : Entries)
    : Entries * result McpError ServerHealth :=
  if has_id (ms_id c) es then (es, Err (duplicate_server (ms_id c)))
  else add_commit (establish_entry c None) (meanwhile es).
End Operations.

Definition remove_server (id : string) (es : Entries) : Entries * bool :=
  let kept := List.filter (fun e => negb (e_id e =s id)) es in
  (kept, negb (length kept =? length es)%nat).

(** ** Reading *)

Definition health_snapshot (es : Entries) : list ServerHealth := health_view <$> es.
Definition mcp_resource_ids (es : Entries) : gset string := list_to_set (e_id <$> es).
Definition all_wrapped_tools (es : Entries) : list WrappedTool := es ≫= e_tools.
Definition all_descriptors (es : Entries) : list (string * ToolDescriptor) :=
  es ≫= fun e => (fun d => (e_id e, d)) <$> e_descriptors e.

Fixpoint find_tool (wire_name : string) (es : Entries) : option (Peer * string) :=
  match es with
  | [] => None
  | e :: es =>
      match e_peer e with
      | None => find_tool wire_name es
      | Some p =>
          match List.find (fun t => wire t =s wire_name) (e_tools e) with
          | Some t => Some (p, upstream_path t)
          | None => find_tool wire_name es
          end
      end
  end.

Definition registry_contains_tool (wire_name : string) (es : Entries) : bool :=
  bool_decide (is_Some (find_tool wire_name es)).

Section Reading.
Context {W : World}.

Definition registry_call_tool_ex (es : Entries) (wire_name : string) (arguments : JSON)
    (x : ToolCallExtras) : result McpError UpstreamCallOutcome :=
  f ← ok_or (Mcp_UnknownTool wire_name) (find_tool wire_name es);
  peer_call_tool_ex f.1 f.2 arguments x.

Definition registry_call_tool (es : Entries) (wire_name : string) (arguments : JSON)
    : result McpError ToolCallResult :=
  o ← registry_call_tool_ex es wire_name arguments (mkToolCallExtras None None);
  match o with
  | Complete r => Ok r
  | InputRequired _ => Err (Mcp_UpstreamFailure "upstream requires additional input")
  end.

(** The registry as the call pipeline sees it. *)
Definition registry_of (es : Entries) : McpRegistry :=
  mkMcpRegistry (fun w => registry_contains_tool w es) (registry_call_tool_ex es).
End Reading.

(** ** Prompts and resources for a key *)

Section Scoped.
Context {RE : RegexEngine}.

(** [for x in l { if allowed(x)? { out.push(f(x)) } }]. *)
Definition visible {A B} (allowed : A -> result PolicyError bool) (f : A -> B) (l : list A)
    : result PolicyError (list B) :=
  match try_filter allowed l with Ok r => Ok (f <$> r) | Err e => Err e end.

(** The nested loops over entries and snapshots. *)
Fixpoint visible_entries {B} (per_entry : McpServerEntry -> result PolicyError (list B))
    (es : Entries) : result PolicyError (list B) :=
  match es with
  | [] => Ok []
  | e :: es =>
      match per_entry e with
      | Err err => Err err
      | Ok l => match visible_entries per_entry es with
                | Ok r => Ok (l ++ r)
                | Err err => Err err
                end
      end
  end.

Definition prompts_for_key (key : ProxyKey) (es : Entries) : result PolicyError (list Prompt) :=
  visible_entries (fun e =>
    visible (fun s => key_can_use_name key (ps_wire_name s) (e_id e)) to_prompt
      (prompts (e_surface e))) es.

Definition resources_for_key (key : ProxyKey) (es : Entries)
    : result PolicyError (list Resource) :=
  visible_entries (fun e =>
    visible (fun s => key_can_use_name key (rs_scope_name s) (e_id e)) (to_resource (e_id e))
      (resources (e_surface e))) es.

Definition templates_for_key (key : ProxyKey) (es : Entries)
    : result PolicyError (list ResourceTemplate) :=
  visible_entries (fun e =>
    visible (fun s => key_can_use_name key (ts_scope_name s) (e_id e)) (to_template (e_id e))
      (templates (e_surface e))) es.

Record ResolvedPrompt := mkResolvedPrompt {
  rp_peer : Peer;
  rp_upstream_name : string;
  rp_server_id : string;
}.

Fixpoint resolve_prompt (key : ProxyKey) (wire_name : string) (es : Entries)
    : result PolicyError (option ResolvedPrompt) :=
  match es with
  | [] => Ok None
  | e :: es =>
      match e_peer e with
      | None => resolve_prompt key wire_name es
      | Some p =>
          match List.find (fun s => ps_wire_name s =s wire_name) (prompts (e_surface e)) with
          | None => resolve_prompt key wire_name es
          | Some s =>
              match key_can_use_name key (ps_wire_name s) (e_id e) with
              | Err err => Err err
              | Ok false => Ok None
              | Ok true => Ok (Some (mkResolvedPrompt p (prompt_name (prompt s)) (e_id e)))
              end
          end
      end
  end.

Record ResolvedRead := mkResolvedRead {
  rr_peer : Peer;
  rr_upstream_uri : string;
  rr_server_id : string;
  rr_scope_name : string;
}.

Definition resolve_read (key : ProxyKey) (u : string) (es : Entries)
    : result PolicyError (option ResolvedRead) :=
  match parse_gateway_uri u with
  | None => Ok None
  | Some (server_id, upstream_uri) =>
      match find_entry server_id es with
      | None => Ok None
      | Some e =>
          match e_peer e, scope_name_for_read (resources (e_surface e)) (templates (e_surface e))
                            upstream_uri with
          | Some p, Some scope_name =>
              match key_can_use_name key scope_name server_id with
              | Err err => Err err
              | Ok false => Ok None
              | Ok true => Ok (Some (mkResolvedRead p upstream_uri server_id scope_name))
              end
          | _, _ => Ok None
          end
      end
  end.
End Scoped.

(** [mcp/mod.rs]. *)
Definition list_blocked_by_fail_closed (registry : option Entries) (mode : McpFailureMode)
    : bool :=
  match mode, registry with
  | FailClosed, Some es => existsb (fun h => is_unavailable (status h)) (health_snapshot es)
  | _, _ => false
  end.

Definition fail_closed_list_error : AsterlaneError :=
  internal McpUpstreamUnavailable "one or more MCP upstreams are unreachable".

(** ** Well-formed entries *)

Record health_ok (c : McpServerConfig) (h : ServerHealth) : Prop := {
  health_id : sh_server_id h = ms_id c;
  health_disabled : status h = HS_Disabled <-> health_check_enabled c = false;
  health_fine : status h = HS_Ok -> consecutive_failures h = 0 /\ last_error h = None;
  health_failing : is_unavailable (status h) = true ->
    0 < consecutive_failures h /\ is_Some (last_error h);
  health_bounds : 0 <= consecutive_failures h <= u32_max;
}.

Record entry_ok (e : McpServerEntry) : Prop := {
  entry_aligned : Forall2 (wraps (e_id e)) (e_tools e) (e_descriptors e);
  entry_disconnected :
    e_peer e = None -> e_tools e = [] /\ e_surface e = SurfaceSnapshot_default;
  entry_health : health_ok (e_config e) (e_health e);
  entry_surface : surface_ok (e_surface e);
}.

Lemma health_initial_ok c : health_ok c (health_initial c).
Proof. split; cbn; try done; destruct (health_check_enabled c); try done. Qed.

(** Marking needs little of the old health. *)
Definition health_seed (id : string) (h : ServerHealth) : Prop :=
  sh_server_id h = id /\ 0 <= consecutive_failures h <= u32_max.

Lemma mark_ok_ok now l n c h :
  sh_server_id h = ms_id c -> health_ok c (mark_ok now l (health_check_enabled c) n h).
Proof. intros Hid. split; cbn; try done; destruct (health_check_enabled c); try done. Qed.

Lemma mark_failed_ok now err c h :
  health_seed (ms_id c) h -> health_ok c (mark_failed now (health_check_enabled c) err h).
Proof.
  intros [Hid Hb]. assert (0 < u32_max) by reflexivity.
  split; cbn -[u32_max]; unfold saturating_add; [done| | |split; [lia|eauto]|lia].
  - destruct (health_check_enabled c), err; done.
  - destruct (health_check_enabled c), err; done.
Qed.

Lemma health_ok_seed c h : health_ok c h -> health_seed (ms_id c) h.
Proof. intros []. by split. Qed.

Section WithWorld.
Context {W : World}.

Lemma probe_entry_ok e p :
  Forall2 (wraps (e_id e)) (e_tools e) (e_descriptors e) ->
  health_seed (e_id e) (e_health e) -> surface_ok (e_surface e) ->
  entry_ok (probe_entry e p).
Proof.
  intros Ha Hh Hs. unfold probe_entry.
  destruct (list_tools p ≫= wrap_tools (e_config e)) as [[ts ds]|err] eqn:Eo.
  - apply bind_Ok_inv in Eo as (l & _ & Hw). split; cbn.
    + by apply wrap_tools_aligned in Hw.
    + done.
    + apply mark_ok_ok, Hh.
    + by apply load_surface_ok.
  - split; cbn; [done | done | by apply mark_failed_ok | done].
Qed.

Lemma establish_entry_ok c prev :
  (forall h, prev = Some h -> health_seed (ms_id c) h) -> entry_ok (establish_entry c prev).
Proof.
  intros Hp. unfold establish_entry.
  assert (health_seed (ms_id c) (default (health_initial c) prev)) as Hs.
  { destruct prev as [h|]; [by apply Hp|]. apply health_ok_seed, health_initial_ok. }
  destruct (connect_server _ _ c) as [p|err].
  - apply probe_entry_ok; cbn; [constructor | done | apply surface_ok_default].
  - split; cbn; [constructor | done | by apply mark_failed_ok | apply surface_ok_default].
Qed.

Lemma probe_entry_id e p : e_id (probe_entry e p) = e_id e.
Proof. unfold probe_entry. by destruct (list_tools p ≫= _) as [[ts ds]|err]. Qed.

Lemma establish_entry_id c prev : e_id (establish_entry c prev) = ms_id c.
Proof.
  unfold establish_entry. destruct (connect_server _ _ c); [|done].
  by rewrite probe_entry_id.
Qed.

Lemma entry_ok_probe e p : entry_ok e -> entry_ok (probe_entry e p).
Proof. intros []. apply probe_entry_ok; [done | by apply health_ok_seed | done]. Qed.

Lemma entry_ok_establish e :
  entry_ok e -> entry_ok (establish_entry (e_config e) (Some (e_health e))).
Proof. intros []. apply establish_entry_ok. intros h [= <-]. by apply health_ok_seed. Qed.

Lemma probe_work_ok e : entry_ok e -> entry_ok (probe_work e) /\ e_id (probe_work e) = e_id e.
Proof.
  unfold probe_work. intros H. destruct (e_peer e).
  - split; [by apply entry_ok_probe | apply probe_entry_id].
  - split; [by apply entry_ok_establish | apply establish_entry_id].
Qed.

Lemma update_work_ok c e :
  entry_ok e -> e_id e = ms_id c ->
  entry_ok (update_work c e) /\ e_id (update_work c e) = ms_id c.
Proof.
  intros [Ha _ Hh Hs] Hid. apply health_ok_seed in Hh. unfold e_id in *. rewrite Hid in Hh.
  unfold update_work.
  assert (entry_ok (establish_entry c (Some (e_health e)))
    /\ e_id (establish_entry c (Some (e_health e))) = ms_id c) as He.
  { split; [|apply establish_entry_id]. apply establish_entry_ok. by intros h [= <-]. }
  destruct (e_peer e) as [p|]; [|exact He].
  destruct (needs_reconnect e c); [exact He|]. split; [|apply probe_entry_id].
  apply probe_entry_ok; unfold e_id; cbn; [by rewrite <- Hid | done | done].
Qed.
End WithWorld.

(** ** Deduplication keeps entries well formed and names unique *)

Lemma Forall2_zip_sublist {A B} (R : A -> B -> Prop) l k kept :
  Forall2 R l k -> sublist kept (zip l k) -> Forall2 R (fst <$> kept) (snd <$> kept).
Proof.
  intros HR Hs.
  assert (Forall (fun p => R p.1 p.2) (zip l k)) as Hz.
  { clear Hs. induction HR; cbn; constructor; auto. }
  assert (Forall (fun p => R p.1 p.2) kept) as Hk.
  { rewrite Forall_forall in Hz |- *. eauto using elem_of_sublist. }
  clear -Hk. induction Hk; cbn; constructor; auto.
Qed.

Lemma zip_wires (ts : list WrappedTool) (ds : list ToolDescriptor) :
  length ts = length ds -> (fun p => wire p.1) <$> zip ts ds = wire <$> ts.
Proof. intros H. rewrite <- (fst_zip ts ds) at 2 by lia. by rewrite <- list_fmap_compose. Qed.

Lemma dedup_entry_tools_spec e seen :
  entry_ok e ->
  let '(seen', e') := dedup_entry_tools e seen in
  seen' = seen ∪ list_to_set (wire <$> e_tools e) /\
  NoDup (wire <$> e_tools e') /\
  (forall t, t ∈ e_tools e' -> wire t ∉ seen) /\
  sublist (e_tools e') (e_tools e) /\
  entry_ok e' /\ e_config e' = e_config e /\ e_surface e' = e_surface e /\ e_peer e' = e_peer e /\
  e_health e' = e_health e /\
  (forall t, t ∈ e_tools e -> wire t ∈ seen \/ wire t ∈ wire <$> e_tools e').
Proof.
  intros [Ha Hn Hh Hs]. unfold dedup_entry_tools.
  pose proof (retain_fresh_seen (fun p => wire p.1) seen (zip (e_tools e) (e_descriptors e))) as H1.
  pose proof (retain_fresh_NoDup (fun p => wire p.1) seen (zip (e_tools e) (e_descriptors e)))
    as [H2 H3].
  pose proof (retain_fresh_sublist (fun p => wire p.1) seen (zip (e_tools e) (e_descriptors e)))
    as H4.
  assert (length (e_tools e) = length (e_descriptors e)) as Hl by (by eapply Forall2_length).
  rewrite zip_wires in H1 by done.
  pose proof (retain_fresh_complete (fun p => wire p.1) seen (zip (e_tools e) (e_descriptors e)))
    as H5.
  destruct (retain_fresh _ seen _) as [seen' kept]. cbn in *.
  assert (wire <$> (fst <$> kept) = (fun p => wire p.1) <$> kept) as Ew
    by (by rewrite <- list_fmap_compose).
  assert (sublist (fst <$> kept) (e_tools e)) as Hsub.
  { rewrite <- (fst_zip (e_tools e) (e_descriptors e)) by lia.
    clear -H4. induction H4; cbn; constructor; auto. }
  rewrite Ew. split; [done|]. split; [done|]. split; [|split; [done|]].
  - intros t (p & -> & Hp)%list_elem_of_fmap. by apply H3.
  - split; [|do 4 (split; [done|])].
    2: { intros t Ht. rewrite <- (fst_zip (e_tools e) (e_descriptors e)) in Ht by lia.
         apply list_elem_of_fmap in Ht as (p & -> & Hp). cbn. by apply H5. }
    split; cbn; [| |done|done].
    + by eapply Forall2_zip_sublist.
    + intros Hp. destruct (Hn Hp) as [Ht Hsf]. split; [|done].
      rewrite Ht in Hsub. by apply sublist_nil_r in Hsub.
Qed.

Lemma surface_ok_prompts s ps :
  surface_ok s -> NoDup (ps_wire_name <$> ps) ->
  surface_ok (mkSurfaceSnapshot ps (resources s) (templates s)).
Proof. intros [] ?. by split. Qed.

Lemma with_prompts_ok ps e :
  entry_ok e -> sublist ps (prompts (e_surface e)) -> NoDup (ps_wire_name <$> ps) ->
  entry_ok (with_prompts ps e).
Proof.
  intros [Ha Hn Hh Hs] Hsub Hnd. split; cbn; [done| |done|by apply surface_ok_prompts].
  intros Hp. destruct (Hn Hp) as [Ht Hsf]. split; [done|]. rewrite Hsf in *.
  apply sublist_nil_r in Hsub as ->. done.
Qed.

Definition entry_wires (e : McpServerEntry) : list string := wire <$> e_tools e.
Definition entry_prompts (e : McpServerEntry) : list string :=
  ps_wire_name <$> prompts (e_surface e).

(** What every kind of deduplication gives. *)
Record deduped (tool_names prompt_names : gset string) (e e' : McpServerEntry) : Prop := {
  deduped_ok : entry_ok e';
  deduped_config : e_config e' = e_config e;
  deduped_peer : e_peer e' = e_peer e;
  deduped_health : e_health e' = e_health e;
  deduped_complete : forall w, w ∈ entry_wires e -> w ∈ tool_names \/ w ∈ entry_wires e';
  deduped_sub : sublist (e_tools e') (e_tools e);
  deduped_wires : NoDup (entry_wires e') /\ forall w, w ∈ entry_wires e' -> w ∉ tool_names;
  deduped_prompts :
    NoDup (entry_prompts e') /\ forall w, w ∈ entry_prompts e' -> w ∉ prompt_names;
}.

Lemma dedup_entry_both e seen seen_prompts :
  entry_ok e ->
  let '(seen', e1) := dedup_entry_tools e seen in
  let '(_, ps) := dedup_prompts seen_prompts (prompts (e_surface e1)) in
  deduped seen seen_prompts e (with_prompts ps e1) /\
  seen' = seen ∪ list_to_set (entry_wires e).
Proof.
  intros Hok. pose proof (dedup_entry_tools_spec e seen Hok) as H.
  destruct (dedup_entry_tools e seen) as [seen' e1].
  destruct H as (H1 & H2 & H3 & H4 & H5 & H6 & H7 & H8 & H9 & H10). unfold dedup_prompts.
  pose proof (retain_fresh_NoDup ps_wire_name seen_prompts (prompts (e_surface e1))) as [P1 P2].
  pose proof (retain_fresh_sublist ps_wire_name seen_prompts (prompts (e_surface e1))) as P3.
  destruct (retain_fresh ps_wire_name _ _) as [? ps]. cbn in *. split; [|done].
  split; cbn; try done; [by apply with_prompts_ok| |split; [done|]..].
  - intros w (t & -> & Ht)%list_elem_of_fmap. auto.
  - intros w (t & -> & Ht)%list_elem_of_fmap. auto.
  - intros w (s & -> & Hs)%list_elem_of_fmap. auto.
Qed.

Lemma dedup_against_others_spec guard skip e :
  entry_ok e ->
  deduped (tool_wire_names (others guard skip)) (prompt_wire_names (others guard skip)) e
    (dedup_against_others guard skip e).
Proof.
  intros Hok. unfold dedup_against_others.
  pose proof (dedup_entry_both e (tool_wire_names (others guard skip))
    (prompt_wire_names (others guard skip)) Hok) as H.
  destruct (dedup_entry_tools e _) as [seen' e1].
  destruct (dedup_prompts _ _) as [? ps]. apply H.
Qed.

(** ** Names across the registry *)

Definition names_unique (es : Entries) : Prop :=
  NoDup (es ≫= entry_wires) /\ NoDup (es ≫= entry_prompts).

Lemma reg_names_unique_perm es es' : es ≡ₚ es' -> names_unique es -> names_unique es'.
Proof. unfold names_unique. intros H. by rewrite H. Qed.

Lemma names_unique_cons e es :
  names_unique es ->
  NoDup (entry_wires e) /\ (forall w, w ∈ entry_wires e -> w ∉ tool_wire_names es) ->
  NoDup (entry_prompts e) /\ (forall w, w ∈ entry_prompts e -> w ∉ prompt_wire_names es) ->
  names_unique (e :: es).
Proof.
  intros [H1 H2] [H3 H4] [H5 H6]. unfold tool_wire_names, prompt_wire_names in *. split; cbn.
  - apply NoDup_app. split; [done|]. split; [|done]. intros w Hw. specialize (H4 w Hw). set_solver.
  - apply NoDup_app. split; [done|]. split; [|done]. intros w Hw. specialize (H6 w Hw). set_solver.
Qed.

Lemma reg_names_unique_sublist es es' : sublist es' es -> names_unique es -> names_unique es'.
Proof.
  intros Hs [H1 H2]. split; [apply (sublist_NoDup _ _ H1) | apply (sublist_NoDup _ _ H2)];
    by apply bind_sublist.
Qed.

(** A loop that pushes deduplicated entries. *)
Record pushed_ok (es : Entries) (seen : gset string) : Prop := {
  pushed_entries : Forall entry_ok es;
  pushed_unique : names_unique es;
  pushed_seen : tool_wire_names es = seen;
}.

(** The entry [e'] that goes in for the refreshed entry [r]. *)
Record kept_from (r e' : McpServerEntry) : Prop := {
  kept_config : e_config e' = e_config r;
  kept_peer : e_peer e' = e_peer r;
  kept_health : e_health e' = e_health r;
  kept_tools : sublist (e_tools e') (e_tools r);
}.

Lemma push_deduped_ok e es seen :
  entry_ok e -> pushed_ok es seen ->
  let '(es', seen', n) := push_deduped_entry e es seen in
  pushed_ok es' seen' /\ seen' = seen ∪ list_to_set (entry_wires e) /\
  exists e', es' = es ++ [e'] /\ kept_from e e' /\ n = length (e_tools e').
Proof.
  intros Hok [H1 H2 H3]. unfold push_deduped_entry.
  pose proof (dedup_entry_both e seen (prompt_wire_names es) Hok) as H.
  destruct (dedup_entry_tools e seen) as [seen' e1].
  destruct (dedup_prompts _ _) as [? ps]. destruct H as [[K1 K2 K3 Kh Kc K4 [K5 K6] K7] ->].
  set (e2 := with_prompts ps e1) in *.
  split; [|split; [done|]; exists e2; split; [done|]; by split].
  split.
  - apply Forall_app. by rewrite Forall_singleton.
  - apply (reg_names_unique_perm (e2 :: es)); [by rewrite Permutation_app_comm|].
    apply names_unique_cons; [done| |done]. split; [done|]. intros w Hw. specialize (K6 w Hw).
    set_solver.
  - unfold tool_wire_names in *. rewrite bind_app. cbn. rewrite app_nil_r.
    rewrite list_to_set_app_L, H3.
    change (wire <$> e_tools e2) with (entry_wires e2). apply set_eq. intros w.
    rewrite !elem_of_union, !elem_of_list_to_set. split; [|specialize (Kc w); tauto].
    intros [Hw|Hw]; [by left|right]. unfold entry_wires in *.
    apply list_elem_of_fmap in Hw as (t & -> & Ht). apply list_elem_of_fmap_2.
    by eapply elem_of_sublist.
Qed.

Lemma pushed_ok_nil : pushed_ok [] ∅.
Proof. split; [constructor | split; constructor | set_solver]. Qed.

Section Building.
Context {W : World}.

Lemma connect_all_loop configs es seen :
  pushed_ok es seen ->
  let '(es', seen') := fold_left connect_step configs (es, seen) in
  pushed_ok es' seen' /\ e_id <$> es' = (e_id <$> es) ++ (ms_id <$> configs).
Proof.
  revert es seen. induction configs as [|c configs IH]; cbn; intros es seen H.
  - by rewrite app_nil_r.
  - pose proof (push_deduped_ok (establish_entry c None) es seen) as Hp.
    destruct (push_deduped_entry _ es seen) as [[es1 seen1] n].
    destruct Hp as [H1 (_ & e' & -> & [Hid _ _ _] & _)]; [by apply establish_entry_ok | done |].
    specialize (IH _ _ H1). destruct (fold_left _ _ _) as [es2 seen2].
    destruct IH as [IH1 IH2]. split; [done|]. rewrite IH2, fmap_app, <- app_assoc. cbn.
    unfold e_id at 2. rewrite Hid. fold (e_id (establish_entry c None)).
    by rewrite establish_entry_id.
Qed.

Lemma connect_all_ok configs :
  Forall entry_ok (connect_all_with configs) /\ names_unique (connect_all_with configs) /\
  e_id <$> connect_all_with configs = ms_id <$> configs.
Proof.
  unfold connect_all_with. pose proof (connect_all_loop configs [] ∅ pushed_ok_nil) as H.
  destruct (fold_left _ _ _) as [es seen]. destruct H as [[] Hid]. done.
Qed.

Lemma push_refreshed_ok e w :
  entry_ok e -> pushed_ok (rw_entries w) (rw_seen w) ->
  pushed_ok (rw_entries (push_refreshed e w)) (rw_seen (push_refreshed e w)) /\
  e_id <$> rw_entries (push_refreshed e w) = (e_id <$> rw_entries w) ++ [e_id e].
Proof.
  intros He Hw. unfold push_refreshed.
  pose proof (push_deduped_ok e (rw_entries w) (rw_seen w) He Hw) as Hp.
  destruct (push_deduped_entry _ _ _) as [[es1 seen1] n]. cbn.
  destruct Hp as [H1 (_ & e' & -> & [Hid _ _ _] & _)]. split; [done|]. rewrite fmap_app. cbn.
  unfold e_id at 2. by rewrite Hid.
Qed.

Lemma refresh_one_ok b e w :
  entry_ok e -> pushed_ok (rw_entries w) (rw_seen w) ->
  pushed_ok (rw_entries (refresh_one b w e)) (rw_seen (refresh_one b w e)) /\
  e_id <$> rw_entries (refresh_one b w e) = (e_id <$> rw_entries w) ++ [e_id e].
Proof.
  intros He Hw. unfold refresh_one. case_if; [by apply push_refreshed_ok|].
  assert (forall r w', entry_ok r -> e_id r = e_id e -> rw_entries w' = rw_entries w ->
    rw_seen w' = rw_seen w ->
    pushed_ok (rw_entries (push_refreshed r w')) (rw_seen (push_refreshed r w')) /\
    e_id <$> rw_entries (push_refreshed r w') = (e_id <$> rw_entries w) ++ [e_id e]) as Hpush.
  { intros r w' Hr <- E1 E2. rewrite <- E1. apply push_refreshed_ok; [done|]. by rewrite E1, E2. }
  destruct (e_peer e) as [p|]; [|destruct b].
  - apply Hpush; [by apply entry_ok_probe | apply probe_entry_id | by case_if ..].
  - apply Hpush; [by apply entry_ok_establish | apply establish_entry_id | by case_if ..].
  - by apply Hpush.
Qed.

Lemma refresh_work_ok b es :
  Forall entry_ok es ->
  Forall entry_ok (rw_entries (refresh_work b es)) /\ names_unique (rw_entries (refresh_work b es)) /\
  e_id <$> rw_entries (refresh_work b es) = e_id <$> es.
Proof.
  intros Hes. unfold refresh_work.
  assert (forall w, pushed_ok (rw_entries w) (rw_seen w) ->
    let w' := fold_left (refresh_one b) es w in
    pushed_ok (rw_entries w') (rw_seen w') /\
    e_id <$> rw_entries w' = (e_id <$> rw_entries w) ++ (e_id <$> es)) as Hloop.
  { induction Hes as [|e es He _ IH]; cbn; intros w Hw; [by rewrite app_nil_r|].
    destruct (refresh_one_ok b e w He Hw) as [H1 H2]. destruct (IH _ H1) as [H3 H4].
    split; [done|]. by rewrite H4, H2, <- app_assoc. }
  destruct (Hloop (mkRefreshWork [] ∅ [] 0) pushed_ok_nil) as [[] Hid]. done.
Qed.
End Building.

(** ** Commits *)

Definition ids_unique (es : Entries) : Prop := NoDup (e_id <$> es).

Lemma set_by_id_ids e g : e_id <$> set_by_id e g = e_id <$> g.
Proof.
  unfold set_by_id. induction g as [|x g IH]; cbn; [done|].
  destruct (String.eqb_spec (e_id x) (e_id e)) as [E|]; cbn; [by rewrite E|]. by rewrite IH.
Qed.

Lemma set_by_id_Forall (P : McpServerEntry -> Prop) e g :
  P e -> Forall P g -> Forall P (set_by_id e g).
Proof.
  intros He. unfold set_by_id. induction 1 as [|x g Hx Hg IH]; cbn; [done|].
  destruct (e_id x =s e_id e); by constructor.
Qed.

Lemma refresh_commit_ids r g : e_id <$> refresh_commit r g = e_id <$> g.
Proof.
  unfold refresh_commit. revert g. induction r as [|e r IH]; cbn; intros g; [done|].
  by rewrite IH, set_by_id_ids.
Qed.

Lemma refresh_commit_Forall (P : McpServerEntry -> Prop) r g :
  Forall P r -> Forall P g -> Forall P (refresh_commit r g).
Proof.
  unfold refresh_commit. intros Hr. revert g. induction Hr; cbn; intros g Hg; [done|].
  auto using set_by_id_Forall.
Qed.

(** Undisturbed, a refresh writes exactly what it computed. *)
Lemma refresh_commit_same r g :
  ids_unique g -> e_id <$> r = e_id <$> g -> refresh_commit r g = r.
Proof.
  unfold refresh_commit, ids_unique. intros Hnd0 Hid0.
  assert (forall pre g, (forall x, x ∈ pre -> e_id x ∉ e_id <$> r) ->
    NoDup (e_id <$> g) -> e_id <$> r = e_id <$> g ->
    fold_left (fun g e => set_by_id e g) r (pre ++ g) = pre ++ r) as H.
  { clear g Hnd0 Hid0. induction r as [|e r IH]; intros pre [|x g] Hd Hnd Hid;
      try discriminate; [done|].
    cbn in *. injection Hid as He Hid. apply NoDup_cons in Hnd as [Hx Hnd].
    assert (set_by_id e (pre ++ x :: g) = (pre ++ [e]) ++ g) as ->.
    { clear IH Hid. unfold set_by_id. induction pre as [|y pre IHd]; cbn.
      - by rewrite He, String.eqb_refl.
      - destruct (String.eqb_spec (e_id y) (e_id e)) as [E|]; [exfalso; set_solver|].
        rewrite <- app_assoc in IHd |- *. cbn in *. rewrite IHd; [done|set_solver]. }
    rewrite IH; [by rewrite <- app_assoc| |done|done].
    intros y [Hy| ->%list_elem_of_singleton]%elem_of_app; [set_solver|].
    rewrite Hid, He. done. }
  apply (H [] g); [set_solver|done..].
Qed.

Lemma position_ids e g pos :
  position (fun x => e_id x =s e_id e) g = Some pos ->
  exists x, g !! pos = Some x /\ e_id x = e_id e.
Proof. intros (x & Hx & E%String.eqb_eq)%position_Some. eauto. Qed.

Lemma replaced_perm (g : Entries) pos x e :
  g !! pos = Some x -> <[pos := e]> g ≡ₚ e :: delete pos g.
Proof.
  intros Hx. rewrite insert_take_drop by (by eapply lookup_lt_Some).
  rewrite delete_take_drop. by rewrite Permutation_middle.
Qed.

Lemma delete_sublist (g : Entries) pos : sublist (delete pos g) g.
Proof. apply sublist_delete. Qed.

(** Replacing keeps ids, well-formedness and unique names. *)
Lemma replace_entry_spec e g :
  entry_ok e ->
  let '(g', view) := replace_entry e g in
  e_id <$> g' = e_id <$> g /\ (Forall entry_ok g -> Forall entry_ok g') /\
  (names_unique g -> names_unique g') /\
  (view = None -> g' = g /\ e_id e ∉ e_id <$> g).
Proof.
  intros He. unfold replace_entry. destruct (position _ g) as [pos|] eqn:Ep.
  - destruct (position_ids _ _ _ Ep) as (x & Hx & Hid).
    destruct (dedup_against_others_spec g (Some pos) e He) as [H1 H2 H3 _ _ H4 H5 H6].
    set (e' := dedup_against_others g (Some pos) e) in *. cbn [others] in *.
    split; [|split; [|split; [|done]]].
    + rewrite list_fmap_insert. apply list_insert_id. rewrite list_lookup_fmap, Hx. cbn.
      unfold e_id at 2. rewrite H2. by rewrite Hid.
    + intros Hg. by apply Forall_insert.
    + intros Hu. apply (reg_names_unique_perm (e' :: delete pos g)).
      * symmetry. by eapply replaced_perm.
      * apply names_unique_cons; [|done|done]. eapply reg_names_unique_sublist; [|done].
        apply delete_sublist.
  - split; [done|]. split; [done|]. split; [done|]. intros _. split; [done|].
    intros (x & Hx & Hin)%list_elem_of_fmap.
    assert (position (fun x => e_id x =s e_id e) g <> None) as K; [|done].
    clear -Hx Hin. induction g as [|y g IH]; [set_solver|]. cbn.
    destruct (String.eqb_spec (e_id y) (e_id e)) as [|Hne]; [done|].
    apply elem_of_cons in Hin as [->|Hin]; [congruence|].
    specialize (IH Hin). by destruct (position _ g).
Qed.

Lemma has_id_spec id g : has_id id g = true <-> id ∈ e_id <$> g.
Proof.
  unfold has_id. rewrite existsb_elem, list_elem_of_fmap. split.
  - intros (x & Hx & E%String.eqb_eq). eauto.
  - intros (x & -> & Hx). exists x. by rewrite String.eqb_refl.
Qed.

Lemma add_commit_spec e g :
  entry_ok e ->
  let '(g', r) := add_commit e g in
  (ids_unique g -> ids_unique g') /\ (Forall entry_ok g -> Forall entry_ok g') /\
  (names_unique g -> names_unique g') /\
  (is_Ok r = true <-> e_id e ∉ e_id <$> g) /\
  (is_Ok r = false -> g' = g).
Proof.
  intros He. unfold add_commit. destruct (has_id (e_id e) g) eqn:Ei.
  - apply has_id_spec in Ei. cbn. naive_solver.
  - apply not_true_iff_false in Ei. rewrite has_id_spec in Ei.
    destruct (dedup_against_others_spec g None e He) as [H1 H2 H3 _ _ H4 H5 H6].
    set (e' := dedup_against_others g None e) in *. cbn [others is_Ok] in *.
    assert (e_id e' = e_id e) as Hid by (unfold e_id; by rewrite H2).
    split; [|split; [|split; [|done]]].
    + unfold ids_unique. rewrite fmap_app, Permutation_app_comm. cbn. rewrite Hid.
      by constructor.
    + intros Hg. apply Forall_app. by rewrite Forall_singleton.
    + intros Hu. apply (reg_names_unique_perm (e' :: g)); [by rewrite Permutation_app_comm|].
      by apply names_unique_cons.
Qed.

Lemma remove_server_sublist id g : sublist (remove_server id g).1 g.
Proof.
  cbn. induction g as [|x g IH]; cbn; [constructor|]. case_if; by constructor.
Qed.

(** ** Interleavings

    The entries and the operations that wait for an upstream.  An operation starts
    by reading a snapshot, may be cancelled, and ends with its commit. *)

Inductive job :=
| JobRefresh (refreshed : Entries)
| JobReplace (e : McpServerEntry)
| JobAdd (e : McpServerEntry).

Definition commit_job (j : job) (es : Entries) : Entries :=
  match j with
  | JobRefresh r => refresh_commit r es
  | JobReplace e => (replace_entry e es).1
  | JobAdd e => (add_commit e es).1
  end.

Record reg_state := mkRegState { rg_entries : Entries; rg_jobs : list job }.

Inductive reg_step : reg_state -> reg_state -> Prop :=
| step_refresh (W : World) b es js :
    reg_step (mkRegState es js)
      (mkRegState es (JobRefresh (rw_entries (refresh_work b es)) :: js))
| step_probe (W : World) id e es js :
    find_entry id es = Some e ->
    reg_step (mkRegState es js) (mkRegState es (JobReplace (probe_work e) :: js))
| step_reconnect (W : World) id e es js :
    find_entry id es = Some e ->
    reg_step (mkRegState es js) (mkRegState es (JobReplace (reconnect_work e) :: js))
| step_update (W : World) c e es js :
    find_entry (ms_id c) es = Some e ->
    reg_step (mkRegState es js) (mkRegState es (JobReplace (update_work c e) :: js))
| step_add (W : World) c es js :
    has_id (ms_id c) es = false ->
    reg_step (mkRegState es js) (mkRegState es (JobAdd (establish_entry c None) :: js))
| step_commit j es js1 js2 :
    reg_step (mkRegState es (js1 ++ j :: js2)) (mkRegState (commit_job j es) (js1 ++ js2))
| step_cancel j es js1 js2 :
    reg_step (mkRegState es (js1 ++ j :: js2)) (mkRegState es (js1 ++ js2))
| step_remove id es js :
    reg_step (mkRegState es js) (mkRegState (remove_server id es).1 js).

Definition job_ok (j : job) : Prop :=
  match j with
  | JobRefresh r => Forall entry_ok r
  | JobReplace e | JobAdd e => entry_ok e
  end.

Record reg_ok (s : reg_state) : Prop := {
  reg_entries : Forall entry_ok (rg_entries s);
  reg_ids : ids_unique (rg_entries s);
  reg_jobs : Forall job_ok (rg_jobs s);
}.

Lemma find_entry_Some id es e : find_entry id es = Some e -> e ∈ es /\ e_id e = id.
Proof. intros [H1 H2%String.eqb_eq]%find_Some_elem. done. Qed.

Lemma commit_job_ok j es :
  job_ok j -> Forall entry_ok es -> ids_unique es ->
  Forall entry_ok (commit_job j es) /\ ids_unique (commit_job j es).
Proof.
  intros Hj Hes Hid. destruct j as [r|e|e]; cbn in *.
  - split; [by apply refresh_commit_Forall|]. unfold ids_unique. by rewrite refresh_commit_ids.
  - pose proof (replace_entry_spec e es Hj) as H. destruct (replace_entry e es) as [g v].
    destruct H as (H1 & H2 & _). split; [auto|]. unfold ids_unique. cbn. by rewrite H1.
  - pose proof (add_commit_spec e es Hj) as H. destruct (add_commit e es) as [g r].
    destruct H as (H1 & H2 & _). split; auto.
Qed.

Lemma find_entry_ok id es e : Forall entry_ok es -> find_entry id es = Some e -> entry_ok e.
Proof. rewrite Forall_forall. intros H [He _]%find_entry_Some. auto. Qed.

Lemma reg_step_ok s s' : reg_step s s' -> reg_ok s -> reg_ok s'.
Proof.
  intros Hstep [H1 H2 H3]; cbn in *.
  destruct Hstep as [W b es js|W id e es js Hf|W id e es js Hf|W c e es js Hf|W c es js Hn
    |j es js1 js2|j es js1 js2|id es js]; cbn in *.
  - split; [done|done|]. constructor; [|done]. by apply refresh_work_ok.
  - split; [done|done|]. constructor; [|done]. by eapply probe_work_ok, find_entry_ok.
  - split; [done|done|]. constructor; [|done]. by eapply entry_ok_establish, find_entry_ok.
  - split; [done|done|]. constructor; [|done].
    eapply update_work_ok; [by eapply find_entry_ok|]. by apply find_entry_Some in Hf as [_ ->].
  - split; [done|done|]. constructor; [|done]. by apply establish_entry_ok.
  - apply Forall_app in H3 as [H3 [Hj H4]%Forall_cons].
    destruct (commit_job_ok j es Hj H1 H2). split; [done|done|]. by apply Forall_app.
  - apply Forall_app in H3 as [H3 [Hj H4]%Forall_cons]. split; [done|done|]. by apply Forall_app.
  - split; [| |done].
    + rewrite Forall_forall in H1 |- *. intros e He. apply H1.
      eapply elem_of_sublist; [exact He|]. apply (remove_server_sublist id).
    + unfold ids_unique. cbn. eapply sublist_NoDup; [exact H2|].
      apply fmap_sublist, (remove_server_sublist id).
Qed.

(** ** What a refresh does to one entry *)

Section Refreshed.
Context {W : World}.

Definition refreshed (b : bool) (e : McpServerEntry) : McpServerEntry :=
  if negb (health_check_enabled (e_config e)) then e
  else match e_peer e, b with
       | Some p, _ => probe_entry e p
       | None, true => establish_entry (e_config e) (Some (e_health e))
       | None, false => e
       end.

Lemma refreshed_ok b e : entry_ok e -> entry_ok (refreshed b e).
Proof.
  intros He. unfold refreshed. case_if; [done|]. destruct (e_peer e); [|destruct b; [|done]].
  - by apply entry_ok_probe.
  - by apply entry_ok_establish.
Qed.

Lemma refresh_one_push b w e :
  exists w', refresh_one b w e = push_refreshed (refreshed b e) w' /\
    rw_entries w' = rw_entries w /\ rw_seen w' = rw_seen w.
Proof.
  unfold refresh_one, refreshed. case_if; [by eauto|].
  destruct (e_peer e); [|destruct b]; [case_if; eauto | case_if; eauto | eauto].
Qed.

Lemma refresh_one_grows b w e :
  entry_ok e -> pushed_ok (rw_entries w) (rw_seen w) ->
  let w' := refresh_one b w e in
  pushed_ok (rw_entries w') (rw_seen w') /\
  rw_seen w' = rw_seen w ∪ list_to_set (entry_wires (refreshed b e)) /\
  exists e', rw_entries w' = rw_entries w ++ [e'] /\ kept_from (refreshed b e) e'.
Proof.
  intros He Hw. destruct (refresh_one_push b w e) as (w1 & -> & E1 & E2).
  unfold push_refreshed. rewrite E1, E2.
  pose proof (push_deduped_ok (refreshed b e) (rw_entries w) (rw_seen w)
    (refreshed_ok b e He) Hw) as H.
  destruct (push_deduped_entry _ _ _) as [[es' seen'] n]. cbn.
  destruct H as (H1 & H2 & e' & H3 & H4 & _). eauto.
Qed.

Lemma refresh_work_entry b es e :
  Forall entry_ok es -> e ∈ es ->
  exists e', e' ∈ rw_entries (refresh_work b es) /\ kept_from (refreshed b e) e' /\
    forall w, w ∈ entry_wires (refreshed b e) ->
      w ∈ rw_entries (refresh_work b es) ≫= entry_wires.
Proof.
  intros Hes Hin. unfold refresh_work.
  assert (forall w, pushed_ok (rw_entries w) (rw_seen w) ->
    let w' := fold_left (refresh_one b) es w in
    pushed_ok (rw_entries w') (rw_seen w') /\ rw_seen w ⊆ rw_seen w' /\
    (forall x, x ∈ rw_entries w -> x ∈ rw_entries w') /\
    exists e', e' ∈ rw_entries w' /\ kept_from (refreshed b e) e' /\
      list_to_set (entry_wires (refreshed b e)) ⊆ rw_seen w') as Hloop.
  { assert (forall es w, Forall entry_ok es -> pushed_ok (rw_entries w) (rw_seen w) ->
      let w' := fold_left (refresh_one b) es w in
      pushed_ok (rw_entries w') (rw_seen w') /\ rw_seen w ⊆ rw_seen w' /\
      forall x, x ∈ rw_entries w -> x ∈ rw_entries w') as Hgrow.
    { clear. intros es w Hes. revert w. induction Hes as [|y es Hy _ IH]; cbn; intros w Hw; [done|].
      destruct (refresh_one_grows b w y Hy Hw) as (H1 & H2 & e' & H3 & _).
      destruct (IH _ H1) as (K1 & K2 & K3). split; [done|]. rewrite H2 in K2.
      split; [set_solver|]. intros x Hx. apply K3. rewrite H3. set_solver. }
    revert Hin. induction Hes as [|y es Hy Hes IH]; intros Hin w Hw; [set_solver|]. cbn.
    destruct (refresh_one_grows b w y Hy Hw) as (H1 & H2 & e' & H3 & H4).
    destruct (Hgrow es _ Hes H1) as (K1 & K2 & K3). rewrite H2 in K2.
    split; [done|]. split; [set_solver|]. split; [intros x Hx; apply K3; rewrite H3; set_solver|].
    apply elem_of_cons in Hin as [->|Hin].
    - exists e'. split; [apply K3; rewrite H3; set_solver|]. split; [done|set_solver].
    - apply (IH Hin _ H1). }
  destruct (Hloop (mkRefreshWork [] ∅ [] 0) pushed_ok_nil)
    as ([_ _ Hs] & _ & _ & e' & H1 & H2 & H3).
  exists e'. split; [done|]. split; [done|]. intros w Hw.
  rewrite <- Hs in H3. unfold tool_wire_names in H3.
  apply (elem_of_list_to_set (C := gset string)), H3. by apply elem_of_list_to_set.
Qed.
End Refreshed.

(** ** Properties *)

(** Every registry that comes about keeps its promises. *)
Lemma reg_reachable_ok {W : World} configs s :
  NoDup (ms_id <$> configs) ->
  rtc reg_step (mkRegState (connect_all_with configs) []) s -> reg_ok s.
Proof.
  intros Hnd Hr. destruct (connect_all_ok configs) as (H1 & _ & H3).
  assert (reg_ok (mkRegState (connect_all_with configs) [])) as H0.
  { split; cbn; [done | | constructor]. unfold ids_unique. by rewrite H3. }
  clear -Hr H0. induction Hr; [done|]. eauto using reg_step_ok.
Qed.


(** Wire names and prompt names are served by one entry only: this holds after
    start-up and is preserved by every operation, where the operations on a single
    server may run beside any others and a refresh runs undisturbed. *)
Theorem registry_names_unique {W : World} configs es meanwhile :
  Forall entry_ok es -> ids_unique es -> names_unique es ->
  (forall es, names_unique es -> names_unique (meanwhile es)) ->
  names_unique (connect_all_with configs) /\
  (forall b, names_unique (refresh_inner b (fun es => es) es).1) /\
  (forall id, names_unique (probe id meanwhile es).1) /\
  (forall id, names_unique (reconnect id meanwhile es).1) /\
  (forall c, names_unique (update_server c meanwhile es).1) /\
  (forall c, names_unique (add_server c meanwhile es).1) /\
  (forall id, names_unique (remove_server id es).1).
Proof.
  intros Hok Hid Hu Hm. split; [apply connect_all_ok|]. split; [|].
  { intros b. cbn. destruct (refresh_work_ok b es Hok) as (_ & H2 & H3).
    by rewrite refresh_commit_same. }
  assert (forall id work, (forall e, entry_ok e -> e_id e = id -> entry_ok (work e)) ->
    names_unique (on_entry id work meanwhile es).1) as Hon.
  { intros id work Hw. unfold on_entry. destruct (find_entry id es) as [e|] eqn:Ef; [|done].
    unfold finish_replace.
    assert (entry_ok (work e)) as He.
    { apply Hw; [by eapply find_entry_ok | by apply find_entry_Some in Ef as [_ ->]]. }
    pose proof (replace_entry_spec (work e) (meanwhile es) He) as H.
    destruct (replace_entry _ _) as [g v]. destruct H as (_ & _ & H & _). cbn. auto. }
  split; [|split; [|split; [|split]]].
  - intros id. apply Hon. intros. by apply probe_work_ok.
  - intros id. apply Hon. intros. by apply entry_ok_establish.
  - intros c. apply Hon. intros. by apply update_work_ok.
  - intros c. unfold add_server. destruct (has_id _ es); [done|].
    pose proof (add_commit_spec (establish_entry c None) (meanwhile es)) as H.
    destruct (add_commit _ _) as [g r]. destruct H as (_ & _ & H & _);
      [by apply establish_entry_ok|]. auto.
  - intros id. eapply reg_names_unique_sublist; [apply remove_server_sublist | done].
Qed.

(** C12: an upstream that answers again is back after the next refresh: whatever
    its health was, an enabled server that connects and lists tools with usable names
    is [ok] afterwards, connected, with a failure count of zero; its tools come from
    that list, and every name of the list is served by the registry. *)
Theorem refresh_recovers {W : World} es e p l ts ds :
  Forall entry_ok es -> ids_unique es -> e ∈ es ->
  health_check_enabled (e_config e) = true ->
  match e_peer e with
  | Some q => q = p
  | None => connect_server w_oauth w_resolve (e_config e) = Ok p
  end ->
  list_tools p = Ok l -> wrap_tools (e_config e) l = Ok (ts, ds) ->
  exists e', e' ∈ (refresh_inner true (fun es => es) es).1 /\ e_config e' = e_config e /\
    e_peer e' = Some p /\ status (e_health e') = HS_Ok /\
    consecutive_failures (e_health e') = 0 /\ sublist (e_tools e') ts /\
    forall t, t ∈ ts -> wire t ∈ wire <$> all_wrapped_tools (refresh_inner true (fun es => es) es).1.
Proof.
  intros Hok Hid Hin Hen Hp Hl Hw. cbn.
  destruct (refresh_work_ok true es Hok) as (_ & _ & Hids).
  rewrite refresh_commit_same by done.
  assert (e_config (refreshed true e) = e_config e /\ e_peer (refreshed true e) = Some p /\
    status (e_health (refreshed true e)) = HS_Ok /\
    consecutive_failures (e_health (refreshed true e)) = 0 /\ e_tools (refreshed true e) = ts)
    as (R1 & R2 & R3 & R4 & R5).
  { unfold refreshed. rewrite Hen. cbn. destruct (e_peer e) as [q|].
    - subst q. unfold probe_entry. rewrite Hl. cbn. rewrite Hw. cbn. by rewrite Hen.
    - unfold establish_entry. rewrite Hp. unfold probe_entry. cbn. rewrite Hl. cbn.
      rewrite Hw. cbn. by rewrite Hen. }
  destruct (refresh_work_entry true es e Hok Hin) as (e' & H1 & [K1 K2 K3 K4] & H3).
  exists e'. rewrite K1, K2, K3, R1, R2, R3, R4. rewrite R5 in K4.
  do 6 (split; [done|]). intros t Ht. unfold all_wrapped_tools.
  assert (wire t ∈ rw_entries (refresh_work true es) ≫= entry_wires) as Hm.
  { apply H3. unfold entry_wires. rewrite R5. by apply list_elem_of_fmap_2. }
  apply list_elem_of_bind in Hm as (x & Hx & Hxin). unfold entry_wires in Hx.
  apply list_elem_of_fmap in Hx as (t' & -> & Ht'). apply list_elem_of_fmap_2.
  apply list_elem_of_bind. eauto.
Qed.

Lemma find_tool_Some w es p path :
  find_tool w es = Some (p, path) ->
  exists e t, e ∈ es /\ t ∈ e_tools e /\ e_peer e = Some p /\ wire t = w /\ upstream_path t = path.
Proof.
  induction es as [|e es IH]; cbn; [done|]. intros H.
  assert (find_tool w es = Some (p, path) -> exists e0 t, e0 ∈ e :: es /\ t ∈ e_tools e0 /\
    e_peer e0 = Some p /\ wire t = w /\ upstream_path t = path) as Hrec.
  { intros (e0 & t & ? & ?)%IH. exists e0, t. split; [by right | done]. }
  destruct (e_peer e) as [q|] eqn:Ep; [|auto].
  destruct (List.find _ (e_tools e)) as [t|] eqn:Et; [|auto]. injection H as <- <-.
  apply find_Some_elem in Et as [Ht E%String.eqb_eq]. exists e, t.
  split; [by left | by rewrite Ep].
Qed.

Lemma find_tool_None w es :
  Forall entry_ok es -> find_tool w es = None -> w ∉ es ≫= entry_wires.
Proof.
  induction 1 as [|e es He _ IH]; cbn; [set_solver|].
  rewrite elem_of_app. intros H [Hw|Hw].
  - unfold entry_wires in Hw. apply list_elem_of_fmap in Hw as (t & -> & Ht).
    destruct (e_peer e) as [q|] eqn:Ep.
    + destruct (List.find _ (e_tools e)) as [t'|] eqn:Et; [done|].
      rewrite find_None_all in Et. specialize (Et t Ht). cbn in Et.
      by rewrite String.eqb_refl in Et.
    + destruct (entry_disconnected e He Ep) as [E _]. rewrite E in Ht. set_solver.
  - destruct (e_peer e); [destruct (List.find _ (e_tools e)); [done|]|]; by apply IH.
Qed.

Lemma find_tool_listed es e t :
  Forall entry_ok es -> NoDup (es ≫= entry_wires) -> e ∈ es -> t ∈ e_tools e ->
  exists p, e_peer e = Some p /\ find_tool (wire t) es = Some (p, upstream_path t).
Proof.
  induction 1 as [|a es Ha _ IH]; cbn; [set_solver|].
  intros (H1 & H2 & H3)%NoDup_app [->|He]%elem_of_cons Ht.
  - destruct (e_peer a) as [p|] eqn:Ep.
    2: { destruct (entry_disconnected a Ha Ep) as [E _]. rewrite E in Ht. set_solver. }
    exists p. split; [done|].
    destruct (List.find _ (e_tools a)) as [t'|] eqn:Et.
    + apply find_Some_elem in Et as [Ht' E%String.eqb_eq].
      by rewrite (NoDup_key_inj wire (e_tools a) t' t H1 Ht' Ht E).
    + rewrite find_None_all in Et. specialize (Et t Ht). cbn in Et.
      by rewrite String.eqb_refl in Et.
  - destruct (IH H3 He Ht) as (p & Hp & Hf). exists p. split; [done|].
    destruct (e_peer a); [|done].
    assert (List.find (fun t0 => wire t0 =s wire t) (e_tools a) = None) as ->; [|done].
    apply find_None_all. intros y Hy. apply String.eqb_neq. intros E.
    apply (H2 (wire y)); [by apply list_elem_of_fmap_2|]. rewrite E.
    apply list_elem_of_bind. exists e. split; [by apply list_elem_of_fmap_2 | done].
Qed.

Lemma all_wires es : wire <$> all_wrapped_tools es = es ≫= entry_wires.
Proof.
  unfold all_wrapped_tools. induction es as [|e es IH]; [done|]. cbn. by rewrite fmap_app, IH.
Qed.

(** C22: the registry serves what it lists.  In every state that a registry connected
    from a configuration with distinct ids comes to, whatever is interleaved with
    whatever: a call of a listed name goes to the connection of a server that lists
    the name, under that upstream's own name for the tool; while no two listed tools
    share a name, which holds at the start and for as long as nothing runs beside a
    refresh, it goes to the very entry that lists the tool; and a name that no entry
    lists is refused as unknown without a call. *)
Theorem listed_tool_served {W : World} configs s args x :
  NoDup (ms_id <$> configs) ->
  rtc reg_step (mkRegState (connect_all_with configs) []) s ->
  let es := rg_entries s in
  let serves e t := exists p, e_peer e = Some p /\
    call_tool_ex (registry_of es) (wire t) args x
      = peer_call_tool_ex p (upstream_path t) args x in
  (forall e t, e ∈ es -> t ∈ e_tools e ->
     contains_tool (registry_of es) (wire t) = true /\
     exists e' t', e' ∈ es /\ t' ∈ e_tools e' /\ wire t' = wire t /\ serves e' t') /\
  (NoDup (wire <$> all_wrapped_tools es) ->
   forall e t, e ∈ es -> t ∈ e_tools e -> serves e t) /\
  (forall w, w ∉ wire <$> all_wrapped_tools es ->
     contains_tool (registry_of es) w = false /\
     call_tool_ex (registry_of es) w args x = Err (Mcp_UnknownTool w)).
Proof.
  intros Hnd Hr es serves. destruct (reg_reachable_ok configs s Hnd Hr) as [Hok _ _]. fold es in Hok.
  unfold serves, registry_of, registry_contains_tool, registry_call_tool_ex. cbn. split_and!.
  - intros e t He Ht. destruct (find_tool (wire t) es) as [[p path]|] eqn:Ef.
    + split; [done|].
      destruct (find_tool_Some _ _ _ _ Ef) as (e' & t' & ? & ? & ? & Hw & <-).
      exists e', t'. rewrite Hw, Ef. split_and!; try done. by exists p.
    + exfalso. apply (find_tool_None _ _ Hok Ef), list_elem_of_bind. exists e.
      split; [by apply list_elem_of_fmap_2|done].
  - rewrite all_wires. intros Hu e t He Ht.
    destruct (find_tool_listed es e t Hok Hu He Ht) as (p & Hp & Hf). exists p. by rewrite Hf.
  - intros w Hw. destruct (find_tool w es) as [[p path]|] eqn:Ef; [|done].
    exfalso. apply find_tool_Some in Ef as (e & t & He & Ht & _ & <- & _). apply Hw.
    apply list_elem_of_fmap_2, list_elem_of_bind. eauto.
Qed.

(** The descriptors that drift detection compares are those of the listed tools, in
    order and under the same names, so a registry with unique names gives a baseline
    without clashes. *)
Lemma all_descriptors_names es :
  Forall entry_ok es -> names_unique es ->
  td_name <$> (snd <$> all_descriptors es) = wire <$> all_wrapped_tools es /\
  NoDup (td_name <$> (snd <$> all_descriptors es)).
Proof.
  intros Hok [Hu _].
  assert (td_name <$> (snd <$> all_descriptors es) = wire <$> all_wrapped_tools es) as E.
  { clear Hu. unfold all_descriptors, all_wrapped_tools. induction Hok as [|e es He _ IH]; [done|].
    cbn. rewrite !fmap_app, IH. f_equal. rewrite <- !list_fmap_compose.
    pose proof (entry_aligned e He) as Ha. clear -Ha. induction Ha as [|t d ts ds Hx _ IH]; [done|].
    cbn. f_equal; [apply Hx | done]. }
  split; [done|]. by rewrite E, all_wires.
Qed.

(** ** Prompts and resources *)

Section Scoped.
Context {RE : RegexEngine} {RL : RegexLaws RE}.

Lemma visible_entries_elem {B} (per : McpServerEntry -> result PolicyError (list B)) es r b :
  visible_entries per es = Ok r -> b ∈ r <-> exists e l, e ∈ es /\ per e = Ok l /\ b ∈ l.
Proof.
  revert r. induction es as [|e es IH]; cbn; intros r H.
  - injection H as <-. set_solver.
  - destruct (per e) as [l|] eqn:Ee; [|done].
    destruct (visible_entries per es) as [r'|]; [|done]. injection H as <-.
    rewrite elem_of_app, (IH r' eq_refl). split.
    + intros [Hb|(e0 & l0 & H1 & H2 & H3)].
      * exists e, l. split; [by left | done].
      * exists e0, l0. split; [by right | done].
    + intros (e0 & l0 & [->|H1]%elem_of_cons & H2 & H3).
      * left. congruence.
      * right. eauto.
Qed.

Lemma reg_visible_elem {A B} (allowed : A -> result PolicyError bool) (f : A -> B) l r b :
  visible allowed f l = Ok r -> b ∈ r <-> exists a, a ∈ l /\ allowed a = Ok true /\ b = f a.
Proof.
  unfold visible. destruct (try_filter allowed l) as [r'|] eqn:Ef; [|done]. intros [= <-].
  rewrite list_elem_of_fmap. setoid_rewrite (try_filter_Ok _ _ _ Ef). naive_solver.
Qed.

(** A resource that a key sees can be read by that key: the URI in the list leads
    back to the same upstream resource on the same server, guarded by the name it was
    listed under; and every read that is allowed at all is in the scope of the key. *)
Theorem listed_resources_readable es key listed :
  Forall entry_ok es -> ids_unique es -> (forall e, e ∈ es -> uri_segment (e_id e) = true) ->
  resources_for_key key es = Ok listed ->
  (forall r, r ∈ listed -> exists e s p, e ∈ es /\ s ∈ resources (e_surface e) /\
     r = to_resource (e_id e) s /\ e_peer e = Some p /\
     resolve_read key (uri r) es
       = Ok (Some (mkResolvedRead p (uri (rs_resource s)) (e_id e) (rs_scope_name s)))) /\
  (forall u rr, resolve_read key u es = Ok (Some rr) ->
     in_scope key (rr_scope_name rr) (rr_server_id rr) /\
     u = gateway_uri (rr_server_id rr) (rr_upstream_uri rr)).
Proof.
  intros Hok Hids Hseg Hl. split.
  - intros r Hr.
    destruct (proj1 (visible_entries_elem _ _ _ r Hl) Hr) as (e & l & He & Hv & Hrl).
    destruct (proj1 (reg_visible_elem _ _ _ _ r Hv) Hrl) as (s & Hs & Hk & ->).
    rewrite Forall_forall in Hok. pose proof (Hok e He) as Heok.
    destruct (e_peer e) as [p|] eqn:Ep.
    2: { destruct (entry_disconnected e Heok Ep) as [_ E]. rewrite E in Hs. set_solver. }
    exists e, s, p. do 4 (split; [done|]). cbn [to_resource uri].
    unfold resolve_read.
    rewrite (proj2 (parse_gateway_uri_Some _ (e_id e) (uri (rs_resource s)))).
    2: { split; [done|]. split; [by apply Hseg|]. by apply (resources_named _ (entry_surface e Heok)). }
    assert (find_entry (e_id e) es = Some e) as ->.
    { by apply find_unique. }
    rewrite Ep. unfold scope_name_for_read.
    assert (List.find (fun s0 => uri (rs_resource s0) =s uri (rs_resource s))
      (resources (e_surface e)) = Some s) as ->.
    { apply (find_unique (fun r => uri (rs_resource r))); [|done].
      exact (resources_unique _ (entry_surface e Heok)). }
    by rewrite Hk.
  - intros u rr. unfold resolve_read. destruct (parse_gateway_uri u) as [[sid up]|] eqn:Eu; [|done].
    apply parse_gateway_uri_Some in Eu as [-> _].
    destruct (find_entry sid es) as [e|]; [|done]. destruct (e_peer e) as [p|]; [|done].
    destruct (scope_name_for_read _ _ up) as [n|]; [|done].
    destruct (key_can_use_name key n sid) as [[]|] eqn:Ek; [|done..]. intros [= <-]. cbn.
    split; [|done]. by apply (key_can_use_name_in_scope _ _ _ _ Ek).
Qed.
End Scoped.

(** ** Witnesses *)

(** An upstream world in which every connection succeeds; the client is numbered by
    the length of its URL and lists the tools of [offer]. *)
Definition demo_rmcp (offer : Client -> list string) : RmcpClient := {|
  HeaderName_from_str := fun s => Ok s;
  HeaderValue_from_str := fun s => Some s;
  serve_upstream := fun _ t _ => Ok (String.length (tc_uri t));
  list_all_tools := fun c => Ok ((fun n => mkRmcpTool n None []) <$> offer c);
  call_tool_once := fun _ r => Ok (Resp_Complete (mkCallToolResult [CB_Text (req_name r)] None None));
  list_all_prompts := fun _ => Ok [];
  get_prompt_once := fun _ _ _ => Ok Resp_Unknown;
  list_all_resources := fun _ => Ok [mkResource "file:///a" "a" JNull];
  list_all_resource_templates := fun _ => Ok [];
  read_resource_once := fun _ _ => Ok Resp_Unknown;
  server_capabilities := fun _ => Some (true, true);
  decode_input_responses := fun v => Ok v;
|}.

Definition demo_reg_world (offer : Client -> list string) : World := {|
  w_rmcp := demo_rmcp offer;
  w_serializers := plain_serializers;
  w_urls := {| Url_parse := fun _ => None |};
  w_oauth := None;
  w_resolve := fun _ => Ok "";
  w_now := fun _ => 0;
  w_elapsed := fun _ => 7000000;
|}.

Definition demo_server (id url : string) : McpServerConfig :=
  mkMcpServerConfig id "d" "p" url "" AuthNone SecurityConfig_default true None.

(** Server [s] at a URL of length 1. *)
Definition demo_entries : Entries :=
  connect_all_with (W := demo_reg_world (fun _ => ["x"])) [demo_server "s" "1"].


(** Without its use of the theorem, for the other witnesses. *)
Lemma demo_entries_ok :
  Forall entry_ok demo_entries /\ names_unique demo_entries /\ ids_unique demo_entries.
Proof.
  destruct (connect_all_ok (W := demo_reg_world (fun _ => ["x"])) [demo_server "s" "1"])
    as (H1 & H2 & H3).
  split; [exact H1|]. split; [exact H2|]. unfold ids_unique. unfold demo_entries. rewrite H3.
  repeat constructor. set_solver.
Qed.

Lemma registry_names_unique_witness :
  names_unique (add_server (W := demo_reg_world (fun _ => ["x"])) (demo_server "t" "22")
    (fun es => es) demo_entries).1.
Proof.
  destruct demo_entries_ok as (H1 & H2 & H3).
  apply (registry_names_unique (W := demo_reg_world (fun _ => ["x"])) [] demo_entries
    (fun es => es)); [exact H1 | exact H3 | exact H2 | exact (fun _ h => h)].
Defined.

(** The server was unreachable; it answers with a new tool. *)
Lemma refresh_recovers_witness :
  exists e', e' ∈ (refresh_inner (W := demo_reg_world (fun _ => ["x"; "y"])) true (fun es => es)
                     demo_entries).1 /\ status (e_health e') = HS_Ok.
Proof.
  destruct demo_entries_ok as (H1 & _ & H3).
  destruct (refresh_recovers (W := demo_reg_world (fun _ => ["x"; "y"])) demo_entries
    (default (establish_entry (W := demo_reg_world (fun _ => [])) (demo_server "s" "1") None)
       (head demo_entries)) (mkPeer 1 false)
    [mkRmcpTool "x" None []; mkRmcpTool "y" None []]
    [mkWrappedTool (mkToolName "d" "p" "x") "s" "" "x" Post (JObject []) None None;
     mkWrappedTool (mkToolName "d" "p" "y") "s" "" "y" Post (JObject []) None None]
    [mkToolDescriptor "d__p__x" "" (JObject []); mkToolDescriptor "d__p__y" "" (JObject [])])
    as (e' & K1 & _ & _ & K2 & _);
    [exact H1 | exact H3 | vm_compute; apply list_elem_of_here | vm_compute; reflexivity ..|].
  exists e'. exact (conj K1 K2).
Defined.

Lemma listed_tool_served_witness :
  contains_tool (registry_of (W := demo_reg_world (fun _ => ["x"])) demo_entries) "d__p__x" = true /\
  contains_tool (registry_of (W := demo_reg_world (fun _ => ["x"])) demo_entries) "d__p__z" = false.
Proof.
  destruct (listed_tool_served (W := demo_reg_world (fun _ => ["x"])) [demo_server "s" "1"]
    (mkRegState demo_entries []) JNull (mkToolCallExtras None None)) as (H1 & _ & H3);
    [repeat constructor; set_solver|constructor|].
  split.
  - assert (exists e t, e ∈ demo_entries /\ t ∈ e_tools e /\ wire t = "d__p__x")
      as (e & t & He & Ht & <-).
    { do 2 eexists. split; [apply list_elem_of_here|]. split; [apply list_elem_of_here|].
      vm_compute. reflexivity. }
    exact (proj1 (H1 e t He Ht)).
  - apply H3. change (wire <$> all_wrapped_tools demo_entries) with ["d__p__x"]. set_solver.
Defined.

Definition demo_reader : ProxyKey := demo_scope_key ["^d:p:"] [].

Lemma listed_resources_readable_witness :
  exists e s p,
    to_resource (e_id e) s = mkResource "asterlane://s/file:///a" "a" JNull /\
    resolve_read demo_reader "asterlane://s/file:///a" demo_entries
      = Ok (Some (mkResolvedRead p (uri (rs_resource s)) (e_id e) (rs_scope_name s))).
Proof.
  destruct demo_entries_ok as (H1 & _ & H3).
  destruct (listed_resources_readable demo_entries demo_reader
    [mkResource "asterlane://s/file:///a" "a" JNull] H1 H3) as [K _].
  - intros e He. apply list_elem_of_singleton in He as ->. vm_compute. reflexivity.
  - vm_compute. reflexivity.
  - destruct (K (mkResource "asterlane://s/file:///a" "a" JNull)) as (e & s & p & _ & _ & E & _ & Hr);
      [apply list_elem_of_here|].
    exists e, s, p. split; [symmetry; exact E | exact Hr].
Defined.

(** ** Races of a refresh

    A refresh checks names against its own snapshot only, and writes back the
    configuration of the snapshot. *)

Definition offer_y (c : Client) : list string := if (c =? 1)%nat then ["x"; "y"] else ["y"].

(** While a refresh waits for server [s], which now offers [y] as well, server [t]
    with a tool [y] is added: afterwards two entries serve [d__p__y]. *)
Example refresh_add_race :
  (wire <$> all_wrapped_tools
    (refresh_inner (W := demo_reg_world offer_y) true
       (fun es => (add_server (W := demo_reg_world offer_y) (demo_server "t" "22")
                     (fun es => es) es).1) demo_entries).1)
  = ["d__p__x"; "d__p__y"; "d__p__y"].
Proof. vm_compute. reflexivity. Qed.

(** While a refresh waits, the URL of server [s] is changed and the new connection is
    established: the refresh puts the old configuration and the old connection back. *)
Example refresh_update_race :
  (fun e => (ms_url (e_config e), e_peer e)) <$>
    (refresh_inner (W := demo_reg_world offer_y) true
       (fun es => (update_server (W := demo_reg_world offer_y) (demo_server "s" "new-url")
                     (fun es => es) es).1) demo_entries).1
  = [("1", Some (mkPeer 1 false))].
Proof. vm_compute. reflexivity. Qed.
