(* ===== verification/Discovery.v ===== *)
(** * Meta-tools and search ([src/src/discovery.rs])

    The fixed tools [asl__*] that an agent always sees, and the two of them that
    only read the catalog: status and search.  The JSON schemas that [schemars]
    derives for the batch requests, the serializer of JSON text, the lower-case
    mapping of Unicode and the ranking by embeddings are parameters. *)

From S2P Require Import Prelude RustStr Naming Errors Config Policy Catalog.
From S2P Require Import Render Retry Invoke Integrity SchemaView Semantic.
From Stdlib Require Import Ascii SpecFloat.

Local Open Scope string_scope.
Local Open Scope list_scope.
Local Open Scope Z_scope.
Local Open Scope gateway_scope.

Definition STATUS : string := "asl__status".
Definition SEARCH_TOOLS : string := "asl__search".
Definition GET_TOOLS : string := "asl__describe".
Definition CALL_TOOL : string := "asl__call".
Definition CALL_TOOLS : string := "asl__batch".
Definition FETCH_RESULT : string := "asl__fetch".

Definition META_TOOLS : list string :=
  [STATUS; SEARCH_TOOLS; GET_TOOLS; CALL_TOOL; CALL_TOOLS; FETCH_RESULT].

Inductive DiscoveryMode := Full | Lazy.
#[export] Instance DiscoveryMode_eq_dec : EqDecision DiscoveryMode.
Proof. solve_decision. Defined.

Definition from_config_str (s : option string) : DiscoveryMode :=
  match s with Some m => if m =s "full" then Full else Lazy | None => Lazy end.

Definition is_meta_tool (wire_name : string) : bool := wire_name ∈s META_TOOLS.

(** [schemars::schema_for!] of the two batch requests. *)
Class BatchSchemas := { get_tools_schema : JSON; call_tools_schema : JSON }.

(** ** Descriptors; the fields of a JSON object are in key order *)

Definition string_field (d : string) : JSON :=
  JObject [("description", JString d); ("type", JString "string")].

Definition object_schema (properties : list (string * JSON)) (required : list string) : JSON :=
  JObject ([("additionalProperties", JBool false); ("properties", JObject properties)]
           ++ (match required with [] => [] | _ => [("required", JArray (JString <$> required))] end)
           ++ [("type", JString "object")]).

Definition status_descriptor : ToolDescriptor :=
  mkToolDescriptor STATUS
    ("Report gateway status: number of configured providers, "
       +:+ "total tools, and how many tools are visible to your current key.")
    (object_schema [] []).

Definition search_descriptor : ToolDescriptor :=
  mkToolDescriptor SEARCH_TOOLS
    ("Search tools available to this key by name or description. "
       +:+ "Returns a capped description and a compact parameter signature "
       +:+ "in pages; pass next_cursor to continue. Use asl__describe with "
       +:+ "returned canonical names to read callable input schemas before calling.")
    (object_schema
       [("cursor", JObject [("description",
            JString "Offset returned as next_cursor by the previous page.");
          ("minimum", JNumber "0"); ("type", JString "integer")]);
        ("include_schema", JObject [("description", JString
            "Include the same compact input schema that asl__describe returns. Default false.");
          ("type", JString "boolean")]);
        ("limit", JObject [("description", JString "Results per page. Default 10.");
          ("maximum", JNumber "50"); ("minimum", JNumber "1"); ("type", JString "integer")]);
        ("query", string_field "Keyword to match against tool names and descriptions.")]
       ["query"]).

Definition call_descriptor : ToolDescriptor :=
  mkToolDescriptor CALL_TOOL
    ("Call one tool after reading its input schema with asl__describe. "
       +:+ "The name accepts "
       +:+ "the canonical wire name (domain__provider__tool), a "
       +:+ "provider__tool pair, or a bare tool name when unambiguous. "
       +:+ "Pass the tool name and its arguments as JSON.")
    (object_schema
       [("arguments", JObject [("description",
            JString "Arguments to pass to the tool, matching its input schema.");
          ("type", JString "object")]);
        ("domain", string_field "Optional: disambiguate short tool names by domain");
        ("name", string_field
           ("Tool name: canonical wire name (e.g. search__tavily__web_search), provider__tool, "
              +:+ "or bare tool name when unambiguous."));
        ("provider", string_field "Optional: disambiguate short tool names by provider")]
       ["name"; "arguments"]).

Definition fetch_descriptor : ToolDescriptor :=
  mkToolDescriptor FETCH_RESULT
    ("Fetch subsequent chunks of a large tool result using a cursor "
       +:+ "returned from a previous call.")
    (object_schema
       [("cursor", string_field "Opaque cursor string from a previous tool call result.");
        ("offset", JObject [("description",
            JString "Byte offset into the cached result. Default 0.");
          ("type", JString "integer")])]
       ["cursor"]).

Section Descriptors.
Context {BS : BatchSchemas}.

Definition describe_descriptor : ToolDescriptor :=
  mkToolDescriptor GET_TOOLS
    ("Get descriptions and callable input schemas for up to 10 canonical "
       +:+ "tool names returned by asl__search. Schemas keep types, required "
       +:+ "fields, enums, and constraints, and omit JSON Schema boilerplate. "
       +:+ "Results follow input order; unavailable names return not_found.")
    get_tools_schema.

Definition batch_descriptor : ToolDescriptor :=
  mkToolDescriptor CALL_TOOLS
    ("Call up to 10 independent tools in one request after reading their "
       +:+ "input schemas with asl__describe. Calls run in input order and each "
       +:+ "result is returned separately. That order only aligns results: a later "
       +:+ "call cannot use an earlier result, and must not assume an earlier "
       +:+ "call's upstream side effect is visible. A failed item does not stop or "
       +:+ "roll back the others. Successful upstream side effects remain; there is "
       +:+ "no transaction. Retry failed items individually. When the next arguments "
       +:+ "depend on a previous result, use asl__call.")
    call_tools_schema.

Definition meta_tool_descriptors : list ToolDescriptor :=
  [status_descriptor; search_descriptor; describe_descriptor; call_descriptor;
   batch_descriptor; fetch_descriptor].
End Descriptors.

(** ** Options *)

Record SearchOptions := mkSearchOptions {
  so_limit : nat;
  so_cursor : Z;
  so_include_schema : bool;
}.

Definition invalid_pagination : AsterlaneError :=
  internal CatalogInvalidPagination
    "search limit must be 1..=50 and cursor must be a nonnegative integer".

Definition SearchOptions_parse (args : JSON) : result AsterlaneError SearchOptions :=
  l ← match json_get "limit" args with
      | None => Ok 10
      | Some v => ok_or invalid_pagination
                    (n ← as_u64 v; if in_range 1 50 n then Some n else None)
      end;
  c ← match json_get "cursor" args with
      | None => Ok 0
      | Some v => ok_or invalid_pagination (as_u64 v)
      end;
  Ok (mkSearchOptions (Z.to_nat l) c
        (default false (v ← json_get "include_schema" args; as_bool v))).

(** ** Handlers *)

Definition text_ok (t : string) : ToolCallResult := mkToolCallResult [t] false.
Definition text_error (t : string) : ToolCallResult := mkToolCallResult [t] true.

Section Handlers.
Context {RE : RegexEngine} {SE : Serializers} {UT : UnicodeTables} {EM : Embeddings} {NS : NaNSign}.
Variable to_lowercase : string -> string.

Definition search_item (t : WrappedTool) (include_schema : bool) : JSON :=
  let parameters :=
    match (p ← json_get "properties" (input_schema t); as_object p) with
    | Some properties => JString <$> properties.*1
    | None => []
    end in
  JObject ([("description", JString (cap_text (description t)))]
           ++ (if include_schema then [("input_schema", project_schema (input_schema t))] else [])
           ++ [("name", JString (wire t)); ("parameters", JArray parameters);
               ("required", default (JArray []) (json_get "required" (input_schema t)));
               ("signature", JString (compact_signature (input_schema t)))]).

(** The slice of the results and the cursor of the next page. *)
Definition search_page (results : list WrappedTool) (o : SearchOptions)
    : result AsterlaneError (list WrappedTool * option nat) :=
  if Z.of_nat (length results) <? so_cursor o
  then Err (internal CatalogInvalidPagination "search cursor is outside the visible results")
  else
    let start := Z.to_nat (so_cursor o) in
    let end_ := ((start + so_limit o) `min` length results)%nat in
    Ok (take (end_ - start)%nat (drop start results),
        if (end_ <? length results)%nat then Some end_ else None).

Definition search_response (results : list WrappedTool) (o : SearchOptions)
    : result AsterlaneError ToolCallResult :=
  page ← search_page results o;
  Ok (text_ok (value_to_string
    (JObject [("next_cursor", match page.2 with Some n => JNumber (fmt_nat n) | None => JNull end);
              ("tools", JArray ((fun t => search_item t (so_include_schema o)) <$> page.1))]))).

Definition catalog_to_asterlane (e : CatalogError) : AsterlaneError := CatalogErr e.

Definition query_of (args : JSON) : string := default "" (v ← json_get "query" args; as_str v).

(** [usize::MAX] results: no limit. *)
Definition handle_search (args : JSON) (c : ToolCatalog) (key : ProxyKey)
    : result AsterlaneError ToolCallResult :=
  o ← SearchOptions_parse args;
  results ← map_err catalog_to_asterlane
              (search_for_key to_lowercase (query_of args) key (length (tools c)) c);
  search_response results o.

Definition handle_status (c : ToolCatalog) (config : GatewayConfig) (key : ProxyKey)
    : result AsterlaneError ToolCallResult :=
  visible ← map_err catalog_to_asterlane (count_visible_for_key key c);
  Ok (text_ok (value_to_string
    (JObject [("providers", JNumber (fmt_nat (length (api_resources config))));
              ("total_tools", JNumber (fmt_nat (total_tool_count c)));
              ("visible_tools", JNumber (fmt_nat visible))]))).

Definition handle_meta_tool_call (n : string) (args : JSON) (c : ToolCatalog)
    (config : GatewayConfig) (key : ProxyKey) : result AsterlaneError ToolCallResult :=
  if n =s STATUS then handle_status c config key
  else if n =s SEARCH_TOOLS then handle_search args c key
  else if n ∈s [GET_TOOLS; CALL_TOOL; CALL_TOOLS; FETCH_RESULT]
  then Err (internal McpInvalidToolCall
         (n +:+ " is dispatched by the HTTP/MCP invoke pipeline; this helper only serves "
            +:+ "asl__status and asl__search"))
  else Ok (text_error ("unknown meta-tool: " +:+ n)).

(** The tools that the semantic search answers with, before paging; [None] is the
    fallback to the keyword search.  [before] and [after] are the other searches
    (see [rank]). *)
Definition semantic_results (query : string) (c : ToolCatalog) (key : ProxyKey)
    (semantic : SemanticIndex) (before after : Cache -> Cache) (cache : Cache)
    : Cache * list EmbeddingRequest * result CatalogError (option (list WrappedTool)) :=
  match search_for_key to_lowercase "" key (length (tools c)) c with
  | Err e => (cache, [], Err e)
  | Ok visible =>
      let '(cache, sent, ranked) :=
        rank semantic query ((fun t => (wire t, description t)) <$> visible) None before after
          cache in
      (cache, sent, Ok (match ranked with
                  | Ok ranked => Some (omap (fun w => find_by_wire_name w c) ranked)
                  | Err _ => None
                  end))
  end.

Definition handle_search_semantic (args : JSON) (c : ToolCatalog) (key : ProxyKey)
    (semantic : SemanticIndex) (before after : Cache -> Cache) (cache : Cache)
    : Cache * list EmbeddingRequest * result AsterlaneError ToolCallResult :=
  match SearchOptions_parse args with
  | Err e => (cache, [], Err e)
  | Ok o =>
      if is_empty (query_of args) then (cache, [], handle_search args c key)
      else
        let '(cache, sent, r) :=
          semantic_results (query_of args) c key semantic before after cache in
        (cache, sent,
         r ← map_err catalog_to_asterlane r;
         match r with
         | Some results => search_response results o
         | None => handle_search args c key
         end)
  end.
End Handlers.

(** ** Meta-tools and tools do not share names *)

Fixpoint underscores (s : string) : nat :=
  match s with
  | "" => 0
  | String a r => (if Ascii.eqb a "_" then 1 else 0) + underscores r
  end%nat.

Lemma underscores_app s t : underscores (s +:+ t) = (underscores s + underscores t)%nat.
Proof. induction s as [|a s IH]; cbn; [done|]. rewrite IH. lia. Qed.

Lemma wire_underscores t : (4 <= underscores (wire t))%nat.
Proof.
  unfold wire, to_wire_name. rewrite !underscores_app. cbn. lia.
Qed.

Lemma is_meta_tool_spec n : is_meta_tool n = true <-> n ∈ META_TOOLS.
Proof. apply existsb_eqb_elem. Qed.

Lemma meta_tool_underscores n : is_meta_tool n = true -> underscores n = 2%nat.
Proof.
  intros H%is_meta_tool_spec. unfold META_TOOLS in H.
  repeat (apply elem_of_cons in H as [->|H]; [done|]). by apply elem_of_nil in H.
Qed.

Lemma meta_tool_prefix n : is_meta_tool n = true -> starts_with META_TOOL_PREFIX n = true.
Proof.
  intros H%is_meta_tool_spec. unfold META_TOOLS in H.
  repeat (apply elem_of_cons in H as [->|H]; [done|]). by apply elem_of_nil in H.
Qed.

(** A call by a meta-tool's name never hides a tool: neither the
    canonical name of a tool nor the shortened name that a listing shows for it is
    the name of a meta-tool. *)
Theorem tools_never_hidden t c visible :
  is_meta_tool (wire t) = false /\
  is_meta_tool (shortest_exposed_name t c visible) = false.
Proof.
  assert (is_meta_tool (wire t) = false) as Hw.
  { apply not_true_is_false. intros H%meta_tool_underscores.
    pose proof (wire_underscores t). lia. }
  split; [done|].
  assert (forall n, exposable n c visible = true -> is_meta_tool n = false) as He.
  { intros n H. apply not_true_is_false. intros K%meta_tool_prefix.
    unfold exposable in H. by rewrite K in H. }
  unfold shortest_exposed_name. do 2 (case_if; [by apply He|]). done.
Qed.

(** ** Paging *)

(** The client that follows [next_cursor]. *)
Fixpoint search_all (fuel : nat) (results : list WrappedTool) (limit : nat) (cur : Z)
    : option (list WrappedTool) :=
  match fuel with
  | O => None
  | S fuel =>
      match search_page results (mkSearchOptions limit cur false) with
      | Ok (page, None) => Some page
      | Ok (page, Some n) => rest ← search_all fuel results limit (Z.of_nat n); Some (page ++ rest)
      | Err _ => None
      end
  end.

Lemma search_all_from fuel results limit k :
  (0 < limit)%nat -> (k <= length results)%nat -> (length results - k < fuel)%nat ->
  search_all fuel results limit (Z.of_nat k) = Some (drop k results).
Proof.
  intros Hl. revert k. induction fuel as [|fuel IH]; intros k Hk Hf; [lia|].
  cbn [search_all]. unfold search_page. cbn [so_cursor so_limit].
  destruct (Z.ltb_spec (Z.of_nat (length results)) (Z.of_nat k)); [lia|].
  rewrite Nat2Z.id.
  destruct (Nat.ltb_spec ((k + limit) `min` length results)%nat (length results)) as [Hlt|Hge].
  - rewrite Nat.min_l by lia. rewrite Nat.min_l in Hlt by lia.
    replace (k + limit - k)%nat with limit by lia.
    rewrite IH by lia. cbn. rewrite <- drop_drop, take_drop. done.
  - rewrite take_ge; [done|]. rewrite length_drop. lia.
Qed.

(** An agent that pages through a search with any admitted limit
    gets every result once, in order, and stops after at most one page more than
    there are results. *)
Theorem search_pages_reassemble results args o :
  SearchOptions_parse args = Ok o ->
  (1 <= so_limit o <= 50)%nat /\
  search_all (S (length results)) results (so_limit o) 0 = Some results.
Proof.
  intros H. assert (1 <= so_limit o <= 50)%nat as Hl.
  { unfold SearchOptions_parse in H. inv_ok. cbn.
    match goal with K : match json_get "limit" args with _ => _ end = Ok ?l |- _ =>
      destruct (json_get "limit" args); [|injection K as <-; lia];
      apply ok_or_Ok_inv in K; apply bind_Some in K as (n & _ & K);
      destruct (in_range 1 50 n) eqn:E; [|done]; injection K as <-;
      unfold in_range in E; apply andb_true_iff in E as [E1%Z.leb_le E2%Z.leb_le]; lia end. }
  split; [done|]. apply (search_all_from _ _ _ 0); lia.
Qed.

Lemma search_all_visible {RE : RegexEngine} lc key c visible :
  visible_for_key key c = Ok visible ->
  search_for_key lc "" key (length (tools c)) c = Ok (sort_by wire_leb visible).
Proof.
  intros H. unfold search_for_key. rewrite H. cbn. rewrite take_ge; [done|].
  rewrite sort_by_length. apply sublist_length. exact (try_filter_sublist _ _ _ H).
Qed.

Lemma find_all_wires c (l : list WrappedTool) :
  NoDup (wire <$> tools c) -> (forall t, t ∈ l -> t ∈ tools c) ->
  omap (fun w => find_by_wire_name w c) (wire <$> l) = l.
Proof.
  intros Hnd. induction l as [|t l IH]; intros Hin; [done|]. cbn.
  assert (find_by_wire_name (wire t) c = Some t) as ->.
  { apply (find_unique wire); [done|]. apply Hin. constructor. }
  by rewrite IH by (intros; apply Hin; by constructor).
Qed.

(** The semantic search answers with exactly the tools in the key's
    scope, each once, in an order of its own; when the embeddings fail it answers
    as the keyword search does. *)
Theorem semantic_search_reorders {RE : RegexEngine} {EM : Embeddings} {NS : NaNSign} lc query c
    key visible idx before after cache cache' sent r :
  NoDup (wire <$> tools c) -> grows before -> grows after ->
  visible_for_key key c = Ok visible ->
  semantic_results lc query c key idx before after cache = (cache', sent, r) ->
  r = Ok None \/ exists results, r = Ok (Some results) /\ results ≡ₚ visible.
Proof.
  intros Hnd Hb Ha Hv H. unfold semantic_results in H.
  rewrite (search_all_visible _ _ _ _ Hv) in H.
  destruct (rank _ _ _ _ _ _ _) as [[c1 sent1] ranked] eqn:Er. injection H as <- _ <-.
  destruct ranked as [ws|e]; [right|by left].
  destruct (rank_Ok _ _ _ _ _ _ _ _ _ Hb Ha Er) as (q & scored & _ & _ & _ & Hp).
  eexists. split; [done|].
  assert (((fun t => (wire t, description t)) <$> sort_by wire_leb visible).*1
    = (wire <$> sort_by wire_leb visible)) as Hw by by rewrite <- list_fmap_compose.
  rewrite Hw in Hp. rewrite Hp, find_all_wires; [by rewrite sort_by_perm|done|].
  intros t Ht%sort_by_elem. by apply (try_filter_Ok _ _ _ Hv) in Ht as [Ht _].
Qed.

(** A search sends only to the endpoint of the index, and only its query and the
    texts of tools in the key's scope. *)
Lemma semantic_results_sent {RE : RegexEngine} {EM : Embeddings} {NS : NaNSign}
    `{!RegexLaws RE} lc query c key idx before after cache q :
  q ∈ (semantic_results lc query c key idx before after cache).1.2 ->
  q = embed_request idx (er_input q) /\
  forall text, text ∈ er_input q ->
    text = query \/
    exists t, t ∈ tools c /\ in_scope key (wire t) (resource_id t) /\
      text = embed_text (wire t) (description t).
Proof.
  unfold semantic_results. destruct (search_for_key _ _ _ _ _) as [l|e] eqn:El;
    [|by intros ?%elem_of_nil].
  match goal with |- context [rank ?s ?qu ?cs ?n ?b ?a ?ca] =>
    pose proof (rank_sent s qu cs n b a ca q) as Hr end.
  destruct (rank _ _ _ _ _ _ _) as [[c1 sent] ranked]. intros Hq. destruct (Hr Hq) as [H1 H2].
  split; [done|]. intros text [->|(x & Hx & ->)]%H2; [by left|right].
  apply list_elem_of_fmap in Hx as (t & -> & Ht). exists t.
  unfold search_for_key in El. apply bind_Ok_inv in El as (visible & Hv & [= <-]).
  rewrite firstn_all2 in Ht by (rewrite sort_by_length; exact (sublist_length _ _ (try_filter_sublist _ _ _ Hv))).
  apply sort_by_elem, (try_filter_Ok _ _ _ Hv) in Ht as [Hin Hs]. split; [done|]. split; [|done].
  apply map_err_Ok_inv in Hs. by apply (key_can_use_name_in_scope _ _ _ _ Hs).
Qed.

(** ** Witnesses *)

Lemma search_pages_reassemble_witness :
  SearchOptions_parse (JObject [("limit", JNumber "1")]) = Ok (mkSearchOptions 1 0 false) /\
  search_all 2 [demo_tool] 1 0 = Some [demo_tool].
Proof.
  assert (SearchOptions_parse (JObject [("limit", JNumber "1")]) = Ok (mkSearchOptions 1 0 false))
    as E by (vm_compute; reflexivity).
  split; [exact E|].
  exact (proj2 (search_pages_reassemble [demo_tool] _ _ E)).
Defined.

Definition f32_one : f32 := SpecFloat.S754_finite false 8388608 (-23).

(** An endpoint whose embedding of a text is a unit vector. *)
Definition demo_embeddings : Embeddings := {|
  fetch := fun _ r => Ok (200, Ok (imap (fun i _ => mkEmbeddingData (Z.of_nat i) [f32_one])
                                        (er_input r)));
  status_display := fmt_Z;
  default_hash := fun s => Z.of_nat (String.length s);
|}.
Definition demo_nan : NaNSign := {| nan_negative := true |}.
Definition demo_index : SemanticIndex := mkSemanticIndex "http://embed" "m" None 0.

Lemma semantic_search_reorders_witness :
  exists cache' results,
    semantic_results (EM := demo_embeddings) (NS := demo_nan) (fun s => s) "web"
      (catalog demo_gateway) demo_caller demo_index id id ∅
      = (cache', [embed_request demo_index ["search__tavily__web: "];
                  embed_request demo_index ["web"]], Ok (Some results)) /\
    results ≡ₚ [demo_tool].
Proof.
  destruct (semantic_results (EM := demo_embeddings) (NS := demo_nan) (fun s => s) "web"
      (catalog demo_gateway) demo_caller demo_index id id ∅) as [[cache' sent] r] eqn:E.
  assert (sent = [embed_request demo_index ["search__tavily__web: "];
                  embed_request demo_index ["web"]]) as -> by (vm_compute in E; by injection E as _ <- _).
  destruct (semantic_search_reorders (EM := demo_embeddings) (NS := demo_nan) (fun s => s) "web"
      (catalog demo_gateway) demo_caller [demo_tool] demo_index id id ∅ cache'
      [embed_request demo_index ["search__tavily__web: "]; embed_request demo_index ["web"]] r)
    as [H|(results & H & Hp)].
  - apply NoDup_singleton.
  - by intros c w.
  - by intros c w.
  - vm_compute. reflexivity.
  - exact E.
  - subst r. exfalso. vm_compute in E. discriminate.
  - exists cache', results. by rewrite H.
Defined.
