(* ===== verification/McpCall.v ===== *)
(** * Calls through meta-tools ([mcp/call.rs], [mcp/result.rs])

    The executor that a request builds from the application state, and the meta-
    tools that need more than the catalog: describing tools, calling one tool,
    calling a batch, and fetching the rest of a result.  A batch runs its calls in
    order; the outside world of the [n]-th call is [env n].  The forms that rmcp
    and serde derive for their types are the class [McpWire]. *)

From S2P Require Import Prelude RustStr Naming Errors Config Policy Secrets Catalog.
From S2P Require Import KeyPool Limits Egress Shaping Render Retry Observe Surface Invoke.
From S2P Require Import GatewayAuth Integrity Peers Registry SchemaView Semantic Discovery.
From Stdlib Require Import Ascii.

Local Open Scope string_scope.
Local Open Scope list_scope.
Local Open Scope Z_scope.
Local Open Scope gateway_scope.

(** ** Errors as text *)

Definition ProxyError_to_string (e : ProxyError) : string :=
  match e with
  | PE_UpstreamTimeout ms => "upstream timeout after " +:+ fmt_Z ms +:+ "ms"
  | PE_RetryExhausted n => "upstream retry exhausted after " +:+ fmt_Z n +:+ " attempts"
  | PE_UpstreamError s => "upstream returned status " +:+ fmt_Z s
  | PE_ConnectionFailed => "upstream connection failed"
  | PE_EgressBlocked => "upstream address is not allowed"
  | PE_UnknownTool n => "unknown tool: " +:+ n
  | PE_UnknownResource id => "unknown resource: " +:+ id
  | PE_ForbiddenTool n => "tool " +:+ n +:+ " not permitted for this key"
  | PE_InvalidToolCall d => "invalid tool call: " +:+ d
  | PE_Secret e => SecretError_to_string e
  | PE_KeyPool e => KeyPoolError_to_string e
  | PE_Limit e => LimitError_to_string e
  | PE_Policy e => PolicyError_to_string e
  | PE_Mcp e => McpError_to_string e
  end.

(** ** The application state ([http/state.rs]) and the executor of a request *)

(** The parts that a request reads; the parts that requests change together are
    [GatewayState], in which the limits and the result cache are always there. *)
Record AppState := mkAppState {
  as_config : GatewayConfig;
  as_catalog : ToolCatalog;
  as_registry : option Entries;
  as_auth : GatewayAuth;
  as_semantic : option SemanticIndex;
  as_quarantined : gmap string IntegrityPolicy;
  as_event_repo : bool;
  (** whether the guarded HTTP client could be built *)
  as_guarded_client : bool;
}.

Definition DEFAULT_MAX_ATTEMPTS : Z := 3.
Definition DEFAULT_REQUEST_TIMEOUT_SECS : Z := 30.

Definition prepare_http (config : GatewayConfig) (guarded : bool) : bool * bool :=
  if negb (block_private_addresses config) then (false, false)
  else if guarded then (true, true) else (true, false).

Definition executor_config (config : GatewayConfig) (guarded : bool) : ExecutorConfig :=
  let '(block, pinned) := prepare_http config guarded in
  mkExecutorConfig block pinned DEFAULT_MAX_ATTEMPTS (from_secs DEFAULT_REQUEST_TIMEOUT_SECS).

Definition make_executor {W : World} (a : AppState) (format : ResponseFormat) : Executor :=
  mkExecutor (as_config a) (as_catalog a) (executor_config (as_config a) (as_guarded_client a))
    (registry_of <$> as_registry a) (Some (as_quarantined a)) format (as_event_repo a).

Definition is_remote_mcp (a : AppState) (canonical : string) : bool :=
  is_some_and (registry_contains_tool canonical) (as_registry a).

(** ** Results as MCP responses ([mcp/result.rs]) *)

Class McpWire := {
  (** [serde_json::to_value] of a result *)
  call_result_json : CallToolResult -> option JSON;
  (** [serde_json::from_slice] of the two results; the first is known by its JSON *)
  parse_input_required : string -> option JSON;
  parse_tool_call_result : string -> option ToolCallResult;
  (** what serde says of a value that is not a batch request *)
  request_error : JSON -> string;
}.

Definition success_result (c : list ContentBlock) : CallToolResult :=
  mkCallToolResult c None (Some false).
Definition error_result (c : list ContentBlock) : CallToolResult :=
  mkCallToolResult c None (Some true).

Definition tool_call_result_to_mcp (r : ToolCallResult) : CallToolResult :=
  let content := CB_Text <$> tr_content r in
  if is_error r then error_result content else success_result content.

Definition DEFENSE_MARK : string := "[Asterlane content_defense_flag=true]".

Definition prefix_content_defense (r : ToolCallResult) (flag : bool) : ToolCallResult :=
  if negb flag then r
  else match tr_content r with
       | text :: rest => mkToolCallResult ((DEFENSE_MARK +:+ nl +:+ text) :: rest) (is_error r)
       | [] => mkToolCallResult [DEFENSE_MARK] (is_error r)
       end.

Definition marked_body (flag : bool) (b : string) : string :=
  let text := from_utf8_lossy b in
  if flag then DEFENSE_MARK +:+ nl +:+ text else text.

Definition invoke_result_to_mcp {MW : McpWire} (r : InvokeResult) (remote : bool)
    : response CallToolResult :=
  if bool_decide (content_type r = Some MCP_INPUT_REQUIRED_CONTENT_TYPE) then
    match parse_input_required (body r) with
    | Some required => Resp_InputRequired required
    | None => Resp_Complete (error_result
                [CB_Text "upstream input_required result was malformed"])
    end
  else
    match (if remote then parse_tool_call_result (body r) else None) with
    | Some t => Resp_Complete
        (tool_call_result_to_mcp (prefix_content_defense t (content_defense_flag r)))
    | None => Resp_Complete
        (success_result [CB_Text (marked_body (content_defense_flag r) (body r))])
    end.

(** ** Requests of a batch ([mcp/model.rs]) *)

Definition BATCH_LIMIT : nat := 10.

Record BatchToolCall := mkBatchToolCall {
  bc_name : string;
  bc_arguments : list (string * JSON);
  bc_domain : option string;
  bc_provider : option string;
  bc_input_responses : option JSON;
  bc_request_state : option string;
}.

(** A derived [Deserialize] reads a struct from an object or from an array. *)
Definition optional {A} (dec : JSON -> option A) (v : option JSON) : option (option A) :=
  match v with None | Some JNull => Some None | Some j => a ← dec j; Some (Some a) end.

Definition BatchToolCall_of (v : JSON) : option BatchToolCall :=
  let build n a d p i r :=
    n ← n ≫= as_str; a ← a ≫= as_object; d ← optional as_str d; p ← optional as_str p;
    i ← optional Some i; r ← optional as_str r; Some (mkBatchToolCall n a d p i r) in
  match v with
  | JObject fs =>
      build (obj_get "name" fs) (obj_get "arguments" fs) (obj_get "domain" fs)
        (obj_get "provider" fs) (obj_get "input_responses" fs) (obj_get "request_state" fs)
  | JArray [n; a; d; p; i; r] =>
      build (Some n) (Some a) (Some d) (Some p) (Some i) (Some r)
  | _ => None
  end.

Definition deserialize_batch {A} (dec : JSON -> option A) (v : JSON) : option (list A) :=
  l ← as_array v; items ← mapM dec l;
  if ((1 <=? length items) && (length items <=? BATCH_LIMIT))%nat then Some items else None.

Definition batch_request {A} (field : string) (dec : JSON -> option A) (v : JSON)
    : option (list A) :=
  items ← match v with
          | JObject fs => obj_get field fs
          | JArray [x] => Some x
          | _ => None
          end;
  deserialize_batch dec items.

Definition get_tools_names {MW : McpWire} (v : JSON) : result string (list string) :=
  ok_or (request_error v) (batch_request "names" as_str v).
Definition call_tools_calls {MW : McpWire} (v : JSON) : result string (list BatchToolCall) :=
  ok_or (request_error v) (batch_request "calls" BatchToolCall_of v).

(** ** Answers of a batch: the forms that serde writes *)

Record BatchToolDetail := mkBatchToolDetail {
  bd_name : string;
  bd_tool : option ToolDescriptor;
  bd_error : option string;
  bd_cursor : option string;
}.

Record BatchCallResult := mkBatchCallResult {
  br_name : string;
  br_request_id : option string;
  br_result : option JSON;
  br_input_required : option JSON;
  br_error : option string;
  br_cursor : option string;
}.

Definition opt_json (k : string) (v : option JSON) : list (string * JSON) :=
  match v with Some j => [(k, j)] | None => [] end.
Definition opt_null (v : option JSON) : JSON := default JNull v.

Definition descriptor_json (d : ToolDescriptor) : JSON :=
  JObject [("name", JString (td_name d)); ("description", JString (td_description d));
           ("input_schema", td_input_schema d)].

Definition detail_json (d : BatchToolDetail) : JSON :=
  JObject ([("name", JString (bd_name d))] ++ opt_json "tool" (descriptor_json <$> bd_tool d)
           ++ opt_json "error" (JString <$> bd_error d)
           ++ opt_json "cursor" (JString <$> bd_cursor d)).

Definition call_json (r : BatchCallResult) : JSON :=
  JObject ([("name", JString (br_name r))]
           ++ opt_json "request_id" (JString <$> br_request_id r)
           ++ opt_json "result" (br_result r) ++ opt_json "input_required" (br_input_required r)
           ++ opt_json "error" (JString <$> br_error r)
           ++ opt_json "cursor" (JString <$> br_cursor r)).

Definition response_json {A} (f : A -> JSON) (items : list A) : JSON :=
  JObject [("results", JArray (f <$> items))].

(** ** Keeping a batch within the budget *)

Definition json_len {SE : Serializers} (v : JSON) : Z :=
  Z.of_nat (String.length (value_to_string v)).

(** The loop that both batches run: while the whole answer is too long, the item
    with the largest payload is replaced by a cursor to it.  [None] is the lack of
    fuel; the clocks of the [n]-th entry are [clock n]. *)
Section Spill.
Context {SE : Serializers} {HO : HashOrder} {A : Type}.
Variable (item_json : A -> JSON) (spillable : A -> bool) (weight : A -> Z).
(** the item without its payload, and the payload *)
Variable (take_out : A -> A * string) (set_cursor : string -> A -> A).
Variable (key_id : string) (clock : nat -> Z * Z).

Definition largest (items : list A) : option (nat * A) :=
  max_by_key (fun p => weight p.2)
    (List.filter (fun p => spillable p.2) (imap (fun i x => (i, x)) items)).

Fixpoint spill (fuel n : nat) (items : list A) (cache : ResultCache)
    : option (ResultCache * result string (list A)) :=
  match fuel with
  | O => None
  | S fuel =>
      if json_len (response_json item_json items) <=? DEFAULT_BUDGET_BYTES
      then Some (cache, Ok items)
      else
        match largest items with
        | None => Some (cache, Err "batch response exceeds byte budget")
        | Some (i, item) =>
            let '(item, full) := take_out item in
            let '(cache, cursor) :=
              store (String.list_ascii_of_string full) key_id (clock n).1 (clock n).2 cache in
            spill fuel (S n) (<[i := set_cursor cursor item]> items) cache
        end
  end.

(** Each round takes the payload out of one item. *)
Definition fit (items : list A) (cache : ResultCache)
    : option (ResultCache * result string (list A)) :=
  spill (S (length items)) 0 items cache.
End Spill.

(** ** [asl__describe] *)

Section Describe.
Context {RE : RegexEngine} {SE : Serializers} {HO : HashOrder} {UT : UnicodeTables}
  {MW : McpWire}.

Definition not_found_detail (n : string) : BatchToolDetail :=
  mkBatchToolDetail n None (Some "not_found") None.

Definition tool_detail (c : ToolCatalog) (key : ProxyKey) (n : string)
    : result string BatchToolDetail :=
  match find_by_wire_name n c with
  | None => Ok (not_found_detail n)
  | Some t =>
      shown ← map_err PolicyError_to_string (key_can_use_tool key (name t) (resource_id t));
      Ok (if shown : bool
          then mkBatchToolDetail n
                 (Some (mkToolDescriptor (wire t) (description t)
                          (project_schema (input_schema t)))) None None
          else not_found_detail n)
  end.

Fixpoint tool_details (c : ToolCatalog) (key : ProxyKey) (names : list string)
    : result string (list BatchToolDetail) :=
  match names with
  | [] => Ok []
  | n :: names =>
      d ← tool_detail c key n;
      ds ← tool_details c key names;
      Ok (d :: ds)
  end.

Definition detail_spillable (d : BatchToolDetail) : bool := bool_decide (is_Some (bd_tool d)).
Definition detail_weight (d : BatchToolDetail) : Z :=
  json_len (opt_null (descriptor_json <$> bd_tool d)).
Definition detail_take (d : BatchToolDetail) : BatchToolDetail * string :=
  (mkBatchToolDetail (bd_name d) None (bd_error d) (bd_cursor d),
   value_to_string (opt_null (descriptor_json <$> bd_tool d))).
Definition detail_cursor (cursor : string) (d : BatchToolDetail) : BatchToolDetail :=
  mkBatchToolDetail (bd_name d) (bd_tool d) (bd_error d) (Some cursor).

Definition get_tools (args : JSON) (c : ToolCatalog) (key : ProxyKey) (clock : nat -> Z * Z)
    (cache : ResultCache) : option (ResultCache * result string (list BatchToolDetail)) :=
  match (names ← get_tools_names args; tool_details c key names)
        : result string (list BatchToolDetail) with
  | Err e => Some (cache, Err e)
  | Ok details =>
      fit detail_json detail_spillable detail_weight detail_take detail_cursor (pk_id key) clock
        details cache
  end.
End Describe.

(** ** [asl__batch] *)

Section Batch.
Context {G : Governor} {RE : RegexEngine} {RR : RegexReplace} {U : Upstream} {HO : HashOrder}
  {MW : McpWire} {W : World}.

Definition batch_item (call : BatchToolCall) : BatchCallResult :=
  mkBatchCallResult (bc_name call) None None None None None.

Definition with_error (i : BatchCallResult) (e : string) : BatchCallResult :=
  mkBatchCallResult (br_name i) (br_request_id i) (br_result i) (br_input_required i) (Some e)
    (br_cursor i).

(** Resolution and scope, before the executor checks them again. *)
Definition batch_resolve (c : ToolCatalog) (key : ProxyKey) (call : BatchToolCall)
    : result string WrappedTool :=
  r ← map_err CatalogError_to_string
        (resolve_for_key (bc_name call) (mkToolQualifiers (bc_domain call) (bc_provider call))
           key c);
  t ← ok_or "unknown tool" r;
  allowed ← map_err PolicyError_to_string (key_can_use_tool key (name t) (resource_id t));
  if allowed : bool then Ok t
  else Err ("tool " +:+ bc_name call +:+ " not permitted for this key").

Definition batch_answer (i : BatchCallResult) (r : InvokeResult) (remote : bool)
    : BatchCallResult :=
  let id := Some (request_id r) in
  match invoke_result_to_mcp r remote with
  | Resp_Complete v => mkBatchCallResult (br_name i) id (call_result_json v) None None None
  | Resp_InputRequired v => mkBatchCallResult (br_name i) id None (Some v) None None
  | _ => mkBatchCallResult (br_name i) id None None (Some "unsupported upstream response") None
  end.

Definition call_one (a : AppState) (key : ProxyKey) (format : ResponseFormat) (CE : CallEnv)
    (call : BatchToolCall) (s : GatewayState)
    : outcome (GatewayState * list Contact * BatchCallResult) :=
  let item := batch_item call in
  match batch_resolve (as_catalog a) key call with
  | Err e => Returns (s, [], with_error item e)
  | Ok t =>
      p ← invoke_call (CE := CE) (make_executor a format) (wire t) (JObject (bc_arguments call)) key
            (mkToolCallExtras (bc_input_responses call) (bc_request_state call)) s;
      let '(s, contacts, r) := p in
      Returns (s, contacts,
        match r with
        | Err e => with_error item (ProxyError_to_string e)
        | Ok r => batch_answer item r (is_remote_mcp a (wire t))
        end)
  end.

Fixpoint call_each (a : AppState) (key : ProxyKey) (format : ResponseFormat)
    (env : nat -> CallEnv) (n : nat) (calls : list BatchToolCall) (s : GatewayState)
    : outcome (GatewayState * list Contact * list BatchCallResult) :=
  match calls with
  | [] => Returns (s, [], [])
  | call :: calls =>
      p ← call_one a key format (env n) call s;
      let '(s, contacts, item) := p in
      q ← call_each a key format env (S n) calls s;
      let '(s, contacts', items) := q in
      Returns (s, contacts ++ contacts', item :: items)
  end.

Definition call_spillable (i : BatchCallResult) : bool :=
  negb (bool_decide (is_Some (br_cursor i)))
  && (bool_decide (is_Some (br_result i)) || bool_decide (is_Some (br_input_required i))
      || bool_decide (is_Some (br_error i))).

Definition call_weight (i : BatchCallResult) : Z :=
  json_len (JArray [opt_null (br_result i); opt_null (br_input_required i);
                    opt_null (JString <$> br_error i)]).

Definition call_take (i : BatchCallResult) : BatchCallResult * string :=
  match br_result i, br_input_required i, br_error i with
  | Some v, ir, e =>
      (mkBatchCallResult (br_name i) (br_request_id i) None ir e (br_cursor i), value_to_string v)
  | None, Some v, e =>
      (mkBatchCallResult (br_name i) (br_request_id i) None None e (br_cursor i),
       value_to_string v)
  | None, None, Some e =>
      (mkBatchCallResult (br_name i) (br_request_id i) None None
         (Some "error details available via cursor") (br_cursor i),
       value_to_string (JObject [("error", JString e)]))
  | None, None, None => (i, "")
  end.

Definition call_cursor (cursor : string) (i : BatchCallResult) : BatchCallResult :=
  mkBatchCallResult (br_name i) (br_request_id i) (br_result i) (br_input_required i) (br_error i)
    (Some cursor).

Definition fit_batch_budget (key : ProxyKey) (clock : nat -> Z * Z)
    (items : list BatchCallResult) (cache : ResultCache)
    : option (ResultCache * result string (list BatchCallResult)) :=
  fit call_json call_spillable call_weight call_take call_cursor (pk_id key) clock items cache.

Definition cache_of (s : GatewayState) : ResultCache := default ResultCache_new (result_cache s).

Definition call_tools (a : AppState) (key : ProxyKey) (format : ResponseFormat)
    (env : nat -> CallEnv) (clock : nat -> Z * Z) (args : JSON) (s : GatewayState)
    : outcome (option (GatewayState * list Contact * result string (list BatchCallResult))) :=
  match call_tools_calls args with
  | Err e => Returns (Some (s, [], Err e))
  | Ok calls =>
      p ← call_each a key format env 0 calls s;
      let '(s, contacts, items) := p in
      Returns (q ← fit_batch_budget key clock items (cache_of s);
               Some (with_cache s (Some q.1), contacts, q.2))
  end.
End Batch.

(** ** [asl__fetch] and [asl__call] *)

Definition more_note (cursor : string) (next_offset : Z) : string :=
  nl +:+ nl +:+ "[More data available. Use cursor " +:+ dquote +:+ cursor +:+ dquote
    +:+ " with offset " +:+ fmt_Z next_offset +:+ " to continue.]".

Definition chunk_text (cursor : string) (chunk : ShapedChunk) : string :=
  String.string_of_list_ascii (text chunk)
  +:+ (if has_more chunk then more_note cursor (ch_offset chunk + len (text chunk)) else "").

Definition fetch_offset (args : JSON) : Z := default 0 (v ← json_get "offset" args; as_u64 v).

Definition fetch_result_meta_tool (key : ProxyKey) (args : JSON) (budget t0 now : Z)
    (cache : ResultCache) : outcome (ResultCache * CallToolResult) :=
  match (v ← json_get "cursor" args; as_str v) with
  | None => Returns (cache, error_result [CB_Text "missing 'cursor' in asl__fetch arguments"])
  | Some cursor =>
      r ← Shaping.fetch cursor (pk_id key) (fetch_offset args) budget t0 now cache;
      Returns (r.1, match r.2 with
                    | Some chunk => success_result [CB_Text (chunk_text cursor chunk)]
                    | None => error_result [CB_Text "cursor not found or expired"]
                    end)
  end.

Definition merge_meta_tool_extras (args : JSON) (x : ToolCallExtras) : ToolCallExtras :=
  mkToolCallExtras
    (match input_responses x with Some v => Some v | None => json_get "input_responses" args end)
    (match request_state x with
     | Some v => Some v
     | None => v ← json_get "request_state" args; as_str v
     end).

Section CallOne.
Context {G : Governor} {RE : RegexEngine} {RR : RegexReplace} {U : Upstream} {HO : HashOrder}
  {MW : McpWire} {W : World} {CE : CallEnv}.

Definition meta_qualifiers (args : JSON) : ToolQualifiers :=
  mkToolQualifiers (v ← json_get "domain" args; as_str v) (v ← json_get "provider" args; as_str v).

Definition invoke_meta_call_tool (a : AppState) (key : ProxyKey) (format : ResponseFormat)
    (args : JSON) (extras : ToolCallExtras) (s : GatewayState)
    : outcome (GatewayState * list Contact * result ProxyError (response CallToolResult)) :=
  match (v ← json_get "name" args; as_str v) with
  | None => Returns (s, [], Err (PE_InvalidToolCall "missing 'name' in asl__call arguments"))
  | Some tool_name =>
      let tool_args := default (JObject []) (json_get "arguments" args) in
      match resolve_for_key tool_name (meta_qualifiers args) key (as_catalog a) with
      | Ok None => Returns (s, [], Err (PE_UnknownTool tool_name))
      | Err (AmbiguousToolName _ _ as e) =>
          Returns (s, [], Ok (Resp_Complete (error_result
            [CB_Text (CatalogError_to_string e
                        +:+ " (pass domain/provider to disambiguate)")])))
      | Err e => Returns (s, [], Err (PE_InvalidToolCall (CatalogError_to_string e)))
      | Ok (Some t) =>
          p ← invoke_call (make_executor a format) (wire t) tool_args key
                (merge_meta_tool_extras args extras) s;
          let '(s, contacts, r) := p in
          Returns (s, contacts,
            r ← r; Ok (invoke_result_to_mcp r (is_remote_mcp a (wire t))))
      end
  end.
End CallOne.

(** ** Lemmas: the budget loop *)

Section SpillFacts.
Context {SE : Serializers} {HO : HashOrder} {A : Type}.
Context (item_json : A -> JSON) (spillable : A -> bool) (weight : A -> Z)
  (take_out : A -> A * string) (set_cursor : string -> A -> A) (key_id : string)
  (clock : nat -> Z * Z).
(** an item is taken out once *)
Hypothesis spilled_once : forall c x, spillable (set_cursor c (take_out x).1) = false.

Definition to_spill (items : list A) : nat := length (List.filter spillable items).

Lemma imap_pair_elem (items : list A) i x :
  (i, x) ∈ imap (fun i x => (i, x)) items <-> items !! i = Some x.
Proof.
  rewrite list_elem_of_lookup. split.
  - intros (j & H). rewrite list_lookup_imap in H. destruct (items !! j) eqn:E; [|done].
    by injection H as <- <-.
  - intros H. exists i. by rewrite list_lookup_imap, H.
Qed.

Lemma largest_Some items i x :
  largest spillable weight items = Some (i, x) -> items !! i = Some x /\ spillable x = true.
Proof.
  intros [H%filter_elem _]%max_by_key_Some. destruct H as [H Hs].
  by apply imap_pair_elem in H.
Qed.

Lemma to_spill_insert items i x y :
  items !! i = Some x -> spillable x = true -> spillable y = false ->
  to_spill items = S (to_spill (<[i := y]> items)).
Proof.
  intros Hi Hx Hy. unfold to_spill. rewrite insert_take_drop by by apply lookup_lt_Some in Hi.
  rewrite <- (take_drop_middle items i x) at 1 by done.
  rewrite !List.filter_app, !length_app. cbn. rewrite Hx, Hy. cbn. lia.
Qed.

Lemma spill_returns fuel n items cache :
  (to_spill items < fuel)%nat ->
  is_Some (spill item_json spillable weight take_out set_cursor key_id clock fuel n items cache).
Proof.
  revert n items cache. induction fuel as [|fuel IH]; intros n items cache Hf; [lia|].
  cbn [spill]. case_if; [by eauto|].
  destruct (largest spillable weight items) as [[i x]|] eqn:El; [|by eauto].
  apply largest_Some in El as [Hi Hx].
  pose proof (spilled_once) as Hone. specialize (fun c => Hone c x).
  destruct (take_out x) as [x' full]. destruct (store _ _ _ _ _) as [cache' cursor].
  apply IH. rewrite (to_spill_insert items i x (set_cursor cursor x') Hi Hx (Hone cursor)) in Hf. lia.
Qed.

Lemma fit_returns items cache :
  is_Some (fit item_json spillable weight take_out set_cursor key_id clock items cache).
Proof.
  apply spill_returns. unfold to_spill. apply Nat.lt_succ_r, List.filter_length_le.
Qed.

(** What taking out an item keeps holds between the items and those of the answer. *)
Lemma spill_Ok (R : A -> A -> Prop) `{!Reflexive R} `{!Transitive R} fuel n items cache cache' out :
  (forall c x, spillable x = true -> R x (set_cursor c (take_out x).1)) ->
  spill item_json spillable weight take_out set_cursor key_id clock fuel n items cache
    = Some (cache', Ok out) ->
  Forall2 R items out /\ json_len (response_json item_json out) <= DEFAULT_BUDGET_BYTES.
Proof.
  intros HR. revert n items cache. induction fuel as [|fuel IH]; intros n items cache H; [done|].
  cbn [spill] in H. case_if_in H.
  { injection H as <- <-. split; [done|by apply Z.leb_le]. }
  destruct (largest spillable weight items) as [[i x]|] eqn:El; [|done].
  apply largest_Some in El as [Hi Hx].
  pose proof (fun c => HR c x Hx) as Hc.
  destruct (take_out x) as [x' full]. destruct (store _ _ _ _ _) as [cache1 cursor].
  destruct (IH _ _ _ H) as [Hf Hl]. split; [|done].
  etransitivity; [|exact Hf].
  rewrite <- (list_insert_id items i x Hi) at 1.
  by apply Forall2_insert; [|apply (Hc cursor)].
Qed.

Lemma fit_Ok (R : A -> A -> Prop) `{!Reflexive R} `{!Transitive R} items cache cache' out :
  (forall c x, spillable x = true -> R x (set_cursor c (take_out x).1)) ->
  fit item_json spillable weight take_out set_cursor key_id clock items cache
    = Some (cache', Ok out) ->
  Forall2 R items out /\ json_len (response_json item_json out) <= DEFAULT_BUDGET_BYTES.
Proof. intros HR H. by eapply spill_Ok. Qed.
End SpillFacts.

(** ** Describing tools *)

Lemma detail_spilled_once {SE : Serializers} c d :
  detail_spillable (detail_cursor c (detail_take d).1) = false.
Proof. done. Qed.

(** The tool of an item can be read, directly or by its cursor. *)
Definition same_detail (d d' : BatchToolDetail) : Prop :=
  bd_name d' = bd_name d /\ bd_error d' = bd_error d /\
  (detail_spillable d = false -> d' = d) /\
  (is_Some (bd_tool d) \/ is_Some (bd_cursor d) -> is_Some (bd_tool d') \/ is_Some (bd_cursor d')).

#[export] Instance same_detail_refl : Reflexive same_detail.
Proof. intros d. by repeat split. Qed.
#[export] Instance same_detail_trans : Transitive same_detail.
Proof.
  intros d1 d2 d3 (N1 & E1 & S1 & C1) (N2 & E2 & S2 & C2). split_and!; [congruence..| |].
  - intros H. rewrite (S1 H) in S2. by apply S2.
  - auto.
Qed.

Lemma tool_details_Forall2 {RE : RegexEngine} {UT : UnicodeTables} c key names ds :
  tool_details c key names = Ok ds ->
  Forall2 (fun n d => tool_detail c key n = Ok d) names ds.
Proof.
  revert ds. induction names as [|n names IH]; intros ds H; cbn in H; inv_ok; [constructor|].
  constructor; auto.
Qed.

(** Describing tools always ends.  The answer has one item per name,
    in order, and fits the byte budget; the item of a name that is in the key's
    scope carries the tool or a cursor to it; a name outside the scope gives the
    very item that an unknown name gives. *)
Theorem describe_tools {RE : RegexEngine} {RL : RegexLaws RE} {SE : Serializers} {HO : HashOrder}
    {UT : UnicodeTables} {MW : McpWire} args c key clock cache :
  exists cache' r, get_tools args c key clock cache = Some (cache', r) /\
    forall items, r = Ok items ->
      exists names, get_tools_names args = Ok names /\
        json_len (response_json detail_json items) <= DEFAULT_BUDGET_BYTES /\
        Forall2 (fun n d =>
          bd_name d = n /\
          match find_by_wire_name n c with
          | Some t =>
              (in_scope key (wire t) (resource_id t) ->
                 bd_error d = None /\ (is_Some (bd_tool d) \/ is_Some (bd_cursor d))) /\
              (~ in_scope key (wire t) (resource_id t) -> d = not_found_detail n)
          | None => d = not_found_detail n
          end) names items.
Proof.
  unfold get_tools.
  destruct (names ← get_tools_names args; tool_details c key names) as [details|e] eqn:E.
  2: { by exists cache, (Err e). }
  destruct (fit_returns detail_json detail_spillable detail_weight detail_take detail_cursor
    (pk_id key) clock detail_spilled_once details cache) as [[cache' r] Hfit].
  exists cache', r. split; [exact Hfit|]. intros items ->. inv_ok.
  match goal with K : get_tools_names args = Ok ?ns |- _ => exists ns; split; [exact K|] end.
  apply fit_Ok with (R := same_detail) in Hfit as [Hf Hb]; [|apply _|apply _|].
  2: { intros cu d Hd. unfold same_detail. cbn. split_and!; eauto. congruence. }
  split; [exact Hb|].
  clear Hb. apply tool_details_Forall2 in E. revert items Hf.
  clear -E RL. induction E as [|n d ns ds Hd E IH]; intros items Hf.
  { inversion Hf. constructor. }
  inversion Hf as [|d0 d' ds0 ds' (Hn & He & Hs & Hc) Hf']; subst. constructor; [|auto]. clear IH.
  unfold tool_detail in Hd. destruct (find_by_wire_name n c) as [t|].
  2: { injection Hd as <-. split; [done|]. by apply Hs. }
  inv_ok. match goal with K : key_can_use_tool _ _ _ = Ok ?b |- _ =>
    apply key_can_use_name_in_scope in K; fold (wire t) in K; destruct b end.
  - cbn in *. split; [done|]. split; [|tauto]. intros _. split; [done|]. eauto.
  - split; [done|]. split; [|by intros _; apply Hs].
    match goal with K : _ <-> _ |- _ => intros [=]%K end.
Qed.

(** ** Calling a batch *)

Section BatchFacts.
Context {G : Governor} {RE : RegexEngine} {RR : RegexReplace} {U : Upstream} {HO : HashOrder}
  {MW : McpWire} {W : World}.

Definition answered (i : BatchCallResult) : bool := bool_decide (is_Some (br_request_id i)).

(** An item is refused before the executor, or is the answer of the executor, with a
    request id exactly when the call succeeded. *)
Lemma call_one_item a key f (CE : CallEnv) call s s' contacts i :
  call_one a key f CE call s = Returns (s', contacts, i) ->
  br_name i = bc_name call /\
  ((s' = s /\ contacts = [] /\ answered i = false) \/
   exists t args x r, invoke_call (make_executor a f) (wire t) args key x s
       = Returns (s', contacts, r) /\ answered i = is_Ok r).
Proof.
  unfold call_one. destruct (batch_resolve (as_catalog a) key call) as [t|e].
  2: { intros H. injection H as <- <- <-. split; [done|]. by left. }
  intros ([[s1 c1] r] & Hi & H)%bind_Returns_inv. injection H as <- <- <-.
  destruct r as [r|e].
  - unfold batch_answer. split; [by destruct (invoke_result_to_mcp _ _)|].
    right. do 4 eexists. split; [exact Hi|]. by destruct (invoke_result_to_mcp _ _).
  - split; [done|]. right. do 4 eexists. by split; [exact Hi|].
Qed.

Lemma call_each_names a key f env n calls s s' contacts items :
  call_each a key f env n calls s = Returns (s', contacts, items) ->
  Forall2 (fun c i => br_name i = bc_name c) calls items.
Proof.
  revert n s contacts items. induction calls as [|c calls IH]; intros n s contacts items H; cbn in H.
  { injection H as _ _ <-. constructor. }
  apply bind_Returns_inv in H as ([[s1 c1] i] & H1 & H).
  apply bind_Returns_inv in H as ([[s2 c2] its] & H2 & H). injection H as <- _ <-.
  constructor; [|exact (IH _ _ _ _ H2)]. by apply call_one_item in H1 as [H1 _].
Qed.

(** The calls are counted one by one. *)
Lemma call_each_counts a key f env d n calls s s' contacts items R :
  (forall n R, usage (ce_others (CallEnv := env n) R) = usage R) ->
  (forall n, date_naive (ce_admit_now (CallEnv := env n)) = d) ->
  (forall n, date_naive (ce_drop_now (CallEnv := env n)) = d) ->
  limits s = Some R ->
  0 <= total_calls (pk_id key) R -> total_calls (pk_id key) R + Z.of_nat (length calls) <= u64_max ->
  0 <= calls_on d (pk_id key) R -> calls_on d (pk_id key) R + Z.of_nat (length calls) <= u64_max ->
  call_each a key f env n calls s = Returns (s', contacts, items) ->
  exists R', limits s' = Some R' /\
    total_calls (pk_id key) R' =
      total_calls (pk_id key) R + Z.of_nat (length (List.filter answered items)) /\
    calls_on d (pk_id key) R' =
      calls_on d (pk_id key) R + Z.of_nat (length (List.filter answered items)).
Proof.
  intros Ho Ha Hd. revert n s R contacts items.
  induction calls as [|c calls IH]; intros n s R contacts items HR T1 T2 D1 D2 H; cbn in H.
  { injection H as <- _ <-. exists R. cbn. split; [done|]. lia. }
  apply bind_Returns_inv in H as ([[s1 c1] i] & H1 & H).
  apply bind_Returns_inv in H as ([[s2 c2] its] & H2 & H). injection H as <- _ <-.
  cbn [length] in T2, D2.
  assert (exists R1, limits s1 = Some R1 /\
    total_calls (pk_id key) R1 = total_calls (pk_id key) R + (if answered i then 1 else 0) /\
    calls_on d (pk_id key) R1 = calls_on d (pk_id key) R + (if answered i then 1 else 0))
    as (R1 & HR1 & HT & HD).
  { apply call_one_item in H1 as [_ [(-> & _ & ->)|(t & args & x & r & Hi & ->)]].
    - exists R. split; [done|]. lia.
    - rewrite <- (Ha n). rewrite <- (Ha n) in D1, D2.
      apply (invoke_counts (CE := env n)) with (R := R) in Hi; try done; [|lia..].
      by rewrite Hd, Ha. }
  destruct (IH (S n) s1 R1 c2 its HR1) as (R' & HR' & HT' & HD'); [destruct (answered i); lia..|exact H2|].
  exists R'. split; [done|]. cbn [List.filter]. destruct (answered i); cbn [length]; lia.
Qed.

Lemma call_spilled_once c i : call_spillable (call_cursor c (call_take i).1) = false.
Proof. done. Qed.

Definition same_call (i i' : BatchCallResult) : Prop :=
  br_name i' = br_name i /\ br_request_id i' = br_request_id i.

#[export] Instance same_call_refl : Reflexive same_call.
Proof. by intros i. Qed.
#[export] Instance same_call_trans : Transitive same_call.
Proof. intros i j k [] []. split; congruence. Qed.

Lemma call_take_same c i : same_call i (call_cursor c (call_take i).1).
Proof. unfold call_take. by destruct (br_result i), (br_input_required i), (br_error i). Qed.

Lemma same_call_answered items items' :
  Forall2 same_call items items' ->
  length (List.filter answered items') = length (List.filter answered items).
Proof.
  induction 1 as [|i i' l l' [_ Hi] _ IH]; [done|]. cbn. unfold answered in *. rewrite Hi.
  case_if; cbn; by rewrite IH.
Qed.
End BatchFacts.

(** A batch that does not panic always ends.  Its answer has one item per
    call, in the order of the calls and with their names, and fits the byte
    budget; and the key's total and daily counts go up by exactly the number of
    items that carry a request id: a call that fails, wherever it stands in the
    batch, is not charged and does not keep the others from running. *)
Theorem batch_accounted {G : Governor} {RE : RegexEngine} {RR : RegexReplace} {U : Upstream}
    {HO : HashOrder} {MW : McpWire} {W : World} a key f env clock args s o R d :
  (forall n R, usage (ce_others (CallEnv := env n) R) = usage R) ->
  (forall n, date_naive (ce_admit_now (CallEnv := env n)) = d) ->
  (forall n, date_naive (ce_drop_now (CallEnv := env n)) = d) ->
  limits s = Some R ->
  0 <= total_calls (pk_id key) R <= u64_max - Z.of_nat BATCH_LIMIT ->
  0 <= calls_on d (pk_id key) R <= u64_max - Z.of_nat BATCH_LIMIT ->
  call_tools a key f env clock args s = Returns o ->
  exists s' contacts r R', o = Some (s', contacts, r) /\ limits s' = Some R' /\
    forall items, r = Ok items ->
      exists calls, call_tools_calls args = Ok calls /\
        Forall2 (fun c i => br_name i = bc_name c) calls items /\
        json_len (response_json call_json items) <= DEFAULT_BUDGET_BYTES /\
        total_calls (pk_id key) R' =
          total_calls (pk_id key) R + Z.of_nat (length (List.filter answered items)) /\
        calls_on d (pk_id key) R' =
          calls_on d (pk_id key) R + Z.of_nat (length (List.filter answered items)).
Proof.
  intros Ho Ha Hd HR [T1 T2] [D1 D2] H. unfold call_tools in H.
  destruct (call_tools_calls args) as [calls|e] eqn:Ec.
  2: { injection H as <-. by exists s, [], (Err e), R. }
  apply bind_Returns_inv in H as ([[s1 contacts] items] & H1 & H). injection H as <-.
  destruct (fit_returns call_json call_spillable call_weight call_take call_cursor (pk_id key) clock
    call_spilled_once items (cache_of s1)) as [[cache r] Hfit].
  unfold fit_batch_budget. rewrite Hfit. cbn.
  assert (length calls <= BATCH_LIMIT)%nat as Hlen.
  { unfold call_tools_calls in Ec. apply ok_or_Ok_inv in Ec. unfold batch_request in Ec.
    apply bind_Some in Ec as (v & _ & Ec). unfold deserialize_batch in Ec.
    apply bind_Some in Ec as (l & _ & Ec). apply bind_Some in Ec as (its & _ & Ec).
    destruct (_ && _)%nat eqn:E; [|done]. injection Ec as <-.
    by apply andb_true_iff in E as [_ E%Nat.leb_le]. }
  destruct (call_each_counts a key f env d 0 calls s s1 contacts items R Ho Ha Hd HR)
    as (R' & HR' & HT & HD); [lia..|exact H1|].
  exists (with_cache s1 (Some cache)), contacts, r, R'. do 2 (split; [done|]). intros out ->.
  apply fit_Ok with (R := same_call) in Hfit as [Hs Hb];
    [|apply _|apply _|by intros; apply call_take_same].
  exists calls. split; [done|]. split; [|by rewrite (same_call_answered _ _ Hs)].
  apply call_each_names in H1. eapply Forall2_trans; [|exact H1|exact Hs].
  intros c i i' Hn [Hn' _]. congruence.
Qed.

(** ** What a call reaches *)

Definition reachable {RE : RegexEngine} (a : AppState) (key : ProxyKey) (t : WrappedTool) : Prop :=
  t ∈ tools (as_catalog a) /\ in_scope key (wire t) (resource_id t) /\
  as_quarantined a !! wire t = None.

(** A contact on behalf of a tool that the key may reach. *)
Definition contact_allowed {G : Governor} {RE : RegexEngine} {W : World} (a : AppState)
    (f : ResponseFormat) (key : ProxyKey) (x : Contact) : Prop :=
  exists t, reachable a key t /\ contact_of (make_executor a f) t x.

Section Reach.
Context {G : Governor} {RE : RegexEngine} {RL : RegexLaws RE} {RR : RegexReplace} {U : Upstream}
  {HO : HashOrder} {MW : McpWire} {W : World}.

Lemma invoke_reaches {CE : CallEnv} a f w args key x s s' contacts r :
  invoke_call (make_executor a f) w args key x s = Returns (s', contacts, r) ->
  Forall (contact_allowed a f key) contacts.
Proof.
  intros H. apply invoke_call_ends in H.
  inversion H as [e|c s1 le _ _|c ad s1 s2 a2 cs r' Hg Hadm Hran]; subst; [constructor..|].
  pose proof (gate_in_scope _ _ _ Hg) as Hs. destruct Hg as [Hk Ht Hc Hq _]. subst key.
  rewrite Hc in Hq. pose proof (ran_owned _ _ _ _ _ _ _ _ Hran Hc) as Ho.
  eapply Forall_impl; [exact Ho|]. intros x0 Hx. by exists (rc_tool c).
Qed.

Lemma call_each_reaches a key f env n calls s s' contacts items :
  call_each a key f env n calls s = Returns (s', contacts, items) ->
  Forall (contact_allowed a f key) contacts.
Proof.
  revert n s contacts items. induction calls as [|c calls IH]; intros n s contacts items H; cbn in H.
  { injection H as _ <- _. done. }
  apply bind_Returns_inv in H as ([[s1 c1] i] & H1 & H).
  apply bind_Returns_inv in H as ([[s2 c2] its] & H2 & H). injection H as <- <- _.
  apply Forall_app. split; [|exact (IH _ _ _ _ H2)].
  apply call_one_item in H1 as [_ [(_ & -> & _)|(t & args & e & r & Hi & _)]]; [done|].
  by eapply invoke_reaches.
Qed.
End Reach.

(** ** Witnesses *)

Definition demo_wire : McpWire := {|
  call_result_json := fun _ => Some JNull;
  parse_input_required := fun _ => None;
  parse_tool_call_result := fun _ => None;
  request_error := fun _ => "bad request";
|}.

Definition demo_app : AppState :=
  mkAppState (config demo_gateway) (catalog demo_gateway) None empty_auth None ∅ true true.

Definition demo_app_world : World := {|
  w_rmcp := demo_rmcp (fun _ => []);
  w_serializers := plain_serializers;
  w_urls := demo_parser;
  w_oauth := None;
  w_resolve := fun _ => Ok "";
  w_now := fun _ => 0;
  w_elapsed := fun _ => 0;
|}.

Lemma describe_tools_witness :
  exists cache' d,
    get_tools (SE := w_serializers (World := demo_app_world)) (HO := list_order)
      (UT := ascii_tables) (MW := demo_wire)
      (JObject [("names", JArray [JString "search__tavily__web"])]) (catalog demo_gateway)
      demo_caller (fun _ => (0, 0)) ResultCache_new = Some (cache', Ok [d]) /\
    bd_error d = None.
Proof.
  destruct (describe_tools (SE := w_serializers (World := demo_app_world)) (HO := list_order)
      (UT := ascii_tables) (MW := demo_wire)
      (JObject [("names", JArray [JString "search__tavily__web"])]) (catalog demo_gateway)
      demo_caller (fun _ => (0, 0)) ResultCache_new) as (cache' & r & E & H).
  assert (exists d, r = Ok [d]) as [d ->].
  { vm_compute in E. injection E as _ <-. by eexists. }
  destruct (H _ eq_refl) as (names & Hn & _ & Hf).
  vm_compute in Hn. injection Hn as <-.
  exists cache', d. split; [exact E|]. inversion Hf as [|? ? ? ? [_ Hm]]. subst.
  change (find_by_wire_name _ _) with (Some demo_tool) in Hm. apply (proj1 Hm). apply (key_can_use_name_in_scope demo_caller _ _ true); vm_compute; reflexivity.
Defined.

(** A batch of a call that succeeds and one of a tool that does not exist. *)
Definition demo_batch : JSON :=
  JObject [("calls", JArray
    [JObject [("arguments", JObject []); ("name", JString "web")];
     JObject [("arguments", JObject []); ("name", JString "nope")]])].

Lemma batch_accounted_witness :
  exists s' contacts i1 i2 R',
    call_tools (G := open_governor) (RR := no_matches) (U := demo_upstream) (HO := list_order)
      (MW := demo_wire) (W := demo_app_world) demo_app demo_caller Json (fun _ => demo_env)
      (fun _ => (0, 0)) demo_batch demo_state = Returns (Some (s', contacts, Ok [i1; i2])) /\
    limits s' = Some R' /\ total_calls (G := open_governor) "k" R' = 1 /\ br_name i2 = "nope".
Proof.
  destruct (call_tools (G := open_governor) (RR := no_matches) (U := demo_upstream)
    (HO := list_order) (MW := demo_wire) (W := demo_app_world) demo_app demo_caller Json
    (fun _ => demo_env) (fun _ => (0, 0)) demo_batch demo_state) as [o|] eqn:E;
    [|vm_compute in E; discriminate].
  destruct (batch_accounted (G := open_governor) (RR := no_matches) (U := demo_upstream)
    (HO := list_order) (MW := demo_wire) (W := demo_app_world) demo_app demo_caller Json
    (fun _ => demo_env) (fun _ => (0, 0)) demo_batch demo_state o demo_registry 0)
    as (s' & contacts & r & R' & -> & HR & H);
    [done | done | done | reflexivity | vm_compute; split; congruence
     | vm_compute; split; congruence | exact E |].
  assert (exists i1 i2, r = Ok [i1; i2] /\ length (List.filter answered [i1; i2]) = 1%nat)
    as (i1 & i2 & -> & Hc).
  { vm_compute in E. injection E as _ _ <-. by do 2 eexists. }
  destruct (H _ eq_refl) as (calls & Ec & Hf & _ & HT & _).
  exists s', contacts, i1, i2, R'. rewrite Hc in HT. split; [done|]. split; [done|].
  split; [exact HT|]. vm_compute in Ec. injection Ec as <-.
  inversion Hf as [|? ? ? ? _ Hf2]. inversion Hf2. done.
Defined.
