(* ===== verification/McpServer.v ===== *)
(** * The downstream MCP server ([mcp/server.rs], [mcp/meta.rs], [mcp/downstream.rs],
      [mcp/workflow_prompt.rs], [mcp/notify.rs])

    The handlers of [/mcp]: the key of a session, [tools/list], [tools/call] with
    its meta-tools, prompts and resources with their accounting, and the channels
    that are told when the tools change.  A session's context is its bound key id,
    its protocol version and its identity; what rmcp builds around a result (the
    constant fields of a page) is left out. *)

From S2P Require Import Prelude RustStr Naming Errors Config Policy Secrets Catalog.
From S2P Require Import KeyPool Limits Egress Shaping Render Retry Observe Surface Invoke.
From S2P Require Import GatewayAuth Integrity Peers Registry SchemaView Semantic Discovery McpCall.
From Stdlib Require Import Ascii.

Local Open Scope string_scope.
Local Open Scope list_scope.
Local Open Scope Z_scope.
Local Open Scope gateway_scope.

(** ** Errors of the protocol *)

Inductive RpcCode := INVALID_REQUEST | METHOD_NOT_FOUND | INTERNAL_ERROR | RESOURCE_NOT_FOUND.
Record ErrorData := mkErrorData { ed_code : RpcCode; ed_message : string }.

Definition internal_error (m : string) : ErrorData := mkErrorData INTERNAL_ERROR m.

Definition AsterlaneError_to_string (e : AsterlaneError) : string :=
  match e with
  | ToolNameErr e => ToolNameError_to_string e
  | CatalogErr e => CatalogError_to_string e
  | PolicyErr e => PolicyError_to_string e
  | Internal code m _ => Errors.as_str code +:+ ": " +:+ m
  end.

(** ** Sessions and their key *)

Record RequestContext := mkRequestContext {
  rx_bound_key : option string;
  rx_protocol : option string;
  rx_peer : string;
}.

Definition DEFAULT_PAGE_SIZE : nat := 50.

Definition mcp_default_key : ProxyKey :=
  mkProxyKey "mcp-default" "MCP Default" [".*"] [] [] [] None None None None DEFAULT_PAGE_SIZE
    None None.

Definition resolve_proxy_key (a : AppState) (x : RequestContext) : result ErrorData ProxyKey :=
  match rx_bound_key x with
  | Some id => ok_or (mkErrorData INVALID_REQUEST "invalid gateway key")
                 (Config.proxy_key (as_config a) id)
  | None =>
      if mcp_auth_required (as_auth a)
      then Err (mkErrorData INVALID_REQUEST "missing gateway key")
      else Ok mcp_default_key
  end.

(** ** Notification channels ([mcp/notify.rs]) *)

Inductive ToolListChangedTarget :=
| LegacySession (peer : string)
| Subscription (id : string).
#[export] Instance ToolListChangedTarget_eq_dec : EqDecision ToolListChangedTarget.
Proof. solve_decision. Defined.

Definition V_2026_07_28 : string := "2026-07-28".

Definition is_legacy_protocol (x : RequestContext) : bool :=
  is_none_or (fun v => String.ltb v V_2026_07_28) (rx_protocol x).

Definition register_legacy_peer (peer : string) (peers : list ToolListChangedTarget)
    : list ToolListChangedTarget :=
  if existsb (fun t => match t with LegacySession p => p =s peer | Subscription _ => false end)
       peers
  then peers else peers ++ [LegacySession peer].

Definition register_subscription (id : string) (peers : list ToolListChangedTarget)
    : list ToolListChangedTarget :=
  if existsb (fun t => match t with Subscription i => i =s id | LegacySession _ => false end)
       peers
  then peers else peers ++ [Subscription id].

(** A listener whose accepted filter asks for tool changes. *)
Definition listen_tools_list_changed (accepted : option bool) (id : string)
    (peers : list ToolListChangedTarget) : list ToolListChangedTarget :=
  match accepted with Some true => register_subscription id peers | _ => peers end.

(** [alive] is whether the notification could be sent. *)
Definition notify_peers_tool_list_changed (alive : ToolListChangedTarget -> bool)
    (peers : list ToolListChangedTarget) : list ToolListChangedTarget :=
  List.filter alive peers.

Definition register_session (a : AppState) (x : RequestContext)
    (peers : list ToolListChangedTarget) : list ToolListChangedTarget :=
  if bool_decide (is_Some (as_registry a)) && is_legacy_protocol x
  then register_legacy_peer (rx_peer x) peers else peers.

(** ** [tools/list] *)

Record ListToolsRequest := mkListToolsRequest {
  lr_cursor : option string;
  lr_meta : option (list (string * JSON));
}.

Record ListToolsResult := mkListToolsResult {
  lt_next_cursor : option string;
  lt_tools : list RmcpTool;
  lt_ttl_ms : option Z;
}.

(** [from_value::<Map>(...).unwrap_or_default()]. *)
Definition schema_map (v : JSON) : list (string * JSON) := default [] (as_object v).

Definition descriptor_to_mcp_tool (d : ToolDescriptor) : RmcpTool :=
  mkRmcpTool (td_name d) (Some (td_description d)) (schema_map (td_input_schema d)).

Definition wrapped_to_mcp_tool (t : WrappedTool) : RmcpTool :=
  mkRmcpTool (default (wire t) (exposed_name t)) (Some (description t))
    (schema_map (input_schema t)).

Definition meta_str (meta : option (list (string * JSON))) (k : string) : option string :=
  m ← meta; v ← obj_get k m; as_str v.

Definition fail_closed_list_error_data : ErrorData :=
  internal_error "one or more MCP upstreams are unreachable".

Definition list_query (key : ProxyKey) (meta : option (list (string * JSON))) (offset : Z)
    : ToolListQuery :=
  mkToolListQuery (meta_str meta "include") (meta_str meta "exclude")
    (meta_str meta "domain_regex") (meta_str meta "provider_regex") (meta_str meta "tool_regex")
    (Some (Z.of_nat (default_tool_page_size key))) (Some offset).

Section Listing.
Context {RE : RegexEngine} {BS : BatchSchemas}.

Definition meta_tools_mcp : list RmcpTool := descriptor_to_mcp_tool <$> meta_tool_descriptors.

Definition lazy_meta_tool_list (ttl : option Z) : ListToolsResult :=
  mkListToolsResult None meta_tools_mcp ttl.

Definition list_offset (r : option ListToolsRequest) : Z :=
  default 0 (r ← r; c ← lr_cursor r; parse_u64 c).

(** The full listing, for a key that is not lazy. *)
Definition list_full (a : AppState) (key : ProxyKey) (meta : option (list (string * JSON)))
    (offset : Z) : result ErrorData ListToolsResult :=
  page ← map_err (fun e => internal_error (CatalogError_to_string e))
           (list_for_key key (list_query key meta offset) (as_catalog a));
  Ok (mkListToolsResult (fmt_Z <$> next_cursor page)
        ((wrapped_to_mcp_tool <$> page_tools page)
           ++ (match next_cursor page with None => meta_tools_mcp | Some _ => [] end))
        (tools_list_ttl (mcp (as_config a)))).

Definition list_tools_body (a : AppState) (r : option ListToolsRequest) (x : RequestContext)
    : result ErrorData ListToolsResult :=
  key ← resolve_proxy_key a x;
  if list_blocked_by_fail_closed (as_registry a) (failure_mode (mcp (as_config a)))
  then Err fail_closed_list_error_data
  else if bool_decide (from_config_str (discovery_mode key) = Lazy)
  then Ok (lazy_meta_tool_list (tools_list_ttl (mcp (as_config a))))
  else list_full a key (r ← r; lr_meta r) (list_offset r).

Definition handle_list_tools (a : AppState) (r : option ListToolsRequest) (x : RequestContext)
    (peers : list ToolListChangedTarget)
    : list ToolListChangedTarget * result ErrorData ListToolsResult :=
  (register_session a x peers, list_tools_body a r x).
End Listing.

(** ** [tools/call] *)

(** What the calls change: the state of the gateway, the vectors of the semantic
    index and the notification channels. *)
Record ServerState `{G : Governor} := mkServerState {
  sv_gateway : GatewayState;
  sv_vectors : Cache;
  sv_peers : list ToolListChangedTarget;
}.

(** The outside of one request: the world of its [n]-th upstream call, the clocks
    of its [n]-th cache entry, and the other searches (see [rank]). *)
Class RequestEnv `{G : Governor} := {
  q_call : nat -> CallEnv;
  q_clock : nat -> Z * Z;
  q_before : Cache -> Cache;
  q_after : Cache -> Cache;
}.

Record CallToolParams := mkCallToolParams {
  cp_name : string;
  cp_arguments : option (list (string * JSON));
  cp_input_responses : option JSON;
  cp_request_state : option string;
}.

Definition error_text (m : string) : response CallToolResult :=
  Resp_Complete (error_result [CB_Text m]).
Definition text_response (m : string) : response CallToolResult :=
  Resp_Complete (tool_call_result_to_mcp (text_ok m)).

Section Calling.
Context {G : Governor} {RE : RegexEngine} {RR : RegexReplace} {U : Upstream} {HO : HashOrder}
  {MW : McpWire} {W : World} {UT : UnicodeTables} {EM : Embeddings} {NS : NaNSign}
  {RQ : RequestEnv}.

Notation reply := (outcome (option (ServerState * list Contact
                                     * result ErrorData (response CallToolResult)))).

Definition with_gateway (s : ServerState) (g : GatewayState) : ServerState :=
  mkServerState G g (sv_vectors s) (sv_peers s).

Definition call_regular_tool (a : AppState) (key : ProxyKey) (format : ResponseFormat)
    (n : string) (args : JSON) (extras : ToolCallExtras) (s : ServerState) : reply :=
  match resolve_for_key n no_qualifiers key (as_catalog a) with
  | Ok None => Returns (Some (s, [], Err (mkErrorData METHOD_NOT_FOUND ("unknown tool: " +:+ n))))
  | Err (AmbiguousToolName _ _ as e) =>
      Returns (Some (s, [], Ok (error_text (CatalogError_to_string e))))
  | Err e => Returns (Some (s, [], Err (internal_error (CatalogError_to_string e))))
  | Ok (Some t) =>
      p ← invoke_call (CE := q_call 0) (make_executor a format) (wire t) args key extras
            (sv_gateway s);
      let '(g, contacts, r) := p in
      Returns (Some (with_gateway s g, contacts,
        Ok (match r with
            | Ok r => invoke_result_to_mcp r (is_remote_mcp a (wire t))
            | Err e => error_text (ProxyError_to_string e)
            end)))
  end.

(** [asl__status] and [asl__search]. *)
Definition discovery_result (a : AppState) (key : ProxyKey) (n : string) (args : JSON)
    (vectors : Cache) : Cache * list EmbeddingRequest * result AsterlaneError ToolCallResult :=
  match (if n =s SEARCH_TOOLS then as_semantic a else None) with
  | Some semantic =>
      handle_search_semantic (to_lowercase (CallEnv := q_call 0)) args (as_catalog a) key semantic
        q_before q_after vectors
  | None =>
      (vectors, [],
       handle_meta_tool_call (to_lowercase (CallEnv := q_call 0)) n args (as_catalog a)
         (as_config a) key)
  end.

Definition call_discovery_tool (a : AppState) (key : ProxyKey) (n : string) (args : JSON)
    (s : ServerState) : reply :=
  let '(vectors, sent, r) := discovery_result a key n args (sv_vectors s) in
  Returns (Some (mkServerState G (sv_gateway s) vectors (sv_peers s), ContactEmbeddings <$> sent,
    Ok (match r with
        | Ok r => Resp_Complete (tool_call_result_to_mcp r)
        | Err e => error_text (AsterlaneError_to_string e)
        end))).

Definition json_text_response {A} (f : A -> JSON) (r : result string (list A))
    : response CallToolResult :=
  match r with
  | Ok items => text_response (value_to_string (response_json f items))
  | Err e => error_text e
  end.

Definition call_meta_tool (a : AppState) (key : ProxyKey) (format : ResponseFormat) (n : string)
    (args : JSON) (extras : ToolCallExtras) (s : ServerState) : reply :=
  let g := sv_gateway s in
  if n =s "asl__describe" then
    Returns (p ← get_tools args (as_catalog a) key q_clock (cache_of g);
             Some (with_gateway s (with_cache g (Some p.1)), [],
                   Ok (json_text_response detail_json p.2)))
  else if n =s "asl__batch" then
    o ← call_tools a key format q_call q_clock args g;
    Returns (p ← o; let '(g, contacts, r) := p in
             Some (with_gateway s g, contacts, Ok (json_text_response call_json r)))
  else if n =s "asl__call" then
    p ← invoke_meta_call_tool (CE := q_call 0) a key format args extras g;
    let '(g, contacts, r) := p in
    Returns (Some (with_gateway s g, contacts,
      Ok (match r with Ok r => r | Err e => error_text (ProxyError_to_string e) end)))
  else if n =s "asl__fetch" then
    p ← fetch_result_meta_tool key args (budget_bytes ShapingConfig_default) (q_clock 0).1
          (q_clock 0).2 (cache_of g);
    Returns (Some (with_gateway s (with_cache g (Some p.1)), [], Ok (Resp_Complete p.2)))
  else call_discovery_tool a key n args s.

Definition call_arguments (p : CallToolParams) : JSON :=
  match cp_arguments p with Some fs => JObject fs | None => JNull end.

Definition handle_call_tool (a : AppState) (p : CallToolParams) (x : RequestContext)
    (s : ServerState) : reply :=
  let extras := mkToolCallExtras (cp_input_responses p) (cp_request_state p) in
  let s := mkServerState G (sv_gateway s) (sv_vectors s) (register_session a x (sv_peers s)) in
  match resolve_proxy_key a x with
  | Err e => Returns (Some (s, [], Err e))
  | Ok key =>
      if is_meta_tool (cp_name p)
      then call_meta_tool a key Json (cp_name p) (call_arguments p) extras s
      else call_regular_tool a key Json (cp_name p) (call_arguments p) extras s
  end.
End Calling.

(** ** The gateway's own prompt ([mcp/workflow_prompt.rs]) *)

Definition WORKFLOW_NAME : string := "asterlane_tool_workflow".
Definition WORKFLOW_DESCRIPTION : string :=
  "Find, inspect, and call tools available to the current gateway key.".
Definition WORKFLOW : string :=
  join nl
    [("Use the tools visible to your current gateway key for this task:");
     ("1. Call asl__search with {" +:+ dquote +:+ "query" +:+ dquote +:+ ": " +:+ dquote
      +:+ "<what you need>" +:+ dquote
      +:+ "}. If the result has next_cursor, pass that cursor to search the next page. "
      +:+ "Each hit has a capped description and a compact parameter signature, not the "
      +:+ "callable argument schema.");
     ("2. Choose names returned by search and call asl__describe with {" +:+ dquote +:+ "names"
      +:+ dquote +:+ ": [" +:+ dquote +:+ "<returned canonical name>" +:+ dquote
      +:+ "]} to read their descriptions and input_schema. The schema keeps the types and "
      +:+ "constraints needed to call the tool. You may request up to 10 names at once. "
      +:+ "Treat not_found as unavailable.");
     ("3. Call asl__call with {" +:+ dquote +:+ "name" +:+ dquote +:+ ": " +:+ dquote
      +:+ "<returned canonical name>" +:+ dquote +:+ ", " +:+ dquote +:+ "arguments" +:+ dquote
      +:+ ": {}} using arguments that match the schema. For up to 10 independent calls, "
      +:+ "use asl__batch with {" +:+ dquote +:+ "calls" +:+ dquote +:+ ": [{" +:+ dquote
      +:+ "name" +:+ dquote +:+ ": " +:+ dquote +:+ "<returned canonical name>" +:+ dquote
      +:+ ", " +:+ dquote +:+ "arguments" +:+ dquote
      +:+ ": {}}]}. Batch results follow input order. That order only aligns results: a "
      +:+ "later call cannot use an earlier result, and must not assume an earlier "
      +:+ "upstream side effect is visible. A failed item does not stop or roll back the "
      +:+ "others; there is no transaction. Inspect each result and retry only failed "
      +:+ "items. When the next arguments depend on a previous result, use asl__call. "
      +:+ "Handle input_required if a tool requests more input.");
     ("4. If a result includes a continuation cursor, call asl__fetch with {" +:+ dquote
      +:+ "cursor" +:+ dquote +:+ ": " +:+ dquote +:+ "<returned cursor>" +:+ dquote
      +:+ "} to retrieve the remaining content.");
     ("Only use names returned for this key; search and describe do not reveal tools "
      +:+ "outside its scope.")].

(** A prompt and a result that rmcp builds are known by their JSON. *)
Definition list_workflow_prompts : list Prompt :=
  [mkPrompt WORKFLOW_NAME (JObject [("description", JString WORKFLOW_DESCRIPTION)])].

Definition workflow_result : GetPromptResult :=
  mkGetPromptResult
    (JObject [("description", JString WORKFLOW_DESCRIPTION);
              ("messages", JArray [JObject
                 [("content", JObject [("text", JString WORKFLOW); ("type", JString "text")]);
                  ("role", JString "user")]])]).

Definition get_workflow_prompt (n : string) : option GetPromptResult :=
  if n =s WORKFLOW_NAME then Some workflow_result else None.

(** ** Accounted requests ([mcp/downstream.rs]) *)

Record AccountedCall := mkAccountedCall {
  ac_key : ProxyKey;
  ac_server_id : string;
  ac_kind : RequestKind;
  ac_name : string;
  ac_args : JSON;
}.

Record Outcome := mkOutcome {
  oc_status : RequestStatus;
  oc_latency_ms : Z;
  oc_response_preview : option string;
}.

Definition unknown_prompt : ErrorData := mkErrorData METHOD_NOT_FOUND "unknown prompt".
Definition resource_not_found : ErrorData := mkErrorData RESOURCE_NOT_FOUND "resource not found".
Definition policy_error (e : PolicyError) : ErrorData := internal_error (PolicyError_to_string e).
Definition upstream_error (e : McpError) : ErrorData := internal_error (McpError_to_string e).
Definition limit_error (e : LimitError) : ErrorData := internal_error (LimitError_to_string e).

Section Accounting.
Context {G : Governor} {RE : RegexEngine} {RR : RegexReplace} {W : World} {CE : CallEnv}.

Definition capture (a : AppState) (text : string) : outcome (option string) :=
  let obs := observability (as_config a) in
  capture_when (capture_payloads obs) (capture_text text (capture_max_bytes obs)).

Definition is_limited (s : RequestStatus) : bool := match s with RS_Limited => true | _ => false end.
Definition is_success_status (s : RequestStatus) : bool :=
  match s with RS_Success => true | _ => false end.

Definition accounted_event (c : AccountedCall) (id : string) (o : Outcome)
    (args : option string) : RequestEvent :=
  let limited := is_limited (oc_status o) in
  mkRequestEvent ce_event_now id (pk_id (ac_key c)) (ac_server_id c) (ac_kind c) (ac_name c)
    (if limited then "<limited>" else MCP_KEY_REF) (oc_status o) (oc_latency_ms o) 1 0 limited 0
    args (oc_response_preview o)
    (if is_success_status (oc_status o) then Some (oc_latency_ms o) else None).

Definition record (a : AppState) (c : AccountedCall) (id : string) (o : Outcome)
    (s : GatewayState) : outcome GatewayState :=
  args ← capture a (value_to_string (ac_args c));
  Returns (add_event (accounted_event c id o args) s).

Definition accounted_admit (c : AccountedCall) (s : GatewayState)
    : GatewayState * result LimitError bool :=
  match limits s with
  | None => (s, Ok false)
  | Some r =>
      let '(r, res) := admit_at (pk_id (ac_key c)) (ac_server_id c) ce_admit_now ce_clock ce_wait r
      in (with_limits s (Some r), res)
  end.

(** The end of the function: the quota guard, when it was not committed, and the
    permit. *)
Definition accounted_drop (c : AccountedCall) (p committed : bool) (s : GatewayState)
    : GatewayState :=
  with_limits s
    ((fun r => let r := drop_guard (pk_id (ac_key c)) committed ce_drop_now r in
               if p then drop_permit (ac_server_id c) r else r) <$> limits s).

(** The flag is whether the upstream was called; [show] is the JSON text of the
    answer. *)
Definition call_accounted {T} (a : AppState) (c : AccountedCall) (upstream : result McpError T)
    (show : T -> string) (s : GatewayState)
    : outcome (GatewayState * bool * result ErrorData T) :=
  let '(s, id) := next_request_id s in
  let '(s, adm) := accounted_admit c s in
  match adm with
  | Err e =>
      s ← record a c id (mkOutcome RS_Limited 0 None) s;
      Returns (s, false, Err (limit_error e))
  | Ok p =>
      let s := await s in
      let latency := duration_ms ce_elapsed in
      match upstream with
      | Ok v =>
          preview ← capture a (show v);
          s ← record a c id (mkOutcome RS_Success latency preview) s;
          Returns (accounted_drop c p true s, true, Ok v)
      | Err e =>
          s ← record a c id (mkOutcome (RS_UpstreamError 0) latency None) s;
          Returns (accounted_drop c p false s, true, Err (upstream_error e))
      end
  end.

(** ** Prompts and resources *)

Definition bound_key (a : AppState) (x : RequestContext) : result ErrorData ProxyKey :=
  resolve_proxy_key a x.

Definition list_prompts_for (a : AppState) (x : RequestContext)
    : result ErrorData (list Prompt) :=
  key ← bound_key a x;
  match as_registry a with
  | None => Ok list_workflow_prompts
  | Some es =>
      ps ← map_err policy_error (prompts_for_key key es);
      Ok (list_workflow_prompts ++ ps)
  end.

Definition list_resources_for (a : AppState) (x : RequestContext)
    : result ErrorData (list Resource) :=
  key ← bound_key a x;
  match as_registry a with
  | Some es => map_err policy_error (resources_for_key key es)
  | None => Ok []
  end.

Definition list_templates_for (a : AppState) (x : RequestContext)
    : result ErrorData (list ResourceTemplate) :=
  key ← bound_key a x;
  match as_registry a with
  | Some es => map_err policy_error (templates_for_key key es)
  | None => Ok []
  end.

(** serde's text of the two results, and the JSON of the arguments of a prompt. *)
Variable (prompt_text : GetPromptResult -> string) (read_text : ReadResourceResult -> string).

Definition prompt_args (args : option (list (string * JSON))) : JSON :=
  match args with Some fs => JObject fs | None => JNull end.

Definition get_prompt_for (a : AppState) (n : string) (args : option (list (string * JSON)))
    (x : RequestContext) (s : GatewayState)
    : outcome (GatewayState * bool * result ErrorData GetPromptResult) :=
  match get_workflow_prompt n with
  | Some w => Returns (s, false, Ok w)
  | None =>
      match (key ← bound_key a x;
             r ← match as_registry a with
                 | Some es => map_err policy_error (resolve_prompt key n es)
                 | None => Ok None
                 end;
             r ← ok_or unknown_prompt r;
             Ok (key, r)) : result ErrorData (ProxyKey * ResolvedPrompt) with
      | Err e => Returns (s, false, Err e)
      | Ok (key, r) =>
          call_accounted a
            (mkAccountedCall key (rp_server_id r) KindPrompt n (prompt_args args))
            (get_prompt (rp_peer r) (rp_upstream_name r) args) prompt_text s
      end
  end.

Definition read_resource_for (a : AppState) (u : string) (x : RequestContext) (s : GatewayState)
    : outcome (GatewayState * bool * result ErrorData ReadResourceResult) :=
  match (key ← bound_key a x;
         r ← match as_registry a with
             | Some es => map_err policy_error (resolve_read key u es)
             | None => Ok None
             end;
         r ← ok_or resource_not_found r;
         Ok (key, r)) : result ErrorData (ProxyKey * ResolvedRead) with
  | Err e => Returns (s, false, Err e)
  | Ok (key, r) =>
      p ← call_accounted a
            (mkAccountedCall key (rr_server_id r) KindResource (rr_scope_name r)
               (JObject [("uri", JString u)]))
            (read_resource (rr_peer r) (rr_upstream_uri r)) read_text s;
      let '(s, called, res) := p in
      Returns (s, called, res ← res; Ok (rewrite_read_uris (rr_server_id r) res))
  end.
End Accounting.

(** ** Lemmas: a cursor is read back *)

(** ** [tools/list] *)

Section ListFacts.
Context {RE : RegexEngine} {BS : BatchSchemas}.

(** The client that follows the cursor. *)
Fixpoint list_all (fuel : nat) (a : AppState) (x : RequestContext) (cur : option string)
    : result ErrorData (option (list RmcpTool)) :=
  match fuel with
  | O => Ok None
  | S fuel =>
      page ← list_tools_body a (Some (mkListToolsRequest cur None)) x;
      match lt_next_cursor page with
      | None => Ok (Some (lt_tools page))
      | Some c => rest ← list_all fuel a x (Some c); Ok (app (lt_tools page) <$> rest)
      end
  end.

Context (a : AppState) (x : RequestContext) (key : ProxyKey).
Hypothesis has_key : resolve_proxy_key a x = Ok key.
Hypothesis open : list_blocked_by_fail_closed (as_registry a) (failure_mode (mcp (as_config a)))
  = false.
Hypothesis is_full : discovery_mode key = Some "full".

Lemma list_tools_body_full r :
  list_tools_body a r x = list_full a key (r ← r; lr_meta r) (list_offset r).
Proof.
  unfold list_tools_body. rewrite has_key. cbn [mbind result_bind]. rewrite open, is_full. done.
Qed.

Lemma list_all_walk fuel cur s ts :
  list_offset (Some (mkListToolsRequest s None)) = cur -> 0 <= cur <= u64_max ->
  walk fuel key (list_query key None 0) cur (as_catalog a) = Ok (Some ts) ->
  list_all fuel a x s = Ok (Some ((wrapped_to_mcp_tool <$> ts) ++ meta_tools_mcp)).
Proof.
  revert cur s ts. induction fuel as [|fuel IH]; intros cur s ts Hs Hc H; [done|].
  cbn [walk] in H. cbn [list_all].
  rewrite list_tools_body_full, Hs. cbn [mbind option_bind lr_meta].
  change (with_cursor cur (list_query key None 0)) with (list_query key None cur) in H.
  unfold list_full. destruct (list_for_key key (list_query key None cur) (as_catalog a))
    as [page|e] eqn:Ep; [|done]. cbn [map_err mbind result_bind] in *.
  destruct (next_cursor page) as [n|] eqn:En.
  - apply bind_Ok_inv in H as (rest & Hw & H). destruct rest as [rest|]; [|done].
    injection H as <-. cbn [lt_next_cursor fmap option_fmap option_map lt_tools].
    assert (0 <= n <= u64_max) as Hn.
    { apply list_for_key_Ok in Ep as (keep & vis & _ & _ & ->). unfold paginate in En. cbn in En.
      destruct (zskip _ _); [done|]. injection En as <-. unfold saturating_add, u64_max in *. lia. }
    rewrite (IH n (Some (fmt_Z n)) rest); [|by cbn; rewrite parse_fmt|done|done].
    cbn. by rewrite app_nil_r, fmap_app, app_assoc.
  - by injection H as <-.
Qed.
End ListFacts.

(** C23: following the cursors of [tools/list] over one catalog gives a key everything
    it may see, and ends.  A key whose patterns compile gets, in full mode, every tool
    in its scope once, under its shortest unambiguous name, and the meta-tools at the
    end, after at most one page more than it has tools; in lazy mode it gets exactly
    the meta-tools, on one page.  Only under [fail_closed] with a server that cannot be
    reached it gets the error that says so, in either mode. *)
Theorem mcp_listing_complete {RE : RegexEngine} {BS : BatchSchemas} a x key visible :
  resolve_proxy_key a x = Ok key ->
  visible_for_key key (as_catalog a) = Ok visible -> Z.of_nat (length visible) <= u64_max ->
  list_all (S (length visible)) a x None =
  (if list_blocked_by_fail_closed (as_registry a) (failure_mode (mcp (as_config a)))
   then Err fail_closed_list_error_data
   else Ok (Some ((if bool_decide (discovery_mode key = Some "full")
             then (fun t => wrapped_to_mcp_tool
                     (with_exposed_name (shortest_exposed_name t (as_catalog a) visible) t))
                  <$> visible else []) ++ meta_tools_mcp))).
Proof.
  intros Hk Hv Hm. destruct (list_blocked_by_fail_closed _ _) eqn:Ho.
  { cbn [list_all]. unfold list_tools_body. rewrite Hk. cbn [mbind result_bind]. by rewrite Ho. }
  case_bool_decide as Hd.
  - assert (exists keep, query_filter (list_query key None 0) = Ok keep /\
      forall t, keep t = true) as (keep & Hq & Hkeep) by (eexists; split; [reflexivity|done]).
    assert (List.filter keep visible = visible) as Hf.
    { clear -Hkeep. induction visible as [|t l IH]; [done|]. cbn. by rewrite Hkeep, IH. }
    pose proof (walk_from key (list_query key None 0) (as_catalog a) keep visible
      (S (length visible)) 0 Hq Hv) as Hw. rewrite Hf in Hw. specialize (Hw Hm).
    rewrite (list_all_walk a x key Hk Ho Hd _ 0 None _ eq_refl ltac:(done) (Hw ltac:(lia)
      ltac:(lia) ltac:(lia))).
    unfold zskip. rewrite Z.min_l, drop_0 by lia. by rewrite <- list_fmap_compose.
  - cbn [list_all]. unfold list_tools_body. rewrite Hk. cbn [mbind result_bind]. rewrite Ho.
    rewrite bool_decide_true; [done|]. unfold from_config_str.
    destruct (discovery_mode key) as [m|]; [|done].
    destruct (String.eqb_spec m "full") as [->|]; done.
Qed.

(** ** Accounted requests *)

Section AccountedFacts.
Context {G : Governor} {RE : RegexEngine} {RR : RegexReplace} {W : World} {CE : CallEnv}.

Lemma record_event_added a c id o s s' :
  record a c id o s = Returns s' ->
  exists args, events s' = events s ++ [accounted_event c id o args] /\ limits s' = limits s.
Proof. unfold record. intros (args & _ & [= <-])%bind_Returns_inv. by exists args. Qed.

Lemma accounted_admit_Some c s R s1 res :
  limits s = Some R -> accounted_admit c s = (s1, res) ->
  exists R1, admit_at (pk_id (ac_key c)) (ac_server_id c) ce_admit_now ce_clock ce_wait R = (R1, res)
    /\ limits s1 = Some R1 /\ events s1 = events s.
Proof.
  intros HR. unfold accounted_admit. rewrite HR.
  destruct (admit_at _ _ _ _ _ R) as [R1 r]. intros [= <- <-]. by exists R1.
Qed.

(** The outcomes: rejected before the upstream, or called and given back. *)
Lemma call_accounted_ends {T} a c (upstream : result McpError T) show s s' called r R :
  limits s = Some R -> call_accounted a c upstream show s = Returns (s', called, r) ->
  exists R1 e, events s' = events s ++ [e] /\
    ev_proxy_key_id e = pk_id (ac_key c) /\ ev_resource_id e = ac_server_id c /\
    ev_tool_name e = ac_name c /\ ev_request_kind e = ac_kind c /\
    ((called = false /\ is_Ok r = false /\ ev_status e = RS_Limited /\ ev_rate_limited e = true /\
        limits s' = Some R1 /\
        exists le, admit_at (pk_id (ac_key c)) (ac_server_id c) ce_admit_now ce_clock ce_wait R
                   = (R1, Err le)) \/
     (called = true /\ ev_rate_limited e = false /\
        ev_status e = (if is_Ok r then RS_Success else RS_UpstreamError 0) /\
        exists p, admit_at (pk_id (ac_key c)) (ac_server_id c) ce_admit_now ce_clock ce_wait R
                  = (R1, Ok p) /\
          limits s' = Some (give_back (pk_id (ac_key c)) (ac_server_id c) p (is_Ok r) R1))).
Proof.
  intros HR H. unfold call_accounted in H. cbn [next_request_id] in H.
  destruct (next_request_id s) as [s0 id] eqn:Eid. injection Eid as <- <-.
  destruct (accounted_admit c _) as [s1 res] eqn:Ea.
  apply (accounted_admit_Some _ _ R) in Ea as (R1 & Hadm & Hl & He); [|done]. cbn in He.
  destruct res as [p|le].
  - destruct upstream as [v|err].
    + apply bind_Returns_inv in H as (pv & _ & H).
      apply bind_Returns_inv in H as (s2 & Hr & [= <- <- <-]).
      apply record_event_added in Hr as (args & Hev & Hl2).
      eexists R1, _. cbn. rewrite Hev, Hl2. cbn. rewrite He, Hl. split_and!; [done..|].
      right. split_and!; [done..|]. by exists p.
    + apply bind_Returns_inv in H as (s2 & Hr & [= <- <- <-]).
      apply record_event_added in Hr as (args & Hev & Hl2).
      eexists R1, _. cbn. rewrite Hev, Hl2. cbn. rewrite He, Hl. split_and!; [done..|].
      right. split_and!; [done..|]. by exists p.
  - apply bind_Returns_inv in H as (s2 & Hr & [= <- <- <-]).
    apply record_event_added in Hr as (args & Hev & Hl2).
    eexists R1, _. rewrite Hev, Hl2, He. split_and!; [done..|]. left. by split_and!; eauto.
Qed.
End AccountedFacts.

(** [prompts/get] and [resources/read] are accounted as tool calls are.
    Each records exactly one event, a success exactly when it answers; a rejection
    by the limits never reaches the upstream; the key's counts go up by one when
    the upstream answers and stay when it fails; and the concurrency slot is given
    back. *)
Theorem accounted_request {G : Governor} {RE : RegexEngine} {RR : RegexReplace} {W : World}
    {CE : CallEnv} {T} a c (upstream : result McpError T) show s s' called r R v :
  (forall R, usage (ce_others R) = usage R) ->
  (forall R, permits_of v (ce_others R) = permits_of v R) ->
  date_naive ce_drop_now = date_naive ce_admit_now ->
  limits s = Some R ->
  0 <= total_calls (pk_id (ac_key c)) R < u64_max ->
  0 <= calls_on (date_naive ce_admit_now) (pk_id (ac_key c)) R < u64_max ->
  call_accounted a c upstream show s = Returns (s', called, r) ->
  exists R' e, limits s' = Some R' /\ events s' = events s ++ [e] /\
    ev_request_kind e = ac_kind c /\ ev_tool_name e = ac_name c /\
    (ev_status e = RS_Success <-> is_Ok r = true) /\ (ev_rate_limited e = true <-> called = false) /\
    total_calls (pk_id (ac_key c)) R' =
      total_calls (pk_id (ac_key c)) R + (if is_Ok r then 1 else 0) /\
    calls_on (date_naive ce_admit_now) (pk_id (ac_key c)) R' =
      calls_on (date_naive ce_admit_now) (pk_id (ac_key c)) R + (if is_Ok r then 1 else 0) /\
    permits_of v R' = permits_of v R.
Proof.
  intros Ho Hp Hd HR Ht Hc H.
  destruct (call_accounted_ends a c upstream show s s' called r R HR H)
    as (R1 & e & Hev & _ & _ & Hn & Hk & [(-> & Hr & Hs & Hrl & Hl & le & Hadm)
                                         |(-> & Hrl & Hs & p & Hadm & Hl)]).
  - exists R1, e. rewrite Hs, Hrl, Hr. split_and!; try done.
    1, 2: pose proof (admit_usage (pk_id (ac_key c)) (ac_server_id c) ce_admit_now ce_clock ce_wait R)
      as Hu; rewrite Hadm in Hu; unfold total_calls, calls_on; rewrite Hu; lia.
    pose proof (admit_permits (pk_id (ac_key c)) (ac_server_id c) ce_admit_now ce_clock ce_wait v R)
      as Hu. by rewrite Hadm in Hu.
  - eexists _, e. split; [exact Hl|]. rewrite Hs, Hrl. split_and!; try done.
    + by destruct (is_Ok r).
    + by apply (admission_counts _ _ _ R).
    + by apply (admission_counts _ _ _ R).
    + by apply (admission_permits _ _ _ _ R).
Qed.

(** ** Who may call what *)

(** What a tool call named [n] may contact: the upstream of a tool that the key may
    reach; and, for the search tool when semantic search is configured, the endpoint
    of the embeddings, which is told the query and the names and descriptions of tools
    in the key's scope and nothing else. *)
Definition contact_serves {G : Governor} {RE : RegexEngine} {W : World} (a : AppState)
    (f : ResponseFormat) (key : ProxyKey) (n : string) (args : JSON) (x : Contact) : Prop :=
  match x with
  | ContactEmbeddings q =>
      n = SEARCH_TOOLS /\
      exists semantic, as_semantic a = Some semantic /\ q = embed_request semantic (er_input q) /\
        forall text, text ∈ er_input q ->
          text = query_of args \/
          exists t, t ∈ tools (as_catalog a) /\ in_scope key (wire t) (resource_id t) /\
            text = embed_text (wire t) (description t)
  | _ => contact_allowed a f key x
  end.

Lemma contact_allowed_serves {G : Governor} {RE : RegexEngine} {W : World} a f key n args cs :
  Forall (contact_allowed a f key) cs -> Forall (contact_serves a f key n args) cs.
Proof.
  intros Hcs. eapply Forall_impl; [exact Hcs|].
  intros [auth|q log|c js|q] H; try exact H. by destruct H as (t & _ & []).
Qed.
#[export] Hint Resolve contact_allowed_serves : gateway.

Section ServerFacts.
Context {G : Governor} {RE : RegexEngine} {RL : RegexLaws RE} {RR : RegexReplace} {U : Upstream}
  {HO : HashOrder} {MW : McpWire} {W : World} {UT : UnicodeTables} {EM : Embeddings}
  {NS : NaNSign} {RQ : RequestEnv}.

Lemma call_regular_reaches a key f n args x s s' contacts r :
  call_regular_tool a key f n args x s = Returns (Some (s', contacts, r)) ->
  Forall (contact_serves a f key n args) contacts.
Proof.
  intros H. apply contact_allowed_serves. revert H. unfold call_regular_tool.
  destruct (resolve_for_key _ _ _ _) as [[t|]|[]]; try (by intros [= <- <- <-]).
  intros ([[g cs] res] & Hi & [= <- <- <-])%bind_Returns_inv. by eapply invoke_reaches.
Qed.

(** What a search sends. *)
Lemma discovery_serves a key f n args vectors :
  Forall (contact_serves a f key n args)
    (ContactEmbeddings <$> (discovery_result a key n args vectors).1.2).
Proof.
  apply Forall_fmap, Forall_forall. intros q. unfold discovery_result.
  destruct (n =s SEARCH_TOOLS) eqn:En; [|by intros ?%elem_of_nil].
  apply String.eqb_eq in En as ->.
  destruct (as_semantic a) as [idx|] eqn:Ei; [|by intros ?%elem_of_nil].
  unfold handle_search_semantic. destruct (SearchOptions_parse args); [|by intros ?%elem_of_nil].
  destruct (is_empty (query_of args)); [by intros ?%elem_of_nil|]. intros Hq. split; [done|].
  exists idx. split; [done|].
  match type of Hq with context [semantic_results ?l ?qu ?c ?k ?i ?b ?af ?ca] =>
    apply (semantic_results_sent l qu c k i b af ca) end.
  by destruct (semantic_results _ _ _ _ _ _ _ _) as [[c1 sent] r].
Qed.

Lemma call_meta_reaches a key f n args x s s' contacts r :
  call_meta_tool a key f n args x s = Returns (Some (s', contacts, r)) ->
  Forall (contact_serves a f key n args) contacts.
Proof.
  unfold call_meta_tool, invoke_meta_call_tool, call_tools.
  repeat match goal with |- (if ?b then _ else _) = _ -> _ => destruct b end;
    [intros H; apply contact_allowed_serves; revert H..|].
  - intros [= H]. apply bind_Some in H as (p & _ & [= <- <- <-]). done.
  - intros (o & Ho & [= H])%bind_Returns_inv. apply bind_Some in H as ([[g cs] res] & -> & [= <- <- <-]).
    destruct (call_tools_calls args) as [calls|e]; [|by injection Ho as _ <- _].
    apply bind_Returns_inv in Ho as ([[s1 c1] its] & H1 & [= Ho]).
    apply bind_Some in Ho as (q & _ & [= _ <- _]). by eapply call_each_reaches.
  - intros ([[g cs] res] & Hi & [= <- <- <-])%bind_Returns_inv.
    destruct (v ← json_get "name" args; as_str v) as [tn|]; [|by injection Hi as _ <- _].
    destruct (resolve_for_key _ _ _ _) as [[t|]|[]]; try (by injection Hi as _ <- _).
    apply bind_Returns_inv in Hi as ([[g1 c1] r1] & Hi & [= _ <- _]). by eapply invoke_reaches.
  - by intros (p & _ & [= <- <- <-])%bind_Returns_inv.
  - unfold call_discovery_tool. pose proof (discovery_serves a key f n args (sv_vectors s)) as H.
    destruct (discovery_result _ _ _ _ _) as [[v sent] res]. by intros [= <- <- <-].
Qed.
End ServerFacts.


(** ** Notification channels *)

(** A channel is registered once, whatever is registered, dropped and notified. *)
Inductive peer_op :=
| OpLegacy (peer : string)
| OpListen (accepted : option bool) (id : string)
| OpNotify (alive : ToolListChangedTarget -> bool).

Definition run_peer_op (peers : list ToolListChangedTarget) (o : peer_op)
    : list ToolListChangedTarget :=
  match o with
  | OpLegacy p => register_legacy_peer p peers
  | OpListen acc id => listen_tools_list_changed acc id peers
  | OpNotify alive => notify_peers_tool_list_changed alive peers
  end.

Lemma register_fresh (same : ToolListChangedTarget -> bool) t peers :
  (forall u, u ∈ peers -> u = t -> same u = true) -> NoDup peers ->
  NoDup (if existsb same peers then peers else peers ++ [t]).
Proof.
  intros Hs Hn. destruct (existsb same peers) eqn:E; [done|].
  pose proof (proj1 (existsb_false _ _) E) as Ef. apply NoDup_app. split; [done|]. split; [|apply NoDup_singleton].
  intros u Hu ->%list_elem_of_singleton. specialize (Ef t Hu). by rewrite Hs in Ef.
Qed.

Lemma filter_NoDup {A} (p : A -> bool) l : NoDup l -> NoDup (List.filter p l).
Proof.
  induction 1 as [|y l Hy _ IH]; cbn; [constructor|]. destruct (p y); [|done].
  constructor; [|done]. by intros [Hin _]%filter_elem.
Qed.

(** Every client is notified at most once per change. *)
Theorem peers_registered_once ops peers :
  NoDup peers -> NoDup (fold_left run_peer_op ops peers).
Proof.
  revert peers. induction ops as [|o ops IH]; intros peers H; [done|]. cbn. apply IH.
  destruct o as [p|[[]|] id|alive]; cbn; try done.
  - apply register_fresh; [|done]. intros u _ ->. by rewrite String.eqb_refl.
  - apply register_fresh; [|done]. intros u _ ->. by rewrite String.eqb_refl.
  - by apply filter_NoDup.
Qed.

(** ** Witnesses *)

Definition demo_schemas : BatchSchemas :=
  {| get_tools_schema := JObject []; call_tools_schema := JObject [] |}.

(** A gateway without tokens, whose default key lists lazily, and a session of a key
    in full mode. *)
Definition demo_full_key : ProxyKey :=
  mkProxyKey "k" "" [] [] ["tavily"] [] None None None None 1 (Some "full") None.
Definition demo_mcp_app : AppState :=
  mkAppState (with_proxy_keys (config demo_gateway) [demo_full_key]) (catalog demo_gateway) None
    empty_auth None ∅ true true.
Definition demo_session : RequestContext := mkRequestContext (Some "k") None "peer".

Lemma mcp_listing_complete_witness :
  exists tools, list_all (BS := demo_schemas) 2 demo_mcp_app demo_session None = Ok (Some tools) /\
    rt_name <$> tools = "web" :: META_TOOLS.
Proof.
  rewrite (mcp_listing_complete (BS := demo_schemas) demo_mcp_app demo_session demo_full_key
    [demo_tool]); [|vm_compute; reflexivity|vm_compute; reflexivity|done].
  eexists. split; [reflexivity|]. vm_compute. reflexivity.
Defined.

Definition demo_read : AccountedCall :=
  mkAccountedCall demo_full_key "tavily" KindResource "d__p__a" JNull.

Lemma accounted_request_witness :
  exists s' R', call_accounted (G := open_governor) (RR := no_matches) (W := demo_app_world)
      (CE := demo_env) demo_mcp_app demo_read (Ok "text") id demo_state
      = Returns (s', true, Ok "text") /\
    limits s' = Some R' /\ total_calls (G := open_governor) "k" R' = 1 /\
    permits_of (G := open_governor) "tavily" R' = Some 1.
Proof.
  destruct (call_accounted (G := open_governor) (RR := no_matches) (W := demo_app_world)
      (CE := demo_env) demo_mcp_app demo_read (Ok "text") id demo_state) as [[[s' called] r]|] eqn:E;
    [|vm_compute in E; discriminate].
  assert (called = true /\ r = Ok "text") as [-> ->] by (vm_compute in E; by injection E as _ <- <-).
  destruct (accounted_request (G := open_governor) (RR := no_matches) (W := demo_app_world)
    (CE := demo_env) demo_mcp_app demo_read (Ok "text") id demo_state s' true (Ok "text")
    demo_registry "tavily") as (R' & e & H1 & _ & _ & _ & _ & _ & H2 & _ & H3);
    [done | done | reflexivity | reflexivity | vm_compute; split; congruence
     | vm_compute; split; congruence | exact E |].
  by exists s', R'.
Defined.

Definition demo_request : RequestEnv (G := open_governor) :=
  {| q_call := fun _ => demo_env; q_clock := fun _ => (0, 0); q_before := id; q_after := id |}.

(** The same gateway with semantic search. *)
Definition demo_search_app : AppState :=
  mkAppState (as_config demo_mcp_app) (as_catalog demo_mcp_app) None empty_auth (Some demo_index) ∅
    true true.

Definition demo_call (a : AppState) (n : string) (args : list (string * JSON)) :=
  handle_call_tool (G := open_governor) (RR := no_matches) (U := demo_upstream) (HO := list_order)
    (MW := demo_wire) (W := demo_app_world) (UT := ascii_tables) (EM := demo_embeddings)
    (NS := demo_nan) (RQ := demo_request) a (mkCallToolParams n (Some args) None None)
    demo_session (mkServerState open_governor demo_state ∅ []).

Definition demo_serves (a : AppState) :=
  contact_serves (G := open_governor) (W := demo_app_world) a Json demo_full_key.

