(* ===== verification/HttpTools.v ===== *)
(** * The REST interface ([http/routes.rs], [http/tools.rs])

    Authentication of a request, the sanitised configuration, the tool list, and
    the invocation of a tool or a meta-tool.  A request is its query, its
    [Authorization] and [Accept] headers and its body; the JSON text of a page is
    serde's. *)

From S2P Require Import Prelude RustStr Naming Errors Config Policy Secrets Catalog.
From S2P Require Import KeyPool Limits Egress Shaping Render Retry Observe Surface Invoke.
From S2P Require Import GatewayAuth Integrity Peers Registry SchemaView Semantic Discovery McpCall.
From S2P Require Import McpServer.
From Stdlib Require Import Ascii.

Local Open Scope string_scope.
Local Open Scope list_scope.
Local Open Scope Z_scope.
Local Open Scope gateway_scope.

(** ** Requests and responses *)

Record ToolsQuery := mkToolsQuery {
  tq_key : option string;
  tq_include : option string;
  tq_exclude : option string;
  tq_domain : option string;
  tq_provider : option string;
  tq_tool : option string;
  tq_limit : option Z;
  tq_cursor : option Z;
  tq_format : option string;
}.

(** The headers that the handlers read. *)
Record HeaderMap := mkHeaderMap {
  h_authorization : option string;
  h_accept : option string;
}.

Record HttpResponse := mkHttpResponse {
  hr_status : Z;
  hr_content_type : option string;
  hr_headers : list (string * string);
  hr_body : string;
}.

Definition json_response (body : string) : HttpResponse :=
  mkHttpResponse 200 (Some "application/json") [] body.

(** ** The sanitised configuration ([http/routes.rs]) *)

Record ResourceSummary := mkResourceSummary {
  sm_id : string;
  sm_domain : string;
  sm_provider : string;
  sm_base_url : string;
  sm_description : string;
}.
Record ProxyKeySummary := mkProxyKeySummary { sk_id : string; sk_display_name : string }.
Record ConfigSummary := mkConfigSummary {
  cs_resources : list ResourceSummary;
  cs_proxy_keys : list ProxyKeySummary;
}.

Definition config_summary (c : GatewayConfig) : ConfigSummary :=
  mkConfigSummary
    ((fun r => mkResourceSummary (ar_id r) (ar_domain r) (provider_or_id r) (base_url r)
                 (ar_description r)) <$> api_resources c)
    ((fun k => mkProxyKeySummary (pk_id k) (pk_display_name k)) <$> proxy_keys c).

Definition proxy_key_for (c : GatewayConfig) (key_id : string) : result AsterlaneError ProxyKey :=
  ok_or (internal AuthInvalidGatewayKey "invalid gateway key") (Config.proxy_key c key_id).

Section Routes.
Context {H : Sha256} {G : Governor}.

Definition authenticate_request (a : AppState) (h : HeaderMap) (query_key : option string)
    (now : Z) : result AsterlaneError string :=
  authenticate (bearer_token (h_authorization h)) query_key now (as_auth a).

(** The key of the request. *)
Definition request_key (a : AppState) (h : HeaderMap) (q : ToolsQuery) (now : Z)
    : result AsterlaneError ProxyKey :=
  id ← authenticate_request a h (tq_key q) now;
  proxy_key_for (as_config a) id.

(** [clock1] and [clock2] are the clocks of the two limiters of the key. *)
Definition get_config (a : AppState) (q : ToolsQuery) (h : HeaderMap) (now clock1 clock2 : Z)
    (R : LimitRegistry) : LimitRegistry * result AsterlaneError ConfigSummary :=
  match (id ← authenticate_request a h (tq_key q) now;
         _ ← proxy_key_for (as_config a) id; Ok id) : result AsterlaneError string with
  | Err e => (R, Err e)
  | Ok id =>
      let '(R, res) := check_key id clock1 clock2 R in
      (R, match res with
          | Ok _ => Ok (config_summary (as_config a))
          | Err e => Err (limit_to_asterlane e)
          end)
  end.
End Routes.

(** ** The tool list *)

Inductive ToolPageDto :=
| LazyToolPage (tools : list ToolDescriptor)
| FullToolPage (page : ToolPage) (meta_tools : list ToolDescriptor).

Definition rest_query (q : ToolsQuery) : ToolListQuery :=
  mkToolListQuery (tq_include q) (tq_exclude q) (tq_domain q) (tq_provider q) (tq_tool q)
    (tq_limit q) (tq_cursor q).

Section Tools.
Context {H : Sha256} {G : Governor} {RE : RegexEngine} {BS : BatchSchemas}.
(** serde's text of a page *)
Variable page_text : ToolPageDto -> string.

Definition list_tools_page (a : AppState) (key : ProxyKey) (q : ToolsQuery)
    : result AsterlaneError ToolPageDto :=
  if list_blocked_by_fail_closed (as_registry a) (failure_mode (mcp (as_config a)))
  then Err fail_closed_list_error
  else if bool_decide (from_config_str (discovery_mode key) = Lazy)
  then Ok (LazyToolPage meta_tool_descriptors)
  else
    page ← map_err CatalogErr (list_for_key key (rest_query q) (as_catalog a));
    Ok (FullToolPage page meta_tool_descriptors).

Definition rest_list_tools (a : AppState) (q : ToolsQuery) (h : HeaderMap) (now : Z)
    : result AsterlaneError HttpResponse :=
  key ← request_key a h q now;
  page ← list_tools_page a key q;
  Ok (json_response (page_text page)).
End Tools.

(** ** Invocation *)

Record MetaToolInvokeResult := mkMetaToolInvokeResult {
  mi_result : ToolCallResult;
  mi_content_defense_flag : bool;
  mi_shaped : bool;
  mi_rendered_format : option ResponseFormat;
}.

Definition plain (r : ToolCallResult) : MetaToolInvokeResult :=
  mkMetaToolInvokeResult r false false None.

Definition metadata_headers (flag shaped : bool) (f : option ResponseFormat)
    : list (string * string) :=
  (if flag then [("x-asterlane-content-defense-flag", "true")] else [])
  ++ (if shaped then [("x-asterlane-result-shaped", "true")] else [])
  ++ (match f with Some f => [("x-asterlane-format", format_as_str f)] | None => [] end).

Definition add_invoke_metadata_headers (flag shaped : bool) (f : option ResponseFormat)
    (r : HttpResponse) : HttpResponse :=
  mkHttpResponse (hr_status r) (hr_content_type r) (hr_headers r ++ metadata_headers flag shaped f)
    (hr_body r).

Definition invalid_call (m : string) : AsterlaneError := internal McpInvalidToolCall m.
Definition no_extras : ToolCallExtras := mkToolCallExtras None None.

Section Invoke.
Context {H : Sha256} {G : Governor} {RE : RegexEngine} {RR : RegexReplace} {U : Upstream}
  {HO : HashOrder} {MW : McpWire} {W : World} {UT : UnicodeTables} {EM : Embeddings}
  {NS : NaNSign} {RQ : RequestEnv}.

Definition execute_invoke (a : AppState) (wire_name : string) (args : JSON) (key : ProxyKey)
    (format : ResponseFormat) (g : GatewayState)
    : outcome (GatewayState * list Contact * result AsterlaneError InvokeResult) :=
  p ← invoke_call (CE := q_call 0) (make_executor a format) wire_name args key no_extras g;
  let '(g, contacts, r) := p in
  Returns (g, contacts, map_err proxy_to_asterlane r).

Definition json_text_result {A} (f : A -> JSON) (items : list A) : MetaToolInvokeResult :=
  plain (text_ok (value_to_string (response_json f items))).

(** The answer of the executor as a tool result. *)
Definition meta_answer (r : InvokeResult) (remote : bool) : MetaToolInvokeResult :=
  let wrap t := mkMetaToolInvokeResult t (content_defense_flag r) (shaped r) (rendered_format r) in
  match (if remote then parse_tool_call_result (Retry.body r) else None) with
  | Some t => wrap (prefix_content_defense t (content_defense_flag r))
  | None => wrap (text_ok (marked_body (content_defense_flag r) (Retry.body r)))
  end.

Definition meta_call (a : AppState) (key : ProxyKey) (format : ResponseFormat) (args : JSON)
    (g : GatewayState)
    : outcome (GatewayState * list Contact * result AsterlaneError MetaToolInvokeResult) :=
  match (v ← json_get "name" args; as_str v) with
  | None => Returns (g, [], Err (invalid_call "missing 'name' in asl__call arguments"))
  | Some tool_name =>
      match resolve_for_key tool_name (meta_qualifiers args) key (as_catalog a) with
      | Ok None => Returns (g, [], Err (proxy_to_asterlane (PE_UnknownTool tool_name)))
      | Err e => Returns (g, [], Err (CatalogErr e))
      | Ok (Some t) =>
          p ← execute_invoke a (wire t) (default (JObject []) (json_get "arguments" args)) key
                format g;
          let '(g, contacts, r) := p in
          Returns (g, contacts, r ← r; Ok (meta_answer r (is_remote_mcp a (wire t))))
      end
  end.

Definition meta_fetch (key : ProxyKey) (args : JSON) (cache : ResultCache)
    : outcome (ResultCache * result AsterlaneError MetaToolInvokeResult) :=
  match (v ← json_get "cursor" args; as_str v) with
  | None => Returns (cache, Err (invalid_call "missing 'cursor' in asl__fetch arguments"))
  | Some cursor =>
      r ← Shaping.fetch cursor (pk_id key) (fetch_offset args)
            (budget_bytes ShapingConfig_default) (q_clock 0).1 (q_clock 0).2 cache;
      Returns (r.1, Ok (plain (match r.2 with
                               | Some chunk => text_ok (chunk_text cursor chunk)
                               | None => text_error "cursor not found or expired"
                               end)))
  end.

Definition meta_discovery (a : AppState) (key : ProxyKey) (n : string) (args : JSON)
    (vectors : Cache) : Cache * list EmbeddingRequest * result AsterlaneError MetaToolInvokeResult :=
  let '(vectors, sent, r) := discovery_result a key n args vectors in
  (vectors, sent, r ← r; Ok (plain r)).

Definition handle_meta_tool_with_proxy (a : AppState) (key : ProxyKey) (format : ResponseFormat)
    (n : string) (args : JSON) (g : GatewayState) (vectors : Cache)
    : outcome (option (GatewayState * Cache * list Contact
                         * result AsterlaneError MetaToolInvokeResult)) :=
  if n =s "asl__describe" then
    Returns (p ← get_tools args (as_catalog a) key q_clock (cache_of g);
             Some (with_cache g (Some p.1), vectors, [],
                   items ← map_err invalid_call p.2; Ok (json_text_result detail_json items)))
  else if n =s "asl__batch" then
    o ← call_tools a key format q_call q_clock args g;
    Returns (p ← o; let '(g, contacts, r) := p in
             Some (g, vectors, contacts,
                   items ← map_err invalid_call r; Ok (json_text_result call_json items)))
  else if n =s "asl__call" then
    p ← meta_call a key format args g;
    let '(g, contacts, r) := p in Returns (Some (g, vectors, contacts, r))
  else if n =s "asl__fetch" then
    p ← meta_fetch key args (cache_of g);
    Returns (Some (with_cache g (Some p.1), vectors, [], p.2))
  else
    let '(vectors, sent, r) := meta_discovery a key n args vectors in
    Returns (Some (g, vectors, ContactEmbeddings <$> sent, r)).

(** [StatusCode::from_u16]. *)
Definition status_or_bad_gateway (s : Z) : Z := if in_range 100 999 s then s else 502.

Definition invoke_response (r : InvokeResult) : HttpResponse :=
  add_invoke_metadata_headers (content_defense_flag r) (shaped r) (rendered_format r)
    (mkHttpResponse (status_or_bad_gateway (ir_status r))
       (c ← content_type r; HeaderValue_from_str c) [] (Retry.body r)).

Definition request_format (a : AppState) (key : ProxyKey) (q : ToolsQuery) (h : HeaderMap)
    : result AsterlaneError ResponseFormat :=
  let accept := a ← h_accept h; format_from_accept a in
  map_err render_to_asterlane
    (resolve_format (match tq_format q with Some f => Some f | None => accept end)
       (pk_response_format key) (default_response_format (as_config a))).

(** serde's text of a meta-tool's result *)
Variable result_text : ToolCallResult -> string.

Definition meta_response (m : MetaToolInvokeResult) : HttpResponse :=
  add_invoke_metadata_headers (mi_content_defense_flag m) (mi_shaped m) (mi_rendered_format m)
    (json_response (result_text (mi_result m))).

Definition invoke_tool (a : AppState) (n : string) (q : ToolsQuery) (h : HeaderMap) (args : JSON)
    (now : Z) (g : GatewayState) (vectors : Cache)
    : outcome (option (GatewayState * Cache * list Contact
                         * result AsterlaneError HttpResponse)) :=
  match (key ← request_key a h q now; f ← request_format a key q h; Ok (key, f))
        : result AsterlaneError (ProxyKey * ResponseFormat) with
  | Err e => Returns (Some (g, vectors, [], Err e))
  | Ok (key, format) =>
      if is_meta_tool n then
        o ← handle_meta_tool_with_proxy a key format n args g vectors;
        Returns (p ← o; let '(g, vectors, contacts, r) := p in
                 Some (g, vectors, contacts, m ← r; Ok (meta_response m)))
      else
        p ← execute_invoke a n args key format g;
        let '(g, contacts, r) := p in
        Returns (Some (g, vectors, contacts, r ← r; Ok (invoke_response r)))
  end.
End Invoke.

(** ** The two interfaces agree *)

(** The answers of an invocation as the two interfaces give them. *)
Lemma answers_agree {G : Governor} {MW : McpWire} (r : InvokeResult) (remote : bool) c :
  invoke_result_to_mcp r remote = Resp_Complete c ->
  c = tool_call_result_to_mcp (mi_result (meta_answer r remote)) \/
  c = error_result [CB_Text "upstream input_required result was malformed"].
Proof.
  unfold invoke_result_to_mcp, meta_answer. case_bool_decide.
  - destruct (parse_input_required _); [done|]. intros [= <-]. by right.
  - destruct (if remote then _ else _); intros [= <-]; by left.
Qed.

(** [asl__call] does the same over REST as over MCP, for arguments without
    the fields of a retried call: the same state, the same contacts, and a result
    that is an MCP result exactly when MCP answers with one (an ambiguous name is an
    error over REST and a tool error over MCP). *)
Theorem rest_and_mcp_agree {G : Governor} {RE : RegexEngine} {RR : RegexReplace}
    {U : Upstream} {HO : HashOrder} {MW : McpWire} {W : World} {RQ : RequestEnv}
    a key f args g g' contacts r :
  json_get "input_responses" args = None -> json_get "request_state" args = None ->
  meta_call a key f args g = Returns (g', contacts, r) ->
  exists r', invoke_meta_call_tool (CE := q_call 0) a key f args no_extras g
      = Returns (g', contacts, r') /\
    (is_Ok r = true -> is_Ok r' = true) /\
    forall m c, r = Ok m -> r' = Ok (Resp_Complete c) ->
      c = tool_call_result_to_mcp (mi_result m) \/
      c = error_result [CB_Text "upstream input_required result was malformed"].
Proof.
  intros Hi Hs. unfold meta_call, invoke_meta_call_tool.
  assert (merge_meta_tool_extras args no_extras = no_extras) as ->.
  { unfold merge_meta_tool_extras. cbn. by rewrite Hi, Hs. }
  destruct (v ← json_get "name" args; as_str v) as [n|].
  2: { intros [= <- <- <-]. eexists. split; [reflexivity|]. done. }
  destruct (resolve_for_key _ _ _ _) as [[t|]|e].
  - unfold execute_invoke. intros (p & Hp & Hr)%bind_Returns_inv.
    apply bind_Returns_inv in Hp as ([[g1 c1] res] & Hinv & [= <-]). injection Hr as <- <- <-.
    rewrite Hinv. cbn. eexists. split; [reflexivity|]. destruct res as [res|e]; [|done]. cbn.
    split; [done|]. intros m c [= <-] [= Hc]. by apply answers_agree in Hc.
  - intros [= <- <- <-]. eexists. split; [reflexivity|]. done.
  - intros [= <- <- <-]. destruct e; (eexists; split; [reflexivity|]); done.
Qed.

(** ** Who may invoke what *)

Section RestFacts.
Context {H : Sha256} {G : Governor} {RE : RegexEngine} {RL : RegexLaws RE} {RR : RegexReplace}
  {U : Upstream} {HO : HashOrder} {MW : McpWire} {W : World} {UT : UnicodeTables}
  {EM : Embeddings} {NS : NaNSign} {RQ : RequestEnv}.

Lemma execute_invoke_reaches a n args key f g g' contacts r :
  execute_invoke a n args key f g = Returns (g', contacts, r) ->
  Forall (contact_allowed a f key) contacts.
Proof.
  unfold execute_invoke. intros ([[g1 c1] res] & Hinv & [= <- <- <-])%bind_Returns_inv.
  by eapply invoke_reaches.
Qed.

Lemma meta_proxy_reaches a key f n args g vec g' vec' contacts r :
  handle_meta_tool_with_proxy a key f n args g vec = Returns (Some (g', vec', contacts, r)) ->
  Forall (contact_serves a f key n args) contacts.
Proof.
  unfold handle_meta_tool_with_proxy, meta_call, call_tools.
  repeat match goal with |- (if ?b then _ else _) = _ -> _ => destruct b end;
    [intros Hx; apply contact_allowed_serves; revert Hx..|].
  - intros [= Hx]. by apply bind_Some in Hx as (p & _ & [= <- <- <- <-]).
  - intros (o & Ho & [= Hx])%bind_Returns_inv.
    apply bind_Some in Hx as ([[g1 cs] res] & -> & [= <- <- <- <-]).
    destruct (call_tools_calls args) as [calls|e]; [|by injection Ho as _ <- _].
    apply bind_Returns_inv in Ho as ([[s1 c1] its] & H1 & [= Ho]).
    apply bind_Some in Ho as (q & _ & [= _ <- _]). by eapply call_each_reaches.
  - intros ([[g1 cs] res] & Hi & [= <- <- <- <-])%bind_Returns_inv.
    destruct (v ← json_get "name" args; as_str v) as [tn|]; [|by injection Hi as _ <- _].
    destruct (resolve_for_key _ _ _ _) as [[t|]|e]; try (by injection Hi as _ <- _).
    apply bind_Returns_inv in Hi as ([[g2 c2] r2] & Hi & [= _ <- _]).
    by eapply execute_invoke_reaches.
  - by intros (p & _ & [= <- <- <- <-])%bind_Returns_inv.
  - pose proof (discovery_serves a key f n args vec) as Hs. unfold meta_discovery.
    destruct (discovery_result _ _ _ _ _) as [[v sent] res]. by intros [= <- <- <- <-].
Qed.
End RestFacts.

(** A REST invocation contacts only the own upstreams of tools that the
    authenticated key may reach and, for the search tool, the endpoint of the
    embeddings as [contact_serves] says; a request that does not authenticate, or asks for
    an unknown format, contacts nothing and changes nothing. *)
Theorem rest_invoke_reaches_scope {H : Sha256} {G : Governor} {RE : RegexEngine}
    {RL : RegexLaws RE} {RR : RegexReplace} {U : Upstream} {HO : HashOrder} {MW : McpWire}
    {W : World} {UT : UnicodeTables} {EM : Embeddings} {NS : NaNSign} {RQ : RequestEnv}
    show a n q h args now g vec g' vec' contacts r :
  invoke_tool show a n q h args now g vec = Returns (Some (g', vec', contacts, r)) ->
  match (key ← request_key a h q now; f ← request_format a key q h; Ok (key, f))
        : result AsterlaneError (ProxyKey * ResponseFormat) with
  | Ok (key, f) => Forall (contact_serves a f key n args) contacts
  | Err e => contacts = [] /\ g' = g /\ vec' = vec /\ r = Err e
  end.
Proof.
  unfold invoke_tool.
  destruct (key ← request_key a h q now; f ← request_format a key q h; Ok (key, f))
    as [[key f]|e]; [|by intros [= <- <- <- <-]].
  destruct (is_meta_tool n).
  - intros (o & Ho & [= Hx])%bind_Returns_inv.
    apply bind_Some in Hx as ([[[g1 v1] cs] res] & -> & [= <- <- <- <-]).
    by eapply meta_proxy_reaches.
  - intros ([[g1 cs] res] & Hi & [= <- <- <- <-])%bind_Returns_inv.
    eapply contact_allowed_serves, execute_invoke_reaches, Hi.
Qed.

(** ** Witnesses *)

Definition demo_rest_app : AppState :=
  mkAppState (with_proxy_keys (config demo_gateway) [demo_full_key]) (catalog demo_gateway) None
    (set_token "k" (sha256 (Sha256 := toy_sha) "t") None empty_auth) None ∅ true true.
Definition demo_get : ToolsQuery := mkToolsQuery None None None None None None None None None.
Definition demo_headers (token : string) : HeaderMap :=
  mkHeaderMap (Some ("Bearer " +:+ token)) None.

Lemma rest_and_mcp_agree_witness :
  exists g' contacts r r',
    meta_call (G := open_governor) (RR := no_matches) (U := demo_upstream)
      (HO := list_order) (MW := demo_wire) (W := demo_app_world) (RQ := demo_request)
      demo_rest_app demo_full_key Json (JObject [("name", JString "web")]) demo_state
      = Returns (g', contacts, r) /\
    invoke_meta_call_tool (G := open_governor) (RR := no_matches) (U := demo_upstream)
      (HO := list_order) (MW := demo_wire) (W := demo_app_world) (CE := demo_env)
      demo_rest_app demo_full_key Json (JObject [("name", JString "web")]) no_extras demo_state
      = Returns (g', contacts, r') /\ is_Ok r' = true.
Proof.
  destruct (meta_call (G := open_governor) (RR := no_matches) (U := demo_upstream)
      (HO := list_order) (MW := demo_wire) (W := demo_app_world) (RQ := demo_request)
      demo_rest_app demo_full_key Json (JObject [("name", JString "web")]) demo_state)
    as [[[g' contacts] r]|] eqn:E; [|vm_compute in E; discriminate].
  destruct (rest_and_mcp_agree (G := open_governor) (RR := no_matches)
      (U := demo_upstream) (HO := list_order) (MW := demo_wire) (W := demo_app_world)
      (RQ := demo_request) demo_rest_app demo_full_key Json (JObject [("name", JString "web")])
      demo_state g' contacts r eq_refl eq_refl E) as (r' & E' & Hok & _).
  exists g', contacts, r, r'. split; [done|]. split; [exact E'|]. apply Hok.
  vm_compute in E. by injection E as _ _ <-.
Defined.

Lemma rest_invoke_reaches_scope_witness :
  exists g' vec' contacts r,
    invoke_tool (H := toy_sha) (G := open_governor) (RR := no_matches) (U := demo_upstream)
      (HO := list_order) (MW := demo_wire) (W := demo_app_world) (UT := ascii_tables)
      (EM := demo_embeddings) (NS := demo_nan) (RQ := demo_request) (fun _ => "")
      demo_rest_app "web" demo_get (demo_headers "t") (JObject []) 0 demo_state ∅
      = Returns (Some (g', vec', contacts, r)) /\
    Forall (contact_serves (G := open_governor) (W := demo_app_world) demo_rest_app Json
              demo_full_key "web" (JObject [])) contacts /\ length contacts = 2%nat.
Proof.
  destruct (invoke_tool (H := toy_sha) (G := open_governor) (RR := no_matches) (U := demo_upstream)
      (HO := list_order) (MW := demo_wire) (W := demo_app_world) (UT := ascii_tables)
      (EM := demo_embeddings) (NS := demo_nan) (RQ := demo_request) (fun _ => "")
      demo_rest_app "web" demo_get (demo_headers "t") (JObject []) 0 demo_state ∅)
    as [[[[[g' vec'] contacts] r]|]|] eqn:E; [|vm_compute in E; discriminate..].
  exists g', vec', contacts, r. split; [done|].
  split; [|vm_compute in E; by injection E as _ _ <- _].
  exact (rest_invoke_reaches_scope (H := toy_sha) (G := open_governor) (RR := no_matches)
      (U := demo_upstream) (HO := list_order) (MW := demo_wire) (W := demo_app_world)
      (UT := ascii_tables) (EM := demo_embeddings) (NS := demo_nan) (RQ := demo_request)
      (fun _ => "") demo_rest_app "web" demo_get (demo_headers "t") (JObject []) 0 demo_state ∅
      g' vec' contacts r E).
Defined.

(** A wrong token reaches nothing. *)
Example wrong_token_refused :
  request_key (H := toy_sha) demo_rest_app (demo_headers "u") demo_get 0 = Err invalid_key.
Proof. vm_compute. reflexivity. Qed.
