(* ===== verification/OpenApi.v ===== *)
(** * OpenAPI discovery ([src/src/openapi/mod.rs])

    From a parsed OpenAPI document to the endpoints that become tools: which
    operations are selected, their names, and the input schema with the place of
    every parameter.  The document is the data of the [openapiv3] crate, in which
    a schema is known by its JSON form; the two parsers of the text and the
    Unicode lower and upper case are parameters. *)

From S2P Require Import Prelude RustStr Naming Errors Config Policy Catalog Render SchemaView.
From Stdlib Require Import Ascii.

Local Open Scope string_scope.
Local Open Scope list_scope.
Local Open Scope Z_scope.
Local Open Scope gateway_scope.

Definition MAX_REF_DEPTH : nat := 10.

Definition AUTH_HEADERS : list string :=
  ["authorization"; "x-api-key"; "x-auth-token"; "proxy-authorization"].

Inductive OpenApiError :=
| ParseError (m : string)
| UnsupportedVersion
| RefResolution (m : string).

Definition OpenApiError_to_string (e : OpenApiError) : string :=
  match e with
  | ParseError m => "failed to parse OpenAPI spec: " +:+ m
  | UnsupportedVersion => "unsupported spec version, expected OpenAPI 3.x"
  | RefResolution m => "$ref resolution failed: " +:+ m
  end.

(** ** The document ([openapiv3]) *)

Inductive ReferenceOr (A : Type) := Reference (reference : string) | Item (a : A).
Arguments Reference {A} reference.
Arguments Item {A} a.

Inductive ParameterSchemaOrContent := PSchema (s : ReferenceOr JSON) | PContent.

Record ParameterData := mkParameterData {
  pd_name : string;
  pd_required : bool;
  pd_format : ParameterSchemaOrContent;
}.

Inductive OpParameter :=
| PathParam (d : ParameterData)
| QueryParam (d : ParameterData)
| HeaderParam (d : ParameterData)
| CookieParam (d : ParameterData).

Record RequestBody := mkRequestBody {
  rb_required : bool;
  (** media type and its schema, in document order *)
  rb_content : list (string * option (ReferenceOr JSON));
}.

Record Operation := mkOperation {
  op_tags : list string;
  op_summary : option string;
  op_description : option string;
  op_operation_id : option string;
  op_parameters : list (ReferenceOr OpParameter);
  op_request_body : option (ReferenceOr RequestBody);
}.

Record PathItem := mkPathItem {
  pi_get : option Operation;
  pi_post : option Operation;
  pi_put : option Operation;
  pi_patch : option Operation;
  pi_delete : option Operation;
  pi_parameters : list (ReferenceOr OpParameter);
}.

Record Components := mkComponents {
  c_parameters : gmap string (ReferenceOr OpParameter);
  c_request_bodies : gmap string (ReferenceOr RequestBody);
  c_schemas : gmap string (ReferenceOr JSON);
}.

Record OpenAPI := mkOpenAPI {
  openapi : string;
  paths : list (string * ReferenceOr PathItem);
  components : option Components;
}.

Class SpecParser := {
  from_utf8 : string -> result string string;
  json_spec : string -> result string OpenAPI;
  yaml_spec : string -> result string OpenAPI;
}.

Definition parse_spec {SP : SpecParser} (spec_bytes : string) : result OpenApiError OpenAPI :=
  s ← map_err ParseError (from_utf8 spec_bytes);
  spec ← match json_spec s with
         | Ok spec => Ok spec
         | Err _ => map_err ParseError (yaml_spec s)
         end;
  if starts_with "3." (openapi spec) then Ok spec else Err UnsupportedVersion.

(** ** Selection *)

Definition eq_ignore_ascii_case (a b : string) : bool := to_ascii_lowercase a =s to_ascii_lowercase b.

Definition is_method_allowed (method : string) (c : OpenApiSourceConfig) : bool :=
  match default_method_exposure c with
  | [] => negb (method =s "delete")
  | l => existsb (fun m => eq_ignore_ascii_case m method) l
  end.

(** [str::to_uppercase] of one of the five method names. *)
Definition upper_char (a : ascii) : ascii :=
  if is_ascii_lower a then chr (code a - 32) else a.
Definition upper_method (m : string) : string := str_map upper_char m.

Definition is_operation_selected (method path : string) (op : Operation)
    (c : OpenApiSourceConfig) : bool :=
  if negb (is_method_allowed method c) then false
  else if negb (bool_decide (include_tags c = []))
          && negb (existsb (fun t => t ∈s include_tags c) (op_tags op))
  then false
  else if (upper_method method +:+ " " +:+ path) ∈s exclude_operations c then false
  else negb (is_some_and (fun id => id ∈s exclude_operations c) (op_operation_id op)).

(** ** Names of tools *)

(** [prev]: the last character written was an underscore. *)
Fixpoint collapse_from (prev : bool) (s : string) : string :=
  match s with
  | "" => ""
  | String a r =>
      if Ascii.eqb a "_" then (if prev then collapse_from true r else String a (collapse_from true r))
      else String a (collapse_from false r)
  end.

Fixpoint trim_start_char (c : ascii) (s : string) : string :=
  match s with
  | "" => ""
  | String a r => if Ascii.eqb a c then trim_start_char c r else s
  end.

Definition collapse_underscores (s : string) : string :=
  trim_end_matches "_"%char (trim_start_char "_" (collapse_from false s)).

(** A character of several bytes becomes one underscore: the first byte gives it and
    the continuation bytes give nothing; runs are collapsed afterwards anyway. *)
Definition id_char (a : ascii) : ascii :=
  if is_ascii_alphanumeric a then to_ascii_lowercase_char a else "_"%char.
Definition path_char (a : ascii) : ascii :=
  if is_ascii_alphanumeric a || Ascii.eqb a "_" then a else "_"%char.

Fixpoint map_chars (f : ascii -> ascii) (s : string) : string :=
  match s with
  | "" => ""
  | String a r =>
      if is_continuation a then map_chars f r else String (f a) (map_chars f r)
  end.

Definition normalize_operation_id (id : string) : string :=
  collapse_underscores (map_chars id_char id).

Definition fallback_segment (method path : string) : string :=
  collapse_underscores (method +:+ "_" +:+ map_chars path_char (trim_start_char "/" path)).

Definition dedup_segment (seen : gmap string nat) (segment : string) : gmap string nat * string :=
  let count := S (default 0%nat (seen !! segment)) in
  (<[segment := count]> seen,
   if (count =? 1)%nat then segment else segment +:+ "_" +:+ fmt_nat count).

(** ** References *)

Definition ref_name (reference section_ : string) : result OpenApiError string :=
  ok_or (RefResolution ("unexpected $ref: " +:+ reference))
    (strip_prefix ("#/components/" +:+ section_ +:+ "/") reference).

Definition resolve_component {A} (spec : OpenAPI) (section_ nested missing : string)
    (table : Components -> gmap string (ReferenceOr A)) (r : ReferenceOr A)
    : result OpenApiError A :=
  match r with
  | Item a => Ok a
  | Reference reference =>
      n ← ref_name reference section_;
      c ← ok_or (RefResolution ("no components for " +:+ reference)) (components spec);
      match table c !! n with
      | Some (Item a) => Ok a
      | Some (Reference inner) => Err (RefResolution (nested +:+ inner))
      | None => Err (RefResolution (missing +:+ reference))
      end
  end.

Definition resolve_parameter (spec : OpenAPI) : ReferenceOr OpParameter -> result OpenApiError OpParameter :=
  resolve_component spec "parameters" "nested parameter $ref: " "parameter not found: " c_parameters.
Definition resolve_request_body (spec : OpenAPI)
    : ReferenceOr RequestBody -> result OpenApiError RequestBody :=
  resolve_component spec "requestBodies" "nested requestBody $ref: " "request body not found: "
    c_request_bodies.

Definition SCHEMA_PREFIX : string := "#/components/schemas/".

(** The name of the schema that a value refers to. *)
Definition ref_target (v : JSON) : option string :=
  m ← as_object v; r ← obj_get "$ref" m; s ← as_str r; strip_prefix SCHEMA_PREFIX s.

Definition schema_of (spec : OpenAPI) (n : string) : option (ReferenceOr JSON) :=
  c ← components spec; c_schemas c !! n.

(** [resolve] is the resolution one level deeper. *)
Section Inline.
Variable (spec : OpenAPI) (resolve : ReferenceOr JSON -> result OpenApiError JSON).

Fixpoint inline_schema_refs (v : JSON) : result OpenApiError JSON :=
  match ref_target v with
  | Some n =>
      match schema_of spec n with
      | Some r => resolve r
      | None => Ok v
      end
  | None =>
      match v with
      | JObject fs =>
          fs ← (fix fields (fs : list (string * JSON)) : result OpenApiError (list (string * JSON)) :=
                  match fs with
                  | [] => Ok []
                  | (k, v) :: fs => v ← inline_schema_refs v; r ← fields fs; Ok ((k, v) :: r)
                  end) fs;
          Ok (JObject fs)
      | JArray l =>
          l ← (fix items (l : list JSON) : result OpenApiError (list JSON) :=
                 match l with
                 | [] => Ok []
                 | v :: l => v ← inline_schema_refs v; r ← items l; Ok (v :: r)
                 end) l;
          Ok (JArray l)
      | _ => Ok v
      end
  end.
End Inline.

(** [remaining] levels are left: the source's depth is [MAX_REF_DEPTH + 1] less
    [remaining], and the levels of the walk inside one schema never pass the
    bound. *)
Fixpoint resolve_schema_to_value (spec : OpenAPI) (remaining : nat) (r : ReferenceOr JSON)
    : result OpenApiError JSON :=
  match remaining with
  | O => Ok (JObject [("type", JString "object")])
  | S remaining =>
      match r with
      | Reference reference =>
          n ← ref_name reference "schemas";
          c ← ok_or (RefResolution ("no components for " +:+ reference)) (components spec);
          inner ← ok_or (RefResolution ("schema not found: " +:+ reference)) (c_schemas c !! n);
          resolve_schema_to_value spec remaining inner
      | Item v => inline_schema_refs spec (resolve_schema_to_value spec remaining) v
      end
  end.

Definition resolve_schema (spec : OpenAPI) (r : ReferenceOr JSON) : result OpenApiError JSON :=
  resolve_schema_to_value spec (S MAX_REF_DEPTH) r.

(** ** The input schema *)

Inductive ParamKind := KPath | KQuery | KHeader.

(** [Map::insert] of a map in key order. *)
Fixpoint map_insert (k : string) (v : JSON) (m : list (string * JSON)) : list (string * JSON) :=
  match m with
  | [] => [(k, v)]
  | (k', v') :: m' =>
      match String.compare k k' with
      | Lt => (k, v) :: m
      | Eq => (k, v) :: m'
      | Gt => (k', v') :: map_insert k v m'
      end
  end.

Record SchemaParts := mkSchemaParts {
  properties : list (string * JSON);
  sp_required : list string;
  locs : ParamLocations;
}.

Definition no_parts : SchemaParts := mkSchemaParts [] [] (mkParamLocations [] [] [] false).

Definition parts_add (field : string) (schema : JSON) (required : bool) (p : SchemaParts)
    : SchemaParts :=
  mkSchemaParts (map_insert field schema (properties p))
    (if required then sp_required p ++ [field] else sp_required p) (locs p).

Definition with_locs (l : ParamLocations) (p : SchemaParts) : SchemaParts :=
  mkSchemaParts (properties p) (sp_required p) l.

Section Schemas.
Variable to_lowercase : string -> string.

Definition add_parameter (kind : ParamKind) (name : string) (required : bool) (schema : JSON)
    (p : SchemaParts) : SchemaParts :=
  let l := locs p in
  match kind with
  | KPath =>
      with_locs (mkParamLocations (path_params l ++ [name]) (query_params l) (header_params l)
                   (has_body l)) (parts_add name schema true p)
  | KQuery =>
      with_locs (mkParamLocations (path_params l) (query_params l ++ [name]) (header_params l)
                   (has_body l)) (parts_add name schema required p)
  | KHeader =>
      if to_lowercase name ∈s AUTH_HEADERS then p
      else
        let field := "_" +:+ name in
        with_locs (mkParamLocations (path_params l) (query_params l)
                     (header_params l ++ [(field, name)]) (has_body l))
          (parts_add field schema required p)
  end.

Definition into_schema (p : SchemaParts) : JSON * ParamLocations :=
  (JObject ([("properties", JObject (properties p))]
            ++ (match sp_required p with
                | [] => []
                | l => [("required", JArray (JString <$> l))]
                end)
            ++ [("type", JString "object")]), locs p).

Definition param_kind (p : OpParameter) : option (ParameterData * ParamKind) :=
  match p with
  | PathParam d => Some (d, KPath)
  | QueryParam d => Some (d, KQuery)
  | HeaderParam d => Some (d, KHeader)
  | CookieParam _ => None
  end.

Definition param_schema (spec : OpenAPI) (d : ParameterData) : result OpenApiError JSON :=
  match pd_format d with PSchema s => resolve_schema spec s | PContent => Ok (JObject []) end.

(** The loop over the parameters of the operation, then of the path. *)
Fixpoint add_parameters (spec : OpenAPI) (l : list (ReferenceOr OpParameter)) (seen : gset string)
    (p : SchemaParts) : result OpenApiError SchemaParts :=
  match l with
  | [] => Ok p
  | r :: l =>
      param ← resolve_parameter spec r;
      match param_kind param with
      | None => add_parameters spec l seen p
      | Some (d, kind) =>
          if bool_decide (pd_name d ∈ seen) then add_parameters spec l seen p
          else
            schema ← param_schema spec d;
            add_parameters spec l ({[pd_name d]} ∪ seen)
              (add_parameter kind (pd_name d) (pd_required d) schema p)
      end
  end.

Definition body_schema_ref (b : RequestBody) : option (ReferenceOr JSON) :=
  c ← match List.find (fun kv => contains "json" kv.1) (rb_content b) with
      | Some kv => Some kv
      | None => head (rb_content b)
      end;
  c.2.

Definition add_body (spec : OpenAPI) (op : Operation) (p : SchemaParts)
    : result OpenApiError SchemaParts :=
  match op_request_body op with
  | None => Ok p
  | Some r =>
      b ← resolve_request_body spec r;
      match body_schema_ref b with
      | None => Ok p
      | Some s =>
          schema ← resolve_schema spec s;
          let p := parts_add "body" schema (rb_required b) p in
          Ok (with_locs (mkParamLocations (path_params (locs p)) (query_params (locs p))
                           (header_params (locs p)) true) p)
      end
  end.

Definition build_input_schema (op : Operation) (path_level : list (ReferenceOr OpParameter))
    (spec : OpenAPI) : result OpenApiError (JSON * ParamLocations) :=
  p ← add_parameters spec (op_parameters op ++ path_level) ∅ no_parts;
  p ← add_body spec op p;
  Ok (into_schema p).

(** ** Discovery *)

Definition operations (i : PathItem) : list (string * option Operation) :=
  [("get", pi_get i); ("post", pi_post i); ("put", pi_put i); ("patch", pi_patch i);
   ("delete", pi_delete i)].

Definition raw_segment (method path : string) (op : Operation) : string :=
  match op_operation_id op with
  | Some id => normalize_operation_id id
  | None => fallback_segment method path
  end.

Definition op_text (op : Operation) : string :=
  default "" (match op_summary op with Some s => Some s | None => op_description op end).

Fixpoint discover_operations (spec : OpenAPI) (c : OpenApiSourceConfig) (path : string)
    (path_level : list (ReferenceOr OpParameter)) (ops : list (string * option Operation))
    (seen : gmap string nat) : result OpenApiError (gmap string nat * list DiscoveredEndpoint) :=
  match ops with
  | [] => Ok (seen, [])
  | (method, None) :: ops => discover_operations spec c path path_level ops seen
  | (method, Some op) :: ops =>
      if negb (is_operation_selected method path op c)
      then discover_operations spec c path path_level ops seen
      else
        let '(seen, segment) := dedup_segment seen (raw_segment method path op) in
        s ← build_input_schema op path_level spec;
        r ← discover_operations spec c path path_level ops seen;
        Ok (r.1, mkDiscoveredEndpoint segment method path (op_text op) s.1 s.2 :: r.2)
  end.

Fixpoint discover_paths (spec : OpenAPI) (c : OpenApiSourceConfig)
    (ps : list (string * ReferenceOr PathItem)) (seen : gmap string nat)
    : result OpenApiError (list DiscoveredEndpoint) :=
  match ps with
  | [] => Ok []
  | (path, Reference _) :: ps => discover_paths spec c ps seen
  | (path, Item i) :: ps =>
      r ← discover_operations spec c path (pi_parameters i) (operations i) seen;
      rest ← discover_paths spec c ps r.1;
      Ok (r.2 ++ rest)
  end.

Definition discover_spec (spec : OpenAPI) (c : OpenApiSourceConfig)
    : result OpenApiError (list DiscoveredEndpoint) :=
  discover_paths spec c (paths spec) ∅.

Definition openapi_discover {SP : SpecParser} (spec_bytes : string) (c : OpenApiSourceConfig)
    : result OpenApiError (list DiscoveredEndpoint) :=
  spec ← parse_spec spec_bytes;
  discover_spec spec c.

(** The reader that the catalog is built with. *)
Definition openapi_source {SP : SpecParser} (read : string -> result string string)
    : OpenApiSource :=
  {| fs_read := read;
     discover_endpoints := fun s c => map_err OpenApiError_to_string (openapi_discover s c) |}.
End Schemas.

(** ** References are inlined *)

(** No part of the value refers to a schema of the document. *)
Inductive dereferenced (spec : OpenAPI) : JSON -> Prop :=
| deref_object fs :
    (forall n, ref_target (JObject fs) = Some n -> schema_of spec n = None) ->
    (ref_target (JObject fs) = None -> Forall (fun f => dereferenced spec f.2) fs) ->
    dereferenced spec (JObject fs)
| deref_array l : Forall (dereferenced spec) l -> dereferenced spec (JArray l)
| deref_scalar v : as_object v = None -> as_array v = None -> dereferenced spec v.

(** A schema of the document is an object. *)
Definition schemas_are_objects (spec : OpenAPI) : Prop :=
  forall n v, schema_of spec n = Some (Item v) -> is_Some (as_object v).

(** A field after the walk: a string was there before. *)
Definition inlined_field (f f' : string * JSON) : Prop :=
  f'.1 = f.1 /\ forall s, f'.2 = JString s -> f.2 = JString s.

Lemma inlined_obj_get fs fs' k s :
  Forall2 inlined_field fs fs' -> obj_get k fs' = Some (JString s) ->
  obj_get k fs = Some (JString s).
Proof.
  unfold obj_get. induction 1 as [|[k1 v1] [k2 v2] fs fs' [Hk Hv] _ IH]; [done|]. cbn in *.
  rewrite Hk. destruct (k1 =s k)%string; [|done]. intros [= ->]. by rewrite (Hv s).
Qed.

Lemma inlined_ref_target fs fs' :
  Forall2 inlined_field fs fs' -> ref_target (JObject fs) = None -> ref_target (JObject fs') = None.
Proof.
  intros Hf. unfold ref_target. cbn. intros Hn.
  destruct (obj_get "$ref" fs') as [v|] eqn:E; [|done]. cbn.
  destruct v; try done. cbn. apply (inlined_obj_get fs) in E; [|done]. by rewrite E in Hn.
Qed.

Section Inlining.
Context (spec : OpenAPI) (resolve : ReferenceOr JSON -> result OpenApiError JSON).
Hypothesis resolve_ok : forall n r w, schema_of spec n = Some r -> resolve r = Ok w ->
  dereferenced spec w /\ is_Some (as_object w).

Lemma inline_dereferences v v' :
  inline_schema_refs spec resolve v = Ok v' ->
  dereferenced spec v' /\ (forall s, v' = JString s -> v = JString s) /\
  (is_Some (as_object v) -> is_Some (as_object v')).
Proof.
  revert v'. induction v as [|b|t|s|l IH|fs IH] using JSON_nested_ind; intros v' H.
  1-4: cbn in H; injection H as <-; by split; [apply deref_scalar|split].
  - cbn in H. apply bind_Ok_inv in H as (l' & Hl & [= <-]). split; [|by split; intros; [|cbn in *]].
    constructor. revert l' Hl. induction IH as [|v l Hv _ IHl]; intros l' Hl.
    { by injection Hl as <-. }
    apply bind_Ok_inv in Hl as (w & Hw & Hl). apply bind_Ok_inv in Hl as (r & Hl & [= <-]).
    constructor; [by apply Hv in Hw as [Hw _]|by apply IHl].
  - cbn [inline_schema_refs] in H. destruct (ref_target (JObject fs)) as [n|] eqn:Et.
    + destruct (schema_of spec n) as [r|] eqn:Es.
      { destruct (resolve_ok _ _ _ Es H) as [Hd Ho]. split; [done|]. split; [|done].
        intros s ->. by destruct Ho. }
      injection H as <-. split; [|done]. constructor; [|by rewrite Et]. intros m Hm. congruence.
    + apply bind_Ok_inv in H as (fs' & Hf & [= <-]). split; [|split; [done|by eexists]].
      assert (Forall (fun f => dereferenced spec f.2) fs' /\ Forall2 inlined_field fs fs')
        as [Hd Hk].
      { clear Et. revert fs' Hf. induction IH as [|[k v] fs Hv _ IHf]; intros fs' Hf.
        { injection Hf as <-. by split. }
        apply bind_Ok_inv in Hf as (w & Hw & Hf). apply bind_Ok_inv in Hf as (r & Hf & [= <-]).
        destruct (IHf _ Hf) as [I1 I2]. destruct (Hv _ Hw) as (D & S & _).
        split; constructor; try done. }
      constructor; [|done]. rewrite (inlined_ref_target fs fs') by done. done.
Qed.
End Inlining.

Lemma resolve_dereferences spec rem r w :
  schemas_are_objects spec -> resolve_schema_to_value spec rem r = Ok w ->
  dereferenced spec w /\ ((exists n, schema_of spec n = Some r) -> is_Some (as_object w)).
Proof.
  intros Hobj. revert r w. induction rem as [|rem IH]; intros r w H.
  { injection H as <-. split; [|by eexists]. constructor; [done|]. intros _.
    apply Forall_singleton. by apply deref_scalar. }
  cbn [resolve_schema_to_value] in H. destruct r as [reference|v].
  - inv_ok. match goal with
    | K : components spec = Some ?c, L : c_schemas ?c !! ?n = Some ?i |- _ =>
        assert (schema_of spec n = Some i) as Hs by (unfold schema_of; by rewrite K) end.
    destruct (IH _ _ H) as [Hd Ho]. split; [done|]. intros _. apply Ho. by eexists.
  - apply inline_dereferences in H as (Hd & _ & Ho).
    + split; [done|]. intros [n Hn]. apply Ho. by eapply Hobj.
    + intros n r w' Hn Hr. destruct (IH _ _ Hr) as [D O]. split; [done|]. apply O. by eexists.
Qed.

(** ** What a reference is replaced by

    The expansion of a schema that may enter [d] more schemas, and of a part of a
    schema: a reference stands for the schema it names, expanded with one less to
    enter, and every other part for itself; where none may be entered any more, as on a
    cycle, a plain object stands for the schema. *)
Inductive inlined_schema (spec : OpenAPI) : nat -> ReferenceOr JSON -> JSON -> Prop :=
| inl_cut r : inlined_schema spec 0 r (JObject [("type", JString "object")])
| inl_named d reference n inner w :
    strip_prefix SCHEMA_PREFIX reference = Some n -> schema_of spec n = Some inner ->
    inlined_schema spec d inner w -> inlined_schema spec (S d) (Reference reference) w
| inl_item d v w : inlined_value spec d v w -> inlined_schema spec (S d) (Item v) w
with inlined_value (spec : OpenAPI) : nat -> JSON -> JSON -> Prop :=
| inl_reference d v n r w :
    ref_target v = Some n -> schema_of spec n = Some r -> inlined_schema spec d r w ->
    inlined_value spec d v w
| inl_foreign d v n :
    ref_target v = Some n -> schema_of spec n = None -> inlined_value spec d v v
| inl_object d fs fs' :
    ref_target (JObject fs) = None ->
    Forall2 (fun f g => g.1 = f.1 /\ inlined_value spec d f.2 g.2) fs fs' ->
    inlined_value spec d (JObject fs) (JObject fs')
| inl_array d l l' :
    Forall2 (inlined_value spec d) l l' -> inlined_value spec d (JArray l) (JArray l')
| inl_scalar d v : as_object v = None -> as_array v = None -> inlined_value spec d v v.

Section Expansion.
Context (spec : OpenAPI) (d : nat) (resolve : ReferenceOr JSON -> result OpenApiError JSON).
Hypothesis resolve_expands : forall r w, resolve r = Ok w -> inlined_schema spec d r w.

Lemma inline_expands v v' :
  inline_schema_refs spec resolve v = Ok v' -> inlined_value spec d v v'.
Proof.
  revert v'. induction v as [|b|t|s|l IH|fs IH] using JSON_nested_ind; intros v' H.
  1-4: cbn in H; injection H as <-; by apply inl_scalar.
  - cbn in H. apply bind_Ok_inv in H as (l' & Hl & [= <-]). constructor.
    revert l' Hl. induction IH as [|v l Hv _ IHl]; intros l' Hl.
    { by injection Hl as <-. }
    apply bind_Ok_inv in Hl as (w & Hw & Hl). apply bind_Ok_inv in Hl as (r & Hl & [= <-]).
    constructor; [by apply Hv|by apply IHl].
  - cbn [inline_schema_refs] in H. destruct (ref_target (JObject fs)) as [n|] eqn:Et.
    + destruct (schema_of spec n) as [r|] eqn:Es.
      * eapply inl_reference; [done..|]. by apply resolve_expands.
      * injection H as <-. by eapply inl_foreign.
    + apply bind_Ok_inv in H as (fs' & Hf & [= <-]). apply inl_object; [done|]. clear Et.
      revert fs' Hf. induction IH as [|[k v] fs Hv _ IHf]; intros fs' Hf.
      { by injection Hf as <-. }
      apply bind_Ok_inv in Hf as (w & Hw & Hf). apply bind_Ok_inv in Hf as (r & Hf & [= <-]).
      constructor; [by split; [|apply Hv]|by apply IHf].
Qed.
End Expansion.

Lemma resolve_expands spec rem r w :
  resolve_schema_to_value spec rem r = Ok w -> inlined_schema spec rem r w.
Proof.
  revert r w. induction rem as [|rem IH]; intros r w H; [injection H as <-; constructor|].
  cbn [resolve_schema_to_value] in H. destruct r as [reference|v].
  - apply bind_Ok_inv in H as (n & Hn%ok_or_Ok_inv & H). inv_ok.
    match goal with K : components spec = Some ?c, L : c_schemas ?c !! _ = Some ?i |- _ =>
      apply (inl_named _ _ _ n i); [exact Hn|unfold schema_of; by rewrite K|by apply IH] end.
  - constructor. by eapply inline_expands.
Qed.

(** C25: the schema of a parameter or a body is read with its references replaced by
    what they name.  At any nesting a reference to a schema of the document stands for
    that schema, expanded in the same way; every other part stays as it is, in place;
    along a chain of references the schema itself and [MAX_REF_DEPTH] schemas below it
    are entered, and the next one, as on a cycle, becomes a plain object.  Where the
    schemas of the document are objects, what is left over names no schema of the
    document. *)
Theorem schema_references_inlined spec r w :
  resolve_schema spec r = Ok w ->
  inlined_schema spec (S MAX_REF_DEPTH) r w /\
  (schemas_are_objects spec -> dereferenced spec w).
Proof.
  intros H. split; [by apply resolve_expands|].
  intros Hobj. by apply resolve_dereferences in H as [H _].
Qed.

(** ** The schema and the places of its parameters fit together *)

Lemma map_insert_keys k v m x : x ∈ (map_insert k v m).*1 <-> x = k \/ x ∈ m.*1.
Proof.
  induction m as [|[k' v'] m IH]; cbn; [set_solver|].
  destruct (String.compare k k') eqn:E; cbn; rewrite !elem_of_cons, ?IH; [|tauto..].
  apply String.compare_eq_iff in E as ->. tauto.
Qed.

(** The parameters that an operation declares: [declares k n] for one of kind [k] named
    [n]. *)
Definition declares (spec : OpenAPI) (l : list (ReferenceOr OpParameter)) (k : ParamKind)
    (n : string) : Prop :=
  exists r param d, r ∈ l /\ resolve_parameter spec r = Ok param /\
    param_kind param = Some (d, k) /\ pd_name d = n.

Section Parts.
Context (lc : string -> string) (declared : ParamKind -> string -> Prop).

(** The schema and the places fit together. *)
Record parts_fit (p : SchemaParts) : Prop := {
  required_declared : forall f, f ∈ sp_required p -> f ∈ (properties p).*1;
  path_required : forall f, f ∈ path_params (locs p) -> f ∈ sp_required p /\ declared KPath f;
  query_declared : forall f, f ∈ query_params (locs p) ->
    f ∈ (properties p).*1 /\ declared KQuery f;
  header_declared : forall f n, (f, n) ∈ header_params (locs p) ->
    f = "_" +:+ n /\ f ∈ (properties p).*1 /\ declared KHeader n /\ lc n ∉ AUTH_HEADERS;
  body_declared : has_body (locs p) = true -> "body" ∈ (properties p).*1;
}.

(** A field has its place. *)
Definition placed (l : ParamLocations) (f : string) : Prop :=
  f ∈ path_params l \/ f ∈ query_params l \/ (exists n, (f, n) ∈ header_params l) \/
  (f = "body" /\ has_body l = true).

Record parts_ok (p : SchemaParts) : Prop := {
  parts_fits : parts_fit p;
  parts_placed : forall f, f ∈ (properties p).*1 -> placed (locs p) f;
}.

Lemma no_parts_ok : parts_ok no_parts.
Proof. split; [split|]; cbn; intros; set_solver. Qed.

Lemma parts_add_fit f s b p : parts_fit p -> parts_fit (parts_add f s b p).
Proof.
  intros [R P Q H B]. split; cbn [parts_add properties sp_required locs].
  - intros x Hx. rewrite map_insert_keys. destruct b; [|by auto].
    apply elem_of_app in Hx as [Hx| ->%list_elem_of_singleton]; auto.
  - intros x [Hx Hd]%P. split; [|done]. destruct b; [apply elem_of_app|]; auto.
  - intros x [Hx Hd]%Q. rewrite map_insert_keys. auto.
  - intros x n (? & ? & ? & ?)%H. rewrite map_insert_keys. auto.
  - intros Hb. rewrite map_insert_keys. auto.
Qed.

Lemma parts_add_declares f s b p : f ∈ (properties (parts_add f s b p)).*1.
Proof. apply map_insert_keys. by left. Qed.

(** A field is added together with its place. *)
Lemma parts_add_placed l f s b p :
  (forall x, placed (locs p) x -> placed l x) -> placed l f ->
  (forall x, x ∈ (properties p).*1 -> placed (locs p) x) ->
  forall x, x ∈ (properties (with_locs l (parts_add f s b p))).*1 -> placed l x.
Proof. intros Hl Hf Hp x. cbn. rewrite map_insert_keys. intros [->|Hx]; auto. Qed.

Lemma add_parameter_ok k n b s p :
  declared k n -> parts_ok p -> parts_ok (add_parameter lc k n b s p).
Proof.
  intros Hd [Hp Hpl]. destruct k; cbn [add_parameter].
  - pose proof (parts_add_declares n s true p) as D.
    destruct (parts_add_fit n s true p Hp) as [R P Q H B]. split.
    + split; cbn in *; auto.
      intros f [Hf| ->%list_elem_of_singleton]%elem_of_app; [auto|]. set_solver.
    + apply parts_add_placed; [| |done]; unfold placed; cbn; set_solver.
  - pose proof (parts_add_declares n s b p) as D.
    destruct (parts_add_fit n s b p Hp) as [R P Q H B]. split.
    + split; cbn in *; auto.
      intros f [Hf| ->%list_elem_of_singleton]%elem_of_app; auto.
    + apply parts_add_placed; [| |done]; unfold placed; cbn; set_solver.
  - destruct (lc n ∈s AUTH_HEADERS) eqn:Ea; [done|].
    apply existsb_eqb_not_elem in Ea.
    pose proof (parts_add_declares ("_" +:+ n) s b p) as D.
    destruct (parts_add_fit ("_" +:+ n) s b p Hp) as [R P Q H B]. split.
    + split; cbn [with_locs properties sp_required locs header_params path_params query_params
                  has_body] in *; auto.
      intros f m [Hf|Hf%list_elem_of_singleton]%elem_of_app; [by apply H|].
      by injection Hf as -> ->.
    + apply parts_add_placed; [| |done]; unfold placed; cbn [header_params path_params
        query_params has_body]; set_solver.
Qed.

Lemma add_body_ok spec op p p' : parts_ok p -> add_body spec op p = Ok p' -> parts_ok p'.
Proof.
  intros [Hp Hpl] Hq. unfold add_body in Hq. destruct (op_request_body op) as [r|]; inv_ok; [|done].
  destruct (body_schema_ref _) as [s|]; inv_ok; [|done].
  match goal with |- parts_ok (with_locs _ (parts_add _ ?s ?b p)) =>
    pose proof (parts_add_declares "body" s b p) as D;
    destruct (parts_add_fit "body" s b p Hp) as [R P Q Hd B] end.
  split; [split; cbn in *; auto|].
  apply parts_add_placed; [| |done]; unfold placed; cbn; set_solver.
Qed.
End Parts.

Lemma add_parameters_ok lc spec l m seen p p' :
  (forall r, r ∈ l -> r ∈ m) -> parts_ok lc (declares spec m) p ->
  add_parameters lc spec l seen p = Ok p' -> parts_ok lc (declares spec m) p'.
Proof.
  revert seen p. induction l as [|r l IH]; intros seen p Hm Hp H; cbn in H; inv_ok; [done|].
  assert (forall r, r ∈ l -> r ∈ m) as Hl by (intros y Hy; apply Hm; by constructor).
  destruct (param_kind _) as [[d k]|] eqn:Ek; [|by eapply IH].
  case_bool_decide; [by eapply IH|]. inv_ok. eapply IH; [done| |done]. apply add_parameter_ok; [|done].
  exists r. do 2 eexists. split; [apply Hm; constructor|done].
Qed.


(** ** Names *)

Definition segment_byte (a : ascii) : bool := is_ascii_alphanumeric a || Ascii.eqb a "_".

Lemma dunder_cons a s :
  contains "__" (String a s) =
  (Ascii.eqb a "_" && starts_with "_" s) || contains "__" s.
Proof.
  cbn [contains]. f_equal. rewrite starts_with_char. unfold starts_with. cbn [strip_prefix].
  rewrite (Ascii.eqb_sym "_" a). destruct (Ascii.eqb a "_"); [|done].
  destruct s as [|b s]; [done|]. cbn [strip_prefix andb]. by destruct (Ascii.eqb "_" b).
Qed.

Lemma collapse_from_no_dunder prev s :
  contains "__" (collapse_from prev s) = false /\
  (prev = true -> starts_with "_" (collapse_from prev s) = false).
Proof.
  revert prev. induction s as [|a s IH]; intros prev; [by destruct prev|]. cbn [collapse_from].
  destruct (Ascii.eqb_spec a "_") as [->|Ha].
  - destruct prev; [apply IH|]. split; [|done]. destruct (IH true) as [I1 I2].
    by rewrite dunder_cons, I1, (I2 eq_refl), andb_false_r.
  - destruct (IH false) as [I1 _]. rewrite dunder_cons, I1.
    rewrite (proj2 (Ascii.eqb_neq a "_") Ha). split; [done|]. intros _. rewrite starts_with_char.
    apply Ascii.eqb_neq. congruence.
Qed.

Lemma trim_start_suffix c s : exists l, s = l +:+ trim_start_char c s.
Proof.
  induction s as [|a s [l IH]]; [by exists ""|]. cbn. destruct (Ascii.eqb a c); [|by exists ""].
  exists (String a l). cbn. by rewrite <- IH.
Qed.

Lemma trim_end_prefix c s : exists r, s = trim_end_matches c s +:+ r.
Proof.
  induction s as [|a s [r IH]]; [by exists ""|]. cbn.
  destruct (trim_end_matches c s) as [|b t] eqn:E.
  - destruct (Ascii.eqb a c); [by exists (String a s)|]. by exists s.
  - exists r. cbn in *. by rewrite <- IH.
Qed.

Lemma dunder_infix l t r : contains "__" (l +:+ t +:+ r) = false -> contains "__" t = false.
Proof.
  intros H. apply not_true_is_false. intros (x & y & ->)%contains_spec.
  apply not_true_iff_false in H. apply H, contains_spec.
  exists (l +:+ x), (y +:+ r). by rewrite !str_app_assoc.
Qed.

(** Neither ends with an underscore, nor has two in a row. *)
Fixpoint ends_clean (s : string) : bool :=
  match s with
  | "" => true
  | String a "" => negb (Ascii.eqb a "_")
  | String _ s => ends_clean s
  end.

Lemma trim_end_clean s : ends_clean (trim_end_matches "_"%char s) = true.
Proof.
  induction s as [|a s IH]; [done|]. cbn [trim_end_matches].
  destruct (trim_end_matches "_"%char s) as [|b t] eqn:E; [|exact IH].
  destruct (Ascii.eqb a "_") eqn:Ea; [done|]. cbn. by rewrite Ea.
Qed.

Lemma collapse_clean s :
  contains "__" (collapse_underscores s) = false /\ ends_clean (collapse_underscores s) = true.
Proof.
  unfold collapse_underscores. split; [|apply trim_end_clean].
  destruct (trim_start_suffix "_" (collapse_from false s)) as [l Hl].
  destruct (trim_end_prefix "_" (trim_start_char "_" (collapse_from false s))) as [r Hr].
  apply (dunder_infix l _ r). rewrite <- Hr, <- Hl. apply collapse_from_no_dunder.
Qed.

Lemma append_suffix_clean s d :
  contains "__" s = false -> ends_clean s = true ->
  str_forallb is_ascii_digit d = true -> contains "__" (s +:+ "_" +:+ d) = false.
Proof.
  intros Hs He Hd. assert (contains "__" d = false /\ starts_with "_" d = false) as [Hd1 Hd2].
  { induction d as [|a d IH]; [done|]. cbn [str_forallb] in Hd.
    apply andb_true_iff in Hd as [Ha Hd]. destruct (IH Hd) as [I1 I2].
    assert (Ascii.eqb a "_" = false) as Hu by by destruct (Ascii.eqb_spec a "_") as [->|].
    rewrite dunder_cons, Hu, I1. split; [done|]. rewrite starts_with_char. by rewrite Ascii.eqb_sym. }
  induction s as [|a s IH].
  { change ("" +:+ "_" +:+ d) with (String "_" d). by rewrite dunder_cons, Hd1, Hd2. }
  change (String a s +:+ "_" +:+ d) with (String a (s +:+ "_" +:+ d)).
  rewrite dunder_cons in Hs |- *. apply orb_false_iff in Hs as [Hs1 Hs2].
  destruct s as [|b s].
  - change ("" +:+ "_" +:+ d) with (String "_" d). rewrite dunder_cons, Hd1, Hd2.
    cbn in He. apply negb_true_iff in He. by rewrite He.
  - rewrite IH by done. rewrite starts_with_char in Hs1 |- *. cbn [String.append].
    by rewrite Hs1.
Qed.

Lemma dedup_segment_clean seen s :
  contains "__" s = false -> ends_clean s = true -> contains "__" (dedup_segment seen s).2 = false.
Proof.
  intros Hs He. unfold dedup_segment. cbn [snd]. case_if; [done|].
  apply append_suffix_clean; [done..|apply fmt_nat_digits].
Qed.

Lemma raw_segment_clean m p op :
  contains "__" (raw_segment m p op) = false /\ ends_clean (raw_segment m p op) = true.
Proof. unfold raw_segment. destruct (op_operation_id op); apply collapse_clean. Qed.

(** ** What is discovered *)

(** The operation that an endpoint was made of. *)
Definition endpoint_of (spec : OpenAPI) (c : OpenApiSourceConfig) (e : DiscoveredEndpoint) : Prop :=
  exists i op, (de_path e, Item i) ∈ paths spec /\ (de_method e, Some op) ∈ operations i /\
    is_operation_selected (de_method e) (de_path e) op c = true /\
    contains "__" (tool_segment e) = false.

Lemma discover_operations_ok lc spec c path i ops seen r :
  (path, Item i) ∈ paths spec -> (forall o, o ∈ ops -> o ∈ operations i) ->
  discover_operations lc spec c path (pi_parameters i) ops seen = Ok r ->
  Forall (endpoint_of spec c) r.2.
Proof.
  intros Hp. revert seen r. induction ops as [|[m o] ops IH]; intros seen r Ho H; cbn in H.
  { by injection H as <-. }
  assert (forall o, o ∈ ops -> o ∈ operations i) as Ho' by (intros; apply Ho; by constructor).
  destruct o as [op|]; [|by eapply IH].
  destruct (is_operation_selected m path op c) eqn:Es; cbn in H; [|by eapply IH].
  apply bind_Ok_inv in H as (sch & _ & H). apply bind_Ok_inv in H as (rest & Hr & [= <-]).
  constructor; [|by eapply IH]. exists i, op. split; [done|]. split; [apply Ho; by constructor|].
  split; [done|]. destruct (raw_segment_clean m path op) as [R1 R2].
  exact (dedup_segment_clean seen _ R1 R2).
Qed.

Lemma discover_paths_ok lc spec c ps seen eps :
  (forall p, p ∈ ps -> p ∈ paths spec) -> discover_paths lc spec c ps seen = Ok eps ->
  Forall (endpoint_of spec c) eps.
Proof.
  revert seen eps. induction ps as [|[path [reference|i]] ps IH]; intros seen eps Hp H;
    cbn [discover_paths] in H.
  { by injection H as <-. }
  { eapply IH; [|exact H]. intros; apply Hp; by constructor. }
  apply bind_Ok_inv in H as (r & Hr & H). apply bind_Ok_inv in H as (rest & Hrest & [= <-]).
  apply Forall_app. split.
  - refine (discover_operations_ok _ _ _ _ _ _ _ _ _ _ Hr); [apply Hp; by constructor|done].
  - eapply IH; [|exact Hrest]. intros; apply Hp; by constructor.
Qed.

(** Every endpoint that is discovered is an operation of the document
    that the configuration selects; without a configured list no DELETE is exposed;
    an operation that is excluded by its method and path or by its id is not; and no
    tool name contains the separator of wire names. *)
Theorem discovery_selects lc spec c eps :
  discover_spec lc spec c = Ok eps ->
  Forall (fun e =>
    exists i op, (de_path e, Item i) ∈ paths spec /\ (de_method e, Some op) ∈ operations i /\
      (default_method_exposure c = [] -> de_method e <> "delete") /\
      (upper_method (de_method e) +:+ " " +:+ de_path e) ∉ exclude_operations c /\
      (forall id, op_operation_id op = Some id -> id ∉ exclude_operations c) /\
      contains "__" (tool_segment e) = false) eps.
Proof.
  intros H. apply (discover_paths_ok lc spec c (paths spec) ∅ eps (fun p Hp => Hp)) in H.
  eapply Forall_impl; [exact H|].
  intros e (i & op & Hp & Hm & Hs & Hd). exists i, op. do 2 (split; [done|]).
  unfold is_operation_selected in Hs.
  destruct (is_method_allowed (de_method e) c) eqn:Em; [|done]. cbn [negb] in Hs.
  case_if_in Hs; [done|]. case_if_in Hs; [done|].
  split_and!; [| |..|done].
  - intros Hn Hdel. unfold is_method_allowed in Em. by rewrite Hn, Hdel in Em.
  - by apply existsb_eqb_not_elem.
  - intros id Hid. rewrite Hid in Hs. cbn in Hs. apply negb_true_iff in Hs.
    by apply existsb_eqb_not_elem.
Qed.

(** ** Names and parameters that collide *)

Definition op_named (id : string) : Operation := mkOperation [] None None (Some id) [] None.
Definition path_of (op : Operation) : ReferenceOr PathItem :=
  Item (mkPathItem (Some op) None None None None []).
Definition any_config : OpenApiSourceConfig := mkOpenApiSourceConfig SpecFile None None [] [] [].

(** The suffix of a repeated name is not checked against the names in use: the
    second [list] and the first [list_2] get the same name. *)
Example suffix_collides :
  match discover_spec to_ascii_lowercase
          (mkOpenAPI "3.0.0" [("/a", path_of (op_named "list")); ("/b", path_of (op_named "list"));
                              ("/c", path_of (op_named "list_2"))] None) any_config with
  | Ok l => tool_segment <$> l = ["list"; "list_2"; "list_2"]
  | Err _ => False
  end.
Proof. vm_compute. reflexivity. Qed.

Definition plain_param (n : string) : ParameterData :=
  mkParameterData n false (PSchema (Item (JObject [("type", JString "string")]))).

(** Parameters are kept apart by name alone: a query parameter of the operation hides
    the path parameter of the same name, which the URL needs. *)
Example query_hides_path :
  match build_input_schema to_ascii_lowercase
          (mkOperation [] None None None [Item (QueryParam (plain_param "id"))] None)
          [Item (PathParam (plain_param "id"))] (mkOpenAPI "3.0.0" [] None) with
  | Ok r => (path_params r.2, query_params r.2) = ([], ["id"])
  | Err _ => False
  end.
Proof. vm_compute. reflexivity. Qed.

(** ** Witnesses *)

(** A schema that refers to itself. *)
Definition demo_spec : OpenAPI :=
  mkOpenAPI "3.1.0" [("/a", path_of (op_named "Get__A!"))]
    (Some (mkComponents ∅ ∅
       {["node" := Item (JObject [("next", JObject [("$ref",
                     JString "#/components/schemas/node")])])]})).

Lemma schema_references_inlined_witness :
  exists w, resolve_schema demo_spec (Reference "#/components/schemas/node") = Ok w /\
    inlined_schema demo_spec (S MAX_REF_DEPTH) (Reference "#/components/schemas/node") w /\
    dereferenced demo_spec w.
Proof.
  destruct (resolve_schema demo_spec (Reference "#/components/schemas/node")) as [w|] eqn:E;
    [|vm_compute in E; discriminate].
  exists w. split; [done|]. destruct (schema_references_inlined demo_spec _ w E) as [H1 H2].
  split; [exact H1|]. apply H2.
  intros n v. cbn. destruct (decide (n = "node")) as [->|Hn].
  - rewrite lookup_singleton_eq. intros [= <-]. by eexists.
  - by rewrite lookup_singleton_ne.
Defined.


Lemma discovery_selects_witness :
  exists e, discover_spec to_ascii_lowercase demo_spec any_config = Ok [e] /\
    tool_segment e = "get_a" /\ contains "__" (tool_segment e) = false.
Proof.
  destruct (discover_spec to_ascii_lowercase demo_spec any_config) as [eps|] eqn:E;
    [|vm_compute in E; discriminate].
  pose proof (discovery_selects _ _ _ _ E) as Hf.
  assert (exists e, eps = [e] /\ tool_segment e = "get_a") as (e & -> & He).
  { vm_compute in E. injection E as <-. by eexists. }
  exists e. split; [done|]. split; [done|].
  apply Forall_singleton in Hf as (i & op & _ & _ & _ & _ & _ & H). exact H.
Defined.
