(* ===== verification/OAuthConfig.v ===== *)
(** * OAuth settings ([config/oauth.rs], [config/post_load.rs])

    The checks of the [oauth] section and of the OAuth credentials of MCP
    servers.  They run when the configuration is loaded and again after the
    entries of the store have been merged into it. *)

From S2P Require Import Prelude RustStr Naming Errors Config Egress.
From Stdlib Require Import Ascii.

Local Open Scope string_scope.
Local Open Scope list_scope.
Local Open Scope Z_scope.
Local Open Scope gateway_scope.

(** [chars().any(char::is_whitespace)]. *)
Fixpoint any_whitespace (s : string) : bool :=
  match s with
  | "" => false
  | String a r =>
      ws1 (code a)
      || match r with
         | String b r' =>
             ws2 (code a) (code b)
             || match r' with String c _ => ws3 (code a) (code b) (code c) | "" => false end
         | "" => false
         end
      || any_whitespace r
  end.

Definition SECRET_REF_PREFIX : string := "secret://".

Definition ensure_secret_ref (value field : string) : result string () :=
  if starts_with SECRET_REF_PREFIX value
     && (String.length SECRET_REF_PREFIX <? String.length value)%nat
  then Ok tt else Err (field +:+ " must be a secret:// reference").

Definition is_loopback_host (host : option string) : bool :=
  match host with
  | Some h => (h =s "localhost") || (h =s "127.0.0.1") || (h =s "[::1]")
  | None => false
  end.

(** https, or http on the local host. *)
Definition ensure_https_or_loopback (url : Url) (field : string) : result string () :=
  if (scheme url =s "https") || is_loopback_host (host_str url) then Ok tt
  else Err (field +:+ " must use https (http only for localhost)").

Definition OAuthConfig_default : OAuthConfig := mkOAuthConfig None None.

Section Checks.
Context {UP : UrlParser}.

Definition parse_http_url (value field : string) : result string Url :=
  url ← ok_or (field +:+ " must be a valid URL") (Url_parse value);
  if negb ((scheme url =s "http") || (scheme url =s "https"))
     || negb (bool_decide (is_Some (host_str url)))
  then Err (field +:+ " must be an http(s) URL") else Ok url.

Definition check_redirect_base (base : string) : result string () :=
  url ← parse_http_url base "oauth.redirect_base_url";
  _ ← ensure_https_or_loopback url "oauth.redirect_base_url";
  if bool_decide (is_Some (query url)) || bool_decide (is_Some (fragment url))
  then Err "oauth.redirect_base_url must not contain a query or fragment" else Ok tt.

Definition check_opt {A} (check : A -> result string ()) (o : option A) : result string () :=
  match o with Some x => check x | None => Ok tt end.

Definition OAuthConfig_validate (o : OAuthConfig) : result string () :=
  _ ← check_opt check_redirect_base (redirect_base_url o);
  check_opt (fun r => ensure_secret_ref r "oauth.token_encryption_key_ref")
    (token_encryption_key_ref o).

(** What the grant needs. *)
Definition check_grant (grant : OAuthGrant) (client_id client_secret_ref : option string)
    (section : option OAuthConfig) : result string () :=
  match grant with
  | ClientCredentials =>
      if bool_decide (client_id = None)
      then Err "auth.client_id is required for client_credentials"
      else if bool_decide (client_secret_ref = None)
      then Err "auth.client_secret_ref is required for client_credentials"
      else Ok tt
  | AuthorizationCode =>
      if bool_decide (is_Some client_secret_ref) && bool_decide (client_id = None)
      then Err "auth.client_secret_ref requires auth.client_id"
      else
        let o := default OAuthConfig_default section in
        if bool_decide (redirect_base_url o = None)
           || bool_decide (token_encryption_key_ref o = None)
        then Err ("authorization_code requires oauth.redirect_base_url and "
                    +:+ "oauth.token_encryption_key_ref")
        else Ok tt
  end.

Definition validate_mcp_oauth (auth : UpstreamAuth) (server_url : string)
    (section : option OAuthConfig) : result string () :=
  match auth with
  | AuthOAuth grant client_id client_secret_ref scopes =>
      url ← parse_http_url server_url "url";
      _ ← ensure_https_or_loopback url "url (required for oauth auth)";
      if match client_id with Some id => is_empty (trim id) | None => false end
      then Err "auth.client_id must not be empty"
      else
        _ ← check_opt (fun r => ensure_secret_ref r "auth.client_secret_ref") client_secret_ref;
        if existsb (fun s => is_empty s || any_whitespace s) scopes
        then Err "auth.scopes entries must be non-empty and contain no whitespace"
        else check_grant grant client_id client_secret_ref section
  | _ => Ok tt
  end.

Definition is_oauth (a : UpstreamAuth) : bool :=
  match a with AuthOAuth _ _ _ _ => true | _ => false end.

Definition invalid_oauth (message : string) : AsterlaneError := internal ConfigInvalidYaml message.

Fixpoint validate_servers (section : option OAuthConfig) (l : list McpServerConfig)
    : result AsterlaneError () :=
  match l with
  | [] => Ok tt
  | s :: l =>
      _ ← map_err (fun m => invalid_oauth ("mcp_servers[" +:+ ms_id s +:+ "]: " +:+ m))
            (validate_mcp_oauth (ms_auth s) (ms_url s) section);
      validate_servers section l
  end.

Definition validate_oauth (c : GatewayConfig) : result AsterlaneError () :=
  match List.find (fun r => is_oauth (ar_auth r)) (api_resources c) with
  | Some r =>
      Err (invalid_oauth ("api_resources[" +:+ ar_id r
             +:+ "]: auth type oauth is only supported for mcp_servers"))
  | None =>
      _ ← match oauth c with
          | Some o => map_err invalid_oauth (OAuthConfig_validate o)
          | None => Ok tt
          end;
      validate_servers (oauth c) (mcp_servers c)
  end.

(** ** Properties *)

(** A server passes the check. *)
Definition server_oauth_ok (section : option OAuthConfig) (s : McpServerConfig) : bool :=
  is_Ok (validate_mcp_oauth (ms_auth s) (ms_url s) section).

Lemma validate_servers_Ok section l :
  validate_servers section l = Ok tt <-> Forall (fun s => server_oauth_ok section s = true) l.
Proof.
  unfold server_oauth_ok. induction l as [|s l IH]; cbn [validate_servers].
  { split; [constructor|done]. }
  rewrite Forall_cons, <- IH. destruct (validate_mcp_oauth _ _ _) as [[]|e]; cbn; naive_solver.
Qed.

Lemma validate_oauth_Ok c :
  validate_oauth c = Ok tt <->
  Forall (fun r => is_oauth (ar_auth r) = false) (api_resources c) /\
  (forall o, oauth c = Some o -> OAuthConfig_validate o = Ok tt) /\
  Forall (fun s => server_oauth_ok (oauth c) s = true) (mcp_servers c).
Proof.
  unfold validate_oauth. rewrite <- validate_servers_Ok.
  destruct (List.find _ _) as [r|] eqn:E.
  - apply find_Some_elem in E as [Hr Ho]. split; [done|].
    intros [H _]. rewrite Forall_forall in H. by rewrite (H r Hr) in Ho.
  - pose proof (proj1 (find_None_all _ _) E) as Hn.
    assert (Forall (fun r => is_oauth (ar_auth r) = false) (api_resources c)) as Hf.
    { apply Forall_forall. intros r Hr. by apply Hn. }
    destruct (oauth c) as [o|].
    + destruct (OAuthConfig_validate o) as [[]|m] eqn:Eo; cbn.
      * split; [|naive_solver]. intros H. split; [done|]. split; [|done].
        by intros o' [= <-].
      * split; [done|]. intros (_ & H & _). rewrite (H o eq_refl) in Eo. done.
    + cbn. naive_solver.
Qed.

(** Credentials of a server that passes never go over a clear-text connection, and
    the secret is a reference. *)
Theorem oauth_server_protected auth url section :
  validate_mcp_oauth auth url section = Ok tt -> is_oauth auth = true ->
  exists u, Url_parse url = Some u /\ (scheme u = "https" \/ is_loopback_host (host_str u) = true) /\
    match auth with
    | AuthOAuth _ _ (Some r) _ => exists rest, r = "secret://" +:+ rest /\ rest <> ""
    | _ => True
    end.
Proof.
  destruct auth as [| | |g ci cs sc]; try done. cbn [validate_mcp_oauth].
  intros (u & Hu & (w & Hs & H)%bind_Ok_inv)%bind_Ok_inv _.
  unfold parse_http_url in Hu. apply bind_Ok_inv in Hu as (u' & Hp & Hu).
  apply ok_or_Ok_inv in Hp. case_if_in Hu; [done|]. injection Hu as ->.
  exists u. split; [done|]. split.
  { unfold ensure_https_or_loopback in Hs.
    destruct (scheme u =s "https") eqn:Ehttps; [left; by apply String.eqb_eq|]. cbn in Hs.
    destruct (is_loopback_host _); [by right|done]. }
  case_if_in H; [done|]. destruct cs as [r|]; [|done]. cbn [check_opt] in H.
  apply bind_Ok_inv in H as (z & Hr & _). unfold ensure_secret_ref in Hr.
  case_if_in Hr; [|done].
  match goal with K : (_ && _) = true |- _ => apply andb_true_iff in K as [K1 K2] end.
  apply starts_with_spec in K1 as [rest ->]. exists rest. split; [done|]. intros ->.
  cbn in K2. done.
Qed.
End Checks.
