(* ===== verification/ConfigJson.v ===== *)
(** * JSON form of the configuration ([config/upstream.rs], [auth.rs], [proxy_key.rs])

    The store keeps the parts of a configuration entry that are not columns as
    JSON text.  serde derives both directions from the type declarations; here
    they are written out from the declarations and their attributes.  A codec is
    an instance of [Serde], which carries the proof that reading back what was
    written gives the value. *)

From S2P Require Import Prelude RustStr Naming Errors Config Render Integrity.
From Stdlib Require Import Ascii.

Local Open Scope string_scope.
Local Open Scope list_scope.
Local Open Scope Z_scope.
Local Open Scope gateway_scope.

(** ** Reading and writing a value *)

(** How deep arrays and objects are nested: the parser refuses 128 levels. *)
Fixpoint nesting (v : JSON) : nat :=
  match v with
  | JArray l => S (fold_right (fun v n => Nat.max (nesting v) n) 0%nat l)
  | JObject fs => S (fold_right (fun f n => Nat.max (nesting f.2) n) 0%nat fs)
  | _ => 0%nat
  end.

(** A type with its derived [Serialize] and [Deserialize]. *)
Class Serde (A : Type) := {
  to_value : A -> JSON;
  from_value : JSON -> option A;
  (** the values that survive: numbers in the range of their type, ... *)
  in_range_of : A -> Prop;
  depth_of : nat;
  from_to_value x : in_range_of x -> from_value (to_value x) = Some x;
  nesting_to_value x : (nesting (to_value x) <= depth_of)%nat;
}.
Arguments depth_of A {_}.
Arguments to_value : simpl never.
Arguments from_value : simpl never.

(** The fields of a struct by name.  serde reads a struct from an object, in which
    a known field stands at most once, or from an array in declaration order. *)
Definition struct_fields (names : list string) (v : JSON) : option (string -> option JSON) :=
  match v with
  | JObject fs =>
      if forallb (fun n => (length (List.filter (fun f => f.1 =s n) fs) <=? 1)%nat) names
      then Some (fun n => obj_get n fs) else None
  | JArray l =>
      if (length l <=? length names)%nat
      then Some (fun n => i ← position (fun m => m =s n) names; l !! i) else None
  | _ => None
  end.

(** A field without and with [#[serde(default)]]. *)
Definition required {A} `{Serde A} (get : string -> option JSON) (n : string) : option A :=
  v ← get n; from_value v.
Definition defaulted {A} `{Serde A} (d : A) (get : string -> option JSON) (n : string) : option A :=
  match get n with Some v => from_value v | None => Some d end.

(** A variant without data: its name, or an object of the name and [null]. *)
Definition unit_variant (v : JSON) : option string :=
  match v with
  | JString s => Some s
  | JObject [(s, JNull)] => Some s
  | _ => None
  end.

Lemma nesting_object fs n :
  Forall (fun f => nesting f.2 <= n)%nat fs -> (nesting (JObject fs) <= S n)%nat.
Proof. intros H. cbn. apply le_n_S. induction H; cbn; lia. Qed.

Lemma nesting_array l n :
  Forall (fun v => nesting v <= n)%nat l -> (nesting (JArray l) <= S n)%nat.
Proof. intros H. cbn. apply le_n_S. induction H; cbn; lia. Qed.

(** ** Types of the language *)

#[export] Program Instance string_serde : Serde string := {|
  to_value := JString;
  from_value := as_str;
  in_range_of _ := True;
  depth_of := 0;
|}.
Next Obligation. done. Qed.
Next Obligation. done. Qed.

#[export] Program Instance bool_serde : Serde bool := {|
  to_value := JBool;
  from_value := as_bool;
  in_range_of _ := True;
  depth_of := 0;
|}.
Next Obligation. done. Qed.
Next Obligation. done. Qed.

Definition option_value {A} `{Serde A} (o : option A) : JSON :=
  match o with Some x => to_value x | None => JNull end.
Definition option_from {A} `{Serde A} (v : JSON) : option (option A) :=
  match v with JNull => Some None | _ => Some <$> from_value v end.

(** A value that is itself written as [null] comes back as [None]. *)
#[export] Program Instance option_serde {A} `{Serde A} : Serde (option A) := {|
  to_value := option_value;
  from_value := option_from;
  in_range_of o := forall x, o = Some x -> in_range_of x /\ to_value x <> JNull;
  depth_of := depth_of A;
|}.
Next Obligation.
  intros A H [x|] Hx; [|done]. destruct (Hx x eq_refl) as [Hr Hn]. cbn. unfold option_from.
  rewrite from_to_value by done. by destruct (to_value x).
Qed.
Next Obligation. intros A H [x|]; cbn; [apply nesting_to_value|lia]. Qed.

Definition list_from {A} `{Serde A} (v : JSON) : option (list A) :=
  l ← match v with JArray l => Some l | _ => None end; mapM from_value l.

#[export] Program Instance list_serde {A} `{Serde A} : Serde (list A) := {|
  to_value l := JArray (to_value <$> l);
  from_value := list_from;
  in_range_of l := Forall in_range_of l;
  depth_of := S (depth_of A);
|}.
Next Obligation.
  intros A H l Hl. cbn. induction Hl as [|x l Hx _ IH]; [done|].
  cbn. by rewrite from_to_value, IH by done.
Qed.
Next Obligation.
  intros A H l. apply nesting_array, Forall_fmap, Forall_true. intros x. apply nesting_to_value.
Qed.

(** Integers: [u32] and the 64-bit types. *)
Definition uint_value (n : Z) : JSON := JNumber (fmt_Z n).
Definition uint_from (max : Z) (v : JSON) : option Z :=
  n ← as_u64 v; if n <=? max then Some n else None.

Lemma uint_from_value max n : 0 <= n <= max -> max <= u64_max -> uint_from max (uint_value n) = Some n.
Proof.
  intros Hn Hm. unfold uint_from, uint_value, as_u64.
  rewrite fmt_digits, parse_fmt by lia. cbn. by rewrite (proj2 (Z.leb_le _ _)) by lia.
Qed.

Program Definition uint_serde (max : Z) (Hmax : max <= u64_max) : Serde Z := {|
  to_value := uint_value;
  from_value := uint_from max;
  in_range_of n := 0 <= n <= max;
  depth_of := 0;
|}.
Next Obligation. intros max Hmax n Hn. by apply uint_from_value. Qed.
Next Obligation. intros. cbn. lia. Qed.

Definition u32_serde : Serde Z := uint_serde u32_max ltac:(done).
Definition u64_serde : Serde Z := uint_serde u64_max ltac:(done).
Definition opt_u32 : Serde (option Z) := @option_serde Z u32_serde.
Definition opt_u64 : Serde (option Z) := @option_serde Z u64_serde.

Definition opt_within (max : Z) (o : option Z) : Prop := forall n, o = Some n -> 0 <= n <= max.

Lemma opt_u32_ok o : opt_within u32_max o -> @in_range_of _ opt_u32 o.
Proof. intros H n Hn. split; [by apply H|done]. Qed.
Lemma opt_u64_ok o : opt_within u64_max o -> @in_range_of _ opt_u64 o.
Proof. intros H n Hn. split; [by apply H|done]. Qed.
Lemma opt_string_ok (o : option string) : in_range_of o.
Proof. by intros x Hx. Qed.
Lemma strings_ok (l : list string) : in_range_of l.
Proof. by apply Forall_true. Qed.

(** ** Limits *)

Definition KeyLimits_value (l : KeyLimits) : JSON :=
  JObject [("max_calls", @to_value _ opt_u64 (kl_max_calls l));
           ("max_calls_per_day", @to_value _ opt_u64 (kl_max_calls_per_day l));
           ("rpm", @to_value _ opt_u32 (kl_rpm l)); ("rps", @to_value _ opt_u32 (kl_rps l))].

Definition KeyLimits_from (v : JSON) : option KeyLimits :=
  get ← struct_fields ["rps"; "rpm"; "max_calls"; "max_calls_per_day"] v;
  rps ← @defaulted _ opt_u32 None get "rps";
  rpm ← @defaulted _ opt_u32 None get "rpm";
  max_calls ← @defaulted _ opt_u64 None get "max_calls";
  per_day ← @defaulted _ opt_u64 None get "max_calls_per_day";
  Some (mkKeyLimits rps rpm max_calls per_day).

Definition default_queue_timeout_secs : Z := 10.

Definition UpstreamLimits_value (l : UpstreamLimits) : JSON :=
  JObject [("max_concurrent", @to_value _ opt_u32 (ul_max_concurrent l));
           ("queue_timeout_secs", @to_value _ u64_serde (ul_queue_timeout_secs l));
           ("rpm", @to_value _ opt_u32 (ul_rpm l)); ("rps", @to_value _ opt_u32 (ul_rps l))].

Definition UpstreamLimits_from (v : JSON) : option UpstreamLimits :=
  get ← struct_fields ["rps"; "rpm"; "max_concurrent"; "queue_timeout_secs"] v;
  rps ← @defaulted _ opt_u32 None get "rps";
  rpm ← @defaulted _ opt_u32 None get "rpm";
  max_concurrent ← @defaulted _ opt_u32 None get "max_concurrent";
  timeout ← @defaulted _ u64_serde default_queue_timeout_secs get "queue_timeout_secs";
  Some (mkUpstreamLimits rps rpm max_concurrent timeout).

(** The fields of an object that was written by the matching [_value] are found one
    after the other, and each comes back. *)
Ltac read_fields :=
  cbn [struct_fields forallb length List.filter andb Nat.leb fst String.eqb Ascii.eqb Bool.eqb];
  repeat (cbn [mbind option_bind defaulted required obj_get List.find fst snd fmap option_fmap
               option_map String.eqb Ascii.eqb Bool.eqb];
          unfold defaulted, required; rewrite ?from_to_value by auto).

Ltac fields_nesting :=
  repeat (apply Forall_cons; split;
          [first [by apply Nat.le_0_l|etransitivity; [apply nesting_to_value|cbn; lia]]|]);
  constructor.

#[export] Program Instance KeyLimits_serde : Serde KeyLimits := {|
  to_value := KeyLimits_value;
  from_value := KeyLimits_from;
  in_range_of l := opt_within u32_max (kl_rps l) /\ opt_within u32_max (kl_rpm l) /\
    opt_within u64_max (kl_max_calls l) /\ opt_within u64_max (kl_max_calls_per_day l);
  depth_of := 1;
|}.
Next Obligation.
  intros [a b c d] (Ha & Hb & Hc & Hd). cbn in *.
  apply opt_u32_ok in Ha, Hb. apply opt_u64_ok in Hc, Hd.
  unfold KeyLimits_from, KeyLimits_value. by read_fields.
Qed.
Next Obligation. intros l. apply (nesting_object _ 0). fields_nesting. Qed.

#[export] Program Instance UpstreamLimits_serde : Serde UpstreamLimits := {|
  to_value := UpstreamLimits_value;
  from_value := UpstreamLimits_from;
  in_range_of l := opt_within u32_max (ul_rps l) /\ opt_within u32_max (ul_rpm l) /\
    opt_within u32_max (ul_max_concurrent l) /\ 0 <= ul_queue_timeout_secs l <= u64_max;
  depth_of := 1;
|}.
Next Obligation.
  intros [a b c d] (Ha & Hb & Hc & Hd). cbn in *. apply opt_u32_ok in Ha, Hb, Hc.
  assert (@in_range_of _ u64_serde d) by done.
  unfold UpstreamLimits_from, UpstreamLimits_value. by read_fields.
Qed.
Next Obligation. intros l. apply (nesting_object _ 0). fields_nesting. Qed.

(** ** Key pools *)

Definition strategy_name (s : LoadBalanceStrategy) : string :=
  match s with
  | RoundRobin => "round_robin" | Random => "random" | LeastRequests => "least_requests"
  | FastestResponse => "fastest_response" | Weighted => "weighted"
  end.

Definition strategy_of_name (n : string) : option LoadBalanceStrategy :=
  List.find (fun s => strategy_name s =s n)
    [RoundRobin; Random; LeastRequests; FastestResponse; Weighted].

#[export] Program Instance strategy_serde : Serde LoadBalanceStrategy := {|
  to_value s := JString (strategy_name s);
  from_value v := unit_variant v ≫= strategy_of_name;
  in_range_of _ := True;
  depth_of := 0;
|}.
Next Obligation. by intros []. Qed.
Next Obligation. done. Qed.

Definition default_key_weight : Z := 1.

Definition PoolKeyConfig_value (k : PoolKeyConfig) : JSON :=
  JObject [("ref", to_value (secret_ref k)); ("weight", @to_value _ u32_serde (weight k))].

Definition PoolKeyConfig_from (v : JSON) : option PoolKeyConfig :=
  get ← struct_fields ["ref"; "weight"] v;
  r ← required get "ref";
  w ← @defaulted _ u32_serde default_key_weight get "weight";
  Some (mkPoolKeyConfig r w).

#[export] Program Instance PoolKeyConfig_serde : Serde PoolKeyConfig := {|
  to_value := PoolKeyConfig_value;
  from_value := PoolKeyConfig_from;
  in_range_of k := 0 <= weight k <= u32_max;
  depth_of := 1;
|}.
Next Obligation.
  intros [r w] Hw. assert (@in_range_of _ u32_serde w) by done.
  assert (in_range_of r) by done. unfold PoolKeyConfig_from, PoolKeyConfig_value. by read_fields.
Qed.
Next Obligation. intros k. apply (nesting_object _ 0). fields_nesting. Qed.

Definition KeyPoolConfig_value (p : KeyPoolConfig) : JSON :=
  JObject [("keys", to_value (keys p)); ("strategy", to_value (strategy p))].

Definition KeyPoolConfig_from (v : JSON) : option KeyPoolConfig :=
  get ← struct_fields ["strategy"; "keys"] v;
  s ← defaulted RoundRobin get "strategy";
  ks ← required get "keys";
  Some (mkKeyPoolConfig s ks).

#[export] Program Instance KeyPoolConfig_serde : Serde KeyPoolConfig := {|
  to_value := KeyPoolConfig_value;
  from_value := KeyPoolConfig_from;
  in_range_of p := Forall in_range_of (keys p);
  depth_of := 3;
|}.
Next Obligation.
  intros [s ks] Hks. assert (in_range_of ks) by done. assert (in_range_of s) by done.
  unfold KeyPoolConfig_from, KeyPoolConfig_value. by read_fields.
Qed.
Next Obligation. intros p. apply (nesting_object _ 2). fields_nesting. Qed.

(** ** Security and health check *)

Definition policy_of_name (n : string) : option IntegrityPolicy :=
  List.find (fun p => policy_to_string p =s n) [Warn; Quarantine; Block].

#[export] Program Instance IntegrityPolicy_serde : Serde IntegrityPolicy := {|
  to_value p := JString (policy_to_string p);
  from_value v := unit_variant v ≫= policy_of_name;
  in_range_of _ := True;
  depth_of := 0;
|}.
Next Obligation. by intros []. Qed.
Next Obligation. done. Qed.

(** A struct with the one field [enabled]; [d] is its default. *)
Definition enabled_value (b : bool) : JSON := JObject [("enabled", to_value b)].
Definition enabled_from (d : bool) (v : JSON) : option bool :=
  get ← struct_fields ["enabled"] v; defaulted d get "enabled".

Program Definition enabled_serde (d : bool) : Serde bool := {|
  to_value := enabled_value;
  from_value := enabled_from d;
  in_range_of _ := True;
  depth_of := 1;
|}.
Next Obligation.
  intros d b _. assert (in_range_of b) by done. unfold enabled_from, enabled_value. by read_fields.
Qed.
Next Obligation. intros d b. apply (nesting_object _ 0). fields_nesting. Qed.

Definition DefenseConfig_serde : Serde bool := enabled_serde false.
Definition HealthCheckConfig_serde : Serde bool := enabled_serde true.
Definition default_health_check_enabled : bool := true.

Definition usize_option (o : option nat) : option Z := Z.of_nat <$> o.

Definition SecurityConfig_value (s : SecurityConfig) : JSON :=
  JObject [("defense", @to_value _ DefenseConfig_serde (defense_enabled s));
           ("integrity_policy", to_value (integrity_policy s));
           ("result_budget_bytes", @to_value _ opt_u64 (usize_option (result_budget_bytes s)))].

Definition SecurityConfig_from (v : JSON) : option SecurityConfig :=
  get ← struct_fields ["integrity_policy"; "defense"; "result_budget_bytes"] v;
  p ← defaulted Warn get "integrity_policy";
  d ← @defaulted _ DefenseConfig_serde false get "defense";
  b ← @defaulted _ opt_u64 None get "result_budget_bytes";
  Some (mkSecurityConfig p d (Z.to_nat <$> b)).

#[export] Program Instance SecurityConfig_serde : Serde SecurityConfig := {|
  to_value := SecurityConfig_value;
  from_value := SecurityConfig_from;
  in_range_of s := opt_within u64_max (usize_option (result_budget_bytes s));
  depth_of := 2;
|}.
Next Obligation.
  intros [p d b] Hb. cbn in Hb. apply opt_u64_ok in Hb. assert (in_range_of p) by done.
  assert (@in_range_of _ DefenseConfig_serde d) by done.
  unfold SecurityConfig_from, SecurityConfig_value. read_fields.
  destruct b as [n|]; [|done]. cbn. by rewrite Nat2Z.id.
Qed.
Next Obligation. intros s. apply (nesting_object _ 1). fields_nesting. Qed.

(** ** Credentials of an upstream: an enum tagged by the field [type] *)

Definition grant_as_str (g : OAuthGrant) : string :=
  match g with
  | ClientCredentials => "client_credentials"
  | AuthorizationCode => "authorization_code"
  end.

Definition grant_of_name (n : string) : option OAuthGrant :=
  List.find (fun g => grant_as_str g =s n) [ClientCredentials; AuthorizationCode].

#[export] Program Instance OAuthGrant_serde : Serde OAuthGrant := {|
  to_value g := JString (grant_as_str g);
  from_value v := unit_variant v ≫= grant_of_name;
  in_range_of _ := True;
  depth_of := 0;
|}.
Next Obligation. by intros []. Qed.
Next Obligation. done. Qed.

Definition UpstreamAuth_value (a : UpstreamAuth) : JSON :=
  match a with
  | AuthNone => JObject [("type", JString "none")]
  | AuthHeader n v =>
      JObject [("name", to_value n); ("type", JString "header"); ("value_ref", to_value v)]
  | AuthBearer t => JObject [("token_ref", to_value t); ("type", JString "bearer")]
  | AuthOAuth g i s l =>
      JObject [("client_id", to_value i); ("client_secret_ref", to_value s);
               ("grant", to_value g); ("scopes", to_value l); ("type", JString "oauth")]
  end.

(** The tag and the other fields; in an array the tag comes first. *)
Definition split_tag (v : JSON) : option (string * JSON) :=
  match v with
  | JObject fs =>
      match List.filter (fun f => f.1 =s "type") fs with
      | [(_, JString t)] => Some (t, JObject (List.filter (fun f => negb (f.1 =s "type")) fs))
      | _ => None
      end
  | JArray (JString t :: l) => Some (t, JArray l)
  | _ => None
  end.

Definition no_elements (v : JSON) : bool :=
  match v with JArray (_ :: _) => false | _ => true end.

Definition UpstreamAuth_from (v : JSON) : option UpstreamAuth :=
  '(t, rest) ← split_tag v;
  if t =s "none" then (if no_elements rest then Some AuthNone else None)
  else if t =s "header" then
    get ← struct_fields ["name"; "value_ref"] rest;
    n ← required get "name";
    r ← required get "value_ref";
    Some (AuthHeader n r)
  else if t =s "bearer" then
    get ← struct_fields ["token_ref"] rest;
    r ← required get "token_ref";
    Some (AuthBearer r)
  else if t =s "oauth" then
    get ← struct_fields ["grant"; "client_id"; "client_secret_ref"; "scopes"] rest;
    g ← required get "grant";
    i ← defaulted None get "client_id";
    s ← defaulted None get "client_secret_ref";
    l ← defaulted [] get "scopes";
    Some (AuthOAuth g i s l)
  else None.

Lemma UpstreamAuth_from_value a : UpstreamAuth_from (UpstreamAuth_value a) = Some a.
Proof.
  destruct a as [|n r|t|g i s l]; [done|done|done|].
  pose proof (opt_string_ok i) as Hi. pose proof (opt_string_ok s) as Hs.
  pose proof (strings_ok l) as Hl. assert (in_range_of g) as Hg by done.
  unfold UpstreamAuth_from. cbn -[struct_fields]. by read_fields.
Qed.

#[export] Program Instance UpstreamAuth_serde : Serde UpstreamAuth := {|
  to_value := UpstreamAuth_value;
  from_value := UpstreamAuth_from;
  in_range_of _ := True;
  depth_of := 2;
|}.
Next Obligation. intros a _. apply UpstreamAuth_from_value. Qed.
Next Obligation. intros a. destruct a; apply (nesting_object _ 1); fields_nesting. Qed.

(** ** Formats and times *)

Definition format_of_name (n : string) : option ResponseFormat :=
  List.find (fun f => format_as_str f =s n) [Json; Yaml; Markdown].

#[export] Program Instance ResponseFormat_serde : Serde ResponseFormat := {|
  to_value f := JString (format_as_str f);
  from_value v := unit_variant v ≫= format_of_name;
  in_range_of _ := True;
  depth_of := 0;
|}.
Next Obligation. by intros []. Qed.
Next Obligation. done. Qed.

(** chrono: the RFC 3339 text of a time, and the times it represents. *)
Class Rfc3339 := {
  to_rfc3339 : Z -> string;
  parse_rfc3339 : string -> option Z;
  rfc3339_error : string -> string;
  chrono_time : Z -> Prop;
  rfc3339_roundtrip t : chrono_time t -> parse_rfc3339 (to_rfc3339 t) = Some t;
}.

Program Definition DateTime_serde {RF : Rfc3339} : Serde Z := {|
  to_value t := JString (to_rfc3339 t);
  from_value v := as_str v ≫= parse_rfc3339;
  in_range_of := chrono_time;
  depth_of := 0;
|}.
Next Obligation. intros RF t Ht. by apply rfc3339_roundtrip. Qed.
Next Obligation. done. Qed.

Definition opt_time {RF : Rfc3339} : Serde (option Z) := @option_serde Z DateTime_serde.

Lemma opt_time_ok {RF : Rfc3339} o : (forall t, o = Some t -> chrono_time t) ->
  @in_range_of _ opt_time o.
Proof. intros H t Ht. split; [by apply H|done]. Qed.

(** ** Text *)

(** The JSON reader: the syntax tree of a text, its fields as they stand there. *)
Class JsonReader := { json_tree : string -> option JSON; json_error : string -> string }.

(** [serde_json] reads what it printed, up to its limit on nesting. *)
Class JsonText {SE : Serializers} {JR : JsonReader} : Prop := {
  json_text_roundtrip v : (nesting v < 128)%nat -> json_tree (value_to_string v) = Some v;
}.

(** [serde_json::from_str]. *)
Definition from_json {JR : JsonReader} {A} (read : JSON -> option A) (text : string) : option A :=
  json_tree text ≫= read.

(** A map of serde_json is ordered by its keys; of equal keys of a text the last counts. *)
Fixpoint insert_field (k : string) (v : JSON) (fs : list (string * JSON)) : list (string * JSON) :=
  match fs with
  | [] => [(k, v)]
  | f :: rest =>
      if k =s f.1 then (k, v) :: rest
      else if String.leb k f.1 then (k, v) :: fs else f :: insert_field k v rest
  end.

Definition json_map (fs : list (string * JSON)) : list (string * JSON) :=
  fold_left (fun acc f => insert_field f.1 f.2 acc) fs [].

Fixpoint json_normal (v : JSON) : JSON :=
  match v with
  | JArray l => JArray (map json_normal l)
  | JObject fs => JObject (json_map (map (fun f => (f.1, json_normal f.2)) fs))
  | v => v
  end.

(** [serde_json::from_str::<Value>]. *)
Definition json_value {JR : JsonReader} (text : string) : option JSON := json_normal <$> json_tree text.

(** ** A printer and a reader

    A concrete text form for the examples: a value as a tree, the tree as a stream of
    tokens; and instants in binary. *)

Fixpoint json_to_gen (v : JSON) : gen_tree string :=
  match v with
  | JNull => GenNode 0 []
  | JBool b => GenNode (if b then 1 else 2) []
  | JNumber t => GenNode 3 [GenLeaf t]
  | JString s => GenNode 4 [GenLeaf s]
  | JArray l => GenNode 5 (json_to_gen <$> l)
  | JObject fs => GenNode 6 ((fun f => GenNode 7 [GenLeaf f.1; json_to_gen f.2]) <$> fs)
  end.

Fixpoint json_of_gen (t : gen_tree string) : JSON :=
  match t with
  | GenNode 1 _ => JBool true
  | GenNode 2 _ => JBool false
  | GenNode 3 [GenLeaf t] => JNumber t
  | GenNode 4 [GenLeaf s] => JString s
  | GenNode 5 l => JArray (json_of_gen <$> l)
  | GenNode 6 l =>
      JObject ((fun t => match t with
                         | GenNode _ [GenLeaf k; t] => (k, json_of_gen t)
                         | _ => ("", JNull)
                         end) <$> l)
  | _ => JNull
  end.

Fixpoint json_gen_roundtrip (v : JSON) : json_of_gen (json_to_gen v) = v.
Proof.
  destruct v as [|[]|t|s|l|fs]; cbn; try done.
  - f_equal. induction l as [|v l IH]; cbn; [done|]. by rewrite json_gen_roundtrip, IH.
  - f_equal. induction fs as [|[k v] fs IH]; cbn; [done|]. by rewrite json_gen_roundtrip, IH.
Qed.

Fixpoint bits (p : positive) : string :=
  match p with
  | xH => ""
  | xO p => String "0" (bits p)
  | xI p => String "1" (bits p)
  end.

Fixpoint of_bits (s : string) : positive :=
  match s with
  | "" => xH
  | String c s => if Ascii.eqb c "0" then xO (of_bits s) else xI (of_bits s)
  end.

Lemma bits_roundtrip p : of_bits (bits p) = p.
Proof. by induction p as [p IH|p IH|]; cbn; rewrite ?IH. Qed.

(** A token stream: [<x..;x..;] for a node with its width and tag in unary, ['c'c;]
    for a leaf. *)
Fixpoint tally (n : nat) (rest : string) : string :=
  match n with O => String ";" rest | S n => String "x" (tally n rest) end.
Fixpoint of_tally (s : string) : nat * string :=
  match s with
  | String "x" s => let '(n, rest) := of_tally s in (S n, rest)
  | String _ rest => (O, rest)
  | "" => (O, "")
  end.

Fixpoint quoted (t rest : string) : string :=
  match t with "" => String ";" rest | String c t => String "'" (String c (quoted t rest)) end.
Fixpoint of_quoted (s : string) : string * string :=
  match s with
  | String "'" (String c s) => let '(t, rest) := of_quoted s in (String c t, rest)
  | String _ rest => ("", rest)
  | "" => ("", "")
  end.

Fixpoint stream (l : list (nat * nat + string)) : string :=
  match l with
  | [] => ""
  | inl (w, n) :: l => String "<" (tally w (tally n (stream l)))
  | inr t :: l => quoted t (stream l)
  end.

Fixpoint of_stream (fuel : nat) (s : string) : list (nat * nat + string) :=
  match fuel, s with
  | S fuel, String "<" s =>
      let '(w, s) := of_tally s in let '(n, s) := of_tally s in inl (w, n) :: of_stream fuel s
  | S fuel, String _ _ => let '(t, s) := of_quoted s in inr t :: of_stream fuel s
  | _, _ => []
  end.

Lemma tally_roundtrip n rest : of_tally (tally n rest) = (n, rest).
Proof. induction n as [|n IH]; [done|]. cbn. by rewrite IH. Qed.
Lemma quoted_roundtrip t rest : of_quoted (quoted t rest) = (t, rest).
Proof. induction t as [|c t IH]; [done|]. cbn. by rewrite IH. Qed.

Lemma stream_roundtrip l fuel : (length l <= fuel)%nat -> of_stream fuel (stream l) = l.
Proof.
  revert fuel. induction l as [|[[w n]|t] l IH]; intros [|fuel] Hf; cbn in Hf |- *; try lia; [done..| |].
  - by rewrite !tally_roundtrip, IH by lia.
  - pose proof (quoted_roundtrip t (stream l)) as Hq.
    destruct t as [|c t]; cbn [quoted] in Hq |- *; by rewrite Hq, IH by lia.
Qed.

Lemma stream_length l : (length l <= String.length (stream l))%nat.
Proof.
  assert (forall n rest, String.length rest <= String.length (tally n rest))%nat as Ht.
  { intros n rest. induction n as [|n IH]; cbn; lia. }
  assert (forall t rest, S (String.length rest) <= String.length (quoted t rest))%nat as Hq.
  { intros t rest. induction t as [|c t IH]; cbn; lia. }
  induction l as [|[[w n]|t] l IH]; cbn; [lia| |].
  - pose proof (Ht w (tally n (stream l))). pose proof (Ht n (stream l)). lia.
  - pose proof (Hq t (stream l)). lia.
Qed.

Definition stream_serializers : Serializers := {|
  norway_to_string := fun _ => Ok "";
  value_to_string := fun v => stream (gen_tree_to_list (json_to_gen v));
|}.

Definition stream_reader : JsonReader := {|
  json_tree := fun s => json_of_gen <$> gen_tree_of_list [] (of_stream (String.length s) s);
  json_error := fun _ => "invalid JSON";
|}.

Lemma stream_text : @JsonText stream_serializers stream_reader.
Proof.
  constructor. intros v _. cbn. rewrite stream_roundtrip by apply stream_length.
  pose proof (gen_tree_of_to_list [] [] (json_to_gen v)) as H. rewrite app_nil_r in H.
  rewrite H. cbn. by rewrite json_gen_roundtrip.
Qed.

(** Times as numbers in binary. *)
Program Definition binary_times : Rfc3339 := {|
  to_rfc3339 t := bits (encode t);
  parse_rfc3339 s := decode (of_bits s);
  rfc3339_error _ := "invalid time";
  chrono_time _ := True;
|}.
Next Obligation. intros t _. cbn. by rewrite bits_roundtrip, decode_encode. Qed.
