(* ===== verification/Store.v ===== *)
(** * The store ([store/], [src/migrations/])

    The SQLite tables and the statements on them.  A table with a primary key is a
    map from the key to the row, a table of events the list of its rows.  Each
    function of a repository is one SQL statement: it fails when the engine fails
    or a constraint is violated, and then changes nothing. *)

From S2P Require Import Prelude RustStr Naming Errors Config Render Observe Integrity ConfigJson.
From Stdlib Require Import Ascii.

Local Open Scope string_scope.
Local Open Scope list_scope.
Local Open Scope Z_scope.
Local Open Scope gateway_scope.

(** ** Errors ([store/error.rs]) *)

Inductive StoreError :=
| SE_Migration (detail : string)
| SE_Query (detail : string)
| SE_EntityNotFound (what : string).

Definition StoreError_to_string (e : StoreError) : string :=
  match e with
  | SE_Migration d => "database migration failed: " +:+ d
  | SE_Query d => "database query failed: " +:+ d
  | SE_EntityNotFound w => "entity not found: " +:+ w
  end.

Definition store_to_asterlane (e : StoreError) : AsterlaneError :=
  internal (match e with SE_Migration _ => StoreMigrationFailed | _ => StoreUnavailable end)
    (StoreError_to_string e).

(** ** Rows *)

Record Resource := mkResource {
  rs_id : string;
  rs_domain : string;
  rs_provider : string;
  rs_base_url : string;
  rs_description : option string;
  rs_config_json : string;
  rs_created_at : string;
  rs_updated_at : string;
}.

Record McpServerRecord := mkMcpServerRecord {
  mr_id : string;
  mr_domain : string;
  mr_provider : string;
  mr_url : string;
  mr_description : option string;
  mr_config_json : string;
  mr_created_at : string;
  mr_updated_at : string;
}.

Record ProxyKeyRecord := mkProxyKeyRecord {
  kr_id : string;
  kr_display_name : string;
  kr_default_tool_page_size : Z;
  kr_scope_json : string;
  kr_created_at : string;
  kr_updated_at : string;
}.

Record UpstreamKeyRecord := mkUpstreamKeyRecord {
  ur_id : string;
  ur_resource_id : string;
  ur_secret_ref : string;
  ur_weight : Z;
  ur_health_state : string;
  ur_cooldown_until : option string;
  ur_created_at : string;
  ur_updated_at : string;
}.

Record ToolDefaultRecord := mkToolDefaultRecord {
  td_tool_name : string;
  td_args_json : string;
  td_source : string;
  td_updated_by : option string;
  td_updated_at : string;
}.

Record ToolMetadataEntry := mkToolMetadataEntry {
  tm_tool_name : string;
  tm_description : string;
  tm_updated_by : option string;
  tm_updated_at : string;
}.

(** A row of [security_events]. *)
Record SecurityRow := mkSecurityRow {
  sr_timestamp : string;
  sr_resource_id : string;
  sr_tool_name : option string;
  sr_kind : string;
  sr_severity : string;
  sr_details_json : string;
}.

Record Store := mkStore {
  st_resources : gmap string Resource;
  st_proxy_keys : gmap string ProxyKeyRecord;
  st_upstream_keys : gmap string UpstreamKeyRecord;
  st_mcp_servers : gmap string McpServerRecord;
  st_tool_defaults : gmap string ToolDefaultRecord;
  st_tool_metadata : gmap string ToolMetadataEntry;
  st_security_events : list SecurityRow;
  st_oauth_credentials : gmap string string;
  (** how many statements have run: the engine's answers depend on it *)
  st_statements : nat;
}.

Definition empty_store : Store := mkStore ∅ ∅ ∅ ∅ ∅ ∅ [] ∅ 0.

Definition set_resources (m : gmap string Resource) (s : Store) : Store :=
  mkStore m (st_proxy_keys s) (st_upstream_keys s) (st_mcp_servers s) (st_tool_defaults s)
    (st_tool_metadata s) (st_security_events s) (st_oauth_credentials s) (st_statements s).
Definition set_proxy_keys (m : gmap string ProxyKeyRecord) (s : Store) : Store :=
  mkStore (st_resources s) m (st_upstream_keys s) (st_mcp_servers s) (st_tool_defaults s)
    (st_tool_metadata s) (st_security_events s) (st_oauth_credentials s) (st_statements s).
Definition set_upstream_keys (m : gmap string UpstreamKeyRecord) (s : Store) : Store :=
  mkStore (st_resources s) (st_proxy_keys s) m (st_mcp_servers s) (st_tool_defaults s)
    (st_tool_metadata s) (st_security_events s) (st_oauth_credentials s) (st_statements s).
Definition set_mcp_servers (m : gmap string McpServerRecord) (s : Store) : Store :=
  mkStore (st_resources s) (st_proxy_keys s) (st_upstream_keys s) m (st_tool_defaults s)
    (st_tool_metadata s) (st_security_events s) (st_oauth_credentials s) (st_statements s).
Definition set_tool_defaults (m : gmap string ToolDefaultRecord) (s : Store) : Store :=
  mkStore (st_resources s) (st_proxy_keys s) (st_upstream_keys s) (st_mcp_servers s) m
    (st_tool_metadata s) (st_security_events s) (st_oauth_credentials s) (st_statements s).
Definition set_metadata_table (m : gmap string ToolMetadataEntry) (s : Store) : Store :=
  mkStore (st_resources s) (st_proxy_keys s) (st_upstream_keys s) (st_mcp_servers s)
    (st_tool_defaults s) m (st_security_events s) (st_oauth_credentials s) (st_statements s).
Definition set_security_events (l : list SecurityRow) (s : Store) : Store :=
  mkStore (st_resources s) (st_proxy_keys s) (st_upstream_keys s) (st_mcp_servers s)
    (st_tool_defaults s) (st_tool_metadata s) l (st_oauth_credentials s) (st_statements s).
Definition set_oauth_credentials (m : gmap string string) (s : Store) : Store :=
  mkStore (st_resources s) (st_proxy_keys s) (st_upstream_keys s) (st_mcp_servers s)
    (st_tool_defaults s) (st_tool_metadata s) (st_security_events s) m (st_statements s).
Definition next_statement (s : Store) : Store :=
  mkStore (st_resources s) (st_proxy_keys s) (st_upstream_keys s) (st_mcp_servers s)
    (st_tool_defaults s) (st_tool_metadata s) (st_security_events s) (st_oauth_credentials s)
    (S (st_statements s)).

(** ** Statements *)

(** The engine: its failure at a statement, if any; the text of [strftime] at it;
    the texts for a violated constraint and for a value that cannot be read; and whether the connection enforces foreign
    keys ([sqlx] switches them on unless it is told otherwise). *)
Class Database := {
  db_failure : nat -> option string;
  db_now : nat -> string;
  db_violation : string -> string;
  db_decode_error : string -> string;
  db_foreign_keys : bool;
}.

Definition statement {DB : Database} {A} (f : string -> Store -> result string (Store * A))
    (s : Store) : Store * result StoreError A :=
  let n := st_statements s in
  let s := next_statement s in
  match db_failure n with
  | Some e => (s, Err (SE_Query e))
  | None =>
      match f (db_now n) s with
      | Ok (s, a) => (s, Ok a)
      | Err e => (s, Err (SE_Query e))
      end
  end.

(** The rows in the order of the key. *)
Definition sorted_rows {R} (m : gmap string R) : list R :=
  snd <$> sort_by (fun a b => String.leb a.1 b.1) (map_to_list m).

Section Repositories.
Context {DB : Database}.

(** [INSERT INTO t (...) VALUES (...)], [UPDATE t ... WHERE id = ?] and
    [DELETE FROM t WHERE id = ?] on a table with a primary key. *)
Definition insert_row {R} (table : string) (id : string) (row : R) (m : gmap string R)
    : result string (gmap string R) :=
  match m !! id with
  | Some _ => Err (db_violation ("UNIQUE constraint failed: " +:+ table))
  | None => Ok (<[id := row]> m)
  end.

Definition update_row {R} (id : string) (f : R -> R) (m : gmap string R) : gmap string R * bool :=
  (alter f id m, bool_decide (is_Some (m !! id))).

Definition delete_row {R} (id : string) (m : gmap string R) : gmap string R * bool :=
  (delete id m, bool_decide (is_Some (m !! id))).

(** *** [resources] *)

Definition insert_resource (r : Resource) : Store -> Store * result StoreError () :=
  statement (fun now s =>
    m ← insert_row "resources.id" (rs_id r)
          (mkResource (rs_id r) (rs_domain r) (rs_provider r) (rs_base_url r)
             (rs_description r) (rs_config_json r) now now) (st_resources s);
    Ok (set_resources m s, tt)).

Definition get_resource (id : string) (s : Store) : Store * result StoreError Resource :=
  match statement (fun _ s => Ok (s, st_resources s !! id)) s with
  | (s, Ok (Some r)) => (s, Ok r)
  | (s, Ok None) => (s, Err (SE_EntityNotFound ("resource " +:+ id)))
  | (s, Err e) => (s, Err e)
  end.

Definition list_resources_rows : Store -> Store * result StoreError (list Resource) :=
  statement (fun _ s => Ok (s, sorted_rows (st_resources s))).

Definition update_resource_row (r : Resource) : Store -> Store * result StoreError bool :=
  statement (fun now s =>
    let '(m, hit) := update_row (rs_id r)
      (fun old => mkResource (rs_id old) (rs_domain r) (rs_provider r) (rs_base_url r)
                    (rs_description r) (rs_config_json r) (rs_created_at old) now)
      (st_resources s) in
    Ok (set_resources m s, hit)).

(** A resource that [upstream_keys] refers to stays when foreign keys are enforced. *)
Definition referenced (id : string) (s : Store) : bool :=
  existsb (fun k => ur_resource_id k =s id) (sorted_rows (st_upstream_keys s)).

Definition delete_resource_row (id : string) : Store -> Store * result StoreError bool :=
  statement (fun _ s =>
    let '(m, hit) := delete_row id (st_resources s) in
    if db_foreign_keys && hit && referenced id s
    then Err (db_violation "FOREIGN KEY constraint failed")
    else Ok (set_resources m s, hit)).

(** *** [proxy_keys] *)

Definition insert_proxy_key (k : ProxyKeyRecord) : Store -> Store * result StoreError () :=
  statement (fun now s =>
    m ← insert_row "proxy_keys.id" (kr_id k)
          (mkProxyKeyRecord (kr_id k) (kr_display_name k) (kr_default_tool_page_size k)
             (kr_scope_json k) now now) (st_proxy_keys s);
    Ok (set_proxy_keys m s, tt)).

Definition get_proxy_key (id : string) (s : Store) : Store * result StoreError ProxyKeyRecord :=
  match statement (fun _ s => Ok (s, st_proxy_keys s !! id)) s with
  | (s, Ok (Some k)) => (s, Ok k)
  | (s, Ok None) => (s, Err (SE_EntityNotFound ("proxy_key " +:+ id)))
  | (s, Err e) => (s, Err e)
  end.

Definition list_proxy_keys : Store -> Store * result StoreError (list ProxyKeyRecord) :=
  statement (fun _ s => Ok (s, sorted_rows (st_proxy_keys s))).

Definition update_proxy_key_row (k : ProxyKeyRecord) : Store -> Store * result StoreError bool :=
  statement (fun now s =>
    let '(m, hit) := update_row (kr_id k)
      (fun old => mkProxyKeyRecord (kr_id old) (kr_display_name k) (kr_default_tool_page_size k)
                    (kr_scope_json k) (kr_created_at old) now)
      (st_proxy_keys s) in
    Ok (set_proxy_keys m s, hit)).

Definition delete_proxy_key_row (id : string) : Store -> Store * result StoreError bool :=
  statement (fun _ s =>
    let '(m, hit) := delete_row id (st_proxy_keys s) in Ok (set_proxy_keys m s, hit)).

(** *** [upstream_keys] *)

Definition insert_upstream_key (k : UpstreamKeyRecord) : Store -> Store * result StoreError () :=
  statement (fun now s =>
    m ← insert_row "upstream_keys.id" (ur_id k)
          (mkUpstreamKeyRecord (ur_id k) (ur_resource_id k) (ur_secret_ref k) (ur_weight k)
             (ur_health_state k) (ur_cooldown_until k) now now) (st_upstream_keys s);
    if db_foreign_keys && negb (bool_decide (is_Some (st_resources s !! ur_resource_id k)))
    then Err (db_violation "FOREIGN KEY constraint failed")
    else Ok (set_upstream_keys m s, tt)).

Definition get_upstream_key (id : string) (s : Store) : Store * result StoreError UpstreamKeyRecord :=
  match statement (fun _ s => Ok (s, st_upstream_keys s !! id)) s with
  | (s, Ok (Some k)) => (s, Ok k)
  | (s, Ok None) => (s, Err (SE_EntityNotFound ("upstream_key " +:+ id)))
  | (s, Err e) => (s, Err e)
  end.

Definition list_upstream_keys_for_resource (resource_id : string)
    : Store -> Store * result StoreError (list UpstreamKeyRecord) :=
  statement (fun _ s =>
    Ok (s, List.filter (fun k => ur_resource_id k =s resource_id)
             (sorted_rows (st_upstream_keys s)))).

Definition update_upstream_key_health (id health_state : string) (cooldown_until : option string)
    : Store -> Store * result StoreError bool :=
  statement (fun now s =>
    let '(m, hit) := update_row id
      (fun old => mkUpstreamKeyRecord (ur_id old) (ur_resource_id old) (ur_secret_ref old)
                    (ur_weight old) health_state cooldown_until (ur_created_at old) now)
      (st_upstream_keys s) in
    Ok (set_upstream_keys m s, hit)).

Definition delete_upstream_key (id : string) : Store -> Store * result StoreError bool :=
  statement (fun _ s =>
    let '(m, hit) := delete_row id (st_upstream_keys s) in Ok (set_upstream_keys m s, hit)).

Definition keys_of_others (resource_id : string) (m : gmap string UpstreamKeyRecord)
    : gmap string UpstreamKeyRecord :=
  filter (fun kv => (ur_resource_id kv.2 =s resource_id) = false) m.

Definition delete_upstream_keys_for_resource (resource_id : string)
    : Store -> Store * result StoreError nat :=
  statement (fun _ s =>
    let m := keys_of_others resource_id (st_upstream_keys s) in
    Ok (set_upstream_keys m s, (size (st_upstream_keys s) - size m)%nat)).

Fixpoint insert_upstream_keys (ks : list UpstreamKeyRecord) (s : Store)
    : Store * result StoreError () :=
  match ks with
  | [] => (s, Ok tt)
  | k :: ks =>
      match insert_upstream_key k s with
      | (s, Ok _) => insert_upstream_keys ks s
      | (s, Err e) => (s, Err e)
      end
  end.

Definition replace_upstream_keys_for_resource (resource_id : string) (ks : list UpstreamKeyRecord)
    (s : Store) : Store * result StoreError () :=
  match delete_upstream_keys_for_resource resource_id s with
  | (s, Ok _) => insert_upstream_keys ks s
  | (s, Err e) => (s, Err e)
  end.

(** *** [mcp_servers] ([store/mcp_servers.rs]) *)

Definition insert_mcp_server (r : McpServerRecord) : Store -> Store * result StoreError () :=
  statement (fun now s =>
    m ← insert_row "mcp_servers.id" (mr_id r)
          (mkMcpServerRecord (mr_id r) (mr_domain r) (mr_provider r) (mr_url r)
             (mr_description r) (mr_config_json r) now now) (st_mcp_servers s);
    Ok (set_mcp_servers m s, tt)).

Definition update_mcp_server_row (r : McpServerRecord) : Store -> Store * result StoreError bool :=
  statement (fun now s =>
    let '(m, hit) := update_row (mr_id r)
      (fun old => mkMcpServerRecord (mr_id old) (mr_domain r) (mr_provider r) (mr_url r)
                    (mr_description r) (mr_config_json r) (mr_created_at old) now)
      (st_mcp_servers s) in
    Ok (set_mcp_servers m s, hit)).

Definition delete_mcp_server_row (id : string) : Store -> Store * result StoreError bool :=
  statement (fun _ s =>
    let '(m, hit) := delete_row id (st_mcp_servers s) in Ok (set_mcp_servers m s, hit)).

Definition list_mcp_server_rows : Store -> Store * result StoreError (list McpServerRecord) :=
  statement (fun _ s => Ok (s, sorted_rows (st_mcp_servers s))).

(** *** [tool_defaults] and [tool_metadata] *)

Definition get_tool_default (tool : string)
    : Store -> Store * result StoreError (option ToolDefaultRecord) :=
  statement (fun _ s => Ok (s, st_tool_defaults s !! tool)).

Definition set_tool_default (r : ToolDefaultRecord) : Store -> Store * result StoreError () :=
  statement (fun now s =>
    Ok (set_tool_defaults
          (<[td_tool_name r := mkToolDefaultRecord (td_tool_name r) (td_args_json r)
                                 (td_source r) (td_updated_by r) now]> (st_tool_defaults s)) s, tt)).

Definition delete_tool_default (tool : string) : Store -> Store * result StoreError bool :=
  statement (fun _ s =>
    let '(m, hit) := delete_row tool (st_tool_defaults s) in Ok (set_tool_defaults m s, hit)).

Definition list_tool_defaults : Store -> Store * result StoreError (list ToolDefaultRecord) :=
  statement (fun _ s => Ok (s, sorted_rows (st_tool_defaults s))).

Definition get_tool_metadata (tool : string)
    : Store -> Store * result StoreError (option ToolMetadataEntry) :=
  statement (fun _ s => Ok (s, st_tool_metadata s !! tool)).

Definition set_tool_metadata (tool description : string) (updated_by : option string)
    : Store -> Store * result StoreError () :=
  statement (fun now s =>
    Ok (set_metadata_table
          (<[tool := mkToolMetadataEntry tool description updated_by now]> (st_tool_metadata s)) s,
        tt)).

Definition delete_tool_metadata (tool : string) : Store -> Store * result StoreError bool :=
  statement (fun _ s =>
    let '(m, hit) := delete_row tool (st_tool_metadata s) in Ok (set_metadata_table m s, hit)).

Definition list_tool_metadata : Store -> Store * result StoreError (list ToolMetadataEntry) :=
  statement (fun _ s => Ok (s, sorted_rows (st_tool_metadata s))).

(** *** Sealed OAuth credentials ([store/oauth_credentials.rs]) *)

Definition get_sealed_credentials (server : string)
    : Store -> Store * result StoreError (option string) :=
  statement (fun _ s => Ok (s, st_oauth_credentials s !! server)).

Definition put_sealed_credentials (server sealed : string)
    : Store -> Store * result StoreError () :=
  statement (fun _ s =>
    Ok (set_oauth_credentials (<[server := sealed]> (st_oauth_credentials s)) s, tt)).

Definition delete_sealed_credentials (server : string) : Store -> Store * result StoreError bool :=
  statement (fun _ s =>
    let '(m, hit) := delete_row server (st_oauth_credentials s) in
    Ok (set_oauth_credentials m s, hit)).
End Repositories.

(** ** Security events ([store/sqlite.rs]) *)

Definition encode_security_kind (k : SecurityEventKind) : string :=
  match k with
  | IntegrityToolChanged => "integrity_tool_changed"
  | IntegrityToolAdded => "integrity_tool_added"
  | IntegrityToolRemoved => "integrity_tool_removed"
  | IntegrityHintFlipped => "integrity_hint_flipped"
  | ContentDefenseFlag => "content_defense_flag"
  | AdminAudit => "admin_audit"
  end.

Definition all_security_kinds : list SecurityEventKind :=
  [IntegrityToolChanged; IntegrityToolAdded; IntegrityToolRemoved; IntegrityHintFlipped;
   ContentDefenseFlag; AdminAudit].

Definition decode_security_kind {DB : Database} (s : string) : result StoreError SecurityEventKind :=
  ok_or (SE_Query (db_decode_error ("unknown security event kind: " +:+ s)))
    (List.find (fun k => encode_security_kind k =s s) all_security_kinds).

Definition encode_severity (s : Severity) : string :=
  match s with SevInfo => "info" | SevWarn => "warn" | SevError => "error" end.

Definition decode_severity {DB : Database} (s : string) : result StoreError Severity :=
  ok_or (SE_Query (db_decode_error ("unknown severity: " +:+ s)))
    (List.find (fun v => encode_severity v =s s) [SevInfo; SevWarn; SevError]).

Record SecurityEventFilter := mkSecurityEventFilter {
  sf_resource_id : option string;
  sf_kind : option SecurityEventKind;
  sf_from : option Z;
  sf_to : option Z;
}.

Section SecurityEvents.
Context {DB : Database} {SE : Serializers} {JR : JsonReader} {RF : Rfc3339}.

Definition security_row (e : SecurityEvent) : SecurityRow :=
  mkSecurityRow (to_rfc3339 (se_timestamp e)) (se_resource_id e) (se_tool_name e)
    (encode_security_kind (se_kind e)) (encode_severity (se_severity e))
    (value_to_string (se_details e)).

Definition row_to_security_event (r : SecurityRow) : result StoreError SecurityEvent :=
  t ← ok_or (SE_Query (db_decode_error ("invalid timestamp: " +:+ rfc3339_error (sr_timestamp r))))
         (parse_rfc3339 (sr_timestamp r));
  k ← decode_security_kind (sr_kind r);
  v ← decode_severity (sr_severity r);
  d ← ok_or (SE_Query (db_decode_error ("invalid details JSON: " +:+ json_error (sr_details_json r))))
         (json_tree (sr_details_json r));
  Ok (mkSecurityEvent t (sr_resource_id r) (sr_tool_name r) k v d).

Definition insert_security_event (e : SecurityEvent) : Store -> Store * result StoreError () :=
  statement (fun _ s => Ok (set_security_events (st_security_events s ++ [security_row e]) s, tt)).

(** Times are compared as texts. *)
Definition selected (f : SecurityEventFilter) (r : SecurityRow) : bool :=
  match sf_resource_id f with Some id => sr_resource_id r =s id | None => true end
  && match sf_kind f with Some k => sr_kind r =s encode_security_kind k | None => true end
  && match sf_from f with Some t => String.leb (to_rfc3339 t) (sr_timestamp r) | None => true end
  && match sf_to f with Some t => negb (String.leb (to_rfc3339 t) (sr_timestamp r)) | None => true end.

(** Rows of the same time come in the order in which the engine finds them; here
    that is the order of insertion. *)
Definition list_security_events (f : SecurityEventFilter) (limit : nat) (s : Store)
    : Store * result StoreError (list SecurityEvent) :=
  match statement (fun _ s =>
          Ok (s, take limit (sort_by (fun a b => String.leb (sr_timestamp b) (sr_timestamp a))
                              (List.filter (selected f) (st_security_events s))))) s with
  | (s, Ok rows) => (s, try_map row_to_security_event rows)
  | (s, Err e) => (s, Err e)
  end.
End SecurityEvents.

(** ** Facts on tables and statements *)

Lemma statement_inv {DB : Database} {A} (P : Store -> Prop) (f : string -> Store -> result string (Store * A)) s :
  P s -> P (next_statement s) ->
  (forall now s' a, P (next_statement s) -> f now (next_statement s) = Ok (s', a) -> P s') ->
  P (statement f s).1.
Proof.
  intros H H1 Hf. unfold statement. destruct (db_failure _); [done|].
  destruct (f _ _) as [[s' a]|e] eqn:E; [by eapply Hf|done].
Qed.

(** A statement runs when the engine does not fail at it. *)
Lemma statement_Ok {DB : Database} {A} (f : string -> Store -> result string (Store * A)) s s' a :
  db_failure (st_statements s) = None ->
  f (db_now (st_statements s)) (next_statement s) = Ok (s', a) -> statement f s = (s', Ok a).
Proof. intros Hd Hf. unfold statement. by rewrite Hd, Hf. Qed.

Lemma sorted_rows_elem {R} (m : gmap string R) r : r ∈ sorted_rows m <-> exists k, m !! k = Some r.
Proof.
  unfold sorted_rows. rewrite list_elem_of_fmap. setoid_rewrite sort_by_elem. split.
  - intros ([k r'] & -> & H%elem_of_map_to_list). by exists k.
  - intros [k H]. exists (k, r). split; [done|by apply elem_of_map_to_list].
Qed.

(** The key of a row is its [id]. *)
Definition keyed {R} (id : R -> string) (m : gmap string R) : Prop :=
  forall k r, m !! k = Some r -> id r = k.

Lemma keyed_ids {R} (id : R -> string) (m : gmap string R) :
  keyed id m -> NoDup (id <$> sorted_rows m).
Proof.
  intros Hk. unfold sorted_rows. rewrite <- list_fmap_compose.
  rewrite (list_fmap_ext (id ∘ snd) fst).
  2: { intros i [k r] Hi. apply list_elem_of_lookup_2, sort_by_elem, elem_of_map_to_list in Hi. by apply Hk. }
  eapply NoDup_Permutation_proper; [apply fmap_Permutation, sort_by_perm|apply NoDup_fst_map_to_list].
Qed.

(** ** The invariant of the tables *)

Section Invariant.
Context {DB : Database} {SE : Serializers} {JR : JsonReader} {RF : Rfc3339}.

(** The statements that change a table. *)
Inductive store_op :=
| OpInsertResource (r : Resource) | OpUpdateResource (r : Resource) | OpDeleteResource (id : string)
| OpInsertProxyKey (k : ProxyKeyRecord) | OpUpdateProxyKey (k : ProxyKeyRecord)
| OpDeleteProxyKey (id : string)
| OpInsertUpstreamKey (k : UpstreamKeyRecord)
| OpUpdateUpstreamKey (id health : string) (cooldown : option string)
| OpDeleteUpstreamKey (id : string) | OpDeleteUpstreamKeys (resource_id : string)
| OpReplaceUpstreamKeys (resource_id : string) (ks : list UpstreamKeyRecord)
| OpInsertMcpServer (r : McpServerRecord) | OpUpdateMcpServer (r : McpServerRecord)
| OpDeleteMcpServer (id : string)
| OpSetToolDefault (r : ToolDefaultRecord) | OpDeleteToolDefault (tool : string)
| OpSetToolMetadata (tool description : string) (by_ : option string)
| OpDeleteToolMetadata (tool : string)
| OpInsertSecurityEvent (e : SecurityEvent)
| OpPutCredentials (server sealed : string) | OpDeleteCredentials (server : string).

Definition run_store_op (op : store_op) (s : Store) : Store :=
  match op with
  | OpInsertResource r => (insert_resource r s).1
  | OpUpdateResource r => (update_resource_row r s).1
  | OpDeleteResource id => (delete_resource_row id s).1
  | OpInsertProxyKey k => (insert_proxy_key k s).1
  | OpUpdateProxyKey k => (update_proxy_key_row k s).1
  | OpDeleteProxyKey id => (delete_proxy_key_row id s).1
  | OpInsertUpstreamKey k => (insert_upstream_key k s).1
  | OpUpdateUpstreamKey id h c => (update_upstream_key_health id h c s).1
  | OpDeleteUpstreamKey id => (delete_upstream_key id s).1
  | OpDeleteUpstreamKeys id => (delete_upstream_keys_for_resource id s).1
  | OpReplaceUpstreamKeys id ks => (replace_upstream_keys_for_resource id ks s).1
  | OpInsertMcpServer r => (insert_mcp_server r s).1
  | OpUpdateMcpServer r => (update_mcp_server_row r s).1
  | OpDeleteMcpServer id => (delete_mcp_server_row id s).1
  | OpSetToolDefault r => (set_tool_default r s).1
  | OpDeleteToolDefault t => (delete_tool_default t s).1
  | OpSetToolMetadata t d b => (set_tool_metadata t d b s).1
  | OpDeleteToolMetadata t => (delete_tool_metadata t s).1
  | OpInsertSecurityEvent e => (insert_security_event e s).1
  | OpPutCredentials id c => (put_sealed_credentials id c s).1
  | OpDeleteCredentials id => (delete_sealed_credentials id s).1
  end.

Record store_ok (s : Store) : Prop := {
  resources_keyed : keyed rs_id (st_resources s);
  proxy_keys_keyed : keyed kr_id (st_proxy_keys s);
  upstream_keys_keyed : keyed ur_id (st_upstream_keys s);
  mcp_servers_keyed : keyed mr_id (st_mcp_servers s);
  tool_defaults_keyed : keyed td_tool_name (st_tool_defaults s);
  tool_metadata_keyed : keyed tm_tool_name (st_tool_metadata s);
  (** no upstream key without its resource *)
  upstream_keys_owned : db_foreign_keys = true -> forall k u,
    st_upstream_keys s !! k = Some u -> is_Some (st_resources s !! ur_resource_id u);
}.

Lemma keyed_insert {R} (id : R -> string) m k r : id r = k -> keyed id m -> keyed id (<[k := r]> m).
Proof. intros Hk Hm k' r' [[<- <-]|[_ H]]%lookup_insert_Some; [done|by apply Hm]. Qed.

Lemma keyed_alter {R} (id : R -> string) m k f :
  (forall r, id (f r) = id r) -> keyed id m -> keyed id (alter f k m).
Proof.
  intros Hf Hm k' r [(<- & r' & H & ->)|[_ H]]%lookup_alter_Some; [|by apply Hm].
  rewrite Hf. by apply Hm.
Qed.

Lemma keyed_delete {R} (id : R -> string) m k : keyed id m -> keyed id (delete k m).
Proof. intros Hm k' r [_ H]%lookup_delete_Some. by apply Hm. Qed.

Lemma insert_row_Ok {R} table id (row : R) m m' :
  insert_row table id row m = Ok m' -> m !! id = None /\ m' = <[id := row]> m.
Proof. unfold insert_row. destruct (m !! id); [done|]. by intros [= <-]. Qed.

Lemma not_referenced id s :
  referenced id s = false -> forall k u, st_upstream_keys s !! k = Some u -> ur_resource_id u <> id.
Proof.
  unfold referenced. intros H k u Hu He. rewrite existsb_false in H.
  specialize (H u). rewrite sorted_rows_elem in H. rewrite He, String.eqb_refl in H. 
  discriminate H. eauto.
Qed.

Lemma store_ok_statement {A} (f : string -> Store -> result string (Store * A)) s :
  store_ok s ->
  (forall now s' a, store_ok (next_statement s) -> f now (next_statement s) = Ok (s', a) ->
     store_ok s') -> store_ok (statement f s).1.
Proof.
  intros H Hf. apply statement_inv; [done| |done]. destruct H. by constructor.
Qed.

(** Inversion of the body of a statement. *)
Ltac statement_body :=
  apply store_ok_statement; [assumption|]; intros now s' a Hok H;
  repeat match goal with
  | K : context [update_row] |- _ => unfold update_row in K
  | K : context [delete_row] |- _ => unfold delete_row in K
  end; cbn beta iota zeta in H;
  repeat match type of H with
  | mbind _ _ = Ok _ =>
      let m := fresh "m" in let Hi := fresh "Hi" in
      apply bind_Ok_inv in H as (m & Hi & H); apply insert_row_Ok in Hi as [Hi ->]
  | context [if ?b then _ else _] => let E := fresh "E" in destruct b eqn:E
  end; [..|idtac]; try discriminate H; injection H as <- <-; destruct Hok; constructor; cbn;
  auto using keyed_insert, keyed_alter, keyed_delete.

Lemma insert_upstream_key_ok k s : store_ok s -> store_ok (insert_upstream_key k s).1.
Proof.
  intros Hs. unfold insert_upstream_key. statement_body.
  intros Hf k' u [[<- <-]|[_ Hu]]%lookup_insert_Some; [|by eapply upstream_keys_owned0].
  cbn. rewrite Hf in E. cbn in E. apply negb_false_iff in E. by apply bool_decide_eq_true in E.
Qed.

Lemma delete_upstream_keys_ok id s :
  store_ok s -> store_ok (delete_upstream_keys_for_resource id s).1.
Proof.
  intros Hs. unfold delete_upstream_keys_for_resource. statement_body.
  - intros k u [Hu _]%map_lookup_filter_Some. by apply upstream_keys_keyed0.
  - intros Hf k u [Hu _]%map_lookup_filter_Some. by eapply upstream_keys_owned0.
Qed.

Lemma insert_upstream_keys_ok ks s : store_ok s -> store_ok (insert_upstream_keys ks s).1.
Proof.
  revert s. induction ks as [|k ks IH]; intros s Hs; [done|]. cbn.
  pose proof (insert_upstream_key_ok k s Hs). destruct (insert_upstream_key k s) as [s' [[]|e]]; auto.
Qed.

Lemma replace_upstream_keys_ok id ks s :
  store_ok s -> store_ok (replace_upstream_keys_for_resource id ks s).1.
Proof.
  intros Hs. unfold replace_upstream_keys_for_resource.
  pose proof (delete_upstream_keys_ok id s Hs).
  destruct (delete_upstream_keys_for_resource id s) as [s' [n|e]]; [|done].
  by apply insert_upstream_keys_ok.
Qed.

Lemma run_store_op_ok op s : store_ok s -> store_ok (run_store_op op s).
Proof.
  intros Hs. destruct op; cbn [run_store_op];
    try first [apply insert_upstream_key_ok|apply delete_upstream_keys_ok
              |apply replace_upstream_keys_ok]; try done;
    [unfold insert_resource|unfold update_resource_row|unfold delete_resource_row
    |unfold insert_proxy_key|unfold update_proxy_key_row|unfold delete_proxy_key_row
    |unfold update_upstream_key_health|unfold delete_upstream_key
    |unfold insert_mcp_server|unfold update_mcp_server_row|unfold delete_mcp_server_row
    |unfold set_tool_default|unfold delete_tool_default
    |unfold set_tool_metadata|unfold delete_tool_metadata
    |unfold insert_security_event|unfold put_sealed_credentials|unfold delete_sealed_credentials];
    statement_body.
  - intros Hf k u Hu. rewrite lookup_insert_is_Some'. right. by eapply upstream_keys_owned0.
  - intros Hf k u Hu. rewrite lookup_alter_is_Some. by eapply upstream_keys_owned0.
  - intros Hf k u Hu. specialize (upstream_keys_owned0 Hf k u Hu) as [r Hr].
    rewrite Hf in E. cbn in E, Hr. exists r. apply lookup_delete_Some. split; [|done]. intros ->.
    apply andb_false_iff in E as [E|E].
    + apply bool_decide_eq_false in E. by apply E.
    + by destruct (not_referenced _ _ E k u Hu).
  - intros Hf k u [(<- & u' & Hu & ->)|[_ Hu]]%lookup_alter_Some;
      by apply (upstream_keys_owned0 Hf _ _ Hu).
  - intros Hf k u [_ Hu]%lookup_delete_Some. by eapply upstream_keys_owned0.
Qed.

(** After any statements on the database of a fresh gateway, failing ones
    included, the key of every row is its id, so that a listing has each id once; and
    when foreign keys are enforced, every upstream key belongs to a resource of the
    store. *)
Theorem store_invariant ops :
  let s := fold_left (fun s op => run_store_op op s) ops empty_store in
  store_ok s /\ NoDup (rs_id <$> sorted_rows (st_resources s)) /\
  NoDup (mr_id <$> sorted_rows (st_mcp_servers s)) /\
  NoDup (kr_id <$> sorted_rows (st_proxy_keys s)).
Proof.
  intros s. assert (store_ok s) as Hs.
  { subst s. assert (store_ok empty_store) as H by by constructor.
    revert H. generalize empty_store. induction ops as [|op ops IH]; [done|].
    intros s Hs. by apply IH, run_store_op_ok. }
  split; [done|]. destruct Hs. by split_and!; apply keyed_ids.
Qed.

(** *** Security events *)

(** What is written is what is read: the event comes back unchanged. *)
Theorem security_event_roundtrip {JT : JsonText} e :
  chrono_time (se_timestamp e) -> (nesting (se_details e) < 128)%nat ->
  row_to_security_event (security_row e) = Ok e.
Proof.
  intros Ht Hd. destruct e as [t rid tool k v d]. unfold row_to_security_event. cbn in *.
  rewrite rfc3339_roundtrip by done. cbn. rewrite json_text_roundtrip by done.
  by destruct k, v.
Qed.
End Invariant.

(** An engine for the examples: it never fails. *)
Definition steady_db : Database :=
  {| db_failure := fun _ => None; db_now := fun _ => "2026-01-01T00:00:00Z";
     db_violation := fun s => s; db_decode_error := fun s => s; db_foreign_keys := true |}.

Definition demo_event : SecurityEvent :=
  mkSecurityEvent 5 "exa" None AdminAudit SevInfo (JObject [("action", JString "create")]).

Lemma security_event_roundtrip_witness :
  row_to_security_event (DB := steady_db) (JR := stream_reader) (RF := binary_times)
    (security_row (SE := stream_serializers) (RF := binary_times) demo_event) = Ok demo_event.
Proof.
  apply (security_event_roundtrip (DB := steady_db) (JT := stream_text) (RF := binary_times));
    [done|cbn; lia].
Defined.
