(* ===== verification/ConfigMerge.v ===== *)
(** * Persisted configuration ([store/config_merge.rs], [admin/crud.rs], [admin/mcp.rs])

    Entries that an administrator adds at run time are written to the store and
    merged into the YAML configuration at the next start: an entry of the same id
    in the YAML wins, the others are appended in the order of their ids. *)

From S2P Require Import Prelude RustStr Naming Errors Config Egress OAuthConfig Render Observe.
From S2P Require Import Integrity ConfigJson Store.
From Stdlib Require Import Ascii.

Local Open Scope string_scope.
Local Open Scope list_scope.
Local Open Scope Z_scope.
Local Open Scope gateway_scope.

(** ** Writing: configuration to row *)

Definition i64_max : Z := 2 ^ 63 - 1.

(** [usize as i64] and [usize::try_from(i64)]. *)
Definition as_i64 (n : nat) : Z :=
  let w := wrapping 64 (Z.of_nat n) in if w <=? i64_max then w else w - 2 ^ 64.
Definition usize_try_from (z : Z) : option nat := if 0 <=? z then Some (Z.to_nat z) else None.

Section Rows.
Context {SE : Serializers} {RF : Rfc3339}.

Definition resource_config_json (r : ApiResource) : JSON :=
  JObject [("auth", to_value (ar_auth r)); ("key_pool", to_value (key_pool r));
           ("limits", to_value (ar_limits r))].

Definition to_db_resource (r : ApiResource) : Resource :=
  mkResource (ar_id r) (ar_domain r) (ar_provider r) (base_url r) (Some (ar_description r))
    (value_to_string (resource_config_json r)) "" "".

Definition proxy_key_scope_json (k : ProxyKey) : JSON :=
  JObject [("allowed_servers", to_value (allowed_servers k));
           ("allowed_tool_names", to_value (allowed_tool_names k));
           ("allowed_tools", to_value (allowed_tools k));
           ("denied_tools", to_value (denied_tools k));
           ("discovery_mode", to_value (discovery_mode k));
           ("expires_at", @to_value _ opt_time (expires_at k));
           ("limits", to_value (pk_limits k));
           ("response_format", to_value (pk_response_format k));
           ("token_digest", to_value (token_digest k));
           ("token_ref", to_value (token_ref k))].

Definition to_db_proxy_key (k : ProxyKey) : ProxyKeyRecord :=
  mkProxyKeyRecord (pk_id k) (pk_display_name k) (as_i64 (default_tool_page_size k))
    (value_to_string (proxy_key_scope_json k)) "" "".

Definition server_config_json (s : McpServerConfig) : JSON :=
  JObject [("auth", to_value (ms_auth s));
           ("health_check", @to_value _ HealthCheckConfig_serde (health_check_enabled s));
           ("limits", to_value (ms_limits s));
           ("security", to_value (ms_security s))].

Definition to_db_record (s : McpServerConfig) : McpServerRecord :=
  mkMcpServerRecord (ms_id s) (ms_domain s) (ms_provider s) (ms_url s) (Some (ms_description s))
    (value_to_string (server_config_json s)) "" "".
End Rows.

(** ** Reading: row to configuration *)

Section Reading.
Context {JR : JsonReader} {RF : Rfc3339}.

Record ResourceConfigJson := mkResourceConfigJson {
  rc_limits : option UpstreamLimits;
  rc_auth : UpstreamAuth;
  rc_key_pool : option KeyPoolConfig;
}.

Definition ResourceConfigJson_from (v : JSON) : option ResourceConfigJson :=
  get ← struct_fields ["limits"; "auth"; "key_pool"] v;
  l ← defaulted None get "limits";
  a ← defaulted AuthNone get "auth";
  p ← defaulted None get "key_pool";
  Some (mkResourceConfigJson l a p).

Definition resource_from_record (row : Resource) : option ApiResource :=
  extra ← from_json ResourceConfigJson_from (rs_config_json row);
  Some (mkApiResource (rs_id row) (rs_domain row) (rs_provider row) (rs_base_url row)
          (default "" (rs_description row)) (rc_auth extra) (rc_key_pool extra) [] None
          SecurityConfig_default (rc_limits extra)).

Record McpServerConfigJson := mkMcpServerConfigJson {
  mc_auth : UpstreamAuth;
  mc_security : SecurityConfig;
  mc_limits : option UpstreamLimits;
  mc_health_check : bool;
}.

Definition McpServerConfigJson_from (v : JSON) : option McpServerConfigJson :=
  get ← struct_fields ["auth"; "security"; "limits"; "health_check"] v;
  a ← defaulted AuthNone get "auth";
  s ← defaulted SecurityConfig_default get "security";
  l ← defaulted None get "limits";
  h ← @defaulted _ HealthCheckConfig_serde default_health_check_enabled get "health_check";
  Some (mkMcpServerConfigJson a s l h).

Definition mcp_server_from_record (row : McpServerRecord) : option McpServerConfig :=
  extra ← from_json McpServerConfigJson_from (mr_config_json row);
  Some (mkMcpServerConfig (mr_id row) (mr_domain row) (mr_provider row) (mr_url row)
          (default "" (mr_description row)) (mc_auth extra) (mc_security extra)
          (mc_health_check extra) (mc_limits extra)).

Record ProxyKeyScopeJson := mkProxyKeyScopeJson {
  sj_allowed_tools : list string;
  sj_denied_tools : list string;
  sj_allowed_servers : list string;
  sj_allowed_tool_names : list string;
  sj_limits : option KeyLimits;
  sj_token_ref : option string;
  sj_token_digest : option string;
  sj_expires_at : option Z;
  sj_discovery_mode : option string;
  sj_response_format : option ResponseFormat;
}.

Definition ProxyKeyScopeJson_from (v : JSON) : option ProxyKeyScopeJson :=
  get ← struct_fields ["allowed_tools"; "denied_tools"; "allowed_servers"; "allowed_tool_names";
                       "limits"; "token_ref"; "token_digest"; "expires_at"; "discovery_mode";
                       "response_format"] v;
  tools ← defaulted [] get "allowed_tools";
  denied ← defaulted [] get "denied_tools";
  servers ← defaulted [] get "allowed_servers";
  names ← defaulted [] get "allowed_tool_names";
  limits ← defaulted None get "limits";
  tref ← defaulted None get "token_ref";
  digest ← defaulted None get "token_digest";
  expires ← @defaulted _ opt_time None get "expires_at";
  mode ← defaulted None get "discovery_mode";
  format ← defaulted None get "response_format";
  Some (mkProxyKeyScopeJson tools denied servers names limits tref digest expires mode format).

Definition proxy_key_from_record (row : ProxyKeyRecord) : option ProxyKey :=
  sc ← from_json ProxyKeyScopeJson_from (kr_scope_json row);
  Some (mkProxyKey (kr_id row) (kr_display_name row) (sj_allowed_tools sc) (sj_denied_tools sc)
          (sj_allowed_servers sc) (sj_allowed_tool_names sc) (sj_limits sc) (sj_token_ref sc)
          (sj_token_digest sc) (sj_expires_at sc)
          (default 20%nat (usize_try_from (kr_default_tool_page_size row)))
          (sj_discovery_mode sc) (sj_response_format sc)).
End Reading.

(** ** Merging *)

Record MergeReport := mkMergeReport {
  added_resources : list string;
  added_mcp_servers : list string;
  added_proxy_keys : list string;
  shadowed : list string;
  skipped_invalid : list string;
}.

(** The loop over the rows of one table: the entries so far and what was added,
    shadowed and skipped. *)
Record Merging (E : Type) := mkMerging {
  mg_entries : list E;
  mg_added : list string;
  mg_shadowed : list string;
  mg_skipped : list string;
}.
Arguments mkMerging {E}. Arguments mg_entries {E}. Arguments mg_added {E}.
Arguments mg_shadowed {E}. Arguments mg_skipped {E}.

Section Loop.
Context {Row Entry : Type} (row_id : Row -> string) (entry_id : Entry -> string)
  (read : Row -> option Entry) (entity : string).

Definition merge_row (m : Merging Entry) (row : Row) : Merging Entry :=
  if existsb (fun e => entry_id e =s row_id row) (mg_entries m)
  then mkMerging (mg_entries m) (mg_added m)
         (mg_shadowed m ++ [entity +:+ ":" +:+ row_id row]) (mg_skipped m)
  else match read row with
       | Some e => mkMerging (mg_entries m ++ [e]) (mg_added m ++ [row_id row])
                     (mg_shadowed m) (mg_skipped m)
       | None => mkMerging (mg_entries m) (mg_added m) (mg_shadowed m)
                   (mg_skipped m ++ [entity +:+ ":" +:+ row_id row])
       end.

Definition merge_rows (rows : list Row) (m : Merging Entry) : Merging Entry :=
  fold_left merge_row (sort_by (fun a b => String.leb (row_id a) (row_id b)) rows) m.
End Loop.

Section Merge.
Context {JR : JsonReader} {RF : Rfc3339}.

Definition merge_db_into_config (c : GatewayConfig) (resources : list Resource)
    (servers : list McpServerRecord) (key_rows : list ProxyKeyRecord)
    : GatewayConfig * MergeReport :=
  let rs := merge_rows rs_id ar_id resource_from_record "resource" resources
              (mkMerging (api_resources c) [] [] []) in
  let ms := merge_rows mr_id ms_id mcp_server_from_record "mcp_server" servers
              (mkMerging (mcp_servers c) [] (mg_shadowed rs) (mg_skipped rs)) in
  let ks := merge_rows kr_id pk_id proxy_key_from_record "proxy_key" key_rows
              (mkMerging (proxy_keys c) [] (mg_shadowed ms) (mg_skipped ms)) in
  (with_proxy_keys (with_mcp_servers (with_api_resources c (mg_entries rs)) (mg_entries ms))
     (mg_entries ks),
   mkMergeReport (mg_added rs) (mg_added ms) (mg_added ks) (mg_shadowed ks) (mg_skipped ks)).

(** A key from the store is dropped when its credentials are not valid. *)
Definition keep_key (c : GatewayConfig) (added : list string) (k : ProxyKey) : bool :=
  if existsb (String.eqb (pk_id k)) added
  then is_Ok (validate_key_credentials (with_proxy_keys c [k])) else true.

Context {DB : Database}.

Definition load_db_entries (s : Store)
    : Store * result StoreError (list Resource * list McpServerRecord * list ProxyKeyRecord) :=
  match list_resources_rows s with
  | (s, Err e) => (s, Err e)
  | (s, Ok rs) =>
      match list_mcp_server_rows s with
      | (s, Err e) => (s, Err e)
      | (s, Ok ms) =>
          match list_proxy_keys s with
          | (s, Err e) => (s, Err e)
          | (s, Ok ks) => (s, Ok (rs, ms, ks))
          end
      end
  end.

Definition merge_db_config (c : GatewayConfig) (s : Store)
    : Store * result StoreError (GatewayConfig * MergeReport) :=
  match load_db_entries s with
  | (s, Err e) => (s, Err e)
  | (s, Ok (rs, ms, ks)) =>
      let '(c, report) := merge_db_into_config c rs ms ks in
      (s, Ok (with_proxy_keys c (List.filter (keep_key c (added_proxy_keys report)) (proxy_keys c)),
              report))
  end.
End Merge.

(** ** Starting ([main.rs]) *)

Section Start.
Context {JR : JsonReader} {RF : Rfc3339} {DB : Database} {UP : UrlParser}.

(** [parse_config_file] after the YAML has been read. *)
Definition check_config_file (c : GatewayConfig) : result AsterlaneError GatewayConfig :=
  _ ← validate_key_credentials c;
  _ ← validate_http c;
  _ ← validate_oauth c;
  Ok c.

Definition load_serve_config (yaml : GatewayConfig) (store : option Store)
    : option Store * result AsterlaneError GatewayConfig :=
  match check_config_file yaml with
  | Err e => (store, Err e)
  | Ok c =>
      let '(store, merged) :=
        match store with
        | Some s =>
            let '(s, r) := merge_db_config c s in
            (Some s, map_err store_to_asterlane (fst <$> r))
        | None => (None, Ok c)
        end in
      (store, c ← merged; c ← expand_builtin_mcp c; _ ← validate_oauth c; Ok c)
  end.
End Start.

(** ** Round trips *)

(** The numbers of an entry fit their Rust types. *)
Definition limits_fit (o : option UpstreamLimits) : Prop := forall l, o = Some l -> in_range_of l.
Definition pool_fits (o : option KeyPoolConfig) : Prop := forall p, o = Some p -> in_range_of p.

Lemma option_ok {A} `{Serde A} (o : option A) :
  (forall x, o = Some x -> in_range_of x) -> (forall x, to_value x <> JNull) -> in_range_of o.
Proof. intros Hr Hn x Hx. auto. Qed.

(** An entry that is read back from its row: the parts that have no column, which
    are the endpoints, the discovery and the security settings, take their defaults. *)
Definition persisted_resource (r : ApiResource) : ApiResource :=
  mkApiResource (ar_id r) (ar_domain r) (ar_provider r) (base_url r) (ar_description r) (ar_auth r)
    (key_pool r) [] None SecurityConfig_default (ar_limits r).

Section RoundTrips.
Context {SE : Serializers} {JR : JsonReader} {JT : JsonText} {RF : Rfc3339}.

(** A text that was printed from a shallow value is read as that value. *)
Lemma from_json_text {A} (read : JSON -> option A) v :
  (nesting v < 128)%nat -> from_json read (value_to_string v) = read v.
Proof. intros Hn. unfold from_json. by rewrite json_text_roundtrip. Qed.

Ltac shallow n :=
  eapply Nat.le_lt_trans; [apply (nesting_object _ n); fields_nesting|lia].

Lemma resource_row_roundtrip r :
  pool_fits (key_pool r) -> limits_fit (ar_limits r) ->
  resource_from_record (to_db_resource r) = Some (persisted_resource r).
Proof.
  intros Hp Hl. unfold resource_from_record, to_db_resource. cbn [rs_config_json].
  assert (in_range_of (key_pool r)) by by apply option_ok.
  assert (in_range_of (ar_limits r)) by by apply option_ok.
  assert (in_range_of (ar_auth r)) by done.
  rewrite from_json_text by (unfold resource_config_json; shallow 3%nat).
  unfold ResourceConfigJson_from, resource_config_json. by read_fields.
Qed.

Lemma server_row_roundtrip s :
  limits_fit (ms_limits s) -> in_range_of (ms_security s) ->
  mcp_server_from_record (to_db_record s) = Some s.
Proof.
  intros Hl Hs. unfold mcp_server_from_record, to_db_record. cbn [mr_config_json].
  assert (in_range_of (ms_limits s)) by by apply option_ok.
  assert (in_range_of (ms_auth s)) by done.
  assert (@in_range_of _ HealthCheckConfig_serde (health_check_enabled s)) by done.
  rewrite from_json_text by (unfold server_config_json; shallow 2%nat).
  unfold McpServerConfigJson_from, server_config_json. read_fields. by destruct s.
Qed.

Definition key_fits (k : ProxyKey) : Prop :=
  (forall l, pk_limits k = Some l -> in_range_of l) /\
  (forall t, expires_at k = Some t -> chrono_time t) /\
  Z.of_nat (default_tool_page_size k) <= i64_max.

Lemma page_size_roundtrip n : Z.of_nat n <= i64_max -> usize_try_from (as_i64 n) = Some n.
Proof.
  intros Hn. unfold i64_max in Hn. unfold as_i64, usize_try_from.
  rewrite wrapping_small by lia. rewrite (proj2 (Z.leb_le _ i64_max)) by done.
  rewrite (proj2 (Z.leb_le _ _)) by lia. by rewrite Nat2Z.id.
Qed.

Lemma key_row_roundtrip k : key_fits k -> proxy_key_from_record (to_db_proxy_key k) = Some k.
Proof.
  intros (Hl & Ht & Hp). unfold proxy_key_from_record, to_db_proxy_key. cbn [kr_scope_json].
  pose proof (strings_ok (allowed_tools k)). pose proof (strings_ok (denied_tools k)).
  pose proof (strings_ok (allowed_servers k)). pose proof (strings_ok (allowed_tool_names k)).
  pose proof (opt_string_ok (token_ref k)). pose proof (opt_string_ok (token_digest k)).
  pose proof (opt_string_ok (discovery_mode k)). pose proof (opt_time_ok _ Ht).
  assert (in_range_of (pk_limits k)) by by apply option_ok.
  assert (in_range_of (pk_response_format k)) by by apply option_ok.
  rewrite from_json_text by (unfold proxy_key_scope_json; shallow 1%nat).
  unfold ProxyKeyScopeJson_from, proxy_key_scope_json. read_fields. cbn [kr_default_tool_page_size].
  rewrite page_size_roundtrip by done. by destruct k.
Qed.
End RoundTrips.

(** ** What merging does *)

Section LoopFacts.
Context {Row Entry : Type} (row_id : Row -> string) (entry_id : Entry -> string)
  (read : Row -> option Entry) (entity : string).
Hypothesis read_id : forall r e, read r = Some e -> entry_id e = row_id r.

Notation label r := (entity +:+ ":" +:+ row_id r).

(** What the loop over [rows] does to the entries [old] and the lists of the report. *)
Record merged (old : list Entry) (rows : list Row) (m0 m : Merging Entry) : Prop := {
  merged_added : exists new,
    mg_entries m = old ++ new /\ mg_added m = mg_added m0 ++ (entry_id <$> new) /\
    Sorted (fun a b => String.leb a b = true) (entry_id <$> new) /\
    (NoDup (entry_id <$> old) -> NoDup (entry_id <$> mg_entries m)) /\
    forall e, e ∈ new <->
      exists r, r ∈ rows /\ row_id r ∉ entry_id <$> old /\ read r = Some e;
  merged_shadowed s :
    s ∈ mg_shadowed m <->
    s ∈ mg_shadowed m0 \/ exists r, r ∈ rows /\ row_id r ∈ entry_id <$> old /\ s = label r;
  merged_skipped s :
    s ∈ mg_skipped m <->
    s ∈ mg_skipped m0 \/
      exists r, r ∈ rows /\ row_id r ∉ entry_id <$> old /\ read r = None /\ s = label r;
}.

Lemma has_entry es r :
  existsb (fun e => entry_id e =s row_id r) es = bool_decide (row_id r ∈ entry_id <$> es).
Proof.
  apply eq_bool_prop_intro. rewrite bool_decide_spec, Is_true_true, existsb_elem, list_elem_of_fmap.
  split.
  - intros (e & He & E%String.eqb_eq). by exists e.
  - intros (e & E & He). exists e. split; [done|]. by apply String.eqb_eq.
Qed.

(** The loop by lists: what is fresh is decided by the entries at the start. *)
Lemma merge_loop (old : list Entry) rows m :
  NoDup (row_id <$> rows) ->
  (forall r, r ∈ rows -> row_id r ∈ entry_id <$> mg_entries m <-> row_id r ∈ entry_id <$> old) ->
  let fresh := List.filter (fun r => negb (bool_decide (row_id r ∈ entry_id <$> old))) rows in
  fold_left (merge_row row_id entry_id read entity) rows m =
  mkMerging (mg_entries m ++ omap read fresh)
    (mg_added m ++ (entry_id <$> omap read fresh))
    (mg_shadowed m ++
       ((fun r => label r) <$>
          List.filter (fun r => bool_decide (row_id r ∈ entry_id <$> old)) rows))
    (mg_skipped m ++
       ((fun r => label r) <$> List.filter (fun r => negb (bool_decide (is_Some (read r)))) fresh)).
Proof.
  revert m. induction rows as [|r rows IH]; intros m Hnd Hold.
  { cbn. rewrite !app_nil_r. by destruct m. }
  cbn in Hnd. apply NoDup_cons in Hnd as [Hr Hnd].
  cbn [fold_left]. unfold merge_row at 2. rewrite has_entry.
  assert (bool_decide (row_id r ∈ entry_id <$> mg_entries m)
          = bool_decide (row_id r ∈ entry_id <$> old)) as ->.
  { apply bool_decide_ext, Hold. by left. }
  cbn [List.filter]. destruct (bool_decide (row_id r ∈ entry_id <$> old)) eqn:Ed; cbn [negb].
  { rewrite IH; [|done|by intros r' Hr'; apply Hold; right].
    cbn [mg_entries mg_added mg_shadowed mg_skipped fmap list_fmap]. by rewrite <- !app_assoc. }
  cbn [omap list_omap List.filter]. destruct (read r) as [e|] eqn:Er; cbn [bool_decide decide_rel].
  - rewrite (bool_decide_eq_true_2 (is_Some (Some e))) by done. cbn [negb].
    rewrite IH; [|done|].
    + cbn [mg_entries mg_added mg_shadowed mg_skipped fmap list_fmap].
      rewrite (read_id _ _ Er). by rewrite <- !app_assoc.
    + intros r' Hr'. cbn [mg_entries]. rewrite fmap_app, elem_of_app. cbn.
      rewrite list_elem_of_singleton, (read_id _ _ Er), (Hold r') by (by right).
      split; [|by left]. intros [H|He]; [done|]. destruct Hr. rewrite <- He. by apply list_elem_of_fmap_2.
  - rewrite (bool_decide_eq_false_2 (is_Some None)) by (by intros []). cbn [negb].
    rewrite IH; [|done|by intros r' Hr'; apply Hold; right].
    cbn [mg_entries mg_added mg_shadowed mg_skipped fmap list_fmap]. by rewrite <- !app_assoc.
Qed.

Lemma omap_ids_sublist rows : sublist (entry_id <$> omap read rows) (row_id <$> rows).
Proof.
  induction rows as [|r rows IH]; [done|]. cbn. destruct (read r) as [e|] eqn:E; cbn.
  - rewrite (read_id _ _ E). by apply sublist_skip.
  - by apply sublist_cons.
Qed.

Lemma filter_ids_sublist p rows : sublist (row_id <$> List.filter p rows) (row_id <$> rows).
Proof.
  induction rows as [|r rows IH]; [done|]. cbn. destruct (p r); cbn;
    [by apply sublist_skip|by apply sublist_cons].
Qed.

Lemma merge_rows_merged old rows m :
  NoDup (row_id <$> rows) -> mg_entries m = old ->
  merged old rows m (merge_rows row_id entry_id read entity rows m).
Proof.
  intros Hnd Hold. unfold merge_rows.
  set (leb := fun a b => String.leb (row_id a) (row_id b)).
  assert (forall r, r ∈ sort_by leb rows <-> r ∈ rows) as Hin by (intros r; apply sort_by_elem).
  rewrite (merge_loop old); [|by rewrite sort_by_perm|by rewrite Hold].
  set (fresh := List.filter _ (sort_by leb rows)).
  assert (forall r, r ∈ fresh <-> r ∈ rows /\ row_id r ∉ entry_id <$> old) as Hfresh.
  { intros r. unfold fresh. by rewrite filter_elem, Hin, negb_true_iff, bool_decide_eq_false. }
  assert (sublist (entry_id <$> omap read fresh) (row_id <$> sort_by leb rows)) as Hsub.
  { etransitivity; [apply omap_ids_sublist|apply filter_ids_sublist]. }
  constructor; cbn [mg_entries mg_added mg_shadowed mg_skipped].
  - exists (omap read fresh). rewrite Hold. split_and!; [done|done| | |].
    + apply StronglySorted_Sorted. eapply StronglySorted_sublist; [exact Hsub|].
      apply Sorted_StronglySorted; [apply _|].
      apply (Sorted_fmap row_id), (sort_by_Sorted leb). intros x y. apply str_leb_total.
    + intros Ho. rewrite fmap_app. apply NoDup_app. split_and!; [done| |].
      * intros i Hi (e & -> & (r & Hr & He)%list_elem_of_omap)%list_elem_of_fmap.
        apply Hfresh in Hr as [_ Hr]. by rewrite (read_id _ _ He) in Hi.
      * eapply sublist_NoDup; [|exact Hsub]. by rewrite sort_by_perm.
    + intros e. rewrite list_elem_of_omap. setoid_rewrite Hfresh. naive_solver.
  - intros s. rewrite elem_of_app, list_elem_of_fmap. setoid_rewrite filter_elem.
    setoid_rewrite Hin. setoid_rewrite bool_decide_eq_true. naive_solver.
  - intros s. rewrite elem_of_app, list_elem_of_fmap. setoid_rewrite filter_elem.
    setoid_rewrite Hfresh. setoid_rewrite negb_true_iff. setoid_rewrite bool_decide_eq_false.
    setoid_rewrite eq_None_not_Some. naive_solver.
Qed.
End LoopFacts.

Section MergeFacts.
Context {JR : JsonReader} {RF : Rfc3339}.

Lemma resource_read_id row e : resource_from_record row = Some e -> ar_id e = rs_id row.
Proof. unfold resource_from_record. destruct (from_json _ _); [|done]. by intros [= <-]. Qed.
Lemma server_read_id row e : mcp_server_from_record row = Some e -> ms_id e = mr_id row.
Proof. unfold mcp_server_from_record. destruct (from_json _ _); [|done]. by intros [= <-]. Qed.
Lemma key_read_id row e : proxy_key_from_record row = Some e -> pk_id e = kr_id row.
Proof. unfold proxy_key_from_record. destruct (from_json _ _); [|done]. by intros [= <-]. Qed.

(** The three loops of a merge. *)
Lemma merge_tables c rs ms ks c' report :
  NoDup (rs_id <$> rs) -> NoDup (mr_id <$> ms) -> NoDup (kr_id <$> ks) ->
  merge_db_into_config c rs ms ks = (c', report) ->
  exists m1 m2 m3,
    merged rs_id ar_id resource_from_record "resource" (api_resources c) rs
      (mkMerging (api_resources c) [] [] []) m1 /\
    merged mr_id ms_id mcp_server_from_record "mcp_server" (mcp_servers c) ms
      (mkMerging (mcp_servers c) [] (mg_shadowed m1) (mg_skipped m1)) m2 /\
    merged kr_id pk_id proxy_key_from_record "proxy_key" (proxy_keys c) ks
      (mkMerging (proxy_keys c) [] (mg_shadowed m2) (mg_skipped m2)) m3 /\
    c' = with_proxy_keys (with_mcp_servers (with_api_resources c (mg_entries m1))
           (mg_entries m2)) (mg_entries m3) /\
    report = mkMergeReport (mg_added m1) (mg_added m2) (mg_added m3) (mg_shadowed m3)
               (mg_skipped m3).
Proof.
  intros Hr Hm Hk [= <- <-]. eexists _, _, _. split_and!; [..|done|done];
    by apply merge_rows_merged;
      [exact resource_read_id||exact server_read_id||exact key_read_id| |].
Qed.
End MergeFacts.

(** What a merge makes of one table of rows. *)
Section Table.
Context {Row Entry : Type} (row_id : Row -> string) (entry_id : Entry -> string)
  (read : Row -> option Entry) (entity : string) (yaml : list Entry) (rows : list Row).

(** The entries of the YAML stay in place; behind them come exactly the entries of the
    rows that can be read and whose id is new, in the order of their ids. *)
Definition appended (entries : list Entry) (added : list string) : Prop :=
  exists new,
    entries = yaml ++ new /\ added = entry_id <$> new /\
    Sorted (fun a b => String.leb a b = true) (entry_id <$> new) /\
    (NoDup (entry_id <$> yaml) -> NoDup (entry_id <$> entries)) /\
    forall e, e ∈ new <->
      exists row, row ∈ rows /\ row_id row ∉ entry_id <$> yaml /\ read row = Some e.

(** The rows that the YAML hides, and those that it does not but that cannot be read. *)
Definition hidden (s : string) : Prop :=
  exists row, row ∈ rows /\ row_id row ∈ entry_id <$> yaml /\ s = entity +:+ ":" +:+ row_id row.
Definition unreadable (s : string) : Prop :=
  exists row, row ∈ rows /\ row_id row ∉ entry_id <$> yaml /\ read row = None /\
    s = entity +:+ ":" +:+ row_id row.
End Table.

(** C31: the YAML wins.  When the rows of each table of the store have distinct ids, a
    merge keeps every resource, server and key of the YAML configuration, in place, and
    appends exactly the entries of the rows that can be read and whose id is new, in the
    order of their ids, as the report says; ids stay distinct, and nothing else of the
    configuration changes.  Reported as shadowed, under the name of its table, is
    exactly a row whose id the YAML has, and as skipped exactly a row whose id the YAML
    does not have and that cannot be read. *)
Theorem yaml_wins {JR : JsonReader} {RF : Rfc3339} c rs ms ks c' report :
  NoDup (rs_id <$> rs) -> NoDup (mr_id <$> ms) -> NoDup (kr_id <$> ks) ->
  merge_db_into_config c rs ms ks = (c', report) ->
  appended rs_id ar_id resource_from_record (api_resources c) rs
    (api_resources c') (added_resources report) /\
  appended mr_id ms_id mcp_server_from_record (mcp_servers c) ms
    (mcp_servers c') (added_mcp_servers report) /\
  appended kr_id pk_id proxy_key_from_record (proxy_keys c) ks
    (proxy_keys c') (added_proxy_keys report) /\
  c' = with_proxy_keys (with_mcp_servers (with_api_resources c (api_resources c'))
         (mcp_servers c')) (proxy_keys c') /\
  (forall s, s ∈ shadowed report <->
     hidden rs_id ar_id "resource" (api_resources c) rs s \/
     hidden mr_id ms_id "mcp_server" (mcp_servers c) ms s \/
     hidden kr_id pk_id "proxy_key" (proxy_keys c) ks s) /\
  (forall s, s ∈ skipped_invalid report <->
     unreadable rs_id ar_id resource_from_record "resource" (api_resources c) rs s \/
     unreadable mr_id ms_id mcp_server_from_record "mcp_server" (mcp_servers c) ms s \/
     unreadable kr_id pk_id proxy_key_from_record "proxy_key" (proxy_keys c) ks s).
Proof.
  intros Hr Hm Hk H.
  destruct (merge_tables _ _ _ _ _ _ Hr Hm Hk H) as (m1 & m2 & m3 & M1 & M2 & M3 & -> & ->).
  destruct M1 as [H1 D1 K1], M2 as [H2 D2 K2], M3 as [H3 D3 K3].
  split_and!; [exact H1|exact H2|exact H3|by destruct c|..]; intros s;
    cbn [shadowed skipped_invalid mg_shadowed mg_skipped] in *.
  - rewrite D3, D2, D1, elem_of_nil. unfold hidden. tauto.
  - rewrite K3, K2, K1, elem_of_nil. unfold unreadable. tauto.
Qed.

Definition demo_rows : list ProxyKeyRecord :=
  (to_db_proxy_key (SE := stream_serializers) (RF := binary_times) ∘
     (fun id => mkProxyKey id "from the store" [] [] [] [] None None None None 20 None None))
    <$> ["b"; "a"; "k"].

(** The YAML has the key [k]; the store has it too, and two others. *)
Lemma yaml_wins_witness :
  let '(c, report) := merge_db_into_config (JR := stream_reader) (RF := binary_times)
    (with_proxy_keys GatewayConfig_default [demo_key]) [] [] demo_rows in
  pk_id <$> proxy_keys c = ["k"; "a"; "b"] /\ shadowed report = ["proxy_key:k"] /\
  appended kr_id pk_id (proxy_key_from_record (JR := stream_reader) (RF := binary_times)) [demo_key]
    demo_rows (proxy_keys c) (added_proxy_keys report).
Proof.
  destruct (merge_db_into_config _ [] [] demo_rows) as [c report] eqn:E.
  split; [by vm_compute in E; injection E as <- <-|].
  split; [by vm_compute in E; injection E as <- <-|].
  edestruct (yaml_wins (JR := stream_reader) (RF := binary_times)
    (with_proxy_keys GatewayConfig_default [demo_key]) [] [] demo_rows)
    as (_ & _ & H & _);
    [constructor|constructor|apply (bool_decide_unpack _); vm_compute; exact I|exact E|].
  exact H.
Defined.
