(* ===== verification/SecretClients.v ===== *)
(** * Remote secret stores ([secrets/vault.rs], [infisical.rs], [assemble.rs], [config/secrets.rs])

    The clients of Vault and Infisical and the assembly of the secret store at start.
    The HTTP client is a parameter: what it answers to the [n]-th attempt of a request. *)

From S2P Require Import Prelude RustStr Naming Errors Config Secrets Render ConfigJson.
From Stdlib Require Import Ascii.

Local Open Scope string_scope.
Local Open Scope list_scope.
Local Open Scope Z_scope.
Local Open Scope gateway_scope.

(** ** Settings ([config/secrets.rs]) *)

Record VaultSecretsConfig := mkVaultSecretsConfig {
  vs_address : option string;
  vs_token_ref : string;
  vs_mount : string;
  vs_key : option string;
  vs_probe : bool;
}.

Record InfisicalSecretsConfig := mkInfisicalSecretsConfig {
  is_address : option string;
  is_token_ref : string;
  is_workspace_id : string;
  is_environment : string;
  is_probe : bool;
}.

Record SecretsConfig := mkSecretsConfig {
  sc_vault : option VaultSecretsConfig;
  sc_infisical : option InfisicalSecretsConfig;
  sc_cache_ttl_secs : Z;
  sc_remote_retries : nat;
}.

Definition SecretsConfig_default : SecretsConfig := mkSecretsConfig None None 60 2.

(** ** Requests *)

Record SecretRequest := mkSecretRequest { rq_url : string; rq_header : string * string }.

(** [shown] is the status as it prints; the body is [None] when reading it fails. *)
Inductive SecretAnswer :=
| SendTimeout
| SendConnect
| SendFailed
| Answered (status : Z) (shown : string) (body : option string).

Class SecretHttp := {
  secret_send : SecretRequest -> nat -> SecretAnswer;
  (** a probe: the error of a request that could not be sent *)
  probe_send : string -> option string;
}.

Definition map_reqwest_send_error (ref_uri : string) (a : SecretAnswer) : SecretError :=
  match a with
  | SendTimeout => transient ref_uri "request timed out"
  | SendConnect => transient ref_uri "connection failed"
  | _ => backend_error ref_uri "request failed"
  end.

Definition is_success (status : Z) : bool := (200 <=? status) && (status <? 300).

(** What both clients do with an answer; [read] takes the secret out of the body. *)
Definition read_answer (label : string) (ref_uri : string)
    (read : option string -> result SecretError string) (a : SecretAnswer)
    : result SecretError string :=
  match a with
  | Answered status shown body =>
      if is_success status then read body else Err (map_http_status ref_uri label shown status)
  | a => Err (map_reqwest_send_error ref_uri a)
  end.

(** ** Vault *)

Record VaultConfig := mkVaultConfig {
  vc_address : string; vc_token : string; vc_mount : string; vc_key : option string }.

Record InfisicalConfig := mkInfisicalConfig {
  ic_address : string; ic_token : string; ic_workspace_id : string; ic_environment : string }.

Section Clients.
Context {JR : JsonReader}.

Definition vault_request (c : VaultConfig) (r : SecretRef) : SecretRequest :=
  mkSecretRequest
    (trim_end_matches "/" (vc_address c) +:+ "/v1/" +:+ vc_mount c +:+ "/data/" +:+ path r)
    ("X-Vault-Token", vc_token c).

(** [VaultKvResponse]: the map under [data.data]. *)
Definition VaultKvResponse_from (v : JSON) : option (list (string * JSON)) :=
  get ← struct_fields ["data"] v;
  d ← get "data";
  get ← struct_fields ["data"] d;
  kv ← get "data";
  fs ← as_object kv;
  Some (json_map fs).

Definition vault_read (c : VaultConfig) (ref_uri : string) (body : option string)
    : result SecretError string :=
  kv ← ok_or (backend_error ref_uri "invalid vault response") (b ← body; from_json VaultKvResponse_from b);
  let key := default "value" (vc_key c) in
  ok_or (backend_error ref_uri ("key `" +:+ key +:+ "` not found in vault KV data"))
    (v ← obj_get key kv; as_str v).

Definition vault_answer (c : VaultConfig) (r : SecretRef) : SecretAnswer -> result SecretError string :=
  read_answer "vault" (ref_to_string r) (vault_read c (ref_to_string r)).

Definition vault_resolve {SH : SecretHttp} (c : VaultConfig) (r : SecretRef) (attempt : nat)
    : result SecretError string :=
  vault_answer c r (secret_send (vault_request c r) attempt).

(** ** Infisical *)

Definition infisical_request (c : InfisicalConfig) (r : SecretRef) : SecretRequest :=
  mkSecretRequest
    (trim_end_matches "/" (ic_address c) +:+ "/api/v3/secrets/raw/" +:+ path r
     +:+ "?workspaceId=" +:+ ic_workspace_id c +:+ "&environment=" +:+ ic_environment c)
    ("Authorization", "Bearer " +:+ ic_token c).

Definition InfisicalResponse_from (v : JSON) : option string :=
  get ← struct_fields ["secret"] v;
  s ← get "secret";
  get ← struct_fields ["secretValue"] s;
  v ← get "secretValue";
  as_str v.

Definition infisical_read (ref_uri : string) (body : option string) : result SecretError string :=
  ok_or (backend_error ref_uri "invalid infisical response")
    (b ← body; from_json InfisicalResponse_from b).

Definition infisical_answer (r : SecretRef) : SecretAnswer -> result SecretError string :=
  read_answer "infisical" (ref_to_string r) (infisical_read (ref_to_string r)).

Definition infisical_resolve {SH : SecretHttp} (c : InfisicalConfig) (r : SecretRef) (attempt : nat)
    : result SecretError string :=
  infisical_answer r (secret_send (infisical_request c r) attempt).

(** ** Assembly *)

Record SecretSettings := mkSecretSettings {
  st_vault : option VaultConfig;
  st_infisical : option InfisicalConfig;
  st_cache : SecretCache;
  st_remote_retries : nat;
}.

Definition config_err (message : string) : AsterlaneError := internal ConfigInvalidYaml message.

Section Assembly.
Context {SW : SecretWorld} {SH : SecretHttp}.

Definition vault_address (c : VaultSecretsConfig) : string :=
  default (default "http://127.0.0.1:8200" (env_var "VAULT_ADDR")) (vs_address c).

Definition infisical_address (c : InfisicalSecretsConfig) : string :=
  default (default "https://app.infisical.com" (env_var "INFISICAL_API_URL")) (is_address c).

(** The store with nothing but environment and files. *)
Definition bootstrap_resolve (r : SecretRef) : result SecretError string :=
  if backend r =s "file" then file_resolve r else env_resolve r.

Definition resolve_bootstrap_token (token_ref : string) : result AsterlaneError string :=
  r ← map_err secret_to_asterlane (parse_ref token_ref);
  if negb (backend r =s "env") && negb (backend r =s "file")
  then Err (config_err "secrets token_ref must use secret://env/... or secret://file/... (bootstrap only)")
  else
    secret ← map_err secret_to_asterlane (bootstrap_resolve r);
    let token := trim secret in
    if is_empty token then Err (config_err "secrets token_ref resolved to an empty token")
    else Ok token.

Definition probe (label url : string) : result AsterlaneError () :=
  match probe_send url with
  | None => Ok tt
  | Some e =>
      Err (config_err (label +:+ " unreachable during startup probe (" +:+ url +:+ "): " +:+ e))
  end.

Definition assemble_vault (c : VaultSecretsConfig) : result AsterlaneError VaultConfig :=
  token ← resolve_bootstrap_token (vs_token_ref c);
  let address := vault_address c in
  _ ← (if vs_probe c then probe "vault" (trim_end_matches "/" address +:+ "/v1/sys/health") else Ok tt);
  Ok (mkVaultConfig address token (vs_mount c) (vs_key c)).

Definition assemble_infisical (c : InfisicalSecretsConfig) : result AsterlaneError InfisicalConfig :=
  if is_empty (trim (is_workspace_id c))
  then Err (config_err "secrets.infisical.workspace_id must be non-empty")
  else
    token ← resolve_bootstrap_token (is_token_ref c);
    let address := infisical_address c in
    _ ← (if is_probe c then probe "infisical" (trim_end_matches "/" address +:+ "/api/status") else Ok tt);
    Ok (mkInfisicalConfig address token (is_workspace_id c) (is_environment c)).

Definition if_configured {A B} (f : A -> result AsterlaneError B) (o : option A)
    : result AsterlaneError (option B) :=
  match o with
  | None => Ok None
  | Some a => b ← f a; Ok (Some b)
  end.

Definition secret_store_from_secrets_config (c : SecretsConfig) : result AsterlaneError SecretSettings :=
  v ← if_configured assemble_vault (sc_vault c);
  i ← if_configured assemble_infisical (sc_infisical c);
  Ok (mkSecretSettings v i (from_ttl_secs (sc_cache_ttl_secs c)) (sc_remote_retries c)).

(** The world of the assembled store: its remote backends are the two clients. *)
Definition assembled (s : SecretSettings) : SecretWorld := {|
  env_var := env_var;
  read_to_string := read_to_string;
  to_uppercase := to_uppercase;
  vault := vault_resolve <$> st_vault s;
  infisical := infisical_resolve <$> st_infisical s;
|}.

(** The store's answer for a reference. *)
Definition store_resolve {BK : Backon} (s : SecretSettings) (r : SecretRef) (now later : Z)
    : outcome (SecretCache * result SecretError string) :=
  resolve (SW := assembled s) r (st_remote_retries s) now later (st_cache s).
End Assembly.
End Clients.

(** ** Retrying *)

(** An attempt that ends the retrying. *)
Definition settled (a : result SecretError string) : Prop := forall e, a = Err e -> is_retryable e = false.

Lemma retry_settles {BK : Backon} {BL : BackonLaws BK} n j op :
  (j <= n)%nat -> (forall i, (i < j)%nat -> exists e, op i = Err e /\ is_retryable e = true) ->
  settled (op j) -> retry_remote n op = op j.
Proof.
  intros Hj Hi Hs. unfold retry_remote.
  destruct (retry_when_spec is_retryable n op) as (k & Hk & -> & Hb & He).
  destruct (Nat.lt_trichotomy k j) as [Hlt|[->|Hlt]]; [|done|].
  - destruct (Hi k Hlt) as (e & E & Er). destruct He as [->|He]; [lia|].
    by rewrite (He _ E) in Er.
  - destruct (Hb j Hlt) as (e & E & Er). by rewrite (Hs _ E) in Er.
Qed.

Section Answers.
Context {JR : JsonReader}.

(** An answer that is worth another attempt. *)
Definition transient_answer (a : SecretAnswer) : bool :=
  match a with
  | SendTimeout | SendConnect => true
  | SendFailed => false
  | Answered status _ _ => (500 <=? status) && (status <? 600)
  end.

Lemma read_answer_transient label ref_uri read a :
  transient_answer a = true ->
  exists e, read_answer label ref_uri read a = Err e /\ is_retryable e = true.
Proof.
  destruct a as [| | |st sh b]; cbn; eauto. intros Ht.
  assert (is_success st = false) as -> by (unfold is_success; lia). unfold map_http_status. rewrite Ht.
  eauto.
Qed.

Lemma read_answer_settled label ref_uri read a :
  (forall b, settled (read b)) -> transient_answer a = false -> settled (read_answer label ref_uri read a).
Proof.
  intros Hr Ht e. destruct a as [| | |st sh b]; cbn in *; try done; try by intros [= <-].
  destruct (is_success st); [apply Hr|]. unfold map_http_status. rewrite Ht. by intros [= <-].
Qed.

Lemma vault_read_settled c u b : settled (vault_read c u b).
Proof.
  intros e. unfold vault_read. destruct (b ≫= _) as [kv|]; cbn; [|by intros [= <-]].
  destruct (obj_get _ kv ≫= _); cbn; [done|by intros [= <-]].
Qed.

Lemma infisical_read_settled u b : settled (infisical_read u b).
Proof. intros e. unfold infisical_read. destruct (b ≫= _); cbn; [done|by intros [= <-]]. Qed.
End Answers.

(** What the gateway resolves for a reference to Vault is what Vault answers.  With
    the assembled store and the reference not in its cache: after at most as many
    timeouts, failed connections and server errors as there are retries, the next answer
    decides, without further requests: the string under the configured key of a KV
    document is the secret, and any other answer is an error. *)
Theorem vault_answer_decides {JR : JsonReader} {SW : SecretWorld} {SH : SecretHttp} {BK : Backon}
    {BL : BackonLaws BK} s c r j now later :
  st_vault s = Some c -> backend r = "vault" -> ce_entries (st_cache s) !! ref_to_string r = None ->
  (j <= st_remote_retries s)%nat ->
  (forall i, (i < j)%nat -> transient_answer (secret_send (vault_request c r) i) = true) ->
  transient_answer (secret_send (vault_request c r) j) = false ->
  match vault_answer c r (secret_send (vault_request c r) j) with
  | Ok v => forall cache, cache_insert (ref_to_string r) v later (st_cache s) = Returns cache ->
      store_resolve s r now later = Returns (cache, Ok v)
  | Err e => store_resolve s r now later = Returns (st_cache s, Err e)
  end.
Proof.
  intros Hc Hb Hm Hj Hi Ha. unfold store_resolve, resolve. rewrite Hb. cbn [String.eqb Ascii.eqb Bool.eqb orb].
  unfold resolve_remote.
  assert (cache_get (ref_to_string r) now (st_cache s) = (st_cache s, None)) as ->.
  { unfold cache_get. rewrite Hm. by case_if. }
  assert (forall n, fetch_remote (SW := assembled s) r n = vault_resolve c r n) as Hf.
  { intros n. unfold fetch_remote. rewrite Hb. cbn. by rewrite Hc. }
  rewrite (retry_settles _ j); [|done| |].
  - rewrite Hf. change (vault_answer c r (secret_send (vault_request c r) j)) with (vault_resolve c r j).
    destruct (vault_resolve c r j) as [v|e]; [|done]. intros cache Hins. by rewrite Hins.
  - intros i Hlt. rewrite Hf. apply read_answer_transient, Hi, Hlt.
  - rewrite Hf. apply read_answer_settled; [|done]. intros b. apply vault_read_settled.
Qed.

(** An error says the backend of the reference, the kind of failure and the name of the
    key: neither the path of the secret, nor the token, nor anything of the body. *)
Lemma vault_errors_hide {JR : JsonReader} c c' r r' a e :
  vc_key c = vc_key c' ->
  redact_secret_ref (ref_to_string r) = redact_secret_ref (ref_to_string r') ->
  vault_answer c r a = Err e -> vault_answer c' r' a = Err e.
Proof.
  intros Hk Hr. unfold vault_answer, read_answer, vault_read, map_reqwest_send_error, map_http_status,
    backend_error, transient. by rewrite Hr, Hk.
Qed.

(** ** Where the tokens come from *)

Section Bootstrap.
Context {JR : JsonReader} {SW : SecretWorld} {SH : SecretHttp}.

(** [token] is the trimmed secret behind [token_ref], read from environment or file. *)
Definition local_token (token_ref token : string) : Prop :=
  exists r secret, parse_ref token_ref = Ok r /\ (backend r = "env" \/ backend r = "file") /\
    bootstrap_resolve r = Ok secret /\ token = trim secret /\ token <> "".

Lemma bootstrap_token_local token_ref token :
  resolve_bootstrap_token token_ref = Ok token -> local_token token_ref token.
Proof.
  unfold resolve_bootstrap_token. intros (r & Hr%map_err_Ok_inv & H)%bind_Ok_inv.
  case_if_in H; [done|]. apply bind_Ok_inv in H as (secret & Hs%map_err_Ok_inv & H).
  cbn zeta in H. case_if_in H; [done|]. injection H as <-. exists r, secret.
  split; [done|]. split; [|split; [done|split; [done|]]].
  - destruct (String.eqb_spec (backend r) "env"); [by left|].
    destruct (String.eqb_spec (backend r) "file"); [by right|done].
  - intros Hn. by rewrite Hn in *.
Qed.

Lemma if_configured_Ok {A B} (f : A -> result AsterlaneError B) o b :
  if_configured f o = Ok b ->
  match o with Some a => exists x, b = Some x /\ f a = Ok x | None => b = None end.
Proof.
  destruct o as [a|]; cbn; [|by intros [= <-]]. intros (x & Hx & [= <-])%bind_Ok_inv. eauto.
Qed.
End Bootstrap.

(** The store of secrets never needs itself to start.  When it is assembled, the
    clients are exactly the configured ones; the token of each is what an environment
    variable or a file holds, trimmed and not empty; a store with a probe answered it;
    and a reference to any other backend in place of a token stops the start. *)
Theorem bootstrap_is_local {JR : JsonReader} {SW : SecretWorld} {SH : SecretHttp} c s :
  secret_store_from_secrets_config c = Ok s ->
  match sc_vault c with
  | None => st_vault s = None
  | Some v => exists token, local_token (vs_token_ref v) token /\
      st_vault s = Some (mkVaultConfig (vault_address v) token (vs_mount v) (vs_key v)) /\
      (vs_probe v = true ->
       probe_send (trim_end_matches "/" (vault_address v) +:+ "/v1/sys/health") = None)
  end /\
  match sc_infisical c with
  | None => st_infisical s = None
  | Some i => exists token, local_token (is_token_ref i) token /\
      st_infisical s = Some (mkInfisicalConfig (infisical_address i) token (is_workspace_id i) (is_environment i)) /\
      (is_probe i = true ->
       probe_send (trim_end_matches "/" (infisical_address i) +:+ "/api/status") = None)
  end /\
  ce_entries (st_cache s) = ∅ /\ st_remote_retries s = sc_remote_retries c.
Proof.
  intros (v & Hv & (i & Hi & [= <-])%bind_Ok_inv)%bind_Ok_inv. cbn.
  assert (forall label url, probe label url = Ok tt -> probe_send url = None) as Hp.
  { intros label url. unfold probe. by destruct (probe_send url). }
  split_and!; try done.
  - apply if_configured_Ok in Hv. destruct (sc_vault c) as [vs|]; [|done].
    destruct Hv as (x & -> & H). unfold assemble_vault in H.
    apply bind_Ok_inv in H as (token & Ht%bootstrap_token_local & ([] & Hpr & [= <-])%bind_Ok_inv).
    exists token. split; [done|]. split; [done|]. intros E. rewrite E in Hpr. eauto.
  - apply if_configured_Ok in Hi. destruct (sc_infisical c) as [ic|]; [|done].
    destruct Hi as (x & -> & H). unfold assemble_infisical in H. case_if_in H; [done|].
    apply bind_Ok_inv in H as (token & Ht%bootstrap_token_local & ([] & Hpr & [= <-])%bind_Ok_inv).
    exists token. split; [done|]. split; [done|]. intros E'. rewrite E' in Hpr. eauto.
Qed.

(** ** An assembled store *)

Definition vault_section : SecretsConfig :=
  mkSecretsConfig (Some (mkVaultSecretsConfig (Some "http://vault/") "secret://env/TOKEN" "kv" None true))
    None 60 2.

(** A reader that knows the text of one KV document. *)
Definition kv_reader : JsonReader := {|
  json_tree := fun t =>
    if t =s "kv" then Some (JObject [("data", JObject [("data", JObject [("value", JString "s3cret")])])])
    else None;
  json_error := fun _ => "" |}.

(** Vault is busy at first. *)
Definition busy_vault : SecretHttp := {|
  secret_send := fun q n =>
    match n with
    | O => Answered 503 "503 Service Unavailable" None
    | _ => Answered 200 "200 OK" (Some "kv")
    end;
  probe_send := fun _ => None;
|}.

Definition token_world : SecretWorld := {|
  env_var := fun n => if n =s "TOKEN" then Some " token " else None;
  read_to_string := fun _ => Err "no file"; to_uppercase := fun s => s; vault := None; infisical := None |}.

Definition demo_settings : SecretSettings :=
  mkSecretSettings (Some (mkVaultConfig "http://vault/" "token" "kv" None)) None (from_ttl_secs 60) 2.

Lemma bootstrap_is_local_witness :
  secret_store_from_secrets_config (SW := token_world) (SH := busy_vault) vault_section = Ok demo_settings /\
  exists token, local_token (SW := token_world) "secret://env/TOKEN" token /\
    st_vault demo_settings = Some (mkVaultConfig "http://vault/" token "kv" None).
Proof.
  split; [vm_compute; reflexivity|].
  destruct (bootstrap_is_local (JR := kv_reader) (SW := token_world) (SH := busy_vault) vault_section
    demo_settings) as [(token & Ht & Hs & _) _]; [vm_compute; reflexivity|].
  exists token. split; [exact Ht|exact Hs].
Defined.

Definition kv_ref : SecretRef := mkSecretRef "vault" "app/key".

Lemma vault_answer_decides_witness :
  exists cache, store_resolve (JR := kv_reader) (SW := token_world) (SH := busy_vault)
    (BK := loop_backon) demo_settings kv_ref 0 1 = Returns (cache, Ok "s3cret").
Proof.
  eexists.
  apply (vault_answer_decides (JR := kv_reader) (SW := token_world) (SH := busy_vault)
    (BK := loop_backon) demo_settings (mkVaultConfig "http://vault/" "token" "kv" None) kv_ref 1 0 1).
  - reflexivity.
  - reflexivity.
  - reflexivity.
  - cbn. lia.
  - intros [|i] Hi; [reflexivity|lia].
  - reflexivity.
  - vm_compute. reflexivity.
Defined.

(** The path of a reference goes into the address as it is: a reference can name a
    request outside the configured mount, or carry a query of its own. *)
Example path_in_address :
  rq_url (vault_request (mkVaultConfig "http://vault/" "token" "kv" None) (mkSecretRef "vault" "../../sys/mounts"))
  = "http://vault/v1/kv/data/../../sys/mounts" /\
  rq_url (infisical_request (mkInfisicalConfig "http://i" "token" "w" "prod")
            (mkSecretRef "infisical" "key?environment=dev"))
  = "http://i/api/v3/secrets/raw/key?environment=dev?workspaceId=w&environment=prod".
Proof. split; vm_compute; reflexivity. Qed.
