(* ===== verification/Seal.v ===== *)
(** * Sealing of stored credentials ([secrets/seal.rs])

    What is stored is the base64 text of nonce, ciphertext and tag; the identity of
    the server is bound to it.  Base64 and ChaCha20-Poly1305 are crates, and with the
    random bytes parameters here; strings are strings of bytes. *)

From S2P Require Import Prelude RustStr Naming Errors Config Secrets GatewayAuth.
From Stdlib Require Import Ascii.

Local Open Scope string_scope.
Local Open Scope list_scope.
Local Open Scope Z_scope.
Local Open Scope gateway_scope.

Class Aead := {
  base64_encode : string -> string;
  base64_decode : string -> option string;
  aead_seal : string -> string -> string -> string -> option string;
  aead_open : string -> string -> string -> string -> option string;
}.

Definition KEY_LEN : nat := 32.
Definition TAG_LEN : nat := 16.
Definition NONCE_LEN : nat := 12.

Inductive SealError := InvalidKey | EncryptFailed | DecryptFailed.

Definition SealError_to_string (e : SealError) : string :=
  match e with
  | InvalidKey => "token encryption key must be base64 encoded 32 bytes"
  | EncryptFailed => "failed to encrypt credentials"
  | DecryptFailed => "failed to decrypt credentials"
  end.

(** The key is its 32 bytes. *)
Record TokenEncryptionKey := mkTokenEncryptionKey { key_bytes : string }.

Section Seal.
Context {A : Aead}.

Definition from_base64 (encoded : string) : result SealError TokenEncryptionKey :=
  bytes ← ok_or InvalidKey (base64_decode (trim encoded));
  if negb (String.length bytes =? KEY_LEN)%nat then Err InvalidKey
  else Ok (mkTokenEncryptionKey bytes).

(** [rng] is what the system's generator gives. *)
Definition encrypt (rng : option string) (k : TokenEncryptionKey) (aad plaintext : string)
    : result SealError string :=
  nonce ← ok_or EncryptFailed rng;
  body ← ok_or EncryptFailed (aead_seal (key_bytes k) nonce aad plaintext);
  Ok (base64_encode (nonce +:+ body)).

Definition str_take (n : nat) (s : string) : string := String.substring 0 n s.
Definition str_drop (n : nat) (s : string) : string := String.substring n (String.length s - n) s.

Definition decrypt (k : TokenEncryptionKey) (aad sealed : string) : result SealError string :=
  raw ← ok_or DecryptFailed (base64_decode (trim sealed));
  if (String.length raw <? NONCE_LEN + TAG_LEN)%nat then Err DecryptFailed
  else ok_or DecryptFailed
         (aead_open (key_bytes k) (str_take NONCE_LEN raw) aad (str_drop NONCE_LEN raw)).
End Seal.

(** The documented behaviour of the crates: base64 text has no white space and is read
    back; the tag has 16 bytes; opening undoes sealing. *)
Class AeadLaws (A : Aead) : Prop := {
  base64_roundtrip b : base64_decode (base64_encode b) = Some b;
  base64_clean b : trim (base64_encode b) = base64_encode b;
  seal_length k n aad m c :
    aead_seal k n aad m = Some c -> String.length c = (String.length m + TAG_LEN)%nat;
  open_seal k n aad m c : aead_seal k n aad m = Some c -> aead_open k n aad c = Some m;
}.

(** ** Facts *)

Lemma str_take_app a b : str_take (String.length a) (a +:+ b) = a.
Proof.
  unfold str_take. induction a as [|c a IH]; cbn; [by destruct b|]. by rewrite IH.
Qed.

Lemma str_drop_app a b : str_drop (String.length a) (a +:+ b) = b.
Proof.
  unfold str_drop. rewrite str_app_length.
  replace (String.length a + String.length b - String.length a)%nat with (String.length b) by lia.
  induction a as [|c a IH]; cbn; [apply substring_all|done].
Qed.

Section Laws.
Context {A : Aead} {L : AeadLaws A}.

Lemma encrypt_Ok rng k aad m sealed :
  encrypt rng k aad m = Ok sealed ->
  exists nonce body, rng = Some nonce /\ aead_seal (key_bytes k) nonce aad m = Some body /\
    sealed = base64_encode (nonce +:+ body).
Proof.
  unfold encrypt.
  intros (nonce & ->%ok_or_Ok_inv & (body & Hb%ok_or_Ok_inv & [= <-])%bind_Ok_inv)%bind_Ok_inv.
  eauto.
Qed.

Lemma decrypt_sealed k aad nonce body k' aad' m :
  String.length nonce = NONCE_LEN -> aead_seal (key_bytes k) nonce aad m = Some body ->
  decrypt k' aad' (base64_encode (nonce +:+ body)) =
  ok_or DecryptFailed (aead_open (key_bytes k') nonce aad' body).
Proof.
  intros Hn Hb. unfold decrypt. rewrite base64_clean, base64_roundtrip.
  cbn -[Nat.ltb NONCE_LEN TAG_LEN].
  rewrite (proj2 (Nat.ltb_ge _ _)).
  2: { rewrite str_app_length, Hn, (seal_length _ _ _ _ _ Hb). unfold NONCE_LEN. lia. }
  rewrite <- Hn, str_take_app, str_drop_app. done.
Qed.

(** A sealed text opens under the same key and identity. *)
Lemma seal_roundtrip rng k aad m sealed :
  (forall n, rng = Some n -> String.length n = NONCE_LEN) ->
  encrypt rng k aad m = Ok sealed -> decrypt k aad sealed = Ok m.
Proof.
  intros Hn (nonce & body & Hr & Hb & ->)%encrypt_Ok.
  rewrite (decrypt_sealed k aad nonce body k aad m (Hn _ Hr) Hb).
  by rewrite (open_seal _ _ _ _ _ Hb).
Qed.

(** Where the cipher refuses another key or identity, nothing is read. *)
Lemma seal_bound rng k aad m sealed k' aad' :
  (forall n, rng = Some n -> String.length n = NONCE_LEN) ->
  (forall n c, aead_seal (key_bytes k) n aad m = Some c ->
     aead_open (key_bytes k') n aad' c = None) ->
  encrypt rng k aad m = Ok sealed -> decrypt k' aad' sealed = Err DecryptFailed.
Proof.
  intros Hn Ho (nonce & body & Hr & Hb & ->)%encrypt_Ok.
  rewrite (decrypt_sealed k aad nonce body k' aad' m (Hn _ Hr) Hb).
  by rewrite (Ho _ _ Hb).
Qed.
End Laws.

(** ** An instance for the examples

    Hexadecimal digits for base64, and a cipher whose text is 16 bytes of the key and
    the identity followed by the plain text. *)
Definition plain_tag (k aad : string) : string :=
  str_take TAG_LEN (fmt_nat (String.length k) +:+ ":" +:+ aad +:+ "................").

Definition plain_aead : Aead := {|
  base64_encode := encode_hex;
  base64_decode := decode_pairs;
  aead_seal := fun k n aad m => Some (plain_tag k aad +:+ m);
  aead_open := fun k n aad c => strip_prefix (plain_tag k aad) c;
|}.

Lemma hex_not_ws c : lower_hex c = true -> (negb (ws1 (code c)) && (code c <? 128)) = true.
Proof. revert c. byte_cases. Qed.

Lemma hex_ws c b d :
  lower_hex c = true -> ws1 (code c) = false /\ ws2 (code c) b = false /\ ws3 (code c) b d = false.
Proof.
  intros [H1%negb_true_iff H2%Z.ltb_lt]%hex_not_ws%andb_true_iff. split; [done|].
  unfold ws2, ws3.
  rewrite (proj2 (Z.eqb_neq (code c) 0xC2)), (proj2 (Z.eqb_neq (code c) 0xE1)),
    (proj2 (Z.eqb_neq (code c) 0xE2)), (proj2 (Z.eqb_neq (code c) 0xE3)) by lia.
  done.
Qed.

Lemma hex_all_ws c s : lower_hex c = true -> all_ws (String c s) = false.
Proof.
  intros Hc. cbn [all_ws]. destruct (hex_ws c 0 0 Hc) as (-> & _).
  destruct s as [|b s]; [done|]. destruct (hex_ws c (code b) 0 Hc) as (_ & -> & _).
  destruct s as [|d s]; [done|]. by destruct (hex_ws c (code b) (code d) Hc) as (_ & _ & ->).
Qed.

Lemma hex_trim_start s : str_forallb lower_hex s = true -> trim_start s = s.
Proof.
  destruct s as [|c s]; [done|]. cbn [str_forallb]. intros [Hc _]%andb_true_iff. cbn [trim_start].
  destruct (hex_ws c 0 0 Hc) as (-> & _).
  destruct s as [|b s]; [done|]. destruct (hex_ws c (code b) 0 Hc) as (_ & -> & _).
  destruct s as [|d s]; [done|]. by destruct (hex_ws c (code b) (code d) Hc) as (_ & _ & ->).
Qed.

Lemma hex_trim s : str_forallb lower_hex s = true -> trim s = s.
Proof.
  intros H. unfold trim. rewrite hex_trim_start by done.
  induction s as [|c s IH]; [done|]. cbn [str_forallb] in H. apply andb_true_iff in H as [Hc H].
  change (trim_end (String c s)) with
    (if all_ws (String c s) then "" else String c (trim_end s)).
  rewrite hex_all_ws by done. by rewrite IH.
Qed.

Lemma strip_prefix_app p s : strip_prefix p (p +:+ s) = Some s.
Proof. apply strip_prefix_Some. done. Qed.

Lemma plain_aead_laws : AeadLaws plain_aead.
Proof.
  split; cbn [plain_aead base64_encode base64_decode aead_seal aead_open].
  - apply decode_encode.
  - intros b. apply hex_trim, encode_hex_shape.
  - intros k n aad m c [= <-]. rewrite str_app_length. unfold plain_tag, str_take.
    rewrite substring_prefix_length; [lia|]. rewrite !str_app_length. unfold TAG_LEN. cbn. lia.
  - intros k n aad m c [= <-]. apply strip_prefix_app.
Qed.
