(* ===== verification/OAuth.v ===== *)
(** * Authorization of the gateway at MCP servers ([mcp/oauth/])

    The service that starts and completes an administrator's authorization, keeps the
    credentials, sealed in the database or in memory, and prepares clients that carry
    a token.  The protocol itself is the crate [rmcp], a parameter ([RmcpAuth]), as are
    the text of credentials and the cipher. *)

From S2P Require Import Prelude RustStr Naming Errors Config Policy Secrets Catalog.
From S2P Require Import Egress Shaping Render Retry Surface Peers OAuthConfig ConfigJson Store Seal.
From Stdlib Require Import Ascii.

Local Open Scope string_scope.
Local Open Scope list_scope.
Local Open Scope Z_scope.
Local Open Scope gateway_scope.

(** ** The protocol library *)

Record Metadata := mkMetadata {
  authorization_endpoint : string;
  token_endpoint : string;
  registration_endpoint : option string;
}.

Inductive AuthError := AuthorizationRequired | AuthOther (text : string).

(** [StoredCredentials]; instants in seconds, durations in nanoseconds. *)
Record OAuthToken := mkOAuthToken { access_token : string; expires_in : option Z }.
Record StoredCredentials := mkStoredCredentials {
  sc_client_id : string;
  token_response : option OAuthToken;
  token_received_at : option Z;
}.

Record AuthorizationRequest := mkAuthorizationRequest {
  ar_redirect_uri : string;
  ar_scopes : list string;
  ar_client_name : string;
  ar_application_type : string;
  ar_preregistered : option string;
  ar_client_secret : option string;
}.

Class RmcpAuth := {
  (** [AuthorizationManager::new], or with the guarded client *)
  am_new : string -> bool -> result string nat;
  (** the metadata, and whether they were discovered *)
  am_resolve_metadata : nat -> result string (bool * Metadata);
  (** [AuthorizationSession::new]: the session and its authorization URL *)
  session_new : nat -> Metadata -> AuthorizationRequest -> result string (nat * string);
  (** [handle_callback_with_issuer]: the credentials that it then saves *)
  handle_callback : nat -> string -> string -> option string -> result string StoredCredentials;
  (** [initialize_from_store]: ready, and whether the old credentials are dropped *)
  am_initialize : nat -> option StoredCredentials -> result AuthError (bool * bool);
  (** [get_access_token]: the refreshed credentials, if it had to refresh *)
  am_access_token : nat -> StoredCredentials -> result AuthError (option StoredCredentials);
  am_configure : nat -> string -> string -> result AuthError ();
  (** the query parameters of a URL, decoded *)
  query_pairs : string -> list (string * string);
  (** [serde_json] on credentials *)
  credentials_to_vec : StoredCredentials -> option string;
  credentials_from_slice : string -> option StoredCredentials;
  (** the instants, in nanoseconds, that [chrono] can represent *)
  chrono_range : Z -> bool;
}.

(** ** State *)

(** The store that a manager saves to; a memory store is a shared cell. *)
Inductive ServerCredentialStore :=
| MemoryStore (cell : nat)
| SealedStore (server : string) (key : TokenEncryptionKey).

Record Session := mkSession {
  se_handle : nat;
  se_metadata : Metadata;
  se_store : ServerCredentialStore;
}.

(** The service with the database; [oa_cells] is the heap of the memory stores. *)
Record OAuthService := mkOAuthService {
  oa_key : option TokenEncryptionKey;
  oa_repository : option Store;
  oa_memory : gmap string nat;
  oa_cells : gmap nat StoredCredentials;
  oa_next_cell : nat;
  oa_redirect_base_url : option string;
  oa_block_private : bool;
  oa_pending : PendingStore Session;
}.

Definition with_repository (s : option Store) (o : OAuthService) : OAuthService :=
  mkOAuthService (oa_key o) s (oa_memory o) (oa_cells o) (oa_next_cell o)
    (oa_redirect_base_url o) (oa_block_private o) (oa_pending o).
Definition with_memory (m : gmap string nat) (n : nat) (o : OAuthService) : OAuthService :=
  mkOAuthService (oa_key o) (oa_repository o) m (oa_cells o) n
    (oa_redirect_base_url o) (oa_block_private o) (oa_pending o).
Definition with_cells (m : gmap nat StoredCredentials) (o : OAuthService) : OAuthService :=
  mkOAuthService (oa_key o) (oa_repository o) (oa_memory o) m (oa_next_cell o)
    (oa_redirect_base_url o) (oa_block_private o) (oa_pending o).
Definition with_pending (p : PendingStore Session) (o : OAuthService) : OAuthService :=
  mkOAuthService (oa_key o) (oa_repository o) (oa_memory o) (oa_cells o) (oa_next_cell o)
    (oa_redirect_base_url o) (oa_block_private o) p.

(** ** Errors *)

Inductive AuthorizeError :=
| NotAuthorizationCode | NotConfigured | RegistrationUnsupported
| AuthorizeSecret (e : SecretError) | AuthorizeFailed (e : McpError).

Definition AuthorizeError_to_string (e : AuthorizeError) : string :=
  match e with
  | NotAuthorizationCode => "server does not use authorization_code oauth"
  | NotConfigured => "oauth.redirect_base_url is not configured"
  | RegistrationUnsupported =>
      "authorization server does not support dynamic client registration; set auth.client_id"
  | AuthorizeSecret e => SecretError_to_string e
  | AuthorizeFailed e => McpError_to_string e
  end.

Definition authorize_to_asterlane (e : AuthorizeError) : AsterlaneError :=
  match e with
  | NotAuthorizationCode => internal AdminInvalidQuery (AuthorizeError_to_string e)
  | NotConfigured | RegistrationUnsupported => internal AdminConflict (AuthorizeError_to_string e)
  | AuthorizeSecret e => secret_to_asterlane e
  | AuthorizeFailed e => mcp_to_asterlane e
  end.

Inductive CallbackError := InvalidState | CallbackExpired | NotGranted | MissingCode | ExchangeFailed.

Definition CallbackError_to_string (e : CallbackError) : string :=
  match e with
  | InvalidState => "the authorization request is invalid or has already been used"
  | CallbackExpired => "the authorization request has expired"
  | NotGranted => "the authorization server did not grant access"
  | MissingCode => "the authorization response is incomplete"
  | ExchangeFailed => "the authorization server rejected the token exchange"
  end.

Record CallbackParams := mkCallbackParams {
  cp_state : option string;
  cp_code : option string;
  cp_error : option string;
  cp_issuer : option string;
}.

Record AuthorizationStart := mkAuthorizationStart { as_url : string; as_expires_in : Z }.

Inductive LoadFailure := Unreadable | BackendFailure.

Definition setup_failure (step : string) : McpError :=
  Mcp_UpstreamFailure ("OAuth " +:+ step +:+ " failed").

Definition nonempty (o : option string) : option string :=
  s ← o; if is_empty s then None else Some s.

Section OAuth.
Context {RA : RmcpAuth} {A : Aead} {UP : UrlParser} {DB : Database}.

(** ** The service ([mod.rs]) *)

Definition AUTHORIZATION_TTL : Z := 600 * 1000000000.

(** [PendingStore::new]. *)
Definition PendingStore_new {T} (ttl : Z) : PendingStore T := mkPendingStore ttl ∅.

(** [clients]: whether the HTTP clients could be built. *)
Definition with_egress (clients : result McpError ()) (key : option TokenEncryptionKey)
    (repository : option Store) (redirect_base_url : option string) (block_private : bool)
    : result McpError OAuthService :=
  _ ← clients;
  Ok (mkOAuthService key repository ∅ ∅ 0 redirect_base_url block_private
        (PendingStore_new AUTHORIZATION_TTL)).

Definition oauth_from_config (clients : result McpError ())
    (resolve : SecretRef -> result SecretError string) (oauth : option OAuthConfig)
    (repository : option Store) (block_private : bool) : result AsterlaneError OAuthService :=
  key ← match (c ← oauth; token_encryption_key_ref c) with
        | Some reference =>
            r ← map_err secret_to_asterlane (parse_ref reference);
            secret ← map_err secret_to_asterlane (resolve r);
            key ← map_err (fun e => internal ConfigInvalidYaml
                                    ("oauth.token_encryption_key_ref: " +:+ SealError_to_string e))
                    (from_base64 secret);
            Ok (Some key)
        | None => Ok None
        end;
  map_err mcp_to_asterlane
    (with_egress clients key repository (c ← oauth; redirect_base_url c) block_private).

Definition ensure_outbound_allowed (url : string) (o : OAuthService) : result McpError () :=
  if negb (oa_block_private o) then Ok tt
  else match check_url url true with Ok _ => Ok tt | Err _ => Err Mcp_EgressBlocked end.

Definition authorization_manager (url : string) (o : OAuthService) : result McpError nat :=
  _ ← ensure_outbound_allowed url o;
  map_err (fun _ => setup_failure "client setup") (am_new url (oa_block_private o)).

Definition clear_credentials (server : string) (o : OAuthService)
    : OAuthService * result McpError () :=
  let o := with_pending (discard_server server (oa_pending o)) o in
  let o := with_memory (delete server (oa_memory o)) (oa_next_cell o) o in
  match oa_repository o with
  | None => (o, Ok tt)
  | Some s =>
      let '(s, r) := delete_sealed_credentials server s in
      (with_repository (Some s) o,
       match r with
       | Ok _ => Ok tt
       | Err _ => Err (Mcp_UpstreamFailure "failed to clear OAuth credentials")
       end)
  end.

Definition credential_store (server : string) (o : OAuthService)
    : OAuthService * result McpError ServerCredentialStore :=
  match oa_repository o, oa_key o with
  | Some _, Some key => (o, Ok (SealedStore server key))
  | Some _, None =>
      (o, Err (Mcp_UpstreamFailure
                 "OAuth credential storage requires oauth.token_encryption_key_ref"))
  | None, _ =>
      match oa_memory o !! server with
      | Some cell => (o, Ok (MemoryStore cell))
      | None =>
          let cell := oa_next_cell o in
          (with_memory (<[server := cell]> (oa_memory o)) (S cell) o, Ok (MemoryStore cell))
      end
  end.

Definition redirect_uri (o : OAuthService) : string :=
  trim_end_matches "/" (default "http://localhost" (oa_redirect_base_url o)) +:+ "/oauth/callback".

Definition secure_endpoint (endpoint : string) : result string () :=
  url ← ok_or "invalid endpoint URL" (Url_parse endpoint);
  if (scheme url =s "https") || ((scheme url =s "http") && is_loopback_host (host_str url))
  then Ok tt else Err "endpoint must use https".

(** ** Stored credentials ([credential_store.rs]) *)

(** A statement on the repository; without one there is no sealed store. *)
Definition on_repository {R} (op : Store -> Store * result StoreError R) (o : OAuthService)
    : OAuthService * option (result StoreError R) :=
  match oa_repository o with
  | Some s => let '(s, r) := op s in (with_repository (Some s) o, Some r)
  | None => (o, None)
  end.

Definition load_checked (server : string) (key : TokenEncryptionKey) (o : OAuthService)
    : OAuthService * result LoadFailure (option StoredCredentials) :=
  let '(o, r) := on_repository (get_sealed_credentials server) o in
  (o, match r with
      | Some (Ok None) => Ok None
      | Some (Ok (Some sealed)) =>
          plain ← map_err (fun _ => Unreadable) (decrypt key server sealed);
          Some <$> ok_or Unreadable (credentials_from_slice plain)
      | Some (Err _) | None => Err BackendFailure
      end).

(** [rng] is the nonce that the generator gives. *)
Definition save_sealed (rng : option string) (server : string) (key : TokenEncryptionKey)
    (c : StoredCredentials) (o : OAuthService) : OAuthService * result AuthError () :=
  let failed := AuthOther "failed to persist OAuth credentials" in
  match (plain ← ok_or failed (credentials_to_vec c);
         map_err (fun _ => failed) (encrypt rng key server plain)) with
  | Err e => (o, Err e)
  | Ok sealed =>
      let '(o, r) := on_repository (put_sealed_credentials server sealed) o in
      (o, match r with Some (Ok _) => Ok tt | _ => Err failed end)
  end.

Definition save (rng : option string) (st : ServerCredentialStore) (c : StoredCredentials)
    (o : OAuthService) : OAuthService * result AuthError () :=
  match st with
  | MemoryStore cell => (with_cells (<[cell := c]> (oa_cells o)) o, Ok tt)
  | SealedStore server key => save_sealed rng server key c o
  end.

Definition clear_store (st : ServerCredentialStore) (o : OAuthService) : OAuthService :=
  match st with
  | MemoryStore cell => with_cells (delete cell (oa_cells o)) o
  | SealedStore server _ => (on_repository (delete_sealed_credentials server) o).1
  end.

Definition load_stored (st : ServerCredentialStore) (o : OAuthService)
    : OAuthService * result LoadFailure (option StoredCredentials) :=
  match st with
  | MemoryStore cell => (o, Ok (oa_cells o !! cell))
  | SealedStore server key => load_checked server key o
  end.

(** The same for [rmcp]: [CredentialStore::load]. *)
Definition load (st : ServerCredentialStore) (o : OAuthService)
    : OAuthService * result AuthError (option StoredCredentials) :=
  let '(o, r) := load_stored st o in
  (o, map_err (fun e => match e with
                        | Unreadable => AuthorizationRequired
                        | BackendFailure => AuthOther "OAuth credential store unavailable"
                        end) r).

(** ** Starting an authorization ([authorize.rs]) *)

Definition CLIENT_NAME : string := "Asterlane".

(** [DiscoveredManager]: the manager, its metadata and its credential store. *)
Definition discovered_manager (s : McpServerConfig) (needs_registration : bool) (o : OAuthService)
    : OAuthService * result AuthorizeError (nat * Metadata * ServerCredentialStore) :=
  match authorization_manager (ms_url s) o with
  | Err e => (o, Err (AuthorizeFailed e))
  | Ok manager =>
      let '(o, st) := credential_store (ms_id s) o in
      (o, st ← map_err AuthorizeFailed st;
          r ← map_err (fun _ => AuthorizeFailed (setup_failure "metadata discovery"))
                (am_resolve_metadata manager);
          if negb r.1 then Err (AuthorizeFailed (setup_failure "metadata discovery"))
          else
            let registration := if needs_registration then registration_endpoint r.2 else None in
            if needs_registration && negb (bool_decide (is_Some registration))
            then Err RegistrationUnsupported
            else
              _ ← map_err (fun _ => AuthorizeFailed (setup_failure "metadata validation"))
                    (try_map secure_endpoint
                       ([authorization_endpoint r.2; token_endpoint r.2]
                          ++ option_list registration));
              Ok (manager, r.2, st))
  end.

Definition state_param (authorization_url : string) : option string :=
  url ← Url_parse authorization_url;
  p ← List.find (fun p => fst p =s "state") (query_pairs (default "" (query url)));
  nonempty (Some p.2).

Definition application_type (uri : string) : string :=
  match Url_parse uri with
  | Some url => if is_loopback_host (host_str url) then "native" else "web"
  | None => "web"
  end.

Definition start_authorization (resolve : SecretRef -> result SecretError string) (now : Z)
    (s : McpServerConfig) (o : OAuthService)
    : OAuthService * result AuthorizeError AuthorizationStart :=
  match ms_auth s with
  | AuthOAuth AuthorizationCode client_id client_secret_ref scopes =>
      match (_ ← ok_or NotConfigured (oa_redirect_base_url o);
             match client_secret_ref with
             | Some raw =>
                 r ← map_err AuthorizeSecret (parse_ref raw);
                 Some <$> map_err AuthorizeSecret (resolve r)
             | None => Ok None
             end) with
      | Err e => (o, Err e)
      | Ok client_secret =>
          let needs_registration := negb (bool_decide (is_Some client_id)) in
          let uri := redirect_uri o in
          let '(o, m) := discovered_manager s needs_registration o in
          match (m ← m;
                 let '(manager, metadata, st) := m in
                 let request := mkAuthorizationRequest uri scopes CLIENT_NAME (application_type uri)
                   client_id (_ ← client_id; client_secret) in
                 r ← map_err (fun _ => AuthorizeFailed (setup_failure
                        (if needs_registration then "client registration"
                         else "authorization request"))) (session_new manager metadata request);
                 state ← ok_or (AuthorizeFailed (setup_failure "authorization request"))
                           (state_param r.2);
                 Ok (state, mkSession r.1 metadata st, r.2)) with
          | Err e => (o, Err e)
          | Ok (state, session, url) =>
              (with_pending (pending_insert state (ms_id s) session now (oa_pending o)) o,
               Ok (mkAuthorizationStart url (ps_ttl (oa_pending o))))
          end
      end
  | _ => (o, Err NotAuthorizationCode)
  end.

(** ** Completing it *)

(** Until the code is sent: the session leaves the table whatever follows. *)
Definition begin_callback (now : Z) (p : CallbackParams) (o : OAuthService)
    : OAuthService * result CallbackError (string * Session * string * string) :=
  match nonempty (cp_state p) with
  | None => (o, Err InvalidState)
  | Some state =>
      let '(pending, found) := pending_take state now (oa_pending o) in
      (with_pending pending o,
       match found with
       | Err Unknown => Err InvalidState
       | Err Expired => Err CallbackExpired
       | Ok (server, session) =>
           match cp_error p with
           | Some _ => Err NotGranted
           | None => code ← ok_or MissingCode (nonempty (cp_code p));
                     Ok (server, session, code, state)
           end
       end)
  end.

(** The answer of the authorization server: the credentials are saved. *)
Definition finish_callback (rng : option string) (p : CallbackParams)
    (c : string * Session * string * string) (o : OAuthService)
    : OAuthService * result CallbackError string :=
  let '(server, session, code, state) := c in
  match handle_callback (se_handle session) code state (cp_issuer p) with
  | Err _ => (o, Err ExchangeFailed)
  | Ok credentials =>
      let '(o, r) := save rng (se_store session) credentials o in
      (o, match r with Ok _ => Ok server | Err _ => Err ExchangeFailed end)
  end.

(** [meanwhile] is what other tasks do while the code is exchanged. *)
Definition complete_authorization (now : Z) (rng : option string)
    (meanwhile : OAuthService -> OAuthService) (p : CallbackParams) (o : OAuthService)
    : OAuthService * result CallbackError string :=
  let '(o, c) := begin_callback now p o in
  match c with
  | Err e => (o, Err e)
  | Ok c => finish_callback rng p c (meanwhile o)
  end.

(** ** Connecting with stored credentials ([authorization_code.rs]) *)

Record CredentialSummary := mkCredentialSummary { cs_expires_at : option Z }.

(** [i64::try_from], [from_timestamp] and [checked_add_signed]. *)
Definition token_expiry (received_at lifetime : Z) : option Z :=
  let received := received_at * 1000000000 in
  if (2 ^ 63 - 1 <? received_at) || negb (chrono_range received) then None
  else if chrono_range (received + lifetime) then Some (received + lifetime) else None.

Definition credential_summary (server : string) (o : OAuthService)
    : OAuthService * option CredentialSummary :=
  let '(o, st) := credential_store server o in
  match st with
  | Err _ => (o, None)
  | Ok st =>
      let '(o, stored) := load_stored st o in
      (o, match stored with
          | Ok (Some c) =>
              token ← token_response c;
              Some (mkCredentialSummary
                      (received ← token_received_at c; lifetime ← expires_in token;
                       token_expiry received lifetime))
          | _ => None
          end)
  end.

Definition preflight (st : ServerCredentialStore) (o : OAuthService)
    : OAuthService * result McpError () :=
  let '(o, r) := load_stored st o in
  (o, match r with
      | Ok (Some c) =>
          if bool_decide (is_Some (token_response c)) then Ok tt else Err Mcp_UpstreamAuthRequired
      | Ok None | Err Unreadable => Err Mcp_UpstreamAuthRequired
      | Err BackendFailure => Err (Mcp_UpstreamFailure "OAuth credential store unavailable")
      end).

(** [initialize_from_store]: what the library loads, and may drop. *)
Definition initialize_from_store (manager : nat) (st : ServerCredentialStore) (o : OAuthService)
    : OAuthService * result AuthError (bool * option StoredCredentials) :=
  let '(o, loaded) := load st o in
  match loaded with
  | Err e => (o, Err e)
  | Ok loaded =>
      match am_initialize manager loaded with
      | Err e => (o, Err e)
      | Ok (ready, dropped) => (if dropped then clear_store st o else o, Ok (ready, loaded))
      end
  end.

(** [get_access_token]: refreshed credentials are saved. *)
Definition get_access_token (rng : option string) (manager : nat) (st : ServerCredentialStore)
    (loaded : option StoredCredentials) (o : OAuthService) : OAuthService * result AuthError () :=
  match (c ← ok_or AuthorizationRequired loaded; am_access_token manager c) with
  | Err e => (o, Err e)
  | Ok None => (o, Ok tt)
  | Ok (Some c) => save rng st c o
  end.

(** [connect] until the access token is asked for: the store, what it held and the
    manager. *)
Definition begin_connect (s : McpServerConfig) (client_secret : option string) (o : OAuthService)
    : OAuthService * result McpError (ServerCredentialStore * nat * option StoredCredentials) :=
  let '(o, st) := credential_store (ms_id s) o in
  match st with
  | Err e => (o, Err e)
  | Ok st =>
      let '(o, r) := preflight st o in
      match (_ ← r; authorization_manager (ms_url s) o) with
      | Err e => (o, Err e)
      | Ok manager =>
          let '(o, r) := initialize_from_store manager st o in
          (o,
           r ← map_err (fun e => match e with
                                 | AuthorizationRequired => Mcp_UpstreamAuthRequired
                                 | AuthOther _ => setup_failure "credential load"
                                 end) r;
           if negb r.1 then Err Mcp_UpstreamAuthRequired
           else
             _ ← match client_secret with
                 | Some secret =>
                     map_err (fun _ => setup_failure "client setup")
                       (am_configure manager (redirect_uri o) secret)
                 | None => Ok tt
                 end;
             Ok (st, manager, r.2))
      end
  end.

(** The answer of the authorization server, when the token has to be refreshed. *)
Definition finish_connect (rng : option string)
    (c : ServerCredentialStore * nat * option StoredCredentials) (o : OAuthService)
    : OAuthService * result McpError OAuthHttpClient :=
  let '(st, manager, loaded) := c in
  let '(o, r) := get_access_token rng manager st loaded o in
  (o, _ ← map_err (fun e => match e with
                            | AuthorizationRequired => Mcp_UpstreamAuthRequired
                            | AuthOther _ => setup_failure "token refresh"
                            end) r;
      Ok (OHC_AuthorizationCode manager)).

Definition code_connect (rng : option string) (s : McpServerConfig) (client_secret : option string)
    (o : OAuthService) : OAuthService * result McpError OAuthHttpClient :=
  let '(o, c) := begin_connect s client_secret o in
  match c with
  | Err e => (o, Err e)
  | Ok c => finish_connect rng c o
  end.
End OAuth.

(** ** Tokens of the gateway itself ([client_credentials.rs]) *)

Definition MAX_RENEW_MARGIN : Z := 30 * 1000000000.

Definition renew_margin (lifetime : Z) : Z := Z.min MAX_RENEW_MARGIN (lifetime / 2).

Record CachedToken := mkCachedToken { ct_access_token : string; renew_at : option Z }.

(** [Instant::now() + lifetime] panics when the instant cannot be represented. *)
Definition CachedToken_new (now : Z) (token : string) (expires_in : option Z)
    : outcome CachedToken :=
  match expires_in with
  | None => Returns (mkCachedToken token None)
  | Some lifetime =>
      match instant_checked_add now lifetime with
      | Some t => Returns (mkCachedToken token (Some (t - renew_margin lifetime)))
      | None => Panics
      end
  end.

Definition is_fresh (now : Z) (t : CachedToken) : bool :=
  match renew_at t with Some at_ => now <? at_ | None => true end.

(** The token that is cached; the lock of the cache is held during an exchange.  The
    answer of the authorization server at an instant is a parameter. *)
Section Tokens.
Context (exchange_answer : Z -> result string (string * option Z)).

Definition exchange (now : Z) : outcome (result AuthError CachedToken) :=
  match exchange_answer now with
  | Err _ => Returns (Err (AuthOther "token exchange failed"))
  | Ok (token, expires_in) => t ← CachedToken_new now token expires_in; Returns (Ok t)
  end.

Definition renew (now : Z) (cached : option CachedToken)
    : outcome (option CachedToken * result AuthError string) :=
  r ← exchange now;
  Returns (match r with
           | Ok t => (Some t, Ok (ct_access_token t))
           | Err e => (cached, Err e)
           end).

Definition current (now : Z) (cached : option CachedToken)
    : outcome (option CachedToken * result AuthError string) :=
  match cached with
  | Some t => if is_fresh now t then Returns (cached, Ok (ct_access_token t)) else renew now cached
  | None => renew now cached
  end.

Definition renew_rejected (now : Z) (rejected : string) (cached : option CachedToken)
    : outcome (option CachedToken * result AuthError string) :=
  match cached with
  | Some t => if negb (ct_access_token t =s rejected)
              then Returns (cached, Ok (ct_access_token t)) else renew now cached
  | None => renew now cached
  end.

Inductive StreamError := StreamAuthRequired | StreamAuth (e : AuthError) | StreamOther (text : string).

(** [call] is the request with a token, at its first and second try; [meanwhile] what
    other requests do to the cache during the first. *)
Definition with_token {T} (now later : Z) (auth_token : option string)
    (call : nat -> string -> result StreamError T)
    (meanwhile : option CachedToken -> option CachedToken) (cached : option CachedToken)
    : outcome (option CachedToken * list string * result StreamError T) :=
  '(cached, token) ← match auth_token with
                     | Some t => Returns (cached, Ok t)
                     | None => current now cached
                     end;
  match token with
  | Err e => Returns (cached, [], Err (StreamAuth e))
  | Ok token =>
      let cached := meanwhile cached in
      match call 0%nat token with
      | Err StreamAuthRequired =>
          '(cached, fresh) ← renew_rejected later token cached;
          match fresh with
          | Ok fresh => Returns (cached, [token; fresh], call 1%nat fresh)
          | Err e => Returns (cached, [token], Err (StreamAuth e))
          end
      | r => Returns (cached, [token], r)
      end
  end.
End Tokens.

(** ** The resource indicator ([resource.rs]) *)

Record MetadataResponse := mkMetadataResponse {
  mr_status : Z;
  mr_www_authenticate : list string;
  mr_document : option JSON;
}.

Class MetadataHttp := {
  (** the request without a token and within the timeout; [None] when it fails *)
  http_get : Url -> option MetadataResponse;
  (** [WWWAuthenticateParams::parse(..).resource_metadata_url] *)
  resource_metadata_url : string -> Url -> option Url;
}.

Definition same_origin (a b : Url) : bool :=
  (scheme a =s scheme b) && bool_decide (host_str a = host_str b)
  && bool_decide (url_port a = url_port b).

Definition is_identifier_for {UP : UrlParser} (server : Url) (resource : string) : bool :=
  match Url_parse resource with
  | None => false
  | Some r =>
      let prefix := trim_end_matches "/" (url_path r) in
      negb (bool_decide (is_Some (fragment r))) && same_origin server r
      && ((url_path server =s url_path r)
          || match strip_prefix prefix (url_path server) with
             | Some rest => is_empty rest || starts_with "/" rest
             | None => false
             end)
  end.

Definition well_known_url (server : Url) (suffix : string) : Url :=
  mkUrl (scheme server) (host_str server) None None (url_port server)
    ("/.well-known/oauth-protected-resource" +:+ suffix).

#[export] Instance Url_eq_dec : EqDecision Url.
Proof. solve_decision. Defined.

Definition well_known_urls (server : Url) : list Url :=
  let with_path := well_known_url server (trim_end_matches "/" (url_path server)) in
  let root := well_known_url server "" in
  if bool_decide (root = with_path) then [with_path] else [with_path; root].

Section Resource.
Context {UP : UrlParser} {MH : MetadataHttp}.

Definition challenge_pointer (server : Url) : option Url :=
  r ← http_get server;
  if negb (mr_status r =? 401) then None
  else head (omap (fun v => resource_metadata_url v server) (mr_www_authenticate r)).

Definition fetch_resource (server metadata_url : Url) : option string :=
  if negb (same_origin server metadata_url) then None
  else
    r ← http_get metadata_url;
    if negb ((200 <=? mr_status r) && (mr_status r <? 300)) then None
    else
      document ← mr_document r;
      v ← match document with JObject fs => obj_get "resource" fs | _ => None end;
      resource ← as_str v;
      if is_identifier_for server resource then Some resource else None.

Definition discover_resource (server : Url) : option string :=
  head (omap (fetch_resource server)
          (option_list (challenge_pointer server) ++ well_known_urls server)).
End Resource.

Record ClientCredentialsConfig := mkClientCredentialsConfig {
  cc_client_id : string;
  cc_client_secret : string;
  cc_scopes : list string;
  cc_resource : string;
}.

Class RmcpClientCredentials := {
  cc_validate : nat -> Metadata -> ClientCredentialsConfig -> result string ();
  cc_configure : nat -> ClientCredentialsConfig -> result string ();
  cc_exchange : nat -> ClientCredentialsConfig -> Z -> result string (string * option Z);
}.

Record TokenSource := mkTokenSource {
  tk_manager : nat;
  tk_config : ClientCredentialsConfig;
  tk_cached : option CachedToken;
}.

Section ClientCredentials.
Context {RA : RmcpAuth} {RC : RmcpClientCredentials} {UP : UrlParser} {MH : MetadataHttp}.

(** The manager, once the metadata are found and its token endpoint is safe. *)
Definition discovered_token_endpoint (s : McpServerConfig) (o : OAuthService)
    : result McpError (nat * Metadata) :=
  manager ← authorization_manager (ms_url s) o;
  r ← map_err (fun _ => setup_failure "metadata discovery") (am_resolve_metadata manager);
  if negb r.1 then Err (setup_failure "metadata discovery")
  else
    _ ← map_err (fun _ => setup_failure "metadata validation") (secure_endpoint (token_endpoint r.2));
    Ok (manager, r.2).

Definition credentials_connect (now : Z) (s : McpServerConfig) (client_secret : string)
    (o : OAuthService) : outcome (result McpError TokenSource) :=
  match ms_auth s with
  | AuthOAuth _ (Some client_id) _ scopes =>
      match (m ← discovered_token_endpoint s o;
             let resource := default (ms_url s) (url ← Url_parse (ms_url s); discover_resource url) in
             let config := mkClientCredentialsConfig client_id client_secret scopes resource in
             _ ← map_err (fun _ => setup_failure "metadata validation")
                   (cc_validate m.1 m.2 config);
             _ ← map_err (fun _ => setup_failure "client setup") (cc_configure m.1 config);
             Ok (m.1, config)) with
      | Err e => Returns (Err e)
      | Ok (manager, config) =>
          '(cached, r) ← current (cc_exchange manager config) now None;
          Returns (match r with
                   | Ok _ => Ok (mkTokenSource manager config cached)
                   | Err _ => Err (Mcp_UpstreamFailure "OAuth token exchange failed")
                   end)
      end
  | _ => Returns (Err (Mcp_InvalidToolCall "client_credentials requires auth.client_id"))
  end.

(** [connect_client]: the client by the grant, with the token source of the gateway's own. *)
Definition connect_client_by_grant {A : Aead} {DB : Database} (now : Z) (rng : option string)
    (s : McpServerConfig) (client_secret : option string) (o : OAuthService)
    : outcome (OAuthService * result McpError (OAuthHttpClient * option TokenSource)) :=
  match ms_auth s with
  | AuthOAuth ClientCredentials _ _ _ =>
      match client_secret with
      | None =>
          Returns (o, Err (Mcp_InvalidToolCall
                             "client_credentials requires auth.client_secret_ref"))
      | Some secret =>
          r ← credentials_connect now s secret o;
          Returns (o, t ← r; Ok (OHC_ClientCredentials (tk_manager t), Some t))
      end
  | AuthOAuth AuthorizationCode _ _ _ =>
      let '(o, r) := code_connect rng s client_secret o in
      Returns (o, c ← r; Ok (c, None))
  | _ => Returns (o, Err (Mcp_InvalidToolCall "server does not use oauth auth"))
  end.
End ClientCredentials.

(** ** Bodies of guarded responses ([http_client.rs]) *)

Definition MAX_BODY : Z := 1024 * 1024.

Inductive BodyError := BodyTooLarge | OpaqueHttpFailure.

(** The chunks that arrive; [None] is a failed read. *)
Fixpoint read_body_from (body : string) (chunks : list (option string)) : result BodyError string :=
  match chunks with
  | [] => Ok body
  | None :: _ => Err OpaqueHttpFailure
  | Some c :: chunks =>
      if saturating_sub MAX_BODY (Z.of_nat (String.length body)) <? Z.of_nat (String.length c)
      then Err BodyTooLarge
      else read_body_from (body +:+ c) chunks
  end.

Definition read_body (chunks : list (option string)) : result BodyError string :=
  read_body_from "" chunks.

(** ** What the administrator sees ([admin/oauth.rs]) *)

Record McpOAuthResponse := mkMcpOAuthResponse {
  or_grant : string;
  or_status : string;
  or_client_id : option string;
  or_client_secret_ref : option string;
  or_scopes : list string;
  or_expires_at : option Z;
}.

Section AdminOAuth.
Context {RA : RmcpAuth} {A : Aead} {UP : UrlParser} {DB : Database}.

(** [rejected]: the health of the server says that authorization is required. *)
Definition oauth_view (oauth : option OAuthService) (s : McpServerConfig) (rejected : bool)
    : option OAuthService * option McpOAuthResponse :=
  match ms_auth s with
  | AuthOAuth grant client_id client_secret_ref scopes =>
      let '(oauth, (status, expires)) :=
        match grant with
        | ClientCredentials => (oauth, ("automatic", None))
        | AuthorizationCode =>
            let '(oauth, summary) :=
              match oauth with
              | Some o => let '(o, r) := credential_summary (ms_id s) o in (Some o, r)
              | None => (None, None)
              end in
            (oauth, match summary with
                    | Some c => if rejected then ("authorization_required", None)
                                else ("authorized", cs_expires_at c)
                    | None => ("authorization_required", None)
                    end)
        end in
      (oauth, Some (mkMcpOAuthResponse (grant_as_str grant) status client_id client_secret_ref
                      scopes expires))
  | _ => (oauth, None)
  end.

Definition authorization_code_server (c : GatewayConfig) (id : string)
    : result AsterlaneError McpServerConfig :=
  s ← ok_or (mcp_to_asterlane (Mcp_UnknownServer id)) (mcp_server c id);
  match ms_auth s with
  | AuthOAuth AuthorizationCode _ _ _ => Ok s
  | _ => Err (internal AdminInvalidQuery "server does not use authorization_code oauth")
  end.
End AdminOAuth.

(** ** Revocation *)

Section Revocation.
Context {RA : RmcpAuth} {A : Aead} {UP : UrlParser} {DB : Database}.

(** A request to an authorization server that waits for its answer: the exchange of a
    code, or the refresh of a token while a server is connected. *)
Inductive Flight :=
| Exchanging (p : CallbackParams) (c : string * Session * string * string)
| Refreshing (server : string) (c : ServerCredentialStore * nat * option StoredCredentials).

Record OAuthWorld := mkOAuthWorld { ow_service : OAuthService; ow_flights : list Flight }.

(** What can happen to the service: authorizations start, browsers call back, servers are
    connected and shown, authorizations are revoked, and the answers of the
    authorization servers arrive, in any order.  The refreshes that [rmcp] makes by itself
    within a client that is already connected are not modelled. *)
Inductive oauth_op :=
| OpAuthorize (resolve : SecretRef -> result SecretError string) (now : Z) (s : McpServerConfig)
| OpCallback (now : Z) (p : CallbackParams)
| OpConnect (s : McpServerConfig) (secret : option string)
| OpAnswer (n : nat) (rng : option string)
| OpSummary (server : string)
| OpClear (server : string).

Definition finish (rng : option string) (f : Flight) (o : OAuthService) : OAuthService :=
  match f with
  | Exchanging p c => (finish_callback rng p c o).1
  | Refreshing _ c => (finish_connect rng c o).1
  end.

Definition run_oauth (op : oauth_op) (w : OAuthWorld) : OAuthWorld :=
  let o := ow_service w in
  let fs := ow_flights w in
  match op with
  | OpAuthorize resolve now s => mkOAuthWorld (start_authorization resolve now s o).1 fs
  | OpCallback now p =>
      let '(o, c) := begin_callback now p o in
      mkOAuthWorld o (match c with Ok c => fs ++ [Exchanging p c] | Err _ => fs end)
  | OpConnect s secret =>
      let '(o, c) := begin_connect s secret o in
      mkOAuthWorld o (match c with Ok c => fs ++ [Refreshing (ms_id s) c] | Err _ => fs end)
  | OpAnswer n rng =>
      match fs !! n with
      | Some f => mkOAuthWorld (finish rng f o) (delete n fs)
      | None => w
      end
  | OpSummary server => mkOAuthWorld (credential_summary server o).1 fs
  | OpClear server => mkOAuthWorld (clear_credentials server o).1 fs
  end.

Definition flight_server (f : Flight) : string :=
  match f with Exchanging _ (server, _, _, _) => server | Refreshing server _ => server end.
Definition flight_store (f : Flight) : ServerCredentialStore :=
  match f with Exchanging _ (_, session, _, _) => se_store session | Refreshing _ (st, _, _) => st end.

(** Each memory store is of one server; a session saves for the server it is of. *)
Definition store_of (own : nat -> string) (next : nat) (server : string)
    (st : ServerCredentialStore) : Prop :=
  match st with
  | MemoryStore cell => own cell = server /\ (cell < next)%nat
  | SealedStore s _ => s = server
  end.

Record oauth_ok (own : nat -> string) (o : OAuthService) : Prop := {
  ok_memory server cell : oa_memory o !! server = Some cell ->
    own cell = server /\ (cell < oa_next_cell o)%nat;
  ok_sessions state e : ps_entries (oa_pending o) !! state = Some e ->
    store_of own (oa_next_cell o) (pe_server e) (se_store (pe_value e));
  ok_cells cell c : oa_cells o !! cell = Some c -> (cell < oa_next_cell o)%nat;
}.

(** Nothing of the server's authorization is left. *)
Record revoked (server : string) (o : OAuthService) : Prop := {
  rv_pending state e : ps_entries (oa_pending o) !! state = Some e -> pe_server e <> server;
  rv_row s : oa_repository o = Some s -> st_oauth_credentials s !! server = None;
  rv_cell cell : oa_memory o !! server = Some cell -> oa_cells o !! cell = None;
}.

(** The part of the state that decides about credentials. *)
Definition unchanged (o o' : OAuthService) : Prop :=
  oa_pending o' = oa_pending o /\ oa_memory o' = oa_memory o /\ oa_cells o' = oa_cells o /\
  oa_next_cell o' = oa_next_cell o /\
  (st_oauth_credentials <$> oa_repository o') = (st_oauth_credentials <$> oa_repository o).

Lemma unchanged_ok own o o' : unchanged o o' -> oauth_ok own o -> oauth_ok own o'.
Proof. intros (E1&E2&E3&E4&_) [H1 H2 H3]. split; rewrite ?E1, ?E2, ?E3, ?E4; done. Qed.

Lemma unchanged_revoked server o o' : unchanged o o' -> revoked server o -> revoked server o'.
Proof.
  intros (E1&E2&E3&E4&E5) [H1 H2 H3]. split; rewrite ?E1, ?E2, ?E3; [done| |done].
  intros s Hs. rewrite Hs in E5. cbn in E5. destruct (oa_repository o) as [s0|]; [|done].
  injection E5 as ->. by apply H2.
Qed.

Lemma unchanged_refl o : unchanged o o.
Proof. done. Qed.

Lemma unchanged_trans o1 o2 o3 : unchanged o1 o2 -> unchanged o2 o3 -> unchanged o1 o3.
Proof. intros (E1&E2&E3&E4&E5) (F1&F2&F3&F4&F5). split_and!; congruence. Qed.

Lemma get_sealed_unchanged server s :
  st_oauth_credentials (get_sealed_credentials server s).1 = st_oauth_credentials s.
Proof. unfold get_sealed_credentials, statement. by destruct (db_failure _). Qed.

Lemma load_checked_unchanged server key o : unchanged o (load_checked server key o).1.
Proof.
  unfold load_checked, on_repository.
  destruct (oa_repository o) as [s|] eqn:E; [|done].
  pose proof (get_sealed_unchanged server s) as H.
  destruct (get_sealed_credentials server s) as [s' r]. cbn in H |- *.
  unfold unchanged. cbn. rewrite E. cbn. by rewrite H.
Qed.

Lemma load_stored_unchanged st o : unchanged o (load_stored st o).1.
Proof. destruct st; [done|]. apply load_checked_unchanged. Qed.

(** A server without credentials has none to load. *)
Lemma revoked_load server key o c :
  revoked server o -> (load_checked server key o).2 <> Ok (Some c).
Proof.
  intros R. unfold load_checked, on_repository.
  destruct (oa_repository o) as [s|] eqn:E; [|done].
  pose proof (rv_row _ _ R s E) as Hr. unfold get_sealed_credentials, statement.
  destruct (db_failure _); [done|]. cbn. by rewrite Hr.
Qed.

(** *** The credential store of a server *)

(** More memory stores, and those that were there are of the same servers. *)
Definition extends (own : nat -> string) (next : nat) (own' : nat -> string) (next' : nat) : Prop :=
  (next <= next')%nat /\ forall cell, (cell < next)%nat -> own' cell = own cell.

Lemma extends_refl own next : extends own next own next.
Proof. done. Qed.
#[local] Hint Resolve extends_refl : core.

Lemma extends_trans own1 n1 own2 n2 own3 n3 :
  extends own1 n1 own2 n2 -> extends own2 n2 own3 n3 -> extends own1 n1 own3 n3.
Proof.
  intros [L1 E1] [L2 E2]. split; [lia|]. intros c Hc. rewrite E2 by lia. by apply E1.
Qed.

Lemma store_of_extends own n own' n' server st :
  extends own n own' n' -> store_of own n server st -> store_of own' n' server st.
Proof.
  intros [L E]. destruct st as [cell|]; [|done]. cbn. intros [H1 H2]. rewrite E by done. split; [done|lia].
Qed.

Lemma credential_store_spec own server o :
  oauth_ok own o ->
  let o' := (credential_store server o).1 in
  exists own', oauth_ok own' o' /\
    (forall st, (credential_store server o).2 = Ok st ->
       store_of own' (oa_next_cell o') server st) /\
    (forall cell, (credential_store server o).2 = Ok (MemoryStore cell) ->
       oa_memory o' !! server = Some cell) /\
    (forall s, revoked s o -> revoked s o') /\
    extends own (oa_next_cell o) own' (oa_next_cell o').
Proof.
  intros Hok. unfold credential_store.
  destruct (oa_repository o) as [s|] eqn:Er.
  { exists own. destruct (oa_key o); cbn; split_and!; try done; by intros ? [= <-]. }
  destruct (oa_memory o !! server) as [cell|] eqn:Em.
  { exists own. cbn. split_and!; [done| | |done|done].
    - intros st [= <-]. by apply Hok.
    - by intros ? [= <-]. }
  set (cell := oa_next_cell o). cbn.
  exists (fun n => if decide (n = cell) then server else own n).
  split_and!.
  - split; cbn.
    + intros srv c [[<- <-]|[Hne Hc]]%lookup_insert_Some.
      * rewrite decide_True by done. split; [done|]. unfold cell. lia.
      * destruct (ok_memory _ _ Hok _ _ Hc) as [H1 H2].
        rewrite decide_False by (unfold cell; lia). split; [done|]. unfold cell. lia.
    + intros state e He. pose proof (ok_sessions _ _ Hok _ _ He) as H.
      destruct (se_store (pe_value e)) as [c|]; cbn in *; [|done]. destruct H as [H1 H2].
      rewrite decide_False by (unfold cell; lia). split; [done|]. unfold cell. lia.
    + intros c cr Hc. pose proof (ok_cells _ _ Hok _ _ Hc). unfold cell. lia.
  - intros st [= <-]. cbn. rewrite decide_True by done. split; [done|]. unfold cell. lia.
  - intros c [= <-]. by rewrite lookup_insert_eq.
  - intros srv [R1 R2 R3]. split; cbn; [done| |].
    + intros s' Hs'. by rewrite Er in Hs'.
    + intros c [[<- <-]|[Hne Hc]]%lookup_insert_Some; [|by apply R3].
      destruct (oa_cells o !! cell) as [cr|] eqn:Ec; [|done].
      pose proof (ok_cells _ _ Hok _ _ Ec). unfold cell in *. lia.
  - split; [cbn; lia|]. intros c Hc. cbn in Hc. rewrite decide_False; [done|]. unfold cell. lia.
Qed.

(** Saving for one server leaves the others alone. *)
Lemma save_spec own server rng st c o :
  oauth_ok own o -> store_of own (oa_next_cell o) server st ->
  oauth_ok own (save rng st c o).1 /\
  oa_pending (save rng st c o).1 = oa_pending o /\
  (forall s, s <> server -> revoked s o -> revoked s (save rng st c o).1).
Proof.
  intros Hok Hst. destruct st as [cell|srv key]; cbn in Hst |- *.
  - destruct Hst as [Hown Hlt]. split_and!; [|done|].
    + destruct Hok as [H1 H2 H3]. split; cbn; [done|done|].
      intros n cr [[<- _]|[_ H]]%lookup_insert_Some; [done|by eapply H3].
    + intros s Hne [R1 R2 R3]. split; cbn; [done|done|].
      intros n Hn. rewrite lookup_insert_ne; [by apply R3|]. intros <-.
      apply (ok_memory _ _ Hok) in Hn as [Hn _]. congruence.
  - subst srv. unfold save_sealed, on_repository.
    destruct (plain ← _; _) as [sealed|e]; [|done].
    destruct (oa_repository o) as [s|] eqn:Er; [|done].
    assert (st_oauth_credentials (put_sealed_credentials server sealed s).1 = st_oauth_credentials s
      \/ st_oauth_credentials (put_sealed_credentials server sealed s).1
         = <[server := sealed]> (st_oauth_credentials s)) as Hput.
    { unfold put_sealed_credentials, statement. destruct (db_failure _); cbn; auto. }
    destruct (put_sealed_credentials server sealed s) as [s' r]. cbn in *.
    split_and!; [by destruct Hok|done|].
    intros srv Hne [R1 R2 R3]. split; cbn; [done| |done].
    intros s0 [= <-]. destruct Hput as [->| ->]; [by apply R2|].
    rewrite lookup_insert_ne by done. by apply R2.
Qed.

Lemma delete_sealed_spec server s :
  st_oauth_credentials (delete_sealed_credentials server s).1 = st_oauth_credentials s \/
  st_oauth_credentials (delete_sealed_credentials server s).1
  = delete server (st_oauth_credentials s).
Proof. unfold delete_sealed_credentials, statement. destruct (db_failure _); cbn; auto. Qed.

(** Removing credentials keeps what holds. *)
Lemma clear_store_spec own st o :
  oauth_ok own o -> oauth_ok own (clear_store st o) /\
  oa_pending (clear_store st o) = oa_pending o /\
  oa_next_cell (clear_store st o) = oa_next_cell o /\
  (forall s, revoked s o -> revoked s (clear_store st o)).
Proof.
  intros Hok. destruct st as [cell|srv key]; cbn.
  - split_and!; [|done|done|].
    + destruct Hok as [H1 H2 H3]. split; cbn; [done|done|].
      intros c cr [_ H]%lookup_delete_Some. by eapply H3.
    + intros s [R1 R2 R3]. split; cbn; [done|done|]. intros c Hc. apply lookup_delete_None. auto.
  - unfold on_repository. destruct (oa_repository o) as [s|] eqn:Er; [|done].
    pose proof (delete_sealed_spec srv s) as Hd.
    destruct (delete_sealed_credentials srv s) as [s' r]. cbn in *.
    split_and!; [by destruct Hok|done|done|].
    intros x [R1 R2 R3]. split; cbn; [done| |done]. intros s0 [= <-].
    destruct Hd as [->| ->]; [by apply R2|]. apply lookup_delete_None. right. by apply R2.
Qed.

Lemma retained_pending {T} keep (m : gmap string (PendingEntry T)) state e :
  retain keep m !! state = Some e -> m !! state = Some e.
Proof. rewrite retain_lookup. destruct (m !! state); [|done]. by destruct (keep _). Qed.

(** A table with fewer sessions. *)
Lemma fewer_sessions own o p :
  (forall state e, ps_entries p !! state = Some e -> ps_entries (oa_pending o) !! state = Some e) ->
  oauth_ok own o -> oauth_ok own (with_pending p o) /\
  (forall s, revoked s o -> revoked s (with_pending p o)).
Proof.
  intros Hp Hok. split.
  - destruct Hok as [H1 H2 H3]. split; cbn; [done|eauto|done].
  - intros s [R1 R2 R3]. split; cbn; [eauto|done|done].
Qed.

(** [o'] is what an operation may make of [o] that starts no authorization at [servers]. *)
Definition keeps (servers : string -> Prop) (o o' : OAuthService) : Prop :=
  forall own, oauth_ok own o ->
    exists own', oauth_ok own' o' /\ extends own (oa_next_cell o) own' (oa_next_cell o') /\
      (forall s, servers s -> revoked s o -> revoked s o').

Lemma keeps_refl P o : keeps P o o.
Proof. intros own Hok. by exists own. Qed.

Lemma keeps_trans P o1 o2 o3 : keeps P o1 o2 -> keeps P o2 o3 -> keeps P o1 o3.
Proof.
  intros H1 H2 own (own1 & Hok1 & E1 & R1)%H1. destruct (H2 own1 Hok1) as (own2 & Hok2 & E2 & R2).
  exists own2. split; [done|]. split; [by eapply extends_trans|]. auto.
Qed.

Lemma keeps_unchanged P o o' : unchanged o o' -> keeps P o o'.
Proof.
  intros U own Hok. pose proof U as (_&_&_&E&_). exists own. split; [by eapply unchanged_ok|].
  split; [by rewrite E|]. intros s _. by apply unchanged_revoked.
Qed.

Lemma keeps_store P server o : keeps P o (credential_store server o).1.
Proof. intros own (own' & Hok' & _ & _ & R & E)%(credential_store_spec own server). exists own'. auto. Qed.

Lemma keeps_clear P server o : keeps P o (clear_credentials server o).1.
Proof.
  intros own Hok. exists own. unfold clear_credentials.
  set (o1 := with_memory _ _ _).
  assert (oauth_ok own o1 /\ (forall s, revoked s o -> revoked s o1)) as [Hok1 R1].
  { destruct (fewer_sessions own o (discard_server server (oa_pending o))) as [K1 K2];
      [intros state e; apply retained_pending|done|].
    split.
    - destruct K1 as [H1 H2 H3]. split; cbn; [|done|done].
      intros x c [_ H]%lookup_delete_Some. by apply H1.
    - intros s [X1 X2 X3]%K2. split; cbn; [done|done|].
      intros c [_ H]%lookup_delete_Some. by apply X3. }
  change (oa_repository o1) with (oa_repository o).
  destruct (oa_repository o) as [s|] eqn:Er; [|auto].
  pose proof (delete_sealed_spec server s) as Hd.
  destruct (delete_sealed_credentials server s) as [s' r]. cbn in Hd |- *.
  split; [by destruct Hok1|]. split; [done|]. intros x _ [X1 X2 X3]%R1. split; cbn; [done| |done].
  intros s0 [= <-]. specialize (X2 s Er). destruct Hd as [->| ->]; [done|].
  apply lookup_delete_None. by right.
Qed.

Lemma keeps_summary P server o : keeps P o (credential_summary server o).1.
Proof.
  unfold credential_summary. pose proof (keeps_store P server o) as H.
  destruct (credential_store server o) as [o1 [st|e]]; [|done].
  pose proof (load_stored_unchanged st o1) as U. destruct (load_stored st o1) as [o2 r].
  cbn in *. eapply keeps_trans; [exact H|by apply keeps_unchanged].
Qed.

(** The session that leaves the table. *)
Lemma begin_callback_spec P now p o :
  keeps P o (begin_callback now p o).1 /\
  oa_next_cell (begin_callback now p o).1 = oa_next_cell o /\
  forall c, (begin_callback now p o).2 = Ok c ->
    exists state e, ps_entries (oa_pending o) !! state = Some e /\
      flight_server (Exchanging p c) = pe_server e /\ flight_store (Exchanging p c) = se_store (pe_value e).
Proof.
  unfold begin_callback.
  destruct (nonempty (cp_state p)) as [state|]; [|by split; [apply keeps_refl|]].
  unfold pending_take. set (table := mkPendingStore _ _).
  assert (keeps P o (with_pending table o)) as Hk.
  { intros own Hok. destruct (fewer_sessions own o table) as [Hok1 R1]; [|done|by exists own; auto].
    by intros st e [_ H]%retained_pending%lookup_delete_Some. }
  destruct (ps_entries (oa_pending o) !! state) as [e|] eqn:Es; [|done].
  case_if; [done|]. destruct (cp_error p); [done|].
  destruct (nonempty (cp_code p)) as [code|]; cbn; [|done].
  split; [done|]. split; [done|]. intros c [= <-]. by exists state, e.
Qed.

Lemma keeps_authorize (P : string -> Prop) resolve now s o :
  (forall x, P x -> x <> ms_id s) -> keeps P o (start_authorization resolve now s o).1.
Proof.
  intros HP. unfold start_authorization.
  destruct (ms_auth s) as [| | |[] client_id secret_ref scopes]; try apply keeps_refl.
  destruct (_ ← _; _) as [secret|e]; [|apply keeps_refl].
  unfold discovered_manager. destruct (authorization_manager _ o) as [manager|e]; [|apply keeps_refl].
  intros own Hok. destruct (credential_store_spec own (ms_id s) o Hok) as (own' & Hok' & Hst & _ & R & E).
  destruct (credential_store (ms_id s) o) as [o1 st]. cbn in *.
  match goal with |- context [match ?m with Ok _ => _ | Err _ => _ end] =>
    destruct m as [[[state session] url]|e] eqn:Em end; [|exists own'; auto].
  assert (exists st0, st = Ok st0 /\ se_store session = st0) as (st0 & -> & Es).
  { destruct st as [st0|e]; [|done]. exists st0. split; [done|].
    apply bind_Ok_inv in Em as ([[m md] st1] & H1 & H2).
    cbn in H1. apply bind_Ok_inv in H1 as (x & _ & H1). repeat case_match; try done; inv_ok.
    all: by simplify_eq. }
  exists own'. split; [|split; [exact E|]].
  - destruct Hok' as [H1 H2 H3]. split; cbn; [done| |done].
    intros k e [[<- <-]|[_ H]]%lookup_insert_Some.
    + cbn. rewrite Es. by apply Hst.
    + by eapply H2, retained_pending.
  - intros x Hx Rx%R. destruct Rx as [X1 X2 X3]. split; cbn; [|done|done].
    intros k e [[<- <-]|[_ H]]%lookup_insert_Some; [|by eapply X1, retained_pending].
    cbn. apply not_eq_sym. by apply HP.
Qed.

(** Work on the store of one server: the others are left alone. *)
Record spares (own : nat -> string) (server : string) (st : ServerCredentialStore)
    (o o' : OAuthService) : Prop := {
  sp_ok : oauth_ok own o';
  sp_store : store_of own (oa_next_cell o') server st;
  sp_others s : s <> server -> revoked s o -> revoked s o';
}.

Lemma spares_trans own server st o1 o2 o3 :
  spares own server st o1 o2 -> spares own server st o2 o3 -> spares own server st o1 o3.
Proof. intros [] []. split; auto. Qed.

Lemma spares_unchanged own server st o o' :
  oauth_ok own o -> store_of own (oa_next_cell o) server st -> unchanged o o' ->
  spares own server st o o'.
Proof.
  intros Hok Hst U. pose proof U as (_&_&_&E&_). split; [by eapply unchanged_ok|by rewrite E|].
  intros s _. by apply unchanged_revoked.
Qed.

Lemma save_next rng st c o : oa_next_cell (save rng st c o).1 = oa_next_cell o.
Proof.
  destruct st as [cell|srv key]; [done|]. cbn. unfold save_sealed, on_repository.
  destruct (plain ← _; _); [|done]. destruct (oa_repository o); [|done].
  by destruct (put_sealed_credentials _ _ _).
Qed.

Lemma spares_save own server st rng c o :
  oauth_ok own o -> store_of own (oa_next_cell o) server st ->
  spares own server st o (save rng st c o).1.
Proof.
  intros Hok Hst. destruct (save_spec own server rng st c o Hok Hst) as (H1 & _ & H2).
  split; [done|by rewrite save_next|done].
Qed.

Lemma spares_initialize own server st manager o :
  oauth_ok own o -> store_of own (oa_next_cell o) server st ->
  spares own server st o (initialize_from_store manager st o).1.
Proof.
  intros Hok Hst. unfold initialize_from_store, load.
  pose proof (load_stored_unchanged st o) as U. destruct (load_stored st o) as [o1 r]. cbn in U |- *.
  pose proof (spares_unchanged own server st o o1 Hok Hst U) as S1.
  destruct (map_err _ r) as [loaded|e]; [|done].
  destruct (am_initialize manager loaded) as [[ready dropped]|e]; [|done]. cbn.
  destruct dropped; [|done]. eapply spares_trans; [exact S1|].
  destruct (clear_store_spec own st o1 (sp_ok _ _ _ _ _ S1)) as (K1 & _ & K2 & K3).
  split; [done|rewrite K2; apply S1|]. intros s _. apply K3.
Qed.

Lemma initialize_next manager st o :
  oa_next_cell (initialize_from_store manager st o).1 = oa_next_cell o.
Proof.
  unfold initialize_from_store, load. pose proof (load_stored_unchanged st o) as (_&_&_&U&_).
  destruct (load_stored st o) as [o1 r]. cbn in U |- *.
  destruct (map_err _ r) as [loaded|e]; [|done].
  destruct (am_initialize manager loaded) as [[ready dropped]|e]; [|done]. cbn.
  destruct dropped; [|done]. rewrite <- U. destruct st as [cell|srv key]; [done|]. cbn.
  unfold on_repository. destruct (oa_repository o1); [|done]. by destruct (delete_sealed_credentials _ _).
Qed.

Lemma spares_token own server st rng manager loaded o :
  oauth_ok own o -> store_of own (oa_next_cell o) server st ->
  spares own server st o (get_access_token rng manager st loaded o).1.
Proof.
  intros Hok Hst. pose proof (spares_unchanged own server st o o Hok Hst (unchanged_refl o)).
  unfold get_access_token. destruct (c ← _; _) as [[c|]|e]; [|done|done]. by apply spares_save.
Qed.

Lemma revoked_preflight own server st o :
  oauth_ok own o -> revoked server o -> store_of own (oa_next_cell o) server st ->
  (forall cell, st = MemoryStore cell -> oa_memory o !! server = Some cell) ->
  exists e, (preflight st o).2 = Err e.
Proof.
  intros Hok R Hst Hm. unfold preflight.
  destruct (load_stored st o) as [o1 r] eqn:E.
  assert (forall c, r <> Ok (Some c)) as Hr.
  { intros c ->. destruct st as [cell|srv key]; cbn in E, Hst.
    - injection E as _ E. by rewrite (rv_cell _ _ R cell (Hm _ eq_refl)) in E.
    - subst srv. apply (revoked_load server key o c R). by rewrite E. }
  destruct r as [[c|]|[]]; [by destruct (Hr c)|eauto..].
Qed.

(** A connection begins only with credentials that are there. *)
Lemma begin_connect_spec P s secret o own :
  oauth_ok own o ->
  let o' := (begin_connect s secret o).1 in
  exists own', oauth_ok own' o' /\ extends own (oa_next_cell o) own' (oa_next_cell o') /\
    (forall x, P x -> revoked x o -> revoked x o') /\
    forall c, (begin_connect s secret o).2 = Ok c ->
      ~ revoked (ms_id s) o /\ store_of own' (oa_next_cell o') (ms_id s) c.1.1.
Proof.
  intros Hok.
  destruct (credential_store_spec own (ms_id s) o Hok) as (own' & Hok' & Hst & Hm & R & E).
  unfold begin_connect. destruct (credential_store (ms_id s) o) as [o1 [st|e]]; cbn in *.
  2: { exists own'. split; [done|]. split; [done|]. split; [|done]. auto. }
  specialize (Hst st eq_refl).
  destruct (preflight st o1) as [o2 r] eqn:Ep.
  assert (unchanged o1 o2) as U.
  { unfold preflight in Ep. pose proof (load_stored_unchanged st o1) as U.
    destruct (load_stored st o1) as [o2' r']. cbn in U. by injection Ep as <- _. }
  pose proof U as (_&_&_&En&_).
  pose proof (spares_unchanged own' (ms_id s) st o1 o2 Hok' Hst U) as S2.
  destruct r as [[]|e]; cbn.
  2: { exists own'. split; [apply S2|]. split; [by rewrite En|].
       split; [|done]. intros x _ Rx. eapply unchanged_revoked; [done|]. auto. }
  assert (~ revoked (ms_id s) o) as Hno.
  { intros Rs%R. destruct (revoked_preflight own' (ms_id s) st o1) as [e He]; [done..| |].
    - intros cell ->. by apply Hm.
    - by rewrite Ep in He. }
  assert (forall o', spares own' (ms_id s) st o1 o' -> forall x, P x -> revoked x o -> revoked x o') as Hend.
  { intros o' S x _ Rx. apply (sp_others _ _ _ _ _ S); [|by apply R]. by intros ->. }
  destruct (authorization_manager (ms_url s) o2) as [manager|e]; cbn.
  2: { exists own'. split; [apply S2|]. split; [by rewrite En|]. by split; [apply Hend|]. }
  pose proof (spares_initialize own' (ms_id s) st manager o2 (sp_ok _ _ _ _ _ S2) (sp_store _ _ _ _ _ S2))
    as S3.
  pose proof (initialize_next manager st o2) as En3.
  destruct (initialize_from_store manager st o2) as [o3 r]. cbn in S3, En3 |- *.
  pose proof (spares_trans _ _ _ _ _ _ S2 S3) as S3'.
  exists own'. split; [apply S3'|]. split; [by rewrite En3, En|]. split; [by apply Hend|].
  intros c Hc. split; [done|]. apply bind_Ok_inv in Hc as (x & _ & Hc). case_if_in Hc; [done|].
  apply bind_Ok_inv in Hc as (y & _ & [= <-]). apply S3'.
Qed.

Definition authorizes (server : string) (op : oauth_op) : Prop :=
  match op with OpAuthorize _ _ s => ms_id s = server | _ => False end.

(** The same with the requests that wait for their answers. *)
Record world_ok (own : nat -> string) (w : OAuthWorld) : Prop := {
  wo_service : oauth_ok own (ow_service w);
  wo_flights : Forall (fun f => store_of own (oa_next_cell (ow_service w)) (flight_server f)
                                  (flight_store f)) (ow_flights w);
}.

Definition world_revoked (server : string) (w : OAuthWorld) : Prop :=
  revoked server (ow_service w) /\ Forall (fun f => flight_server f <> server) (ow_flights w).

Definition world_keeps (servers : string -> Prop) (w w' : OAuthWorld) : Prop :=
  forall own, world_ok own w ->
    exists own', world_ok own' w' /\ (forall s, servers s -> world_revoked s w -> world_revoked s w').

(** An operation of the service that starts no request. *)
Lemma world_keeps_service P o o' fs :
  keeps P o o' -> world_keeps P (mkOAuthWorld o fs) (mkOAuthWorld o' fs).
Proof.
  intros H own [Hok Hfs]. destruct (H own Hok) as (own' & Hok' & E & R). exists own'.
  split; [split; [done|]|].
  - eapply Forall_impl; [exact Hfs|]. intros f. cbn. by apply store_of_extends.
  - intros s Hs [R1 R2]. by split; [apply R|].
Qed.

(** One that does. *)
Lemma world_keeps_flight P o o' fs f own own' :
  world_ok own (mkOAuthWorld o fs) -> oauth_ok own' o' ->
  extends own (oa_next_cell o) own' (oa_next_cell o') ->
  (forall s, P s -> revoked s o -> revoked s o') ->
  store_of own' (oa_next_cell o') (flight_server f) (flight_store f) ->
  ~ revoked (flight_server f) o ->
  exists own', world_ok own' (mkOAuthWorld o' (fs ++ [f])) /\
    (forall s, P s -> world_revoked s (mkOAuthWorld o fs) -> world_revoked s (mkOAuthWorld o' (fs ++ [f]))).
Proof.
  intros [Hok Hfs] Hok' E R Hst Hno. exists own'. split; [split; [done|]|].
  - cbn. apply Forall_app. split; [|by apply Forall_singleton].
    eapply Forall_impl; [exact Hfs|]. intros g. by apply store_of_extends.
  - intros s Hs [R1 R2]. split; [by apply R|]. cbn. apply Forall_app. split; [done|].
    apply Forall_singleton. by intros <-.
Qed.

(** An answer is saved for the server that was asked about. *)
Lemma finish_spares own rng f o :
  oauth_ok own o -> store_of own (oa_next_cell o) (flight_server f) (flight_store f) ->
  spares own (flight_server f) (flight_store f) o (finish rng f o).
Proof.
  intros Hok Hst. pose proof (spares_unchanged own _ _ o o Hok Hst (unchanged_refl o)) as Hsame.
  destruct f as [p [[[server session] code] state]|server [[st manager] loaded]]; cbn in *.
  - destruct (handle_callback _ _ _ _) as [c|]; [|done].
    pose proof (spares_save own server (se_store session) rng c o Hok Hst) as S.
    by destruct (save rng (se_store session) c o).
  - pose proof (spares_token own server st rng manager loaded o Hok Hst) as S.
    by destruct (get_access_token rng manager st loaded o).
Qed.

Lemma finish_next rng f o : oa_next_cell (finish rng f o) = oa_next_cell o.
Proof.
  destruct f as [p [[[server session] code] state]|server [[st manager] loaded]]; cbn.
  - destruct (handle_callback _ _ _ _) as [c|]; [|done]. pose proof (save_next rng (se_store session) c o).
    by destruct (save rng (se_store session) c o).
  - unfold get_access_token. destruct (c ← _; _) as [[c|]|e]; [|done..].
    pose proof (save_next rng st c o). by destruct (save rng st c o).
Qed.

Lemma run_oauth_keeps (P : string -> Prop) op w :
  (forall s, P s -> ~ authorizes s op) -> world_keeps P w (run_oauth op w).
Proof.
  intros Hop. destruct w as [o fs]. destruct op as [resolve now s|now p|s secret|n rng|s|s]; cbn.
  - apply world_keeps_service, keeps_authorize. intros x Hx ->. by apply (Hop _ Hx).
  - destruct (begin_callback_spec P now p o) as (K & En & Hf).
    destruct (begin_callback now p o) as [o' [c|e]]; cbn [fst snd] in *; [|by apply world_keeps_service].
    intros own Hw. destruct (K own (wo_service _ _ Hw)) as (own' & Hok' & E & R).
    destruct (Hf c eq_refl) as (state & e & Hs & E1 & E2).
    eapply world_keeps_flight; [done..| |].
    + rewrite E1, E2. eapply store_of_extends; [exact E|]. by apply (ok_sessions _ _ (wo_service _ _ Hw) state).
    + rewrite E1. intros Rv. by apply (rv_pending _ _ Rv _ _ Hs).
  - pose proof (begin_connect_spec P s secret o) as Hspec.
    destruct (begin_connect s secret o) as [o' [c|e]]; cbn [fst snd] in *.
    + intros own Hw. destruct (Hspec own (wo_service _ _ Hw)) as (own' & Hok' & E & R & Hf).
      destruct (Hf c eq_refl) as [Hno Hst]. eapply world_keeps_flight; [done..| |done].
      by destruct c as [[st m] l].
    + apply world_keeps_service. intros own Hok.
      destruct (Hspec own Hok) as (own' & ? & ? & ? & _). eauto.
  - destruct (fs !! n) as [f|] eqn:Ef; [|intros own Hw; by exists own].
    intros own [Hok Hfs]. cbn in Hok, Hfs. rewrite Forall_forall in Hfs.
    pose proof (finish_spares own rng f o Hok (Hfs f (list_elem_of_lookup_2 _ _ _ Ef))) as S.
    exists own. split; [split; cbn; [apply S|]|].
    + rewrite finish_next. apply Forall_forall. intros g Hg.
      apply Hfs. eapply elem_of_submseteq; [exact Hg|apply submseteq_delete].
    + intros s _ [R1 R2]. cbn in *. rewrite Forall_forall in R2. split; cbn.
      * apply (sp_others _ _ _ _ _ S); [|done]. apply not_eq_sym, R2. by eapply list_elem_of_lookup_2.
      * apply Forall_forall. intros g Hg. apply R2.
        eapply elem_of_submseteq; [exact Hg|apply submseteq_delete].
  - apply world_keeps_service, keeps_summary.
  - apply world_keeps_service, keeps_clear.
Qed.

(** After a successful revocation nothing of the server is left. *)
Lemma clear_revokes server o o' :
  clear_credentials server o = (o', Ok tt) -> revoked server o'.
Proof.
  unfold clear_credentials. set (o1 := with_memory _ _ _).
  assert (forall state e, ps_entries (oa_pending o1) !! state = Some e -> pe_server e <> server) as H1.
  { intros state e. cbn. rewrite retain_lookup. destruct (ps_entries _ !! state) as [x|]; [|done].
    cbn. destruct (String.eqb_spec (pe_server x) server); [done|]. by intros [= <-]. }
  assert (forall cell, oa_memory o1 !! server = Some cell -> oa_cells o1 !! cell = None) as H3.
  { intros cell. cbn. by rewrite lookup_delete_eq. }
  change (oa_repository o1) with (oa_repository o).
  destruct (oa_repository o) as [s|] eqn:Er.
  - unfold delete_sealed_credentials, statement. destruct (db_failure _); [done|]. cbn.
    intros [= <-]. split; cbn; [done| |done]. intros s' [= <-]. apply lookup_delete_eq.
  - intros [= <-]. split; [done| |done]. intros s Hs. cbn in Hs. by rewrite Er in Hs.
Qed.

Lemma revoked_summary own server o :
  oauth_ok own o -> revoked server o -> (credential_summary server o).2 = None.
Proof.
  intros Hok R. destruct (credential_store_spec own server o Hok) as (own' & Hok' & Hst & Hm & Hr & _).
  unfold credential_summary. destruct (credential_store server o) as [o1 [st|e]]; [|done].
  cbn in *. specialize (Hst st eq_refl). apply Hr in R.
  destruct (load_stored st o1) as [o2 [[c|]|[]]] eqn:E; try done. exfalso.
  destruct st as [cell|srv key]; cbn in E, Hst.
  - injection E as _ E. by rewrite (rv_cell _ _ R cell (Hm _ eq_refl)) in E.
  - subst srv. apply (revoked_load server key o1 c R). by rewrite E.
Qed.

Lemma revoked_connect own s rng secret o :
  oauth_ok own o -> revoked (ms_id s) o -> exists e, (code_connect rng s secret o).2 = Err e.
Proof.
  intros Hok R.
  destruct (begin_connect_spec (fun _ => False) s secret o own Hok) as (own' & _ & _ & _ & H).
  unfold code_connect. destruct (begin_connect s secret o) as [o' [c|e]]; [|by exists e].
  by destruct (H c eq_refl) as [[] _].
Qed.
End Revocation.
