(* ===== verification/OAuthFacts.v ===== *)
(** * What authorization at MCP servers guarantees

    A revocation is final, credentials survive sealing, a request is sent at most
    twice, no token is used past its life, endpoints without TLS are never used. *)

From S2P Require Import Prelude RustStr Naming Errors Config Policy Secrets Catalog.
From S2P Require Import Egress Shaping GatewayAuth Render Retry Surface Peers OAuthConfig ConfigJson Store Seal OAuth.

Local Open Scope string_scope.
Local Open Scope list_scope.
Local Open Scope Z_scope.
Local Open Scope gateway_scope.

(** ** Instances for the examples *)

Definition demo_metadata : Metadata :=
  mkMetadata "https://as.example/authorize" "https://as.example/token" None.
Definition demo_credentials : StoredCredentials :=
  mkStoredCredentials "client" (Some (mkOAuthToken "t1" (Some (3600 * 1000000000)))) (Some 5).

(** The only credentials there are; their text is the client id. *)
Definition demo_rmcp : RmcpAuth := {|
  am_new := fun _ _ => Ok 0%nat;
  am_resolve_metadata := fun _ => Ok (true, demo_metadata);
  session_new := fun m _ _ => Ok (S m, "https://as.example?state=s1");
  handle_callback := fun _ _ _ _ => Ok demo_credentials;
  am_initialize := fun _ c => Ok (bool_decide (is_Some c), false);
  am_access_token := fun _ _ => Ok None;
  am_configure := fun _ _ _ => Ok tt;
  query_pairs := fun _ => [("state", "s1")];
  credentials_to_vec := fun c => Some (sc_client_id c);
  credentials_from_slice := fun s => if s =s "client" then Some demo_credentials else None;
  chrono_range := fun _ => true;
|}.

Definition demo_key : TokenEncryptionKey := mkTokenEncryptionKey "0123456789abcdef0123456789abcdef".
Definition demo_nonce : option string := Some "nonce-nonce-".

Definition demo_code_server : McpServerConfig :=
  mkMcpServerConfig "linear" "d" "p" "https://linear.example" ""
    (AuthOAuth AuthorizationCode (Some "client") None []) SecurityConfig_default true None.

Definition demo_service (repository : option Store) : OAuthService :=
  mkOAuthService (Some demo_key) repository ∅ ∅ 0 (Some "https://gw.example") false
    (PendingStore_new AUTHORIZATION_TTL).

Definition demo_callback : CallbackParams := mkCallbackParams (Some "s1") (Some "code") None None.

(** ** Revocation *)

Section Revoked.
Context {RA : RmcpAuth} {A : Aead} {UP : UrlParser} {DB : Database}.

Definition run_oauth_ops (ops : list oauth_op) (w : OAuthWorld) : OAuthWorld :=
  fold_left (fun w op => run_oauth op w) ops w.

Lemma run_oauth_ops_keeps P ops w :
  (forall s, P s -> Forall (fun op => ~ authorizes s op) ops) -> world_keeps P w (run_oauth_ops ops w).
Proof.
  revert w. induction ops as [|op ops IH]; intros w H own Hw; [by exists own|].
  destruct (run_oauth_keeps P op w (fun s Hs => Forall_inv (H s Hs)) own Hw) as (own1 & Hw1 & R1).
  destruct (IH (run_oauth op w) (fun s Hs => Forall_inv_tail (H s Hs)) own1 Hw1) as (own2 & Hw2 & R2).
  exists own2. auto.
Qed.

Lemma new_service_ok clients key repository base block o :
  with_egress clients key repository base block = Ok o -> oauth_ok (fun _ => "") o.
Proof. intros ([] & _ & [= <-])%bind_Ok_inv. split; cbn; intros *; by rewrite lookup_empty. Qed.
End Revoked.

(** C38: revoking an authorization is final.  Take the service as it starts, over any
    database, and any history of authorizations, callbacks, connections and
    revocations, in which the exchange of a code or the refresh of a token may wait for
    its answer while anything else happens.  If [clear_credentials] for a server
    succeeds at a moment when no exchange and no refresh of that server is under way,
    then whatever happens later, old authorization links that are opened included, as
    long as no new link for this server is given out, the server shows no credentials
    and every attempt to connect it fails.  (One that is under way can undo the
    revocation: [revoked_during_exchange], [revoked_during_refresh]; the refreshes that
    [rmcp] makes within a client that is already connected are not modelled.) *)
Theorem revocation_is_final {RA : RmcpAuth} {A : Aead} {UP : UrlParser} {DB : Database}
    clients key repository base block before o o1 server ops :
  with_egress clients key repository base block = Ok o ->
  let w := run_oauth_ops before (mkOAuthWorld o []) in
  clear_credentials server (ow_service w) = (o1, Ok tt) ->
  Forall (fun f => flight_server f <> server) (ow_flights w) ->
  Forall (fun op => ~ authorizes server op) ops ->
  let o2 := ow_service (run_oauth_ops ops (mkOAuthWorld o1 (ow_flights w))) in
  (credential_summary server o2).2 = None /\
  (forall s rng secret, ms_id s = server -> exists e, (code_connect rng s secret o2).2 = Err e).
Proof.
  intros Hnew w Hclear Hfs Hops o2.
  destruct (run_oauth_ops_keeps (fun _ => False) before (mkOAuthWorld o []) ltac:(done) (fun _ => ""))
    as (own & Hw & _).
  { split; cbn; [by eapply new_service_ok|by apply Forall_nil]. }
  fold w in Hw.
  pose proof (clear_revokes _ _ _ Hclear) as R1.
  pose proof (keeps_clear (fun _ => False) server (ow_service w)) as Hc. rewrite Hclear in Hc.
  destruct (world_keeps_service _ _ _ (ow_flights w) Hc own) as (own1 & Hw1 & _).
  { by destruct w. }
  destruct (run_oauth_ops_keeps (eq server) ops _ ltac:(by intros s <-) own1 Hw1) as (own2 & Hw2 & R2).
  destruct (R2 server eq_refl (conj R1 Hfs)) as [R3 _]. pose proof (wo_service _ _ Hw2) as Hok2.
  fold o2 in R3, Hok2. split; [by eapply revoked_summary|].
  intros s rng secret <-. by eapply revoked_connect.
Qed.

(** An authorization completed, one revoked before its link was opened. *)
Definition demo_history : list oauth_op :=
  [OpAuthorize (fun _ => Err (SE_NotFound "")) 0 demo_code_server; OpCallback 1 demo_callback;
   OpAnswer 0 demo_nonce; OpAuthorize (fun _ => Err (SE_NotFound "")) 2 demo_code_server].

Definition demo_world_after (repository : option Store) (ops : list oauth_op) : OAuthWorld :=
  run_oauth_ops (RA := demo_rmcp) (A := plain_aead) (UP := https_parser) (DB := steady_db)
    (demo_history ++ ops) (mkOAuthWorld (demo_service repository) []).

Definition demo_o (repository : option Store) : OAuthService :=
  ow_service (demo_world_after repository []).

Definition summary_after (repository : option Store) (ops : list oauth_op)
    : option CredentialSummary :=
  (credential_summary (RA := demo_rmcp) (A := plain_aead) (DB := steady_db) "linear"
     (ow_service (demo_world_after repository ops))).2.

(** The credentials were there, and a link was open. *)
Example demo_authorized :
  summary_after (Some empty_store) [] = Some (mkCredentialSummary (Some 3605000000000)) /\
  (code_connect (RA := demo_rmcp) (A := plain_aead) (UP := https_parser) (DB := steady_db)
     demo_nonce demo_code_server None (demo_o (Some empty_store))).2
  = Ok (OHC_AuthorizationCode 0) /\
  dom (ps_entries (oa_pending (demo_o (Some empty_store)))) = {["s1"]}.
Proof. split_and!; vm_compute; reflexivity. Qed.

(** The link is opened after the revocation, and answered. *)
Lemma revocation_is_final_witness :
  (credential_summary (RA := demo_rmcp) (A := plain_aead) (DB := steady_db) "linear"
     (ow_service (run_oauth_ops (RA := demo_rmcp) (A := plain_aead) (UP := https_parser)
        (DB := steady_db) [OpCallback 3 demo_callback; OpAnswer 0 demo_nonce]
        (mkOAuthWorld (clear_credentials (DB := steady_db) "linear" (demo_o (Some empty_store))).1 [])))).2
  = None.
Proof.
  apply (revocation_is_final (RA := demo_rmcp) (A := plain_aead) (UP := https_parser)
    (DB := steady_db) (Ok tt) (Some demo_key) (Some empty_store) (Some "https://gw.example") false
    demo_history (demo_service (Some empty_store))
    (clear_credentials (DB := steady_db) "linear" (demo_o (Some empty_store))).1
    "linear" [OpCallback 3 demo_callback; OpAnswer 0 demo_nonce]).
  - reflexivity.
  - reflexivity.
  - vm_compute. constructor.
  - repeat (apply Forall_cons; split; [intros []|]). by apply Forall_nil.
Defined.

(** But a revocation that comes while a code is being exchanged is undone: the session
    has left the table, and the credentials are saved when the answer arrives. *)
Definition exchange_race : list oauth_op :=
  [OpCallback 3 demo_callback; OpClear "linear"; OpAnswer 0 demo_nonce].

Example revoked_during_exchange :
  summary_after (Some empty_store) exchange_race = Some (mkCredentialSummary (Some 3605000000000)) /\
  summary_after None exchange_race = None.
Proof. split; vm_compute; reflexivity. Qed.

(** So is one that comes while a connection waits for a fresh token: the refreshed
    credentials are saved when the answer arrives. *)
Definition refreshing_rmcp : RmcpAuth := {|
  am_new := am_new (RmcpAuth := demo_rmcp); am_resolve_metadata := am_resolve_metadata (RmcpAuth := demo_rmcp);
  session_new := session_new (RmcpAuth := demo_rmcp); handle_callback := handle_callback (RmcpAuth := demo_rmcp);
  am_initialize := am_initialize (RmcpAuth := demo_rmcp); am_access_token := fun _ c => Ok (Some c);
  am_configure := am_configure (RmcpAuth := demo_rmcp); query_pairs := query_pairs (RmcpAuth := demo_rmcp);
  credentials_to_vec := credentials_to_vec (RmcpAuth := demo_rmcp);
  credentials_from_slice := credentials_from_slice (RmcpAuth := demo_rmcp);
  chrono_range := chrono_range (RmcpAuth := demo_rmcp);
|}.

Definition refresh_race : list oauth_op :=
  [OpConnect demo_code_server None; OpClear "linear"; OpAnswer 0 demo_nonce].

Example revoked_during_refresh :
  (credential_summary (RA := refreshing_rmcp) (A := plain_aead) (DB := steady_db) "linear"
     (ow_service (run_oauth_ops (RA := refreshing_rmcp) (A := plain_aead) (UP := https_parser)
        (DB := steady_db) refresh_race (demo_world_after (Some empty_store) [])))).2
  = Some (mkCredentialSummary (Some 3605000000000)).
Proof. vm_compute. reflexivity. Qed.

(** ** Credentials through the store *)

(** What is saved is loaded again, in memory or sealed, whatever the database held. *)
Lemma saved_credentials_load {RA : RmcpAuth} {A : Aead} {L : AeadLaws A} {DB : Database}
    rng st c o o1 :
  (forall n, rng = Some n -> String.length n = NONCE_LEN) ->
  (forall text, credentials_to_vec c = Some text -> credentials_from_slice text = Some c) ->
  save rng st c o = (o1, Ok tt) ->
  (forall n, db_failure n = None) ->
  (load_stored st o1).2 = Ok (Some c).
Proof.
  intros Hrng Htext Hsave Hdb. destruct st as [cell|server key]; cbn in *.
  { injection Hsave as <-. cbn. by rewrite lookup_insert_eq. }
  unfold save_sealed in Hsave.
  destruct (plain ← _; _) as [sealed|e] eqn:E; [|done].
  apply bind_Ok_inv in E as (plain & Hp%ok_or_Ok_inv & He%map_err_Ok_inv).
  unfold on_repository in Hsave. destruct (oa_repository o) as [s|] eqn:Er; [|done].
  unfold put_sealed_credentials, statement in Hsave. rewrite Hdb in Hsave. cbn in Hsave.
  injection Hsave as <-. unfold load_checked, on_repository. cbn.
  unfold get_sealed_credentials, statement. rewrite Hdb. cbn. rewrite lookup_insert_eq.
  rewrite (seal_roundtrip rng key server plain sealed Hrng He). cbn. by rewrite (Htext _ Hp).
Qed.

(** ** Starting an authorization *)

Section Start.
Context {RA : RmcpAuth} {A : Aead} {UP : UrlParser} {DB : Database}.

(** The addresses that a browser and the gateway are sent to. *)
Definition endpoints_safe (m : Metadata) : Prop :=
  secure_endpoint (authorization_endpoint m) = Ok tt /\ secure_endpoint (token_endpoint m) = Ok tt.

Lemma discovered_spec s needs o o1 manager m st :
  discovered_manager s needs o = (o1, Ok (manager, m, st)) ->
  credential_store (ms_id s) o = (o1, Ok st) /\ endpoints_safe m /\
  (needs = true -> exists r, registration_endpoint m = Some r /\ secure_endpoint r = Ok tt).
Proof.
  unfold discovered_manager. destruct (authorization_manager _ o) as [manager0|]; [|done].
  destruct (credential_store (ms_id s) o) as [o' [st0|e]]; [|done]. cbn [map_err].
  intros H. pose proof (f_equal fst H) as E1. apply (f_equal snd) in H. cbn [fst snd] in E1, H.
  subst o1. apply bind_Ok_inv in H as (st1 & [= <-] & H).
  apply bind_Ok_inv in H as ([found m0] & _ & H). cbn [fst snd] in H.
  destruct found; [|done]. cbn [negb] in H.
  case_match eqn:Ereg; [done|].
  apply bind_Ok_inv in H as (l & Hl%map_err_Ok_inv & [= <- <- <-]).
  assert (forall e, e ∈ [authorization_endpoint m0; token_endpoint m0]
    ++ option_list (if needs then registration_endpoint m0 else None) ->
    secure_endpoint e = Ok tt) as Hall.
  { intros e He. by destruct (try_map_Ok_elem _ _ _ _ Hl He) as [[] H]. }
  split; [done|]. split; [split; apply Hall; cbn; set_solver|].
  intros ->. cbn in Ereg. destruct (registration_endpoint m0) as [r|]; [|done].
  exists r. split; [done|]. apply Hall. cbn. set_solver.
Qed.

Lemma start_spec resolve now s o o1 start :
  start_authorization resolve now s o = (o1, Ok start) ->
  exists state session o',
    credential_store (ms_id s) o = (o', Ok (se_store session)) /\
    state_param (as_url start) = Some state /\ endpoints_safe (se_metadata session) /\
    o1 = with_pending (pending_insert state (ms_id s) session now (oa_pending o')) o'.
Proof.
  unfold start_authorization.
  destruct (ms_auth s) as [| | |[] client_id secret_ref scopes]; try done.
  destruct (_ ← _; _) as [secret|e]; [|done].
  destruct (discovered_manager s _ o) as [o' [[[manager m] st]|e]] eqn:Ed; [|done].
  apply discovered_spec in Ed as (Hst & Hsafe & _). cbn [result_bind].
  match goal with |- context [match ?m with Ok _ => _ | Err _ => _ end] =>
    destruct m as [[[state session] url]|e] eqn:Em end; [|done].
  intros [= <- <-].
  apply bind_Ok_inv in Em as ([[manager' m'] st'] & [= <- <- <-] & Em).
  apply bind_Ok_inv in Em as ([handle u] & _ & Em).
  apply bind_Ok_inv in Em as (state' & Hs%ok_or_Ok_inv & [= <- <- <-]).
  exists state', (mkSession handle m st), o'. done.
Qed.
End Start.

Section Completing.
Context {RA : RmcpAuth} {A : Aead} {L : AeadLaws A} {UP : UrlParser} {DB : Database}.

(** A store of the server: the same one is found as long as the key, the database and
    the table of memory stores are. *)
Definition holds_store (server : string) (st : ServerCredentialStore) (o : OAuthService) : Prop :=
  credential_store server o = (o, Ok st).

Lemma credential_store_holds server o o' st :
  credential_store server o = (o', Ok st) -> holds_store server st o'.
Proof.
  unfold holds_store, credential_store.
  destruct (oa_repository o) as [s|] eqn:Er.
  - destruct (oa_key o) as [k|] eqn:Ek; [|done]. intros [= <- <-]. by rewrite Er, Ek.
  - destruct (oa_memory o !! server) as [cell|] eqn:Em.
    + intros [= <- <-]. by rewrite Er, Em.
    + intros [= <- <-]. cbn. by rewrite Er, lookup_insert_eq.
Qed.

(** The store that is held, by what decides about it. *)
Lemma holds_store_spec server st o :
  holds_store server st o <->
  match oa_repository o, oa_key o with
  | Some _, Some key => st = SealedStore server key
  | Some _, None => False
  | None, _ => exists cell, oa_memory o !! server = Some cell /\ st = MemoryStore cell
  end.
Proof.
  unfold holds_store, credential_store.
  destruct (oa_repository o); [destruct (oa_key o); split; [by intros [= <-]|by intros ->|done..]|].
  destruct (oa_memory o !! server) as [cell|]; split.
  - intros [= <-]. eauto.
  - by intros (? & [= <-] & ->).
  - intros H%(f_equal (fun x => oa_next_cell x.1)). cbn in H. lia.
  - by intros (? & ? & ?).
Qed.

(** Pending authorizations and saved credentials do not matter for it. *)
Lemma holds_store_pending server st p o :
  holds_store server st o -> holds_store server st (with_pending p o).
Proof. by rewrite !holds_store_spec. Qed.

Lemma holds_store_save server st rng c o :
  holds_store server st o -> holds_store server st (save rng st c o).1.
Proof.
  rewrite !holds_store_spec. destruct st as [cell|srv key]; [done|]. cbn.
  unfold save_sealed, on_repository. destruct (plain ← _; _); [|done].
  destruct (oa_repository o) as [s|] eqn:Er; [|by cbn; rewrite Er].
  destruct (put_sealed_credentials srv _ s) as [s' r]. cbn. by destruct (oa_key o).
Qed.

(** Saving succeeds where the generator, the cipher and the database work. *)
Lemma save_succeeds rng st c o server :
  holds_store server st o -> is_Some rng -> is_Some (credentials_to_vec c) ->
  (forall k n aad m, is_Some (aead_seal k n aad m)) -> (forall n, db_failure n = None) ->
  (save rng st c o).2 = Ok tt.
Proof.
  intros Hst [n ->] [text Ht] Hseal Hdb. destruct st as [cell|srv key]; [done|].
  cbn. unfold save_sealed. rewrite Ht. cbn. unfold encrypt. cbn.
  destruct (Hseal (key_bytes key) n srv text) as [body ->]. cbn. unfold on_repository.
  rewrite holds_store_spec in Hst.
  destruct (oa_repository o) as [s|]; [|by destruct Hst as (? & _ & ?)].
  unfold put_sealed_credentials, statement. by rewrite Hdb.
Qed.
End Completing.

(** C37: An authorization that was started comes back as the credentials that the
    gateway connects with.  When the browser calls back with the state of the
    authorization URL and a code, before the 10 minutes are over, and the
    authorization server answers with credentials, then the callback names the
    server, and the credentials read from the store of that server, in memory or
    decrypted from the database, are exactly those.  The cipher and base64 obey their
    documented laws, the database does not fail, and the text of these credentials
    reads back. *)
Theorem authorization_roundtrip {RA : RmcpAuth} {A : Aead} {L : AeadLaws A} {UP : UrlParser}
    {DB : Database} resolve now later until s o o1 start rng p state code c text nonce :
  start_authorization resolve now s o = (o1, Ok start) ->
  state_param (as_url start) = Some state -> state <> "" -> code <> "" ->
  instant_checked_add now (ps_ttl (oa_pending o)) = Some until -> now <= later < until ->
  p = mkCallbackParams (Some state) (Some code) None (cp_issuer p) ->
  (forall handle, handle_callback handle code state (cp_issuer p) = Ok c) ->
  rng = Some nonce -> String.length nonce = NONCE_LEN ->
  credentials_to_vec c = Some text -> credentials_from_slice text = Some c ->
  (forall k n aad m, is_Some (aead_seal k n aad m)) -> (forall n, db_failure n = None) ->
  exists o2 st,
    complete_authorization later rng (fun o => o) p o1 = (o2, Ok (ms_id s)) /\
    credential_store (ms_id s) o2 = (o2, Ok st) /\
    (load_stored st o2).2 = Ok (Some c).
Proof.
  intros Hstart Hs Hne1 Hne2 Huntil Hlater Hp Hcb -> Hnonce Htext Hback Hseal Hdb.
  destruct (start_spec _ _ _ _ _ _ Hstart) as (state' & session & o' & Hst & Hs' & _ & ->).
  rewrite Hs in Hs'. injection Hs' as <-.
  assert (oa_pending o' = oa_pending o) as Hpend.
  { apply (f_equal fst) in Hst. cbn in Hst. subst o'. unfold credential_store.
    destruct (oa_repository o), (oa_key o); try done; by destruct (oa_memory o !! _). }
  set (o1 := with_pending _ o').
  assert (exists table, begin_callback later p o1
    = (with_pending table o', Ok (ms_id s, session, code, state))) as [table Hbegin].
  { unfold begin_callback. rewrite Hp. cbn. destruct state as [|ch state]; [done|]. cbn.
    rewrite lookup_insert_eq, Hpend, Huntil. cbn.
    rewrite (proj2 (Z.leb_gt until later)) by lia. destruct code as [|ch' code]; [done|].
    cbn. by eexists. }
  unfold complete_authorization. rewrite Hbegin. unfold finish_callback. rewrite Hcb.
  apply credential_store_holds, (holds_store_pending _ _ table) in Hst.
  pose proof (save_succeeds (Some nonce) (se_store session) c _ _ Hst ltac:(eauto) ltac:(eauto)
    Hseal Hdb) as Hok.
  pose proof (holds_store_save _ _ (Some nonce) c _ Hst) as Hst2.
  destruct (save (Some nonce) (se_store session) c (with_pending table o')) as [o2 r] eqn:Esave.
  cbn in Hok, Hst2. subst r. exists o2, (se_store session). split_and!; [done|done|].
  eapply (saved_credentials_load (Some nonce)); [|intros t Ht|exact Esave|done].
  - by intros n [= <-].
  - congruence.
Qed.

Lemma authorization_roundtrip_witness :
  exists o2 st,
    complete_authorization (RA := demo_rmcp) (A := plain_aead) (DB := steady_db) 1 demo_nonce
      (fun o => o) demo_callback
      (start_authorization (RA := demo_rmcp) (UP := https_parser) (fun _ => Err (SE_NotFound "")) 0
         demo_code_server (demo_service (Some empty_store))).1 = (o2, Ok "linear") /\
    credential_store "linear" o2 = (o2, Ok st) /\
    (load_stored (RA := demo_rmcp) (A := plain_aead) (DB := steady_db) st o2).2
    = Ok (Some demo_credentials).
Proof.
  apply (authorization_roundtrip (RA := demo_rmcp) (A := plain_aead) (L := plain_aead_laws)
    (UP := https_parser) (DB := steady_db) (fun _ => Err (SE_NotFound "")) 0 1 AUTHORIZATION_TTL
    demo_code_server (demo_service (Some empty_store)) _
    (mkAuthorizationStart "https://as.example?state=s1" AUTHORIZATION_TTL) demo_nonce demo_callback
    "s1" "code" demo_credentials "client" "nonce-nonce-"); done.
Defined.

(** ** Tokens of the gateway itself *)

Lemma renew_Returns exch now cached cached' r :
  renew exch now cached = Returns (cached', r) ->
  match r with
  | Ok v => exists life, exch now = Ok (v, life) /\
              exists t, cached' = Some t /\ CachedToken_new now v life = Returns t
  | Err _ => cached' = cached /\ is_Ok (exch now) = false
  end.
Proof.
  unfold renew, exchange. destruct (exch now) as [[v life]|e]; cbn; [|by intros [= <- <-]].
  destruct (CachedToken_new now v life) as [t|] eqn:E; cbn; [|done]. intros [= <- <-]. cbn.
  assert (ct_access_token t = v) as ->; [|eauto].
  revert E. unfold CachedToken_new. destruct life as [life|]; [|by intros [= <-]].
  destruct (instant_checked_add now life); [|done]. by intros [= <-].
Qed.

(** A token that is given out was obtained at that very moment, and is what is cached. *)
Definition obtained (exch : Z -> result string (string * option Z)) (now : Z)
    (cached : option CachedToken) (v : string) : Prop :=
  exists life t, exch now = Ok (v, life) /\ cached = Some t /\ CachedToken_new now v life = Returns t.

(** C39: how long the gateway gives out a token of its own.  For a request, a token that
    was obtained for a lifetime is given out again exactly while more than the margin,
    which is the lesser of 30 seconds and half the lifetime, is left of it; otherwise,
    or when none is cached, what is given out was obtained at that very moment, and is
    what is cached.  For the second attempt of a request, after the server refused a
    token, the cached token is given out exactly when it is another one, whatever is
    left of its life; otherwise one obtained at that moment. *)
Theorem token_within_life exch issued token lifetime t now cached' v :
  0 <= lifetime ->
  CachedToken_new issued token (Some lifetime) = Returns t ->
  (current exch now (Some t) = Returns (cached', Ok v) ->
   if now + Z.min (30 * 1000000000) (lifetime / 2) <? issued + lifetime
   then v = token /\ cached' = Some t else obtained exch now cached' v) /\
  (current exch now None = Returns (cached', Ok v) -> obtained exch now cached' v) /\
  (forall rejected, renew_rejected exch now rejected (Some t) = Returns (cached', Ok v) ->
     if token =s rejected then obtained exch now cached' v else v = token /\ cached' = Some t) /\
  (forall rejected, renew_rejected exch now rejected None = Returns (cached', Ok v) ->
     obtained exch now cached' v).
Proof.
  intros Hl Hnew.
  assert (forall cached, renew exch now cached = Returns (cached', Ok v) -> obtained exch now cached' v)
    as Hrenew by (intros cached (life & Hx & t' & -> & Ht)%renew_Returns; by exists life, t').
  assert (ct_access_token t = token) as Et.
  { unfold CachedToken_new in Hnew. destruct (instant_checked_add issued lifetime); [|done].
    by injection Hnew as <-. }
  split_and!.
  - unfold CachedToken_new, instant_checked_add in Hnew. case_if_in Hnew; [|done].
    injection Hnew as <-. unfold current, is_fresh, renew_margin, MAX_RENEW_MARGIN. cbn.
    set (margin := Z.min _ _).
    replace (now <? issued + lifetime - margin) with (now + margin <? issued + lifetime).
    2: { apply eq_true_iff_eq. rewrite !Z.ltb_lt. lia. }
    case_if; [by intros [= <- <-]|apply Hrenew].
  - apply Hrenew.
  - intros rejected. unfold renew_rejected. rewrite Et.
    destruct (token =s rejected)%string; cbn; [apply Hrenew|by intros [= <- <-]].
  - intros rejected. apply Hrenew.
Qed.

Definition demo_exchange (now : Z) : result string (string * option Z) :=
  Ok ("t" +:+ fmt_nat (Z.to_nat now), Some 100).

Lemma token_within_life_witness :
  current demo_exchange 60 (Some (mkCachedToken "t0" (Some 50)))
  = Returns (Some (mkCachedToken "t60" (Some 110)), Ok "t60") /\
  obtained demo_exchange 60 (Some (mkCachedToken "t60" (Some 110))) "t60".
Proof.
  split; [reflexivity|].
  exact (proj1 (token_within_life demo_exchange 0 "t0" 100 (mkCachedToken "t0" (Some 50)) 60
    (Some (mkCachedToken "t60" (Some 110))) "t60" ltac:(lia) eq_refl) eq_refl).
Defined.

(** A token that was cached while the refused request was under way is sent even when it
    is past its life by then. *)
Example second_attempt_may_be_late :
  renew_rejected demo_exchange 500 "t0" (Some (mkCachedToken "t60" (Some 110)))
  = Returns (Some (mkCachedToken "t60" (Some 110)), Ok "t60").
Proof. reflexivity. Qed.

(** A lifetime so long that its end is not an instant stops the task instead of failing
    the request. *)
Example endless_lifetime_panics :
  exchange (fun _ => Ok ("t", Some (2 ^ 64 * 1000000000))) 5 = Panics.
Proof. reflexivity. Qed.

(** A request to a server whose tokens the gateway obtains itself is sent at most
    twice.  It is sent a second time exactly when the first was refused as
    unauthorized, and then with another token or with one that was obtained after the
    refusal; the answer is that of the last request that was sent. *)
Theorem with_token_contract {T} exch now later auth (call : nat -> string -> result StreamError T)
    meanwhile cached cached' sent r :
  with_token exch now later auth call meanwhile cached = Returns (cached', sent, r) ->
  match sent with
  | [] => auth = None /\ exists e, r = Err (StreamAuth e)
  | [t] =>
      (forall a, auth = Some a -> t = a) /\
      match call 0%nat t with
      | Err StreamAuthRequired => exists e, r = Err (StreamAuth e)
      | first => r = first
      end
  | [t; fresh] =>
      (forall a, auth = Some a -> t = a) /\
      call 0%nat t = Err StreamAuthRequired /\ r = call 1%nat fresh /\
      (fresh <> t \/ exists life, exch later = Ok (fresh, life))
  | _ => False
  end.
Proof.
  intros H. unfold with_token in H.
  apply bind_Returns_inv in H as ([c1 token] & Htok & H).
  destruct token as [token|e].
  2: { injection H as <- <- <-. destruct auth; [discriminate Htok|]. eauto. }
  assert (forall a, auth = Some a -> token = a) as Hauth.
  { intros a ->. by injection Htok as _ ->. }
  destruct (call 0%nat token) as [a|[|e|e]] eqn:E0; cbn in H;
    try (injection H as <- <- <-; rewrite E0; by split).
  apply bind_Returns_inv in H as ([c2 fresh] & Hr & H).
  assert (forall v, fresh = Ok v -> v <> token \/ exists life, exch later = Ok (v, life)) as Hfresh.
  { intros v ->. unfold renew_rejected in Hr.
    destruct (meanwhile c1) as [t|]; [destruct (String.eqb_spec (ct_access_token t) token)|];
      cbn [negb] in Hr; [| |].
    - apply renew_Returns in Hr as (life & Hx & _). eauto.
    - injection Hr as _ <-. by left.
    - apply renew_Returns in Hr as (life & Hx & _). eauto. }
  destruct fresh as [v|e]; injection H as <- <- <-.
  - split_and!; [done..|]. by apply Hfresh.
  - rewrite E0. split; [done|eauto].
Qed.

Lemma with_token_contract_witness :
  ("stale" : string) <> "t7" /\
  with_token demo_exchange 5 7 (Some "stale")
    (fun n _ => match n with O => Err StreamAuthRequired | _ => Ok 42 end) (fun c => c) None
  = Returns (Some (mkCachedToken "t7" (Some 57)), ["stale"; "t7"], Ok 42) /\
  (("t7" : string) <> "stale" \/ exists life, demo_exchange 7 = Ok ("t7", life)).
Proof.
  split_and!; [done|reflexivity|].
  apply (with_token_contract demo_exchange 5 7 (Some "stale")
    (fun n _ => match n with O => Err StreamAuthRequired | _ => Ok 42 end) (fun c => c) None
    (Some (mkCachedToken "t7" (Some 57))) ["stale"; "t7"] (Ok 42)).
  reflexivity.
Defined.

(** ** Bodies of guarded responses *)

Lemma read_body_from_spec chunks body :
  (Z.of_nat (String.length body) <= MAX_BODY) ->
  match read_body_from body chunks with
  | Ok all => exists parts, chunks = Some <$> parts /\ all = fold_left String.append parts body /\
                Z.of_nat (String.length all) <= MAX_BODY
  | Err OpaqueHttpFailure => None ∈ chunks
  | Err BodyTooLarge => exists parts rest, chunks = (Some <$> parts) ++ rest /\
                MAX_BODY < Z.of_nat (String.length (fold_left String.append parts body))
  end.
Proof.
  revert body. induction chunks as [|[c|] chunks IH]; intros body Hb; cbn [read_body_from].
  - by exists [].
  - destruct (saturating_sub MAX_BODY _ <? _) eqn:E.
    + apply Z.ltb_lt in E. unfold saturating_sub in E.
      exists [c], chunks. split; [done|]. cbn [fold_left]. rewrite str_app_length. lia.
    + apply Z.ltb_ge in E. unfold saturating_sub in E.
      specialize (IH (body +:+ c)). rewrite str_app_length in IH.
      specialize (IH ltac:(lia)).
      destruct (read_body_from (body +:+ c) chunks) as [all|[]].
      * destruct IH as (parts & -> & -> & Hle). by exists (c :: parts).
      * destruct IH as (parts & rest & -> & Hlt). by exists (c :: parts), rest.
      * by apply list_elem_of_further.
  - by apply list_elem_of_here.
Qed.
