(* ===== verification/CallbackPage.v ===== *)
(** * The pages of the authorization callback ([http/oauth_callback.rs])

    Fixed texts in two languages; what varies, the id of the server and the id of the
    request, is escaped. *)

From S2P Require Import Prelude RustStr Naming Errors Config Secrets Observe Store Seal OAuth.
From Stdlib Require Import Ascii.

Local Open Scope string_scope.
Local Open Scope list_scope.
Local Open Scope Z_scope.
Local Open Scope gateway_scope.

Definition PAGE_CSP : string :=
  "default-src 'none'; style-src 'unsafe-inline'; base-uri 'none'; form-action"
      +:+ " 'none'; frame-ancestors 'none'".

Definition PAGE_STYLE : string :=
  "body{font-family:system-ui,sans-serif;max-width:32rem;margin:15vh"
      +:+ " auto;padding:0 1rem;line-height:1.6}h1{"
      +:+ "font-size:1.4rem}code{background:rgba(127,127,127,.18);padding:.1em"
      +:+ " .35em;border-radius:3px}@media(prefers-"
      +:+ "color-scheme:dark){body{background:#16181c;color:#e6e6e6}}".

(** The special characters of text and of attribute values. *)
Definition escape_char (c : ascii) : string :=
  if Ascii.eqb c "&" then "&amp;"
  else if Ascii.eqb c "<" then "&lt;"
  else if Ascii.eqb c ">" then "&gt;"
  else if Ascii.eqb c (chr 34) then "&quot;"
  else if Ascii.eqb c "'" then "&#39;"
  else String c "".

(** The characters beyond ASCII are several bytes here, none of them special. *)
Fixpoint escape_html (text : string) : string :=
  match text with
  | "" => ""
  | String c text => escape_char c +:+ escape_html text
  end.

Record Page := mkPage { pg_status : Z; pg_csp : string; pg_html : string }.

Definition html_page (status : Z) (title body : string) : Page :=
  mkPage status PAGE_CSP
    ("<!doctype html><html lang=" +:+ dquote +:+ "zh-CN" +:+ dquote +:+ "><head><meta charset="
      +:+ dquote +:+ "utf-8" +:+ dquote +:+ "><meta name=" +:+ dquote +:+ "viewport" +:+ dquote
      +:+ " content=" +:+ dquote +:+ "width=device-width,initial-scale=1" +:+ dquote +:+ "><title>"
      +:+ title +:+ "</title><style>" +:+ PAGE_STYLE +:+ "</style></head><body><main>" +:+ body
      +:+ "</main></body></html>").

Definition success_body (server_id : string) (connected : bool) : string :=
  let server := escape_html server_id in
  if connected then
    "<h1>授权完成 / Authorization complete</h1><p>已为 MCP 服务 <code>" +:+ server
      +:+ "</code> 完成授权，网关已保存凭据并重新连接。</p><p lang=" +:+ dquote +:+ "en" +:+ dquote
      +:+ ">Authorization for MCP server <code>" +:+ server
      +:+ "</code> is complete. The gateway saved the credential and"
      +:+ " reconnected.</p><p>可以关闭此页面。</p><p lang=" +:+ dquote +:+ "en" +:+ dquote
      +:+ ">You can close this page.</p>"
  else
    "<h1>授权完成 / Authorization complete</h1><p>已为 MCP 服务 <code>" +:+ server
      +:+ "</code> 完成授权，网关已保存凭据，但暂时无法连接该服务。请在控制台查看服务状态，或稍后点击「探测」。</p><p lang=" +:+ dquote +:+ "en"
      +:+ dquote +:+ ">Authorization for MCP server <code>" +:+ server
      +:+ "</code> is complete and the credential is saved, but the gateway cannot connect"
      +:+ " to the service right now. Check the service status in the console, or probe it"
      +:+ " again later.</p><p>可以关闭此页面。</p><p lang=" +:+ dquote +:+ "en" +:+ dquote
      +:+ ">You can close this page.</p>".

Definition success_page (server_id : string) (connected : bool) : Page :=
  html_page 200 "授权完成 / Authorization complete" (success_body server_id connected).

(** The status and the advice, in Chinese and in English. *)
Definition error_advice (e : CallbackError) : Z * string * string :=
  match e with
  | InvalidState =>
      (400,
       "授权请求无效，或已经使用过。请回到控制台重新发起授权。",
       "The authorization request is invalid or was already used. Start it again from"
       +:+ " the console.")
  | CallbackExpired =>
      (400,
       "授权请求已过期。请回到控制台重新发起授权，并在有效期内完成。",
       "The authorization request has expired. Start it again from the console and"
       +:+ " finish within the time limit.")
  | NotGranted =>
      (400,
       "授权服务器没有授予访问权限（可能在授权页面选择了拒绝）。如需授权，请回到控制台重新发起。",
       "The authorization server did not grant access. This can happen if access was"
       +:+ " denied on the authorization page. Start again from the console if you still"
       +:+ " want to authorize.")
  | MissingCode =>
      (400,
       "授权服务器的响应不完整。请回到控制台重新发起授权。",
       "The authorization server response is incomplete. Start authorization again from"
       +:+ " the console.")
  | ExchangeFailed =>
      (502,
       "向授权服务器换取令牌失败。请回到控制台重新发起授权；反复失败时，凭请求编号查看网关日志。",
       "Exchanging the authorization code for a token failed. Start again from the"
       +:+ " console. If it keeps failing, look up the request ID in the gateway logs.")
  end.

Definition error_page (e : CallbackError) (request_id : string) : Page :=
  let '(status, advice_zh, advice_en) := error_advice e in
  let request := escape_html request_id in
  html_page status "授权失败 / Authorization failed"
    ("<h1>授权失败 / Authorization failed</h1><p>" +:+ advice_zh +:+ "</p><p lang=" +:+ dquote
      +:+ "en" +:+ dquote +:+ ">" +:+ advice_en +:+ "</p><p>请求编号：<code>" +:+ request
      +:+ "</code></p><p lang=" +:+ dquote +:+ "en" +:+ dquote +:+ ">Request ID: <code>" +:+ request
      +:+ "</code></p>").

(** ** What varies adds no markup *)

Definition markup_char (c : ascii) : bool :=
  Ascii.eqb c "<" || Ascii.eqb c ">" || Ascii.eqb c (chr 34) || Ascii.eqb c "'".

(** The characters of a page that delimit tags and attributes. *)
Fixpoint markup (s : string) : string :=
  match s with
  | "" => ""
  | String c s => if markup_char c then String c (markup s) else markup s
  end.

Lemma markup_app a b : markup (a +:+ b) = markup a +:+ markup b.
Proof. induction a as [|c a IH]; cbn; [done|]. rewrite IH. by destruct (markup_char c). Qed.

Lemma escape_char_inert c : markup (escape_char c) = "".
Proof.
  unfold escape_char. repeat case_if; try done. cbn [markup]. unfold markup_char.
  by rewrite E0, E1, E2, E3.
Qed.

Lemma escape_html_inert s : markup (escape_html s) = "".
Proof. induction s as [|c s IH]; cbn; [done|]. by rewrite markup_app, escape_char_inert, IH. Qed.

(** Nothing that an authorization server or a browser chooses can add markup to
    the pages of the callback: the tags and attribute quotes of a success page are the
    same for every server id, and those of an error page for every request id. *)
Theorem callback_pages_inert e id id' connected :
  markup (pg_html (success_page id connected)) = markup (pg_html (success_page id' connected)) /\
  markup (pg_html (error_page e id)) = markup (pg_html (error_page e id')).
Proof.
  split.
  - unfold success_page, html_page, success_body. cbn [pg_html]. rewrite !markup_app.
    destruct connected; rewrite !markup_app, !escape_html_inert; reflexivity.
  - unfold error_page, html_page. destruct (error_advice e) as [[status zh] en].
    cbn [pg_html]. rewrite !markup_app, !escape_html_inert. reflexivity.
Qed.

Example escaped_id :
  escape_html "<b>&'x'" = "&lt;b&gt;&amp;&#39;x&#39;".
Proof. reflexivity. Qed.
