(* ===== verification/Events.v ===== *)
(** * Request events and usage ([store/events.rs], [store/sqlite.rs],
    [store/sqlite_aggregation.rs], [store/retention.rs], [observability/aggregation.rs])

    Each request event becomes a row and is counted in the bucket of its hour; rows are
    listed, summed up and deleted when they are old.  Instants are nanoseconds of UTC;
    in the tables they are texts, and compared as texts.  An average is kept as the
    sum and the count that the engine divides. *)

From S2P Require Import Prelude RustStr Naming Errors Config Render Observe ConfigJson Store.
From Stdlib Require Import Ascii.

Local Open Scope string_scope.
Local Open Scope list_scope.
Local Open Scope Z_scope.
Local Open Scope gateway_scope.

(** ** Buckets ([observability/aggregation.rs]) *)

Inductive BucketGranularity := Minute | Hour | Day.

Definition label (g : BucketGranularity) : string :=
  match g with Minute => "minute" | Hour => "hour" | Day => "day" end.

Definition bucket_length (g : BucketGranularity) : Z :=
  match g with Minute => 60 | Hour => 3600 | Day => 86400 end * 1000000000.

(** The hour and the minute of the day are kept, the rest is zero. *)
Definition bucket_start (timestamp : Z) (g : BucketGranularity) : Z :=
  timestamp - timestamp mod bucket_length g.

Record UsageBucket := mkUsageBucket {
  ub_start : Z;
  ub_granularity : BucketGranularity;
  ub_proxy_key_id : string;
  ub_resource_id : string;
  ub_tool_name : string;
  ub_upstream_key_ref : string;
  ub_status : string;
  ub_request_count : Z;
  ub_total_units : Z;
  ub_error_count : Z;
  ub_rate_limit_hits : Z;
  ub_total_latency_ms : Z;
  ub_total_queued_ms : Z;
}.

Definition is_error (e : RequestEvent) : bool :=
  match ev_status e with RS_Success => false | _ => true end.

Definition absorb (e : RequestEvent) (b : UsageBucket) : UsageBucket :=
  mkUsageBucket (ub_start b) (ub_granularity b) (ub_proxy_key_id b) (ub_resource_id b)
    (ub_tool_name b) (ub_upstream_key_ref b) (ub_status b)
    (ub_request_count b + 1) (ub_total_units b + ev_request_units e)
    (if is_error e then ub_error_count b + 1 else ub_error_count b)
    (if ev_rate_limited e then ub_rate_limit_hits b + 1 else ub_rate_limit_hits b)
    (ub_total_latency_ms b + ev_latency_ms e) (ub_total_queued_ms b + ev_queued_ms e).

Definition from_event (start : Z) (g : BucketGranularity) (e : RequestEvent) : UsageBucket :=
  absorb e (mkUsageBucket start g (ev_proxy_key_id e) (ev_resource_id e) (ev_tool_name e)
              (ev_upstream_key_ref e) (status_label (ev_status e)) 0 0 0 0 0 0).

(** ** Tables *)

Record RequestRow := mkRequestRow {
  rr_timestamp : string;
  rr_request_id : string;
  rr_proxy_key_id : string;
  rr_resource_id : string;
  rr_request_kind : string;
  rr_tool_name : string;
  rr_upstream_key_ref : string;
  rr_status_kind : string;
  rr_status_code : option Z;
  rr_latency_ms : Z;
  rr_request_units : Z;
  rr_retry_count : Z;
  rr_rate_limited : Z;
  rr_queued_ms : Z;
  rr_request_args : option string;
  rr_response_preview : option string;
  rr_upstream_latency_ms : option Z;
}.

(** The primary key of [usage_buckets]. *)
Record BucketKey := mkBucketKey {
  bk_start : string;
  bk_granularity : string;
  bk_proxy_key_id : string;
  bk_resource_id : string;
  bk_tool_name : string;
  bk_upstream_key_ref : string;
  bk_status : string;
}.
#[export] Instance BucketKey_eq_dec : EqDecision BucketKey.
Proof. solve_decision. Defined.
#[export] Instance BucketKey_countable : Countable BucketKey.
Proof.
  refine (inj_countable'
    (fun k => (bk_start k, bk_granularity k, bk_proxy_key_id k, bk_resource_id k, bk_tool_name k,
               bk_upstream_key_ref k, bk_status k))
    (fun '(a, b, c, d, e, f, g) => mkBucketKey a b c d e f g) _).
  by intros [].
Defined.

Record BucketCounts := mkBucketCounts {
  bc_request_count : Z;
  bc_total_units : Z;
  bc_error_count : Z;
  bc_rate_limit_hits : Z;
  bc_total_latency_ms : Z;
  bc_total_queued_ms : Z;
}.

Definition add_counts (a b : BucketCounts) : BucketCounts :=
  mkBucketCounts (bc_request_count a + bc_request_count b) (bc_total_units a + bc_total_units b)
    (bc_error_count a + bc_error_count b) (bc_rate_limit_hits a + bc_rate_limit_hits b)
    (bc_total_latency_ms a + bc_total_latency_ms b) (bc_total_queued_ms a + bc_total_queued_ms b).

Record EventStore := mkEventStore {
  es_events : list RequestRow;
  es_buckets : gmap BucketKey BucketCounts;
  es_statements : nat;
}.

Definition empty_events : EventStore := mkEventStore [] ∅ 0.

Section Events.
Context {DB : Database} {RF : Rfc3339}.

Definition event_statement {A} (f : EventStore -> EventStore * A) (s : EventStore)
    : EventStore * result StoreError A :=
  let n := es_statements s in
  let s := mkEventStore (es_events s) (es_buckets s) (S n) in
  match db_failure n with
  | Some e => (s, Err (SE_Query e))
  | None => let '(s, a) := f s in (s, Ok a)
  end.

(** ** Rows of events ([store/sqlite.rs]) *)

Definition encode_status (s : RequestStatus) : string * option Z :=
  match s with
  | RS_Success => ("success", None)
  | RS_UpstreamError code => ("upstream_error", Some code)
  | RS_Timeout => ("timeout", None)
  | RS_ConnectionFailed => ("connection_failed", None)
  | RS_Limited => ("limited", None)
  end.

Definition decode_status (kind : string) (code : option Z) : result StoreError RequestStatus :=
  if kind =s "success" then Ok RS_Success
  else if kind =s "upstream_error" then
    Ok (RS_UpstreamError (default 0 ((fun c => c mod 2 ^ 16) <$> code)))
  else if kind =s "timeout" then Ok RS_Timeout
  else if kind =s "connection_failed" then Ok RS_ConnectionFailed
  else if kind =s "limited" then Ok RS_Limited
  else Err (SE_Query (db_decode_error ("unknown status_kind: " +:+ kind))).

Definition request_row (e : RequestEvent) : RequestRow :=
  let '(status_kind, status_code) := encode_status (ev_status e) in
  mkRequestRow (to_rfc3339 (ev_timestamp e)) (ev_request_id e) (ev_proxy_key_id e)
    (ev_resource_id e) (kind_as_str (ev_request_kind e)) (ev_tool_name e) (ev_upstream_key_ref e)
    status_kind status_code (ev_latency_ms e) (ev_request_units e) (ev_retry_count e)
    (if ev_rate_limited e then 1 else 0) (ev_queued_ms e) (ev_request_args e)
    (ev_response_preview e) (ev_upstream_latency_ms e).

(** [as u32], [as u8] wrap. *)
Definition row_to_event (r : RequestRow) : result StoreError RequestEvent :=
  t ← ok_or (SE_Query (db_decode_error ("invalid timestamp: " +:+ rfc3339_error (rr_timestamp r))))
        (parse_rfc3339 (rr_timestamp r));
  status ← decode_status (rr_status_kind r) (rr_status_code r);
  kind ← ok_or (SE_Query (db_decode_error ("unknown request_kind: " +:+ rr_request_kind r)))
           (kind_parse (rr_request_kind r));
  Ok (mkRequestEvent t (rr_request_id r) (rr_proxy_key_id r) (rr_resource_id r) kind
        (rr_tool_name r) (rr_upstream_key_ref r) status (rr_latency_ms r mod 2 ^ 32)
        (rr_request_units r mod 2 ^ 32) (rr_retry_count r mod 2 ^ 8)
        (negb (rr_rate_limited r =? 0)) (rr_queued_ms r mod 2 ^ 32) (rr_request_args r)
        (rr_response_preview r) ((fun v => v mod 2 ^ 32) <$> rr_upstream_latency_ms r)).

Definition insert_event (e : RequestEvent) : EventStore -> EventStore * result StoreError () :=
  event_statement (fun s =>
    (mkEventStore (es_events s ++ [request_row e]) (es_buckets s) (es_statements s), tt)).

Record RequestEventFilter := mkRequestEventFilter {
  rf_proxy_key_id : option string;
  rf_resource_id : option string;
  rf_request_kind : option RequestKind;
  rf_tool_name : option string;
  rf_from : option Z;
  rf_to : option Z;
}.

(** [col = ?] when the filter has a value; the bounds of time [col >= ?], [col < ?]. *)
Definition equals (filter : option string) (column : string) : bool :=
  match filter with Some v => column =s v | None => true end.
Definition within (from to : option Z) (column : string) : bool :=
  match from with Some t => String.leb (to_rfc3339 t) column | None => true end
  && match to with Some t => negb (String.leb (to_rfc3339 t) column) | None => true end.

Definition event_selected (f : RequestEventFilter) (r : RequestRow) : bool :=
  equals (rf_proxy_key_id f) (rr_proxy_key_id r) && equals (rf_resource_id f) (rr_resource_id r)
  && equals (kind_as_str <$> rf_request_kind f) (rr_request_kind r)
  && equals (rf_tool_name f) (rr_tool_name r) && within (rf_from f) (rf_to f) (rr_timestamp r).

(** [ORDER BY col DESC]; equal ones come here as they were inserted. *)
Definition newest_first {R} (col : R -> string) (l : list R) : list R :=
  sort_by (fun a b => String.leb (col b) (col a)) l.

Definition list_events (f : RequestEventFilter) (limit : nat) (s : EventStore)
    : EventStore * result StoreError (list RequestEvent) :=
  let '(s, rows) := event_statement (fun s =>
    (s, take limit (newest_first rr_timestamp (List.filter (event_selected f) (es_events s))))) s in
  (s, rows ← rows; try_map row_to_event rows).

(** The number of rows that were deleted. *)
Definition delete_events_before (cutoff : Z) (s : EventStore) : EventStore * result StoreError nat :=
  event_statement (fun s =>
    let kept := List.filter (fun r => String.leb (to_rfc3339 cutoff) (rr_timestamp r)) (es_events s) in
    (mkEventStore kept (es_buckets s) (es_statements s),
     (length (es_events s) - length kept)%nat)) s.

(** ** Rows of buckets ([store/sqlite_aggregation.rs], [store/repository/usage.rs]) *)

Definition bucket_key (b : UsageBucket) : BucketKey :=
  mkBucketKey (to_rfc3339 (ub_start b)) (label (ub_granularity b)) (ub_proxy_key_id b)
    (ub_resource_id b) (ub_tool_name b) (ub_upstream_key_ref b) (ub_status b).

(** [as i64] of counters that one event makes. *)
Definition bucket_counts (b : UsageBucket) : BucketCounts :=
  mkBucketCounts (ub_request_count b) (ub_total_units b) (ub_error_count b) (ub_rate_limit_hits b)
    (ub_total_latency_ms b) (ub_total_queued_ms b).

(** [ON CONFLICT .. DO UPDATE]. *)
Definition upsert_bucket (k : BucketKey) (c : BucketCounts)
    : EventStore -> EventStore * result StoreError () :=
  event_statement (fun s =>
    let c := match es_buckets s !! k with Some old => add_counts old c | None => c end in
    (mkEventStore (es_events s) (<[k := c]> (es_buckets s)) (es_statements s), tt)).

Record UsageBucketFilter := mkUsageBucketFilter {
  uf_proxy_key_id : option string;
  uf_resource_id : option string;
  uf_tool_name : option string;
  uf_granularity : option string;
  uf_from : option Z;
  uf_to : option Z;
}.

Definition bucket_selected (f : UsageBucketFilter) (k : BucketKey) : bool :=
  equals (uf_proxy_key_id f) (bk_proxy_key_id k) && equals (uf_resource_id f) (bk_resource_id k)
  && equals (uf_tool_name f) (bk_tool_name k) && equals (uf_granularity f) (bk_granularity k)
  && within (uf_from f) (uf_to f) (bk_start k).

Definition query_buckets (f : UsageBucketFilter) (limit : nat) (s : EventStore)
    : EventStore * result StoreError (list (BucketKey * BucketCounts)) :=
  event_statement (fun s =>
    (s, take limit (newest_first (fun p => bk_start p.1)
          (List.filter (fun p => bucket_selected f p.1) (map_to_list (es_buckets s)))))) s.

(** ** Persisting ([store/events.rs]): failures are only logged *)

Definition persist_request_event (e : RequestEvent) (s : EventStore) : EventStore :=
  let s := (insert_event e s).1 in
  let b := from_event (bucket_start (ev_timestamp e) Hour) Hour e in
  (upsert_bucket (bucket_key b) (bucket_counts b) s).1.

(** ** Retention ([store/retention.rs]) *)

(** [checked_sub_days]; [chrono_min] is the first instant there is. *)
Definition purge_expired_request_events (chrono_min retention_days now : Z) (s : EventStore)
    : EventStore * result StoreError nat :=
  if retention_days =? 0 then (s, Ok 0%nat)
  else
    let cutoff := now - retention_days * (86400 * 1000000000) in
    if cutoff <? chrono_min then (s, Ok 0%nat) else delete_events_before cutoff s.
End Events.

(** ** Summaries ([store/sqlite_aggregation.rs]) *)

Inductive AggregationDimension := ByProxyKey | ByResource | ByTool | ByStatus | ByDomain.

Record AggregationFilter := mkAggregationFilter {
  af_proxy_key_id : option string;
  af_resource_id : option string;
  af_from : option Z;
  af_to : option Z;
}.

Definition no_filter : AggregationFilter := mkAggregationFilter None None None None.

Record UsageSummary := mkUsageSummary {
  us_dimension_value : string;
  us_request_kind : option RequestKind;
  us_request_count : Z;
  us_error_count : Z;
  us_total_units : Z;
  us_latency : Z * Z;
  us_rate_limit_hits : Z;
}.

Record OverallStats := mkOverallStats {
  os_total_requests : Z;
  os_total_errors : Z;
  os_unique_tools : nat;
  os_unique_proxy_keys : nat;
  os_unique_resources : nat;
  os_latency : Z * Z;
  os_rate_limit_hits : Z;
}.

(** [GROUP BY]: the keys in the order of their first rows. *)
Definition distinct {K} `{EqDecision K} (l : list K) : list K :=
  fold_left (fun seen k => if bool_decide (k ∈ seen) then seen else seen ++ [k]) l [].

Definition group_by {A K} `{EqDecision K} (key : A -> K) (l : list A) : list (K * list A) :=
  (fun k => (k, List.filter (fun x => bool_decide (key x = k)) l)) <$> distinct (key <$> l).

Fixpoint sum_by {A} (f : A -> Z) (l : list A) : Z :=
  match l with [] => 0 | x :: l => f x + sum_by f l end.

(** [substr] to the first [instr] of two underscores. *)
Definition sql_domain (tool_name : string) : string := default "" (head (split_dunder tool_name)).

Definition dimension_column (d : AggregationDimension) (r : RequestRow) : string :=
  match d with
  | ByProxyKey => rr_proxy_key_id r
  | ByResource => rr_resource_id r
  | ByTool => rr_tool_name r
  | ByStatus => rr_status_kind r
  | ByDomain => sql_domain (rr_tool_name r)
  end.

Definition row_is_error (r : RequestRow) : Z := if rr_status_kind r =s "success" then 0 else 1.

Section Aggregation.
Context {DB : Database} {RF : Rfc3339}.

Definition aggregated (f : AggregationFilter) (proxy_key resource time : string) : bool :=
  equals (af_proxy_key_id f) proxy_key && equals (af_resource_id f) resource
  && within (af_from f) (af_to f) time.

(** [row_to_usage_summary]: the kind of a group of tools is read back. *)
Definition summary_of (kind : option string) (value : string) (rows : list RequestRow)
    : result StoreError UsageSummary :=
  kind ← match kind with
         | Some k =>
             Some <$> ok_or (SE_Query (db_decode_error ("unknown request_kind: " +:+ k))) (kind_parse k)
         | None => Ok None
         end;
  Ok (mkUsageSummary value kind (Z.of_nat (length rows)) (sum_by row_is_error rows)
        (sum_by rr_request_units rows) (sum_by rr_latency_ms rows, Z.of_nat (length rows))
        (sum_by rr_rate_limited rows)).

Definition group_kind (d : AggregationDimension) (r : RequestRow) : option string :=
  match d with ByTool => Some (rr_request_kind r) | _ => None end.

(** [ORDER BY request_count DESC]; equal counts come here in the order of the groups. *)
Definition summary_groups (d : AggregationDimension) (f : AggregationFilter) (l : list RequestRow)
    : list ((option string * string) * list RequestRow) :=
  sort_by (fun a b => (length b.2 <=? length a.2)%nat)
    (group_by (fun r => (group_kind d r, dimension_column d r))
       (List.filter (fun r => aggregated f (rr_proxy_key_id r) (rr_resource_id r) (rr_timestamp r)) l)).

Definition summarize_by (d : AggregationDimension) (f : AggregationFilter) (limit : nat)
    (s : EventStore) : EventStore * result StoreError (list UsageSummary) :=
  let '(s, rows) := event_statement (fun s => (s, take limit (summary_groups d f (es_events s)))) s in
  (s, rows ← rows; try_map (fun g => summary_of g.1.1 g.1.2 g.2) rows).

(** The buckets of one start time, summed up. *)
Definition series_groups (granularity : string) (f : AggregationFilter)
    (l : list (BucketKey * BucketCounts)) : list (string * list (BucketKey * BucketCounts)) :=
  sort_by (fun a b => String.leb a.1 b.1)
    (group_by (fun p => bk_start p.1)
       (List.filter (fun p => (bk_granularity p.1 =s granularity)
          && aggregated f (bk_proxy_key_id p.1) (bk_resource_id p.1) (bk_start p.1)) l)).

Definition series_summary (g : string * list (BucketKey * BucketCounts)) : UsageSummary :=
  let count := sum_by (fun p => bc_request_count p.2) g.2 in
  mkUsageSummary g.1 None count (sum_by (fun p => bc_error_count p.2) g.2)
    (sum_by (fun p => bc_total_units p.2) g.2)
    (sum_by (fun p => bc_total_latency_ms p.2) g.2, count)
    (sum_by (fun p => bc_rate_limit_hits p.2) g.2).

Definition series_by_bucket (granularity : string) (f : AggregationFilter) (limit : nat)
    : EventStore -> EventStore * result StoreError (list UsageSummary) :=
  event_statement (fun s =>
    (s, series_summary <$> take limit (series_groups granularity f (map_to_list (es_buckets s))))).

(** [null_integer]: what reading NULL as an integer gives; a sum over no rows is NULL. *)
Definition overall_stats (null_integer : result StoreError Z) (f : AggregationFilter)
    (s : EventStore) : EventStore * result StoreError OverallStats :=
  let '(s, rows) := event_statement (fun s =>
    (s, List.filter (fun r => aggregated f (rr_proxy_key_id r) (rr_resource_id r) (rr_timestamp r))
          (es_events s))) s in
  (s, rows ← rows;
      errors ← match rows with [] => null_integer | _ => Ok (sum_by row_is_error rows) end;
      Ok (mkOverallStats (Z.of_nat (length rows)) errors
            (length (distinct (rr_tool_name <$> List.filter (fun r => rr_request_kind r =s "tool") rows)))
            (length (distinct (rr_proxy_key_id <$> rows)))
            (length (distinct (rr_resource_id <$> rows)))
            (sum_by rr_latency_ms rows, Z.of_nat (length rows)) (sum_by rr_rate_limited rows))).
End Aggregation.

(** ** Facts on groups and sums *)

Lemma distinct_from_elem {K} `{EqDecision K} (l seen : list K) k :
  k ∈ fold_left (fun seen k => if bool_decide (k ∈ seen) then seen else seen ++ [k]) l seen
  <-> k ∈ seen \/ k ∈ l.
Proof.
  revert seen. induction l as [|x l IH]; intros seen; cbn; [set_solver|]. rewrite IH.
  case_bool_decide; set_solver.
Qed.

Lemma distinct_elem {K} `{EqDecision K} (l : list K) k : k ∈ distinct l <-> k ∈ l.
Proof. unfold distinct. rewrite distinct_from_elem. set_solver. Qed.

Lemma group_by_elem {A K} `{EqDecision K} (key : A -> K) l k rows :
  (k, rows) ∈ group_by key l <->
  k ∈ key <$> l /\ rows = List.filter (fun x => bool_decide (key x = k)) l.
Proof.
  unfold group_by. rewrite list_elem_of_fmap. split.
  - intros (k' & E & H). rewrite distinct_elem in H. injection E as -> ->. by split.
  - intros [H ->]. exists k. by rewrite distinct_elem.
Qed.

Lemma distinct_from_NoDup {K} `{EqDecision K} (l seen : list K) :
  NoDup seen ->
  NoDup (fold_left (fun seen k => if bool_decide (k ∈ seen) then seen else seen ++ [k]) l seen).
Proof.
  revert seen. induction l as [|x l IH]; intros seen H; [done|]. cbn. apply IH.
  case_bool_decide; [done|]. apply NoDup_app. split; [done|].
  split; [set_solver|apply NoDup_singleton].
Qed.

Lemma group_by_NoDup {A K} `{EqDecision K} (key : A -> K) l : NoDup (fst <$> group_by key l).
Proof.
  unfold group_by. rewrite <- list_fmap_compose.
  rewrite (list_fmap_ext _ id) by done. rewrite list_fmap_id.
  apply distinct_from_NoDup, NoDup_nil_2.
Qed.

Lemma sum_by_perm {A} (f : A -> Z) l l' : l ≡ₚ l' -> sum_by f l = sum_by f l'.
Proof. induction 1; cbn; lia. Qed.

Lemma sum_by_app {A} (f : A -> Z) l l' : sum_by f (l ++ l') = sum_by f l + sum_by f l'.
Proof. induction l; cbn; lia. Qed.

Lemma sum_by_ext {A} (f g : A -> Z) l : (forall x, x ∈ l -> f x = g x) -> sum_by f l = sum_by g l.
Proof.
  intros H. induction l as [|x l IH]; [done|]. cbn. rewrite H by set_solver.
  rewrite IH; [done|]. intros. apply H. set_solver.
Qed.

Lemma sum_by_one {A} (l : list A) : sum_by (fun _ => 1) l = Z.of_nat (length l).
Proof. induction l; cbn; lia. Qed.

(** ** Buckets count events *)

Section Counting.
Context {DB : Database} {RF : Rfc3339}.

Definition hour_bucket (e : RequestEvent) : UsageBucket :=
  from_event (bucket_start (ev_timestamp e) Hour) Hour e.

Definition persisted (l : list RequestEvent) : EventStore :=
  fold_left (fun s e => persist_request_event e s) l empty_events.

Hypothesis steady : forall n, db_failure n = None.

Lemma persist_spec e s :
  es_events (persist_request_event e s) = es_events s ++ [request_row e] /\
  es_buckets (persist_request_event e s)
  = <[bucket_key (hour_bucket e) :=
        match es_buckets s !! bucket_key (hour_bucket e) with
        | Some old => add_counts old (bucket_counts (hour_bucket e))
        | None => bucket_counts (hour_bucket e)
        end]> (es_buckets s).
Proof.
  unfold persist_request_event, insert_event, upsert_bucket, event_statement. cbn.
  by rewrite !steady.
Qed.

Lemma persisted_snoc l e : persisted (l ++ [e]) = persist_request_event e (persisted l).
Proof. unfold persisted. by rewrite fold_left_app. Qed.

Lemma persisted_events l : es_events (persisted l) = request_row <$> l.
Proof.
  induction l as [|e l IH] using rev_ind; [done|].
  rewrite persisted_snoc, fmap_app. destruct (persist_spec e (persisted l)) as [-> _]. by rewrite IH.
Qed.

(** A sum over the buckets that are selected by their key is the sum over the events. *)
Lemma sum_buckets (P : BucketKey -> bool) (f : BucketCounts -> Z) l :
  (forall a b, f (add_counts a b) = f a + f b) ->
  sum_by (fun p => f p.2) (List.filter (fun p => P p.1) (map_to_list (es_buckets (persisted l))))
  = sum_by (fun e => f (bucket_counts (hour_bucket e)))
      (List.filter (fun e => P (bucket_key (hour_bucket e))) l).
Proof.
  intros Hf. induction l as [|e l IH] using rev_ind.
  { unfold persisted. cbn. by rewrite map_to_list_empty. }
  rewrite persisted_snoc, List.filter_app, sum_by_app, <- IH.
  destruct (persist_spec e (persisted l)) as [_ ->]. cbn [List.filter].
  set (m := es_buckets (persisted l)). set (k := bucket_key (hour_bucket e)).
  set (c := bucket_counts (hour_bucket e)). destruct (m !! k) as [old|] eqn:Ek.
  - rewrite <- insert_delete_eq.
    rewrite (sum_by_perm _ _ _ (kept_perm _ _ _ (map_to_list_insert _ _ _ (lookup_delete_eq m k)))).
    rewrite (sum_by_perm _ (List.filter _ (map_to_list m)) _
      (kept_perm _ _ _ (Permutation_sym (map_to_list_delete _ _ _ Ek)))).
    cbn. fold k c. destruct (P k); cbn; [rewrite Hf; fold c|]; lia.
  - rewrite (sum_by_perm _ _ _ (kept_perm _ _ _ (map_to_list_insert _ _ _ Ek))).
    cbn. fold k c. destruct (P k); cbn; fold c; lia.
Qed.

(** The buckets that exist. *)
Lemma bucket_exists l k :
  is_Some (es_buckets (persisted l) !! k) <-> exists e, e ∈ l /\ bucket_key (hour_bucket e) = k.
Proof.
  induction l as [|e l IH] using rev_ind.
  { unfold persisted. cbn. rewrite lookup_empty. split; [by intros [? ?]|set_solver]. }
  rewrite persisted_snoc. destruct (persist_spec e (persisted l)) as [_ ->].
  rewrite lookup_insert_is_Some'. rewrite IH. set_solver.
Qed.

(** The events of an hour that a filter selects: by their key and resource, and by the
    start of the hour, which is what the bounds of time are compared with. *)
Definition hour_of (e : RequestEvent) : string := to_rfc3339 (bucket_start (ev_timestamp e) Hour).

Definition in_hour (f : AggregationFilter) (h : string) (e : RequestEvent) : bool :=
  aggregated f (ev_proxy_key_id e) (ev_resource_id e) (hour_of e) && (hour_of e =s h).

(** What a trend shows for an hour, read off the events themselves. *)
Definition hour_summary (f : AggregationFilter) (h : string) (l : list RequestEvent) : UsageSummary :=
  let es := List.filter (in_hour f h) l in
  let count := Z.of_nat (length es) in
  mkUsageSummary h None count (sum_by (fun e => if is_error e then 1 else 0) es)
    (sum_by ev_request_units es) (sum_by ev_latency_ms es, count)
    (sum_by (fun e => if ev_rate_limited e then 1 else 0) es).

(** One sum of a group. *)
Lemma series_sum (f : AggregationFilter) h l (g : BucketCounts -> Z) (m : RequestEvent -> Z) :
  (forall a b, g (add_counts a b) = g a + g b) ->
  (forall e, g (bucket_counts (hour_bucket e)) = m e) ->
  sum_by (fun p => g p.2)
    (List.filter (fun p => bool_decide (bk_start p.1 = h))
       (List.filter (fun p => (bk_granularity p.1 =s "hour")
          && aggregated f (bk_proxy_key_id p.1) (bk_resource_id p.1) (bk_start p.1))
          (map_to_list (es_buckets (persisted l)))))
  = sum_by m (List.filter (in_hour f h) l).
Proof.
  intros Hg Hm. rewrite filter_filter.
  etransitivity; [exact (sum_buckets (fun k => (bk_granularity k =s "hour")
    && aggregated f (bk_proxy_key_id k) (bk_resource_id k) (bk_start k)
    && bool_decide (bk_start k = h)) g l Hg)|].
  rewrite (sum_by_ext _ m) by (intros; apply Hm). f_equal. apply filter_ext_elem. intros e _.
  unfold in_hour. cbn. f_equal. unfold hour_of.
  destruct (String.eqb_spec (to_rfc3339 (bucket_start (ev_timestamp e) Hour)) h).
  - by apply bool_decide_eq_true_2.
  - by apply bool_decide_eq_false_2.
Qed.

Lemma series_group_summary f h l :
  series_summary (h, List.filter (fun p => bool_decide (bk_start p.1 = h))
    (List.filter (fun p => (bk_granularity p.1 =s "hour")
       && aggregated f (bk_proxy_key_id p.1) (bk_resource_id p.1) (bk_start p.1))
       (map_to_list (es_buckets (persisted l))))) = hour_summary f h l.
Proof.
  unfold series_summary, hour_summary. cbn [fst snd]. rewrite <- !sum_by_one.
  f_equal; [|..|f_equal|]; apply series_sum; intros; cbn; try done; try by case_match.
  all: destruct (ev_rate_limited e); lia.
Qed.
(** The hours of the groups, and the entry of a group. *)
Lemma series_hours f l h :
  h ∈ fst <$> series_groups "hour" f (map_to_list (es_buckets (persisted l))) <->
  existsb (in_hour f h) l = true.
Proof.
  unfold series_groups. rewrite list_elem_of_fmap, existsb_elem. split.
  - intros ([? g] & -> & [Hh _]%sort_by_elem%group_by_elem).
    apply list_elem_of_fmap in Hh as ([k c] & -> & [H1 H2]%filter_elem).
    apply elem_of_map_to_list in H1.
    destruct (proj1 (bucket_exists l k) (ex_intro _ c H1)) as (e & He & <-).
    exists e. split; [done|]. apply andb_true_iff. split; [exact H2|apply String.eqb_refl].
  - intros (e & He & [H1 <-%String.eqb_eq]%andb_true_iff).
    destruct (proj2 (bucket_exists l _) (ex_intro _ e (conj He eq_refl))) as [c Hc].
    eexists (hour_of e, _). split; [done|]. apply sort_by_elem, group_by_elem. split; [|done].
    apply list_elem_of_fmap. exists (bucket_key (hour_bucket e), c). split; [done|].
    apply filter_elem. split; [by apply elem_of_map_to_list|]. cbn. exact H1.
Qed.

Lemma series_entry f l g :
  g ∈ series_groups "hour" f (map_to_list (es_buckets (persisted l))) ->
  series_summary g = hour_summary f g.1 l.
Proof.
  destruct g as [h g]. intros [_ ->]%sort_by_elem%group_by_elem. by apply series_group_summary.
Qed.
End Counting.

(** C40: The trend that is read from the hourly buckets is the one that a scan of the
    events by their hours would give.  When every statement runs, after any list of
    events was persisted, [series_by_bucket] returns the first [limit] of the hours, in
    the order of their texts and each once, that have an event of the filter's key and
    resource and whose start (not the event's own time: an hour that begins before the
    lower bound is left out as a whole, one that begins before the upper bound is
    counted as a whole) lies within the filter's bounds; so it is the oldest hours that
    a limit keeps.  Each entry carries the number of those events of its hour, of their
    errors and of their rate limits, and the sums of their units and latencies. *)
Theorem series_refines_events {DB : Database} {RF : Rfc3339} f limit l :
  (forall n, db_failure n = None) ->
  exists hours,
    Sorted (fun a b => String.leb a b = true) hours /\ NoDup hours /\
    (forall h, h ∈ hours <->
       exists e, e ∈ l /\ hour_of e = h /\
         equals (af_proxy_key_id f) (ev_proxy_key_id e) = true /\
         equals (af_resource_id f) (ev_resource_id e) = true /\
         within (af_from f) (af_to f) h = true) /\
    (series_by_bucket "hour" f limit (persisted l)).2
    = Ok ((fun h => hour_summary f h l) <$> take limit hours).
Proof.
  intros Hs. set (groups := series_groups "hour" f (map_to_list (es_buckets (persisted l)))).
  exists (fst <$> groups). split_and!.
  - apply (Sorted_fmap fst (fun a b => String.leb a b = true)), (sort_by_Sorted (fun a b => String.leb a.1 b.1)).
    intros x y. apply str_leb_total.
  - unfold groups, series_groups. rewrite sort_by_perm. apply group_by_NoDup.
  - intros h. unfold groups. rewrite series_hours by done. split.
    + intros (e & He & [[[H1 H2]%andb_true_iff H3]%andb_true_iff <-%String.eqb_eq]%andb_true_iff)%existsb_elem.
      by exists e.
    + intros (e & He & <- & H1 & H2 & H3). apply existsb_elem. exists e. split; [done|].
      unfold in_hour, aggregated. by rewrite H1, H2, H3, String.eqb_refl.
  - unfold series_by_bucket, event_statement. rewrite Hs. cbn [fst snd es_buckets]. f_equal.
    fold groups. rewrite <- fmap_take, <- list_fmap_compose. apply list_fmap_ext. intros i g Hg.
    apply series_entry; [done|]. apply lookup_take_Some in Hg as [Hg _]. exact (list_elem_of_lookup_2 _ _ _ Hg).
Qed.

(** ** The table of events *)

(** The widths of the fields of an event. *)
Record event_fits {RF : Rfc3339} (e : RequestEvent) : Prop := {
  fit_time : chrono_time (ev_timestamp e);
  fit_code code : ev_status e = RS_UpstreamError code -> 0 <= code < 2 ^ 16;
  fit_latency : 0 <= ev_latency_ms e < 2 ^ 32;
  fit_units : 0 <= ev_request_units e < 2 ^ 32;
  fit_retries : 0 <= ev_retry_count e < 2 ^ 8;
  fit_queued : 0 <= ev_queued_ms e < 2 ^ 32;
  fit_upstream v : ev_upstream_latency_ms e = Some v -> 0 <= v < 2 ^ 32;
}.

(** A row reads back as the event it was made from. *)
Lemma request_event_roundtrip {DB : Database} {RF : Rfc3339} e :
  event_fits e -> row_to_event (request_row e) = Ok e.
Proof.
  intros [Ht Hc H1 H2 H3 H4 H5]. unfold request_row.
  assert (decode_status (encode_status (ev_status e)).1 (encode_status (ev_status e)).2
    = Ok (ev_status e)) as Hs.
  { destruct (ev_status e) as [|code| | |]; try done. cbn. specialize (Hc code eq_refl).
    by rewrite Z.mod_small. }
  destruct (encode_status (ev_status e)) as [kind code]. unfold row_to_event. cbn in Hs |- *.
  rewrite rfc3339_roundtrip by done. cbn. rewrite Hs. cbn.
  assert (kind_parse (kind_as_str (ev_request_kind e)) = Some (ev_request_kind e)) as -> by
    by destruct (ev_request_kind e).
  cbn. rewrite !Z.mod_small by done.
  destruct e as [t id pk rid kd tn kr st lat un rt rl qd args pv up]. cbn in *.
  destruct up as [v|]; cbn; [rewrite Z.mod_small by (by apply H5)|]; by destruct rl.
Qed.

Lemma try_map_fmap {E A B C} (f : B -> result E C) (g : A -> B) l :
  try_map f (g <$> l) = try_map (fun x => f (g x)) l.
Proof. induction l as [|x l IH]; [done|]. cbn. by rewrite IH. Qed.

Lemma try_map_all {E A B} (f : A -> result E B) (g : A -> B) l :
  (forall x, x ∈ l -> f x = Ok (g x)) -> try_map f l = Ok (g <$> l).
Proof.
  intros H. induction l as [|x l IH]; [done|]. cbn. rewrite H by set_solver. cbn.
  rewrite IH by set_solver. done.
Qed.

Lemma filter_fmap' {A B} (f : A -> B) p l :
  List.filter p (f <$> l) = f <$> List.filter (fun x => p (f x)) l.
Proof. induction l as [|x l IH]; [done|]. cbn. destruct (p (f x)); cbn; by rewrite IH. Qed.

Lemma filter_true {A} p (l : list A) : (forall x, p x = true) -> List.filter p l = l.
Proof. intros H. induction l as [|x l IH]; [done|]. cbn. by rewrite H, IH. Qed.

Lemma insert_sorted_fmap {A B} (f : A -> B) leb x l :
  insert_sorted leb (f x) (f <$> l) = f <$> insert_sorted (fun a b => leb (f a) (f b)) x l.
Proof. induction l as [|y l IH]; [done|]. cbn. destruct (leb _ _); cbn; by rewrite ?IH. Qed.

Lemma sort_by_fmap {A B} (f : A -> B) leb l :
  sort_by leb (f <$> l) = f <$> sort_by (fun a b => leb (f a) (f b)) l.
Proof.
  unfold sort_by. induction l as [|x l IH]; [done|]. cbn. rewrite IH. apply insert_sorted_fmap.
Qed.

Lemma request_row_time {RF : Rfc3339} e : rr_timestamp (request_row e) = to_rfc3339 (ev_timestamp e).
Proof. unfold request_row. by destruct (encode_status _). Qed.

Lemma rows_newest_first {RF : Rfc3339} l :
  newest_first rr_timestamp (request_row <$> l)
  = request_row <$> newest_first (fun e => to_rfc3339 (ev_timestamp e)) l.
Proof.
  unfold newest_first. rewrite sort_by_fmap. f_equal. unfold sort_by.
  induction l as [|e l IH]; [done|]. cbn. rewrite IH. generalize (foldr
    (insert_sorted (fun a b => String.leb (to_rfc3339 (ev_timestamp b)) (to_rfc3339 (ev_timestamp a)))) [] l).
  intros k. induction k as [|x k IHk]; [done|]. cbn. rewrite !request_row_time. by rewrite IHk.
Qed.

(** Times whose texts are ordered as they are. *)
Definition ordered_text {RF : Rfc3339} (cutoff : Z) (e : RequestEvent) : Prop :=
  String.leb (to_rfc3339 cutoff) (to_rfc3339 (ev_timestamp e)) = (cutoff <=? ev_timestamp e).

(** Retention removes what is old and nothing else.  After any events were
    persisted and the expired ones purged with a window of some days, listing without
    a filter gives back, field by field, exactly the events that are not older than
    the window, newest text of time first; the number that is reported is the number
    of the others; and the hourly buckets are as before. *)
Theorem retention_keeps_recent {DB : Database} {RF : Rfc3339} chrono_min days now l limit :
  (forall n, db_failure n = None) -> Forall event_fits l -> (length l <= limit)%nat ->
  0 < days -> chrono_min <= now - days * 86400000000000 ->
  Forall (ordered_text (now - days * 86400000000000)) l ->
  let recent := List.filter (fun e => now - days * 86400000000000 <=? ev_timestamp e) l in
  let '(s, deleted) := purge_expired_request_events chrono_min days now (persisted l) in
  deleted = Ok (length l - length recent)%nat /\
  es_buckets s = es_buckets (persisted l) /\
  (list_events (mkRequestEventFilter None None None None None None) limit s).2
  = Ok (newest_first (fun e => to_rfc3339 (ev_timestamp e)) recent).
Proof.
  intros Hs Hfit Hlen Hd Hmin Hord recent. unfold purge_expired_request_events.
  rewrite (proj2 (Z.eqb_neq days 0)) by lia.
  change (86400 * 1000000000) with 86400000000000. set (cutoff := now - _) in *.
  rewrite (proj2 (Z.ltb_ge cutoff chrono_min)) by done.
  unfold delete_events_before, event_statement. rewrite Hs. cbn [fst snd es_events es_buckets].
  rewrite persisted_events by done.
  assert (List.filter (fun r => String.leb (to_rfc3339 cutoff) (rr_timestamp r)) (request_row <$> l)
    = request_row <$> recent) as ->.
  { rewrite filter_fmap'. f_equal. apply filter_ext_elem. intros e He.
    rewrite Forall_forall in Hord. rewrite <- (Hord e He). unfold request_row.
    by destruct (encode_status _). }
  rewrite !length_fmap. split; [done|]. split; [done|].
  unfold list_events, event_statement. rewrite Hs. cbn [fst snd es_events].
  rewrite filter_true by done. rewrite rows_newest_first, take_ge.
  - rewrite Forall_forall in Hfit. cbn. rewrite try_map_fmap, (try_map_all _ id).
    + by rewrite list_fmap_id.
    + intros e [He _]%sort_by_elem%filter_elem. by apply request_event_roundtrip, Hfit.
  - rewrite length_fmap. unfold newest_first. rewrite sort_by_length.
    etransitivity; [apply List.filter_length_le|done].
Qed.

(** ** An hour of requests *)

(** Times for the examples: 64 binary digits, so that texts are ordered as times. *)
Fixpoint binary_digits (n : nat) (t : Z) : string :=
  match n with
  | O => ""
  | S n => binary_digits n (t / 2) +:+ (if Z.odd t then "1" else "0")
  end.

Fixpoint read_digits (acc : Z) (s : string) : Z :=
  match s with
  | "" => acc
  | String c s => read_digits (2 * acc + (if Ascii.eqb c "1"%char then 1 else 0)) s
  end.

Lemma read_digits_app acc a b : read_digits acc (a +:+ b) = read_digits (read_digits acc a) b.
Proof. revert acc. induction a as [|c a IH]; intros acc; [done|]. cbn. apply IH. Qed.

Lemma read_binary n t acc :
  0 <= t < 2 ^ Z.of_nat n -> read_digits acc (binary_digits n t) = acc * 2 ^ Z.of_nat n + t.
Proof.
  revert t acc. induction n as [|n IH]; intros t acc Ht.
  { cbn in *. lia. }
  rewrite Nat2Z.inj_succ, Z.pow_succ_r in Ht |- * by lia. cbn [binary_digits].
  rewrite read_digits_app, IH by (split; [apply Z.div_pos; lia|apply Z.div_lt_upper_bound; lia]).
  pose proof (Zdiv2_odd_eqn t) as E. rewrite Z.div2_div in E. destruct (Z.odd t); cbn; lia.
Qed.

Program Definition digit_times : Rfc3339 := {|
  to_rfc3339 t := binary_digits 64 t;
  parse_rfc3339 s := Some (read_digits 0 s);
  rfc3339_error _ := "invalid time";
  chrono_time t := 0 <= t < 2 ^ 64;
|}.
Next Obligation. intros t Ht. cbn beta. by rewrite read_binary. Qed.


Definition demo_request_event (t : Z) (status : RequestStatus) : RequestEvent :=
  mkRequestEvent (t * 1000000000) "r" "agent" "exa" KindTool "search__exa__find" "key:a…z" status
    120 1 0 false 0 None None None.

Definition demo_requests : list RequestEvent :=
  [demo_request_event 3600 RS_Success; demo_request_event 7199 RS_Timeout;
   demo_request_event 7200 RS_Success].

Definition late_filter : AggregationFilter :=
  mkAggregationFilter None (Some "exa") (Some (3601 * 1000000000)) None.

Lemma series_refines_events_witness :
  exists hours,
    Sorted (fun a b => String.leb a b = true) hours /\ NoDup hours /\
    (forall h, h ∈ hours <->
       exists e, e ∈ demo_requests /\ hour_of (RF := digit_times) e = h /\
         equals (af_proxy_key_id late_filter) (ev_proxy_key_id e) = true /\
         equals (af_resource_id late_filter) (ev_resource_id e) = true /\
         within (RF := digit_times) (af_from late_filter) (af_to late_filter) h = true) /\
    (series_by_bucket (DB := steady_db) (RF := digit_times) "hour" late_filter 5
       (persisted (DB := steady_db) (RF := digit_times) demo_requests)).2
    = Ok ((fun h => hour_summary (RF := digit_times) late_filter h demo_requests) <$> take 5 hours).
Proof.
  exact (series_refines_events (DB := steady_db) (RF := digit_times) late_filter 5 demo_requests
    (fun _ => eq_refl)).
Defined.

(** The hour of 3600 s also has a request at 7199 s, after the filter's lower bound. *)
Example lower_bound_drops_hour :
  (series_by_bucket (DB := steady_db) (RF := digit_times) "hour" late_filter 5
     (persisted (DB := steady_db) (RF := digit_times) demo_requests)).2
  = Ok [mkUsageSummary (binary_digits 64 (7200 * 1000000000)) None 1 0 1 (120, 1) 0].
Proof. vm_compute. reflexivity. Qed.

(** Of two hours with requests a limit of one keeps the older. *)
Example limit_keeps_oldest_hours :
  (series_by_bucket (DB := steady_db) (RF := digit_times) "hour" no_filter 1
     (persisted (DB := steady_db) (RF := digit_times) demo_requests)).2
  = Ok [mkUsageSummary (binary_digits 64 (3600 * 1000000000)) None 2 1 2 (240, 2) 0].
Proof. vm_compute. reflexivity. Qed.

Lemma demo_fits e : e ∈ demo_requests -> event_fits (RF := digit_times) e.
Proof.
  intros He. assert (exists t s, e = demo_request_event t s /\ 0 <= t <= 7200 /\
    forall c, s <> RS_UpstreamError c) as (t & s & -> & Ht & Hc).
  { unfold demo_requests in He. rewrite !elem_of_cons in He.
    destruct He as [->|[->|[->|He]]]; [by do 2 eexists..|by apply not_elem_of_nil in He]. }
  split; cbn -[Z.pow]; [lia|intros c E; by destruct (Hc c)|lia|lia|lia|lia|done].
Qed.

Lemma retention_keeps_recent_witness :
  let day := 86400000000000 in
  let now := 7200 * 1000000000 + day in
  let '(s, deleted) := purge_expired_request_events (DB := steady_db) (RF := digit_times) 0 1 now
                         (persisted (DB := steady_db) (RF := digit_times) demo_requests) in
  deleted = Ok 2%nat /\
  es_buckets s = es_buckets (persisted (DB := steady_db) (RF := digit_times) demo_requests) /\
  (list_events (DB := steady_db) (RF := digit_times)
     (mkRequestEventFilter None None None None None None) 10 s).2
  = Ok [demo_request_event 7200 RS_Success].
Proof.
  apply (retention_keeps_recent (DB := steady_db) (RF := digit_times) 0 1
    (7200 * 1000000000 + 86400000000000) demo_requests 10).
  - done.
  - apply Forall_forall. exact demo_fits.
  - cbn. lia.
  - lia.
  - lia.
  - unfold demo_requests.
    do 3 (apply Forall_cons; split; [vm_compute; reflexivity|]). by apply Forall_nil.
Defined.

(** The buckets do not tell a prompt from a tool of the same name. *)
Example kinds_share_a_bucket :
  let e := demo_request_event 3600 RS_Success in
  let prompt := mkRequestEvent (ev_timestamp e) "r2" "agent" "exa" KindPrompt "search__exa__find"
                  "key:a…z" RS_Success 120 1 0 false 0 None None None in
  map bc_request_count (map snd (map_to_list (es_buckets
    (persisted (DB := steady_db) (RF := digit_times) [e; prompt])))) = [2].
Proof. vm_compute. reflexivity. Qed.
