(* ===== verification/Admin.v ===== *)
(** * Configuration changes at run time ([admin/crud.rs], [resource_keys.rs], [tokens.rs])

    The administration API edits a copy of the configuration, builds everything
    that derives from it, and replaces the running parts together; the store and
    the audit trail follow.  One lock serialises these handlers, so each is a
    function of the state; what requests do meanwhile is an argument. *)

From S2P Require Import Prelude RustStr Naming Errors Config Policy Secrets Catalog KeyPool Limits.
From S2P Require Import Egress OAuthConfig GatewayAuth Render Observe Integrity ConfigJson Store.
From S2P Require Import ConfigMerge.
From Stdlib Require Import Ascii.

Local Open Scope string_scope.
Local Open Scope list_scope.
Local Open Scope Z_scope.
Local Open Scope gateway_scope.

(** ** Parameters of requests ([admin/types/]) *)

Record ResourceWriteParams := mkResourceWriteParams {
  rw_id : string;
  rw_domain : string;
  rw_provider : string;
  rw_base_url : string;
  rw_description : string;
  rw_limits : option UpstreamLimits;
  rw_auth : option UpstreamAuth;
  rw_key_pool : option KeyPoolConfig;
}.

Record ProxyKeyWriteParams := mkProxyKeyWriteParams {
  kw_id : string;
  kw_display_name : string;
  kw_allowed_tools : list string;
  kw_denied_tools : list string;
  kw_allowed_servers : list string;
  kw_allowed_tool_names : list string;
  kw_limits : option KeyLimits;
  kw_default_tool_page_size : nat;
}.

Record TokenIssueResponse := mkTokenIssueResponse {
  ti_token : string;
  ti_expires_at : option Z;
}.

(** The acknowledgements carry the id. *)
Inductive Acknowledged := Created (id : string) | Updated (id : string) | Deleted (id : string).

(** ** From parameters to entries *)

Definition apply_create (i : ResourceWriteParams) : UpstreamAuth * option KeyPoolConfig :=
  (default AuthNone (rw_auth i), rw_key_pool i).

Definition api_resource_from_input (i : ResourceWriteParams) : ApiResource :=
  let '(auth, pool) := apply_create i in
  mkApiResource (rw_id i) (rw_domain i) (rw_provider i) (rw_base_url i) (rw_description i)
    auth pool [] None SecurityConfig_default (rw_limits i).

(** A field that is left out keeps its value. *)
Definition apply_update (i : ResourceWriteParams) (r : ApiResource) : ApiResource :=
  mkApiResource (ar_id r) (rw_domain i) (rw_provider i) (rw_base_url i) (rw_description i)
    (default (ar_auth r) (rw_auth i))
    (match rw_key_pool i with Some p => Some p | None => key_pool r end)
    (endpoints r) (discovery r) (ar_security r) (rw_limits i).

Definition proxy_key_from_input (i : ProxyKeyWriteParams) : ProxyKey :=
  mkProxyKey (kw_id i) (kw_display_name i) (kw_allowed_tools i) (kw_denied_tools i)
    (kw_allowed_servers i) (kw_allowed_tool_names i) (kw_limits i) None None None
    (kw_default_tool_page_size i) None None.

Definition update_key_fields (i : ProxyKeyWriteParams) (k : ProxyKey) : ProxyKey :=
  mkProxyKey (pk_id k) (kw_display_name i) (kw_allowed_tools i) (kw_denied_tools i)
    (kw_allowed_servers i) (kw_allowed_tool_names i) (kw_limits i) (token_ref k) (token_digest k)
    (expires_at k) (kw_default_tool_page_size i) (discovery_mode k) (pk_response_format k).

Definition with_credentials (tref digest : option string) (exp : option Z) (k : ProxyKey) : ProxyKey :=
  mkProxyKey (pk_id k) (pk_display_name k) (allowed_tools k) (denied_tools k) (allowed_servers k)
    (allowed_tool_names k) (pk_limits k) tref digest exp (default_tool_page_size k)
    (discovery_mode k) (pk_response_format k).

(** ** State *)

(** What surrounds a handler: the resolution of secrets, the clocks, the random
    bytes of a token, and what requests do to the limits while the handler waits
    for the secrets. *)
Class AdminEnv {G : Governor} := {
  ae_resolve : SecretRef -> result SecretError string;
  ae_now : Z;
  ae_token_bytes : string;
  ae_pool_snap : string -> Z;
  ae_pool_now : string -> nat -> Z;
  ae_meanwhile : LimitRegistry -> LimitRegistry;
}.

Record AdminState {G : Governor} := mkAdminState {
  ad_config : GatewayConfig;
  ad_catalog : ToolCatalog;
  ad_limits : LimitRegistry;
  ad_auth : GatewayAuth;
  ad_pools : option KeyPoolRegistry;
  ad_store : option Store;
}.

Section Admin.
Context {G : Governor} {SHA : Sha256} {OA : OpenApiSource} {SE : Serializers} {JR : JsonReader}
  {RF : Rfc3339} {DB : Database} {AE : AdminEnv}.

Definition with_store (s : option Store) (a : AdminState) : AdminState :=
  mkAdminState _ (ad_config a) (ad_catalog a) (ad_limits a) (ad_auth a) (ad_pools a) s.
Definition with_limits (r : LimitRegistry) (a : AdminState) : AdminState :=
  mkAdminState _ (ad_config a) (ad_catalog a) r (ad_auth a) (ad_pools a) (ad_store a).
Definition with_catalog (c : ToolCatalog) (a : AdminState) : AdminState :=
  mkAdminState _ (ad_config a) c (ad_limits a) (ad_auth a) (ad_pools a) (ad_store a).

(** A write to the store whose failure is only logged. *)
Definition best_effort {A} (op : Store -> Store * result StoreError A) (a : AdminState)
    : AdminState :=
  match ad_store a with
  | Some s => with_store (Some (op s).1) a
  | None => a
  end.

(** ** Replacing the configuration *)

Definition invalid_key_pool (e : KeyPoolError) : AsterlaneError :=
  internal AdminInvalidQuery (KeyPoolError_to_string e).

Definition key_pools_from_config (c : GatewayConfig)
    : result AsterlaneError (option KeyPoolRegistry) :=
  if existsb (fun r => is_oauth (ar_auth r)) (api_resources c)
  then Err (internal AdminInvalidQuery "auth type oauth is only supported for mcp servers")
  else map_err invalid_key_pool (registry_from_config c).

Definition install_key_pools (new old : option KeyPoolRegistry)
    : outcome (option KeyPoolRegistry) :=
  match new, old with
  | Some n, Some o => '(n, _) ← carry_runtime_from ae_pool_snap ae_pool_now n o; Returns (Some n)
  | _, _ => Returns new
  end.

(** The tools of the remaining MCP servers, with their own descriptions. *)
Definition carried_tools (ids : gset string) (old : ToolCatalog) : list WrappedTool :=
  (fun t => match original_description (wire t) old with
            | Some d => with_description d t
            | None => t
            end)
    <$> List.filter (fun t => bool_decide (resource_id t ∈ ids)) (tools old).

Definition rebuild_catalog (c : GatewayConfig) (old fresh : ToolCatalog) : ToolCatalog :=
  extend_with_mcp_tools (carried_tools (list_to_set (ms_id <$> mcp_servers c)) old)
    (load_description_overrides (description_overrides old) fresh).

(** The limits are copied before the secrets are resolved, and replaced after. *)
Definition swap_config_and_catalog (c : GatewayConfig) (a : AdminState)
    : outcome (AdminState * result AsterlaneError ()) :=
  match (fresh ← map_err CatalogErr (from_config c); r ← limits_from_config c; Ok (fresh, r)) with
  | Err e => Returns (a, Err e)
  | Ok (fresh, r) =>
      let r := carry_counts_from (ad_limits a) r in
      let a := with_limits (ae_meanwhile (ad_limits a)) a in
      match (auth ← auth_from_config c ae_resolve; pools ← key_pools_from_config c; Ok (auth, pools)) with
      | Err e => Returns (a, Err e)
      | Ok (auth, pools) =>
          pools ← install_key_pools pools (ad_pools a);
          Returns (mkAdminState _ c (rebuild_catalog c (ad_catalog a) fresh) r auth pools (ad_store a),
                   Ok tt)
      end
  end.

(** A handler that changes the configuration and goes on only if that succeeds. *)
Definition then_ok {A} (m : outcome (AdminState * result AsterlaneError ()))
    (k : AdminState -> AdminState * A) : outcome (AdminState * result AsterlaneError A) :=
  '(a, r) ← m;
  match r with
  | Err e => Returns (a, Err e)
  | Ok _ => let '(a, x) := k a in Returns (a, Ok x)
  end.

(** ** Audit *)

Definition audit_event (admin action target_type target_id : string) : SecurityEvent :=
  mkSecurityEvent ae_now (if target_type =s "resource" then target_id else "") None AdminAudit
    SevInfo
    (JObject [("action", JString action); ("admin_key_id", JString admin);
              ("target_id", JString target_id); ("target_type", JString target_type)]).

Definition record_audit (admin action target_type target_id : string) : AdminState -> AdminState :=
  best_effort (insert_security_event (audit_event admin action target_type target_id)).

(** ** Upstream keys of a resource *)

Definition upstream_key_records (r : ApiResource) : list UpstreamKeyRecord :=
  match key_pool r with
  | None => []
  | Some p =>
      imap (fun i k => mkUpstreamKeyRecord (ar_id r +:+ ":" +:+ fmt_nat (i + 1)) (ar_id r)
                         (secret_ref k) (weight k) "available" None "" "") (keys p)
  end.

Definition persist_upstream_keys (r : ApiResource) : AdminState -> AdminState :=
  best_effort (replace_upstream_keys_for_resource (ar_id r) (upstream_key_records r)).

(** ** Resources *)

Definition has_resource (id : string) (c : GatewayConfig) : bool :=
  existsb (fun r => ar_id r =s id) (api_resources c).

Definition create_resource (admin : string) (i : ResourceWriteParams) (a : AdminState)
    : outcome (AdminState * result AsterlaneError Acknowledged) :=
  if has_resource (rw_id i) (ad_config a)
  then Returns (a, Err (internal AdminConflict
                          ("resource '" +:+ rw_id i +:+ "' already exists")))
  else
    let r := api_resource_from_input i in
    then_ok (swap_config_and_catalog
               (with_api_resources (ad_config a) (api_resources (ad_config a) ++ [r])) a)
      (fun a =>
         let a := best_effort (insert_resource (to_db_resource r)) a in
         let a := persist_upstream_keys r a in
         (record_audit admin "create" "resource" (rw_id i) a, Created (rw_id i))).

Definition resource_not_found (id : string) : AsterlaneError :=
  internal AdminNotFound ("resource '" +:+ id +:+ "' not found").

Definition update_resource (admin id : string) (i : ResourceWriteParams) (a : AdminState)
    : outcome (AdminState * result AsterlaneError Acknowledged) :=
  match resource (ad_config a) id with
  | None => Returns (a, Err (resource_not_found id))
  | Some old =>
      let r := apply_update i old in
      then_ok (swap_config_and_catalog
                 (with_api_resources (ad_config a)
                    (update_first (fun r => ar_id r =s id) (apply_update i)
                       (api_resources (ad_config a)))) a)
        (fun a =>
           let a := best_effort (update_resource_row (to_db_resource r)) a in
           let a := persist_upstream_keys r a in
           (record_audit admin "update" "resource" id a, Updated id))
  end.

Definition delete_resource (admin id : string) (a : AdminState)
    : outcome (AdminState * result AsterlaneError Acknowledged) :=
  if negb (has_resource id (ad_config a)) then Returns (a, Err (resource_not_found id))
  else
    let a := best_effort (delete_upstream_keys_for_resource id) a in
    let a := best_effort (delete_resource_row id) a in
    then_ok (swap_config_and_catalog
               (with_api_resources (ad_config a)
                  (List.filter (fun r => negb (ar_id r =s id)) (api_resources (ad_config a)))) a)
      (fun a => (record_audit admin "delete" "resource" id a, Deleted id)).

(** ** Proxy keys *)

Definition has_key (id : string) (c : GatewayConfig) : bool :=
  existsb (fun k => pk_id k =s id) (proxy_keys c).

Definition key_not_found (id : string) : AsterlaneError :=
  internal AdminNotFound ("proxy key '" +:+ id +:+ "' not found").

Definition create_proxy_key (admin : string) (i : ProxyKeyWriteParams) (a : AdminState)
    : outcome (AdminState * result AsterlaneError Acknowledged) :=
  if has_key (kw_id i) (ad_config a)
  then Returns (a, Err (internal AdminConflict
                          ("proxy key '" +:+ kw_id i +:+ "' already exists")))
  else
    let k := proxy_key_from_input i in
    then_ok (swap_config_and_catalog
               (with_proxy_keys (ad_config a) (proxy_keys (ad_config a) ++ [k])) a)
      (fun a =>
         let a := best_effort (insert_proxy_key (to_db_proxy_key k)) a in
         (record_audit admin "create" "proxy_key" (kw_id i) a, Created (kw_id i))).

(** The first key of that id is changed by [f], the configuration replaced, and the
    changed entry handed on. *)
Definition edit_key {A} (id : string) (f : ProxyKey -> ProxyKey) (a : AdminState)
    (k : ProxyKey -> AdminState -> AdminState * A)
    : outcome (AdminState * result AsterlaneError A) :=
  match proxy_key (ad_config a) id with
  | None => Returns (a, Err (key_not_found id))
  | Some old =>
      then_ok (swap_config_and_catalog
                 (with_proxy_keys (ad_config a)
                    (update_first (fun k => pk_id k =s id) f (proxy_keys (ad_config a)))) a)
        (k (f old))
  end.

Definition update_proxy_key (admin id : string) (i : ProxyKeyWriteParams) (a : AdminState)
    : outcome (AdminState * result AsterlaneError Acknowledged) :=
  edit_key id (update_key_fields i) a (fun k a =>
    let a := best_effort (update_proxy_key_row (to_db_proxy_key k)) a in
    (record_audit admin "update" "proxy_key" id a, Updated id)).

Definition delete_proxy_key (admin id : string) (a : AdminState)
    : outcome (AdminState * result AsterlaneError Acknowledged) :=
  if negb (has_key id (ad_config a)) then Returns (a, Err (key_not_found id))
  else
    let a := best_effort (delete_proxy_key_row id) a in
    then_ok (swap_config_and_catalog
               (with_proxy_keys (ad_config a)
                  (List.filter (fun k => negb (pk_id k =s id)) (proxy_keys (ad_config a)))) a)
      (fun a => (record_audit admin "delete" "proxy_key" id a, Deleted id)).

(** ** Tokens *)

(** An update that hits no row (a key of the YAML file) becomes an insertion. *)
Definition upsert_proxy_key (k : ProxyKeyRecord) (s : Store) : Store * result StoreError () :=
  match update_proxy_key_row k s with
  | (s, Ok false) => insert_proxy_key k s
  | (s, Ok true) => (s, Ok tt)
  | (s, Err e) => (s, Err e)
  end.

Definition upsert_proxy_key_db (k : ProxyKey) : AdminState -> AdminState :=
  best_effort (upsert_proxy_key (to_db_proxy_key k)).

Record TokenIssueParams := mkTokenIssueParams { tp_expires_at : option Z }.

Definition TokenIssueParams_from (v : JSON) : option TokenIssueParams :=
  get ← struct_fields ["expires_at"] v;
  e ← @defaulted _ opt_time None get "expires_at";
  Some (mkTokenIssueParams e).

Definition parse_expires_at (body : string) : result AsterlaneError (option Z) :=
  if is_empty body then Ok None
  else
    p ← ok_or (internal AdminInvalidQuery
                 ("invalid body: expected {" +:+ dquote +:+ "expires_at" +:+ dquote +:+ ": "
                    +:+ dquote +:+ "RFC3339" +:+ dquote +:+ "} or empty"))
          (from_json TokenIssueParams_from body);
    match tp_expires_at p with
    | Some exp =>
        if exp <=? ae_now
        then Err (internal AdminInvalidQuery "expires_at must be in the future")
        else Ok (Some exp)
    | None => Ok None
    end.

Definition generate_token : string := "alk_" +:+ encode_hex ae_token_bytes.

Definition issue_token (admin id body : string) (a : AdminState)
    : outcome (AdminState * result AsterlaneError TokenIssueResponse) :=
  match parse_expires_at body with
  | Err e => Returns (a, Err e)
  | Ok exp =>
      let token := generate_token in
      let digest := encode_hex (sha256 token) in
      let action :=
        match proxy_key (ad_config a) id with
        | Some k => if bool_decide (is_Some (token_ref k)) || bool_decide (is_Some (token_digest k))
                    then "rotate_token" else "issue_token"
        | None => "issue_token"
        end in
      edit_key id (with_credentials None (Some digest) exp) a (fun k a =>
        let a := upsert_proxy_key_db k a in
        (record_audit admin action "proxy_key" id a, mkTokenIssueResponse token exp))
  end.

Definition revoke_token (admin id : string) (a : AdminState)
    : outcome (AdminState * result AsterlaneError ()) :=
  edit_key id (with_credentials None None None) a (fun k a =>
    let a := upsert_proxy_key_db k a in
    (record_audit admin "revoke_token" "proxy_key" id a, tt)).
End Admin.
