(* ===== verification/AdminFacts.v ===== *)
(** * Properties of configuration changes

    A change of the configuration happens as a whole or not at all, the catalog
    refines its specification across it, and what is written to the store comes
    back at the next start. *)

From S2P Require Import Prelude RustStr Naming Errors Config Policy Secrets Catalog KeyPool Limits.
From S2P Require Import Egress OAuthConfig GatewayAuth Render Observe Integrity Overrides.
From S2P Require Import ConfigJson Store ConfigMerge Admin.
From Stdlib Require Import Ascii.

Local Open Scope string_scope.
Local Open Scope list_scope.
Local Open Scope Z_scope.
Local Open Scope gateway_scope.

(** ** The handlers as one operation *)

Inductive admin_write :=
| CreateResource (i : ResourceWriteParams)
| UpdateResource (id : string) (i : ResourceWriteParams)
| DeleteResource (id : string)
| CreateProxyKey (i : ProxyKeyWriteParams)
| UpdateProxyKey (id : string) (i : ProxyKeyWriteParams)
| DeleteProxyKey (id : string)
| IssueToken (id body : string)
| RevokeToken (id : string).

Definition is_delete (w : admin_write) : bool :=
  match w with DeleteResource _ | DeleteProxyKey _ => true | _ => false end.

Section Writes.
Context {G : Governor} {SHA : Sha256} {OA : OpenApiSource} {SE : Serializers} {JR : JsonReader}
  {RF : Rfc3339} {DB : Database} {AE : AdminEnv}.

Definition no_answer {A} (m : outcome (AdminState * result AsterlaneError A))
    : outcome (AdminState * result AsterlaneError ()) :=
  '(a, r) ← m; Returns (a, _ ← r; Ok tt).

Definition run_write (admin : string) (w : admin_write) (a : AdminState)
    : outcome (AdminState * result AsterlaneError ()) :=
  match w with
  | CreateResource i => no_answer (create_resource admin i a)
  | UpdateResource id i => no_answer (update_resource admin id i a)
  | DeleteResource id => no_answer (delete_resource admin id a)
  | CreateProxyKey i => no_answer (create_proxy_key admin i a)
  | UpdateProxyKey id i => no_answer (update_proxy_key admin id i a)
  | DeleteProxyKey id => no_answer (delete_proxy_key admin id a)
  | IssueToken id body => no_answer (issue_token admin id body a)
  | RevokeToken id => revoke_token admin id a
  end.

(** What a write asks for: the resources and the keys it leaves. *)
Definition edited_resources (w : admin_write) (rs : list ApiResource) : list ApiResource :=
  match w with
  | CreateResource i => rs ++ [api_resource_from_input i]
  | UpdateResource id i => update_first (fun r => ar_id r =s id) (apply_update i) rs
  | DeleteResource id => List.filter (fun r => negb (ar_id r =s id)) rs
  | _ => rs
  end.

Definition issued_expiry (body : string) : option Z :=
  match parse_expires_at body with Ok e => e | Err _ => None end.

Definition edited_keys (w : admin_write) (ks : list ProxyKey) : list ProxyKey :=
  match w with
  | CreateProxyKey i => ks ++ [proxy_key_from_input i]
  | UpdateProxyKey id i => update_first (fun k => pk_id k =s id) (update_key_fields i) ks
  | DeleteProxyKey id => List.filter (fun k => negb (pk_id k =s id)) ks
  | IssueToken id body =>
      update_first (fun k => pk_id k =s id)
        (with_credentials None (Some (encode_hex (sha256 generate_token))) (issued_expiry body)) ks
  | RevokeToken id => update_first (fun k => pk_id k =s id) (with_credentials None None None) ks
  | _ => ks
  end.

Definition edited (w : admin_write) (c : GatewayConfig) : GatewayConfig :=
  with_proxy_keys (with_api_resources c (edited_resources w (api_resources c)))
    (edited_keys w (proxy_keys c)).

(** ** Replacing the configuration *)

(** The gateway without its store and the counters of its limits. *)
Definition same_gateway (a a' : AdminState) : Prop :=
  ad_config a' = ad_config a /\ ad_catalog a' = ad_catalog a /\ ad_auth a' = ad_auth a /\
  ad_pools a' = ad_pools a /\
  (ad_limits a' = ad_limits a \/ ad_limits a' = ae_meanwhile (ad_limits a)).

(** Every part of [a'] derives from the configuration [c]; the descriptions that
    were overridden, the counters of the limits and the running state of the keys of
    the pools come from [a]. *)
Record swapped (c : GatewayConfig) (a a' : AdminState) : Prop := {
  sw_config : ad_config a' = c;
  sw_catalog : exists fresh, from_config c = Ok fresh /\
    ad_catalog a' = rebuild_catalog c (ad_catalog a) fresh;
  sw_limits : exists r, limits_from_config c = Ok r /\
    ad_limits a' = carry_counts_from (ad_limits a) r;
  sw_auth : auth_from_config c ae_resolve = Ok (ad_auth a');
  sw_pools : exists fresh, key_pools_from_config c = Ok fresh /\
    install_key_pools fresh (ad_pools a) = Returns (ad_pools a');
}.

Lemma swap_cases c a a' r :
  swap_config_and_catalog c a = Returns (a', r) ->
  ad_store a' = ad_store a /\
  ((exists e, r = Err e /\ same_gateway a a') \/ (r = Ok tt /\ swapped c a a')).
Proof.
  unfold swap_config_and_catalog. intros H.
  destruct (fresh ← map_err CatalogErr (from_config c); r ← limits_from_config c; Ok (fresh, r))
    as [[fresh lim]|e] eqn:E1.
  2: { injection H as <- <-. split; [done|]. left. exists e. unfold same_gateway.
       by split_and!; [..|left]. }
  apply bind_Ok_inv in E1 as (fr & Hf & (lim' & Hl & [= -> ->])%bind_Ok_inv).
  apply map_err_Ok_inv in Hf.
  destruct (auth ← auth_from_config c ae_resolve; pools ← key_pools_from_config c; Ok (auth, pools))
    as [[auth pools]|e] eqn:E2.
  2: { injection H as <- <-. split; [done|]. left. exists e. unfold same_gateway.
       by split_and!; [..|right]. }
  apply bind_Ok_inv in E2 as (au & Ha & (ps & Hp & [= -> ->])%bind_Ok_inv).
  apply bind_Returns_inv in H as (ps' & Hi & [= <- <-]).
  split; [done|]. right. split; [done|].
  constructor; [done|by exists fresh|by exists lim|done|by exists pools].
Qed.

(** The key pools of a configuration can be built only without oauth resources. *)
Lemma pools_no_oauth c fresh :
  key_pools_from_config c = Ok fresh ->
  Forall (fun r => is_oauth (ar_auth r) = false) (api_resources c).
Proof.
  unfold key_pools_from_config. intros Hp. case_if_in Hp; [done|].
  apply Forall_forall. intros r Hr. rewrite existsb_false in E. by apply (E r).
Qed.

Lemma swapped_no_oauth c a a' :
  swapped c a a' -> Forall (fun r => is_oauth (ar_auth r) = false) (api_resources c).
Proof. intros [_ _ _ _ (fresh & H & _)]. by apply (pools_no_oauth _ fresh). Qed.

Lemma then_ok_cases {A} m (k : AdminState -> AdminState * A) a' r :
  then_ok m k = Returns (a', r) ->
  (exists e, r = Err e /\ m = Returns (a', Err e)) \/
  (exists a1 x, m = Returns (a1, Ok tt) /\ k a1 = (a', x) /\ r = Ok x).
Proof.
  unfold then_ok. intros ([a1 r1] & Hm & H)%bind_Returns_inv.
  destruct r1 as [[]|e].
  - right. destruct (k a1) as [a2 x] eqn:Ek. injection H as <- <-. eauto.
  - left. injection H as <- <-. eauto.
Qed.

Definition same_parts (a a' : AdminState) : Prop :=
  ad_config a' = ad_config a /\ ad_catalog a' = ad_catalog a /\ ad_auth a' = ad_auth a /\
  ad_pools a' = ad_pools a /\ ad_limits a' = ad_limits a.

Lemma best_effort_parts {A} (op : Store -> Store * result StoreError A) a :
  same_parts a (best_effort op a).
Proof. unfold best_effort. by destruct (ad_store a). Qed.

Lemma best_effort_config {A} (op : Store -> Store * result StoreError A) a :
  ad_config (best_effort op a) = ad_config a.
Proof. apply best_effort_parts. Qed.

Lemma same_parts_trans a b c : same_parts a b -> same_parts b c -> same_parts a c.
Proof. unfold same_parts. intros (->&->&->&->&->) (->&->&->&->&->). done. Qed.

Lemma swapped_parts c a0 a a' a1 :
  same_parts a0 a -> same_parts a' a1 -> swapped c a a' -> swapped c a0 a1.
Proof.
  intros (_&E2&_&E4&E5) (F1&F2&F3&F4&F5) [H1 H2 H3 H4 H5].
  constructor; [congruence|by rewrite F2, <- E2|by rewrite F5, <- E5|by rewrite F3|].
  by rewrite F4, <- E4.
Qed.

Lemma same_gateway_parts a0 a a' : same_parts a0 a -> same_gateway a a' -> same_gateway a0 a'.
Proof.
  unfold same_gateway. intros (->&->&->&->&->) H. done.
Qed.

(** A handler: a swap followed by work on the store. *)
Lemma then_swap {A} c a (k : AdminState -> AdminState * A) a' r :
  (forall b, same_parts b (k b).1) ->
  then_ok (swap_config_and_catalog c a) k = Returns (a', r) ->
  (exists e, r = Err e /\ same_gateway a a' /\ ad_store a' = ad_store a) \/
  (exists a1 x, r = Ok x /\ swapped c a a' /\ ad_store a1 = ad_store a /\ k a1 = (a', x) /\
     ad_config a1 = c).
Proof.
  intros Hk [(e & -> & H)|(a1 & x & H & Ek & ->)]%then_ok_cases;
    apply swap_cases in H as [Hs [(e' & He & Hg)|[He Hg]]]; try done.
  - left. injection He as <-. eauto.
  - right. exists a1, x. split_and!; [done| |done|done|apply Hg].
    eapply swapped_parts; [..|exact Hg]; [done|]. specialize (Hk a1). by rewrite Ek in Hk.
Qed.

Lemma record_audit_parts admin action t id a : same_parts a (record_audit admin action t id a).
Proof. apply best_effort_parts. Qed.

Lemma persist_parts r a : same_parts a (persist_upstream_keys r a).
Proof. apply best_effort_parts. Qed.
Lemma upsert_parts k a : same_parts a (upsert_proxy_key_db k a).
Proof. apply best_effort_parts. Qed.

Lemma edited_resources_only c rs : with_proxy_keys (with_api_resources c rs) (proxy_keys c)
  = with_api_resources c rs.
Proof. by destruct c. Qed.
Lemma edited_keys_only c ks : with_proxy_keys (with_api_resources c (api_resources c)) ks
  = with_proxy_keys c ks.
Proof. by destruct c. Qed.

(** The outcome of a handler that edits a key. *)
Lemma edit_key_cases {A} id f a (k : ProxyKey -> AdminState -> AdminState * A) a' r :
  (forall x b, same_parts b (k x b).1) ->
  edit_key id f a k = Returns (a', r) ->
  (exists e, r = Err e /\ same_gateway a a' /\ ad_store a' = ad_store a) \/
  (exists old a1 x, proxy_key (ad_config a) id = Some old /\ r = Ok x /\
     swapped (with_proxy_keys (ad_config a)
                (update_first (fun k => pk_id k =s id) f (proxy_keys (ad_config a)))) a a' /\
     ad_store a1 = ad_store a /\ k (f old) a1 = (a', x)).
Proof.
  intros Hk. unfold edit_key. destruct (proxy_key (ad_config a) id) as [old|].
  - intros [H|(a1 & x & H)]%then_swap; [by left| |by intros b; apply Hk].
    right. exists old, a1, x. naive_solver.
  - intros [= <- <-]. left. eexists. split; [done|]. unfold same_gateway. by split_and!; [..|left|].
Qed.

Lemma no_answer_inv {A} (m : outcome (AdminState * result AsterlaneError A)) a' r :
  no_answer m = Returns (a', r) ->
  exists x, m = Returns (a', x) /\ r = match x with Ok _ => Ok tt | Err e => Err e end.
Proof.
  unfold no_answer. intros ([a1 x] & Hm & [= <- <-])%bind_Returns_inv. exists x.
  split; [done|]. by destruct x.
Qed.
End Writes.

(** A chain of writes to the store keeps the other parts. *)
Ltac keeps_parts :=
  intros; cbn beta zeta iota delta [fst];
  repeat match goal with
  | |- same_parts ?a ?a => done
  | |- same_parts _ (record_audit _ _ _ _ _) =>
      eapply same_parts_trans; [|apply record_audit_parts]
  | |- same_parts _ (persist_upstream_keys _ _) => eapply same_parts_trans; [|apply persist_parts]
  | |- same_parts _ (upsert_proxy_key_db _ _) => eapply same_parts_trans; [|apply upsert_parts]
  | |- same_parts _ (best_effort _ _) => eapply same_parts_trans; [|apply best_effort_parts]
  end.

Section Atomic.
Context {G : Governor} {SHA : Sha256} {OA : OpenApiSource} {SE : Serializers} {JR : JsonReader}
  {RF : Rfc3339} {DB : Database} {AE : AdminEnv}.

(** A handler leaves the gateway as it was, or replaces it. *)
Definition atomic {A} (c : GatewayConfig) (deletes : bool) (a a' : AdminState)
    (r : result AsterlaneError A) : Prop :=
  match r with
  | Ok _ => swapped c a a'
  | Err _ => same_gateway a a' /\ (deletes = false -> ad_store a' = ad_store a)
  end.

Lemma refused_atomic {A} c d a (e : AsterlaneError) : atomic (A := A) c d a a (Err e).
Proof. split; [split_and!; [..|left]|]; done. Qed.

Lemma then_swap_atomic {A} c d a (k : AdminState -> AdminState * A) a' r :
  (forall b, same_parts b (k b).1) ->
  then_ok (swap_config_and_catalog c a) k = Returns (a', r) -> atomic c d a a' r.
Proof.
  intros Hk [(e & -> & H & Hs)|(a1 & x & -> & H & _)]%then_swap; [|done|done]. by split.
Qed.

Lemma edit_key_atomic {A} id f d a (k : ProxyKey -> AdminState -> AdminState * A) a' r :
  (forall x b, same_parts b (k x b).1) ->
  edit_key id f a k = Returns (a', r) ->
  atomic (with_proxy_keys (ad_config a)
            (update_first (fun k => pk_id k =s id) f (proxy_keys (ad_config a)))) d a a' r.
Proof.
  intros Hk. unfold edit_key. destruct (proxy_key (ad_config a) id) as [old|].
  - apply then_swap_atomic. auto.
  - intros [= <- <-]. apply refused_atomic.
Qed.

Lemma delete_atomic {A} c a0 a (k : AdminState -> AdminState * A) a' r :
  same_parts a0 a -> (forall b, same_parts b (k b).1) ->
  then_ok (swap_config_and_catalog c a) k = Returns (a', r) -> atomic c true a0 a' r.
Proof.
  intros Hp Hk H. apply (then_swap_atomic _ true) in H; [|done]. destruct r; cbn in *.
  - by eapply swapped_parts; [exact Hp|..].
  - split; [|done]. eapply same_gateway_parts; [exact Hp|apply H].
Qed.

Lemma atomic_answer {A} c d a a' (r : result AsterlaneError A) :
  atomic c d a a' r ->
  atomic (A := ()) c d a a' (match r with Ok _ => Ok tt | Err e => Err e end).
Proof. by destruct r. Qed.
Lemma run_write_atomic admin w a a' r :
  run_write admin w a = Returns (a', r) -> atomic (edited w (ad_config a)) (is_delete w) a a' r.
Proof.
  destruct w as [i|id i|id|i|id i|id|id body|id];
    unfold edited, edited_resources, edited_keys, run_write;
    rewrite ?edited_resources_only, ?edited_keys_only;
    try (intros (x & H & ->)%no_answer_inv; apply atomic_answer; revert H).
  - unfold create_resource. case_if; [intros [= <- <-]; apply refused_atomic|].
    apply then_swap_atomic. keeps_parts.
  - unfold update_resource. destruct (resource _ _); [|intros [= <- <-]; apply refused_atomic].
    apply then_swap_atomic. keeps_parts.
  - unfold delete_resource. case_if; [intros [= <- <-]; apply refused_atomic|].
    cbn zeta. rewrite !best_effort_config. apply delete_atomic; keeps_parts.
  - unfold create_proxy_key. case_if; [intros [= <- <-]; apply refused_atomic|].
    apply then_swap_atomic. keeps_parts.
  - apply edit_key_atomic. keeps_parts.
  - unfold delete_proxy_key. case_if; [intros [= <- <-]; apply refused_atomic|].
    cbn zeta. rewrite !best_effort_config. apply delete_atomic; keeps_parts.
  - unfold issue_token, issued_expiry. destruct (parse_expires_at body) as [e|e].
    + apply edit_key_atomic. keeps_parts.
    + intros [= <- <-]. apply refused_atomic.
  - apply edit_key_atomic. keeps_parts.
Qed.
End Atomic.

(** *** An example *)

(** A hash with digests of 32 bytes, and a gateway that starts without keys. *)
Definition block_sha : Sha256 :=
  {| sha256 := fun s => String.substring 0 32 (s +:+ "................................") |}.

Definition demo_env : AdminEnv (G := open_governor) :=
  {| ae_resolve := fun _ => Err (SE_NotFound "none"); ae_now := 0;
     ae_token_bytes := "0123456789abcdef0123456789abcdef"; ae_pool_snap := fun _ => 0;
     ae_pool_now := fun _ _ => 0; ae_meanwhile := fun r => r |}.

Definition demo_admin : AdminState (G := open_governor) :=
  mkAdminState open_governor GatewayConfig_default (mkToolCatalog [] ∅ ∅)
    (mkLimitRegistry (G := open_governor) ∅ ∅ ∅) empty_auth None (Some empty_store).

Definition demo_params (id : string) : ProxyKeyWriteParams :=
  mkProxyKeyWriteParams id "Agent" ["search.*"] [] [] [] None 20.

Definition demo_write (w : admin_write) (a : AdminState (G := open_governor))
    : AdminState (G := open_governor) :=
  match run_write (SHA := block_sha) (OA := no_openapi) (SE := stream_serializers)
          (JR := stream_reader) (RF := binary_times) (DB := steady_db) (AE := demo_env) "root" w a with
  | Returns (a, _) => a
  | Panics => a
  end.

(** C17: A configuration change happens as a whole or not at all.  When a handler
    succeeds, the configuration is the edited one, and the catalog, the limits, the
    authentication and the key pools are all derived from it (keeping the overridden
    descriptions, the counters of the limits and the running state of the pools'
    keys); when it fails, every
    one of them is as before, and so is the store unless the write was a deletion. *)
Theorem write_is_atomic {G : Governor} {SHA : Sha256} {OA : OpenApiSource} {SE : Serializers}
    {JR : JsonReader} {RF : Rfc3339} {DB : Database} {AE : AdminEnv} admin w a a' r :
  run_write admin w a = Returns (a', r) ->
  match r with
  | Ok _ => swapped (edited w (ad_config a)) a a'
  | Err _ => same_gateway a a' /\ (is_delete w = false -> ad_store a' = ad_store a)
  end.
Proof. exact (run_write_atomic admin w a a' r). Qed.

Lemma write_is_atomic_witness :
  let w := CreateProxyKey (demo_params "a") in
  swapped (SHA := block_sha) (OA := no_openapi) (AE := demo_env)
    (with_proxy_keys GatewayConfig_default [proxy_key_from_input (demo_params "a")])
    demo_admin (demo_write w demo_admin).
Proof.
  intros w.
  apply (write_is_atomic (G := open_governor) (SHA := block_sha) (OA := no_openapi)
    (SE := stream_serializers) (JR := stream_reader) (RF := binary_times) (DB := steady_db)
    (AE := demo_env) "root" w demo_admin (demo_write w demo_admin) (Ok tt)).
  vm_compute. reflexivity.
Defined.

(** ** The catalog across a change *)

Section CatalogSwap.
Context {G : Governor} {SHA : Sha256} {OA : OpenApiSource} {SE : Serializers} {JR : JsonReader}
  {RF : Rfc3339} {DB : Database} {AE : AdminEnv}.

Definition keep_of (ids : gset string) (l : list WrappedTool) : list WrappedTool :=
  List.filter (fun t => bool_decide (resource_id t ∈ ids)) l.

Lemma keep_of_render o ids l :
  keep_of ids (render o <$> l) = render o <$> keep_of ids l.
Proof.
  unfold keep_of. induction l as [|t l IH]; cbn; [done|].
  rewrite resource_render. case_if; cbn; by rewrite IH.
Qed.

(** The carried tools are the upstream ones: overrides are taken off. *)
Lemma carried_tools_raw c a ids :
  represents c a -> carried_tools ids c = keep_of ids (raw a).
Proof.
  intros R. unfold carried_tools. rewrite (rep_tools _ _ R).
  change (List.filter _ (render (ov a) <$> raw a)) with (keep_of ids (render (ov a) <$> raw a)).
  rewrite keep_of_render, <- list_fmap_compose.
  rewrite <- (list_fmap_id (keep_of ids (raw a))) at 2.
  apply list_fmap_ext. intros i t Hi. cbn.
  apply list_elem_of_lookup_2 in Hi. unfold keep_of in Hi. rewrite filter_elem in Hi.
  destruct Hi as [Hi _]. rewrite wire_render. unfold original_description.
  destruct (ov a !! wire t) as [d|] eqn:E.
  - rewrite (rep_originals _ _ R t Hi) by (by rewrite E).
    by rewrite with_description_render, with_description_same.
  - rewrite (rep_stale _ _ R _ E). unfold render. by rewrite E.
Qed.

(** What a change of the configuration means for the specification: the tools of the
    new configuration and those of the MCP servers it keeps; the overrides stay. *)
Definition abs_swap (c : GatewayConfig) (fresh : ToolCatalog) (a : AbsCatalog) : AbsCatalog :=
  mkAbsCatalog
    (sort_by wire_leb (tools fresh ++ keep_of (list_to_set (ms_id <$> mcp_servers c)) (raw a)))
    (ov a).

Lemma represents_rebuild c fresh old a :
  from_config c = Ok fresh -> represents old a -> names_unique (raw (abs_swap c fresh a)) ->
  represents (rebuild_catalog c old fresh) (abs_swap c fresh a).
Proof.
  intros Hf R Hu. unfold rebuild_catalog. rewrite (carried_tools_raw old a) by done.
  pose proof (names_unique_perm _ _ (sort_by_perm _ _) Hu) as Hu'.
  assert (represents fresh (mkAbsCatalog (tools fresh) ∅)) as Rf.
  { eapply represents_from_config; [exact Hf|].
    eapply names_unique_sublist; [|exact Hu']. by apply sublist_inserts_r. }
  rewrite (rep_overrides _ _ R).
  by apply (represents_extend _ _ _ (represents_load _ _ (ov a) Rf)).
Qed.
End CatalogSwap.

(** A change of the configuration refines the specification of the catalog: when it
    succeeds, the catalog shows the tools of the new configuration together with the
    tools of every MCP server that stays, each with its administrator's description or
    else the one its upstream sent, and the originals of all overridden tools are kept. *)
Theorem swap_refines {G : Governor} {SHA : Sha256} {OA : OpenApiSource} {AE : AdminEnv}
    c s s' abs :
  represents (ad_catalog s) abs ->
  swap_config_and_catalog c s = Returns (s', Ok tt) ->
  exists fresh, from_config c = Ok fresh /\
    (names_unique (raw (abs_swap c fresh abs)) ->
     represents (ad_catalog s') (abs_swap c fresh abs) /\
     tools (ad_catalog s') = render (ov abs) <$> raw (abs_swap c fresh abs)).
Proof.
  intros R [_ [(e & He & _)|[_ W]]]%swap_cases; [done|].
  destruct (sw_catalog _ _ _ W) as (fresh & Hf & ->). exists fresh. split; [done|]. intros Hu.
  pose proof (represents_rebuild c fresh _ abs Hf R Hu) as R'. split; [done|]. apply R'.
Qed.

Definition api_catalog : ToolCatalog :=
  match from_config (OA := no_openapi) demo_api_config with
  | Ok c => c
  | Err _ => mkToolCatalog [] ∅ ∅
  end.
Definition override_ops : list catalog_op :=
  [OpExtend [demo_tool "docs" "ctx" "read"]; OpSet "docs__ctx__read" "mine"].
Definition overridden_catalog : ToolCatalog := run_ops override_ops api_catalog.

Definition demo_server_config : GatewayConfig :=
  with_mcp_servers GatewayConfig_default
    [mkMcpServerConfig "ctx" "docs" "ctx" "https://example.com/mcp" "" AuthNone
       SecurityConfig_default true None].

(** The API resource goes, the server stays with its overridden tool. *)
Definition demo_swapped : AdminState (G := open_governor) :=
  match swap_config_and_catalog (SHA := block_sha) (OA := no_openapi) (AE := demo_env)
          demo_server_config (with_catalog overridden_catalog demo_admin) with
  | Returns (a, _) => a
  | Panics => demo_admin
  end.

Lemma swap_refines_witness :
  description <$> tools (ad_catalog demo_swapped) = ["mine"] /\
  exists abs, represents (ad_catalog demo_swapped) abs /\
    description <$> raw abs = ["about read"].
Proof.
  split; [vm_compute; reflexivity|].
  edestruct (swap_refines (SHA := block_sha) (OA := no_openapi) (AE := demo_env)
    demo_server_config (with_catalog overridden_catalog demo_admin) demo_swapped
    (abs_ops override_ops (mkAbsCatalog (tools api_catalog) ∅)))
    as (fresh & Hf & H).
  - change (ad_catalog (with_catalog overridden_catalog demo_admin)) with overridden_catalog.
    apply represents_ops.
    + eapply (represents_from_config (OA := no_openapi) demo_api_config);
        [vm_compute; reflexivity | apply (bool_decide_unpack _); vm_compute; exact I].
    + repeat split; apply (bool_decide_unpack _); vm_compute; exact I.
  - vm_compute. reflexivity.
  - vm_compute in Hf. injection Hf as <-.
    destruct H as [H _]; [apply (bool_decide_unpack _); vm_compute; exact I|].
    eexists. split; [exact H|]. vm_compute. reflexivity.
Defined.
