(* ===== verification/AdminRestart.v ===== *)
(** * Administration across restarts

    The keys that an administrator creates, edits, deletes or gives tokens to at run
    time are the ones the gateway has after its next start, when they are read back
    from the store and merged into the YAML configuration. *)

From S2P Require Import Prelude RustStr Naming Errors Config Policy Secrets Catalog KeyPool Limits.
From S2P Require Import Egress OAuthConfig GatewayAuth Render Observe Integrity Overrides.
From S2P Require Import ConfigJson Store ConfigMerge Admin AdminFacts.
From Stdlib Require Import Ascii.

Local Open Scope string_scope.
Local Open Scope list_scope.
Local Open Scope Z_scope.
Local Open Scope gateway_scope.

(** ** Lists of entries with an id *)

Section Entries.
Context {A : Type} (key : A -> string).
Notation entry l id := (List.find (fun x => key x =s id) l).

Lemma entry_id l id x : entry l id = Some x -> x ∈ l /\ key x = id.
Proof. by intros [H E%String.eqb_eq]%find_Some_elem. Qed.

Lemma entry_app l l' id :
  entry (l ++ l') id = match entry l id with Some x => Some x | None => entry l' id end.
Proof. induction l as [|x l IH]; [done|]. cbn. by case_if. Qed.

Lemma entry_none l id : entry l id = None <-> id ∉ key <$> l.
Proof.
  rewrite find_None_all, list_elem_of_fmap. split.
  - intros H (x & -> & Hx). specialize (H x Hx). by rewrite String.eqb_refl in H.
  - intros H x Hx. apply String.eqb_neq. intros <-. apply H. eauto.
Qed.

Lemma entry_update_first f l id id' :
  (forall x, key (f x) = key x) ->
  entry (update_first (fun x => key x =s id) f l) id' =
  if id =s id' then f <$> entry l id else entry l id'.
Proof.
  intros Hf. induction l as [|x l IH]; cbn; [by destruct (id =s id')|].
  destruct (String.eqb_spec (key x) id) as [E|E]; cbn; rewrite ?Hf, ?IH.
  - rewrite E. by destruct (String.eqb_spec id id').
  - destruct (String.eqb_spec (key x) id') as [E'|E']; [|done].
    destruct (String.eqb_spec id id'); [congruence|done].
Qed.

Lemma entry_dropped l id id' :
  entry (List.filter (fun x => negb (key x =s id)) l) id' =
  if id =s id' then None else entry l id'.
Proof.
  induction l as [|x l IH]; cbn; [by destruct (id =s id')|].
  destruct (String.eqb_spec (key x) id) as [E|E]; cbn; rewrite IH.
  - rewrite E. by destruct (String.eqb_spec id id').
  - destruct (String.eqb_spec (key x) id') as [E'|E']; [|done].
    destruct (String.eqb_spec id id'); [congruence|done].
Qed.

Lemma update_first_ids f l id :
  (forall x, key (f x) = key x) -> key <$> update_first (fun x => key x =s id) f l = key <$> l.
Proof.
  intros Hf. induction l as [|x l IH]; [done|]. cbn. case_if; cbn; [by rewrite Hf|by rewrite IH].
Qed.

Lemma update_first_new f l id x :
  entry l id = Some x -> f x ∈ update_first (fun x => key x =s id) f l.
Proof.
  induction l as [|y l IH]; [done|]. cbn. case_if.
  - intros [= <-]. left.
  - intros H. right. auto.
Qed.

Lemma update_first_elem f l id old x :
  NoDup (key <$> update_first (fun x => key x =s id) f l) -> (forall x, key (f x) = key x) ->
  entry l id = Some old -> x ∈ update_first (fun x => key x =s id) f l ->
  x = f old \/ (x ∈ l /\ key x <> id).
Proof.
  intros Hnd Hf Ho. rewrite update_first_ids in Hnd by done. revert Ho Hnd.
  induction l as [|y l IH]; [done|]. cbn. destruct (String.eqb_spec (key y) id) as [E|E].
  - intros [= <-] [Hn Hnd]%NoDup_cons [->|Hx]%elem_of_cons; [by left|]. right. split; [by right|].
    intros Ex. apply Hn. rewrite E, <- Ex. by apply list_elem_of_fmap_2.
  - intros Ho [Hn Hnd]%NoDup_cons [->|Hx]%elem_of_cons.
    + right. split; [left|done].
    + destruct (IH Ho Hnd Hx) as [->|[Hl Hne]]; [by left|]. right. split; [by right|done].
Qed.

Lemma entry_in l id x : NoDup (key <$> l) -> x ∈ l -> key x = id -> entry l id = Some x.
Proof.
  intros Hnd Hx Hk. destruct (entry l id) as [y|] eqn:E.
  - apply entry_id in E as [Hy Ey]. f_equal. eapply (NoDup_key_inj key); eauto. congruence.
  - apply entry_none in E. destruct E. rewrite <- Hk. by apply list_elem_of_fmap_2.
Qed.

Lemma Forall_update_first (P : A -> Prop) p f l :
  (forall x, P x -> P (f x)) -> Forall P l -> Forall P (update_first p f l).
Proof. intros Hf. induction 1; cbn; [constructor|]. case_if; constructor; auto. Qed.

Lemma Forall_filtered (P : A -> Prop) p l : Forall P l -> Forall P (List.filter p l).
Proof. induction 1; cbn; [constructor|]. case_if; [by constructor|done]. Qed.
End Entries.

(** ** The table of keys *)

Section Tracking.
Context {SE : Serializers} {JR : JsonReader} {JT : JsonText} {RF : Rfc3339} {DB : Database}.

(** The engine runs every statement that breaks no constraint. *)
Hypothesis reliable : forall n, db_failure n = None.

Lemma statement_runs {A} (f : string -> Store -> result string (Store * A)) s :
  (statement f s).1 =
  match f (db_now (st_statements s)) (next_statement s) with
  | Ok (s', _) => s'
  | Err _ => next_statement s
  end.
Proof. unfold statement. rewrite reliable. by destruct (f _ _) as [[]|]. Qed.

(** The rows stand for the entries [f], except at the ids of [yaml]. *)
Definition stands_for (yaml : list string) (m : gmap string ProxyKeyRecord)
    (f : string -> option ProxyKey) : Prop :=
  keyed kr_id m /\
  forall id, id ∉ yaml -> proxy_key_from_record <$> m !! id = Some <$> f id.

Definition put (k : ProxyKey) (f : string -> option ProxyKey) (id : string) : option ProxyKey :=
  if pk_id k =s id then Some k else f id.

Lemma stamped_read k now :
  proxy_key_from_record
    (mkProxyKeyRecord (kr_id k) (kr_display_name k) (kr_default_tool_page_size k)
       (kr_scope_json k) now now) = proxy_key_from_record k.
Proof. done. Qed.

Lemma stands_for_next yaml f s s' :
  st_proxy_keys s' = st_proxy_keys s ->
  stands_for yaml (st_proxy_keys s) f -> stands_for yaml (st_proxy_keys s') f.
Proof. by intros ->. Qed.

Lemma stands_for_update yaml f s k :
  stands_for yaml (st_proxy_keys s) f ->
  key_fits k -> (pk_id k ∉ yaml -> is_Some (f (pk_id k))) ->
  stands_for yaml (st_proxy_keys (update_proxy_key_row (to_db_proxy_key k) s).1) (put k f).
Proof.
  intros [H1 H2] Hk Hf. unfold update_proxy_key_row. rewrite statement_runs.
  cbn. split; [by apply keyed_alter|].
  intros id Hid. unfold put. destruct (String.eqb_spec (pk_id k) id) as [<-|Hne].
  - rewrite lookup_alter_eq. specialize (H2 _ Hid). destruct (Hf Hid) as [k0 Hk0].
    rewrite Hk0 in H2. destruct (st_proxy_keys s !! pk_id k) as [row|] eqn:Er; [|done].
    cbn. f_equal. rewrite (H1 _ _ Er). exact (key_row_roundtrip k Hk).
  - rewrite lookup_alter_ne by done. by apply H2.
Qed.

Lemma stands_for_insert yaml f s k :
  stands_for yaml (st_proxy_keys s) f ->
  key_fits k -> (pk_id k ∉ yaml -> f (pk_id k) = None) ->
  stands_for yaml (st_proxy_keys (insert_proxy_key (to_db_proxy_key k) s).1) (put k f).
Proof.
  intros [H1 H2] Hk Hf. unfold insert_proxy_key. rewrite statement_runs.
  cbn. unfold insert_row. destruct (st_proxy_keys s !! pk_id k) as [row|] eqn:Er; cbn.
  - split; [done|]. intros id Hid. unfold put.
    destruct (String.eqb_spec (pk_id k) id) as [<-|Hne]; [|by apply H2].
    specialize (H2 _ Hid). rewrite Er, (Hf Hid) in H2. done.
  - split; [by apply keyed_insert|]. intros id Hid. unfold put.
    destruct (String.eqb_spec (pk_id k) id) as [<-|Hne].
    + rewrite lookup_insert_eq. cbn. f_equal. exact (key_row_roundtrip k Hk).
    + rewrite lookup_insert_ne by done. by apply H2.
Qed.

Lemma update_outcome k s :
  update_proxy_key_row k s =
  ((update_proxy_key_row k s).1, Ok (bool_decide (is_Some (st_proxy_keys s !! kr_id k)))).
Proof. unfold update_proxy_key_row, statement. by rewrite reliable. Qed.

Lemma stands_for_upsert yaml f s k :
  stands_for yaml (st_proxy_keys s) f -> key_fits k ->
  stands_for yaml (st_proxy_keys (upsert_proxy_key (to_db_proxy_key k) s).1) (put k f).
Proof.
  intros Hs Hk. pose proof Hs as [H1 H2]. unfold upsert_proxy_key. rewrite update_outcome.
  cbn [kr_id to_db_proxy_key].
  destruct (st_proxy_keys s !! pk_id k) as [row|] eqn:Er; cbn [fst].
  - rewrite (bool_decide_eq_true_2 _) by done. cbn [fst]. apply stands_for_update; [done..|].
    intros Hid. specialize (H2 _ Hid). rewrite Er in H2. by destruct (f (pk_id k)).
  - rewrite (bool_decide_eq_false_2 (is_Some None)) by (by intros []).
    apply stands_for_insert; [|done|].
    + eapply stands_for_next; [|exact Hs]. unfold update_proxy_key_row. rewrite statement_runs. cbn.
      apply alter_id. intros r Hr. by rewrite Er in Hr.
    + intros Hid. specialize (H2 _ Hid). rewrite Er in H2. by destruct (f (pk_id k)).
Qed.

Lemma stands_for_delete yaml f s id :
  stands_for yaml (st_proxy_keys s) f ->
  stands_for yaml (st_proxy_keys (delete_proxy_key_row id s).1)
    (fun id' => if id =s id' then None else f id').
Proof.
  intros [H1 H2]. unfold delete_proxy_key_row. rewrite statement_runs. cbn.
  split; [by apply keyed_delete|]. intros id' Hid.
  destruct (String.eqb_spec id id') as [<-|Hne].
  - by rewrite lookup_delete_eq.
  - rewrite lookup_delete_ne by done. by apply H2.
Qed.
End Tracking.

(** ** The state of the administration *)

Section Steps.
Context {G : Governor} {SHA : Sha256} {SE : Serializers} {JR : JsonReader} {JT : JsonText}
  {RF : Rfc3339} {DB : Database}.
Hypothesis reliable : forall n, db_failure n = None.
Hypothesis digest_bytes : forall t, String.length (sha256 t) = 32%nat.

(** The store is there and its rows stand for [f]. *)
Definition stored (yaml : list string) (a : AdminState) (f : string -> option ProxyKey) : Prop :=
  exists s, ad_store a = Some s /\ stands_for yaml (st_proxy_keys s) f.

Lemma stored_effort {A} (op : Store -> Store * result StoreError A) yaml a f g :
  (forall s, stands_for yaml (st_proxy_keys s) f -> stands_for yaml (st_proxy_keys (op s).1) g) ->
  stored yaml a f -> stored yaml (best_effort op a) g.
Proof. intros Hop (s & Hs & H). unfold best_effort. rewrite Hs. eexists. split; [done|]. auto. Qed.

Lemma stored_other {A} (op : Store -> Store * result StoreError A) yaml a f :
  (forall s, st_proxy_keys (op s).1 = st_proxy_keys s) ->
  stored yaml a f -> stored yaml (best_effort op a) f.
Proof. intros Hop. apply stored_effort. intros s. by rewrite Hop. Qed.

Lemma stored_same yaml a a' f : ad_store a' = ad_store a -> stored yaml a f -> stored yaml a' f.
Proof. unfold stored. by intros ->. Qed.

Lemma stored_ext yaml a f g : (forall id, g id = f id) -> stored yaml a f -> stored yaml a g.
Proof.
  intros E (s & Hs & H1 & H2). exists s. split; [done|]. split; [done|]. intros id Hid.
  rewrite E. by apply H2.
Qed.

(** Statements on the other tables leave the keys alone. *)
Lemma statement_keeps {A} (f : string -> Store -> result string (Store * A)) s :
  (forall now s s' x, f now s = Ok (s', x) -> st_proxy_keys s' = st_proxy_keys s) ->
  st_proxy_keys (statement f s).1 = st_proxy_keys s.
Proof.
  intros Hf. unfold statement. destruct (db_failure _); [done|].
  destruct (f _ _) as [[s' x]|e] eqn:E; [|done]. cbn. by rewrite (Hf _ _ _ _ E).
Qed.

Ltac keeps_keys :=
  apply statement_keeps; intros; cbn in *; repeat case_match; inv_ok; simplify_eq; done.

Lemma audit_keeps e s : st_proxy_keys (insert_security_event e s).1 = st_proxy_keys s.
Proof. keeps_keys. Qed.
Lemma insert_resource_keeps r s : st_proxy_keys (insert_resource r s).1 = st_proxy_keys s.
Proof. keeps_keys. Qed.
Lemma update_resource_keeps r s : st_proxy_keys (update_resource_row r s).1 = st_proxy_keys s.
Proof. keeps_keys. Qed.
Lemma delete_resource_keeps id s : st_proxy_keys (delete_resource_row id s).1 = st_proxy_keys s.
Proof. keeps_keys. Qed.
Lemma delete_upstream_keeps id s :
  st_proxy_keys (delete_upstream_keys_for_resource id s).1 = st_proxy_keys s.
Proof. keeps_keys. Qed.
Lemma insert_upstream_keeps k s : st_proxy_keys (insert_upstream_key k s).1 = st_proxy_keys s.
Proof. keeps_keys. Qed.

Lemma replace_upstream_keeps id ks s :
  st_proxy_keys (replace_upstream_keys_for_resource id ks s).1 = st_proxy_keys s.
Proof.
  unfold replace_upstream_keys_for_resource.
  pose proof (delete_upstream_keeps id s) as H.
  destruct (delete_upstream_keys_for_resource id s) as [s1 [n|e]]; [|done].
  cbn in H. rewrite <- H. clear H. revert s1.
  induction ks as [|k ks IH]; intros s1; [done|]. cbn.
  pose proof (insert_upstream_keeps k s1) as H.
  destruct (insert_upstream_key k s1) as [s2 [[]|e]]; [|done]. by rewrite IH.
Qed.

Lemma stored_audit {AE : AdminEnv} yaml admin action t id a f :
  stored yaml a f -> stored yaml (record_audit admin action t id a) f.
Proof. apply stored_other. intros. apply audit_keeps. Qed.

(** *** One write *)

Definition key_ok (k : ProxyKey) : Prop := key_fits k /\ validate_one_key k = Ok tt.

Definition params_fit (i : ProxyKeyWriteParams) : Prop :=
  (forall l, kw_limits i = Some l -> in_range_of l) /\
  Z.of_nat (kw_default_tool_page_size i) <= i64_max.

(** The numbers and instants of a request fit their Rust types. *)
Definition write_ok {AE : AdminEnv} (w : admin_write) : Prop :=
  match w with
  | CreateProxyKey i | UpdateProxyKey _ i => params_fit i
  | IssueToken _ body => forall e, issued_expiry body = Some e -> chrono_time e
  | _ => True
  end.

Lemma created_key_ok i : params_fit i -> key_ok (proxy_key_from_input i).
Proof. intros [Hl Hp]. split; [|done]. by split_and!. Qed.

Lemma updated_key_ok i k : params_fit i -> key_ok k -> key_ok (update_key_fields i k).
Proof. intros [Hl Hp] [(_ & Ht & _) Hv]. split; [by split_and!|]. exact Hv. Qed.

Lemma issued_key_ok token exp k :
  (forall e, exp = Some e -> chrono_time e) -> key_ok k ->
  key_ok (with_credentials None (Some (encode_hex (sha256 token))) exp k).
Proof.
  intros He [(Hl & _ & Hp) Hv]. split; [by split_and!|]. revert Hv. unfold validate_one_key. cbn.
  case_if; [done|]. intros _.
  by rewrite (proj2 (digest_hex_roundtrip _ (digest_bytes token))).
Qed.

Lemma revoked_key_ok k : key_ok k -> key_ok (with_credentials None None None k).
Proof.
  intros [(Hl & _ & Hp) Hv]. split; [by split_and!|]. revert Hv. unfold validate_one_key. cbn.
  case_if; [done|]. done.
Qed.

Section Write.
Context {OA : OpenApiSource} {AE : AdminEnv}.

Lemma edited_keys_ok w ks : write_ok w -> Forall key_ok ks -> Forall key_ok (edited_keys w ks).
Proof.
  intros Hw Hks. destruct w as [i|id i|id|i|id i|id|id body|id]; cbn in *; try done.
  - apply Forall_app. split; [done|]. constructor; [by apply created_key_ok|constructor].
  - apply Forall_update_first; [|done]. intros k. by apply updated_key_ok.
  - by apply Forall_filtered.
  - apply Forall_update_first; [|done]. intros k. by apply issued_key_ok.
  - apply Forall_update_first; [|done]. intros k. by apply revoked_key_ok.
Qed.

Lemma put_update_first c id f old id' :
  (forall k, pk_id (f k) = pk_id k) -> proxy_key c id = Some old ->
  proxy_key (with_proxy_keys c (update_first (fun k => pk_id k =s id) f (proxy_keys c))) id'
  = put (f old) (proxy_key c) id'.
Proof.
  intros Hf Ho. unfold proxy_key. cbn [proxy_keys with_proxy_keys].
  rewrite (entry_update_first pk_id) by done.
  change (List.find (fun x => pk_id x =s id) (proxy_keys c)) with (proxy_key c id). rewrite Ho.
  unfold put. rewrite Hf. apply (entry_id pk_id) in Ho as [_ ->]. done.
Qed.

Notation tracked yaml a := (stored yaml a (proxy_key (ad_config a))).

(** What an edit of a key does to the table. *)
Lemma edit_key_stored {A} yaml id f a (k : ProxyKey -> AdminState -> AdminState * A) a' r :
  (forall k, pk_id (f k) = pk_id k) ->
  (forall x b, same_parts b (k x b).1) ->
  (forall old b g, proxy_key (ad_config a) id = Some old -> is_Some (g (pk_id (f old))) ->
     stored yaml b g -> stored yaml (k (f old) b).1 (put (f old) g)) ->
  edit_key id f a k = Returns (a', r) -> tracked yaml a -> tracked yaml a'.
Proof.
  intros Hf Hparts Hk H Ht.
  apply edit_key_cases in H as [(e & _ & (Ec & _) & Es)|(old & a1 & x & Ho & _ & W & Es & Ek)]; [| |done].
  - rewrite Ec. by eapply stored_same.
  - rewrite (sw_config _ _ _ W).
    eapply stored_ext; [intros id'; by apply put_update_first|].
    specialize (Hk old a1 (proxy_key (ad_config a)) Ho). rewrite Ek in Hk. apply Hk.
    + rewrite Hf. apply (entry_id pk_id) in Ho as Hid. destruct Hid as [_ ->]. by rewrite Ho.
    + by eapply stored_same.
Qed.

(** A handler that leaves the keys alone. *)
Lemma swap_stored {A} yaml c a b (k : AdminState -> AdminState * A) a' r :
  (forall b, same_parts b (k b).1) -> proxy_keys c = proxy_keys (ad_config a) ->
  ad_config b = ad_config a ->
  (forall b f, stored yaml b f -> stored yaml (k b).1 f) ->
  then_ok (swap_config_and_catalog c b) k = Returns (a', r) ->
  stored yaml b (proxy_key (ad_config a)) -> tracked yaml a'.
Proof.
  intros Hp Hc Hb Hk H Ht.
  apply then_swap in H as [(e & _ & (Ec & _) & Es)|(a1 & x & _ & W & Es & Ek & _)]; [| |done].
  - rewrite Ec, Hb. by eapply stored_same.
  - rewrite (sw_config _ _ _ W). eapply stored_ext; [intros id; unfold proxy_key; by rewrite Hc|].
    specialize (Hk a1 (proxy_key (ad_config a))). rewrite Ek in Hk. apply Hk.
    by eapply stored_same.
Qed.

Lemma not_has_key id c : has_key id c = false -> proxy_key c id = None.
Proof.
  unfold has_key, proxy_key. rewrite existsb_false, find_None_all. intros H k Hk. by apply H.
Qed.

Ltac other_tables :=
  repeat first
    [ apply stored_audit | assumption
    | apply stored_other;
        [intros; first [apply insert_resource_keeps|apply update_resource_keeps
           |apply delete_resource_keeps|apply delete_upstream_keeps|apply replace_upstream_keeps]|] ].

Lemma create_key_stored yaml admin i a a' r :
  params_fit i -> create_proxy_key admin i a = Returns (a', r) -> tracked yaml a ->
  tracked yaml a'.
Proof.
  intros Hi. unfold create_proxy_key.
  destruct (has_key (kw_id i) (ad_config a)) eqn:Eh; [by intros [= <- <-]|].
  intros H Ht.
  eapply then_swap in H as [(e & _ & (Ec & _) & Es)|(a1 & x & _ & W & Es & Ek & _)];
    [| |keeps_parts].
  - rewrite Ec. by eapply stored_same.
  - rewrite (sw_config _ _ _ W). injection Ek as <- _. apply stored_audit.
    eapply stored_effort; [|eapply stored_same; [exact Es|exact Ht]].
    intros s Hs. apply not_has_key in Eh.
    destruct (stands_for_insert reliable yaml _ s (proxy_key_from_input i) Hs) as [H1 H2];
      [by apply created_key_ok|done|].
    split; [done|]. intros id Hid. rewrite (H2 id Hid). f_equal. unfold put, proxy_key.
    cbn [proxy_keys with_proxy_keys]. rewrite entry_app. cbn.
    destruct (String.eqb_spec (kw_id i) id) as [<-|Hne].
    + fold (proxy_key (ad_config a) (kw_id i)). by rewrite Eh.
    + by destruct (List.find _ _).
Qed.

Lemma delete_key_stored yaml admin id a a' r :
  is_Ok r = true -> delete_proxy_key admin id a = Returns (a', r) -> tracked yaml a -> tracked yaml a'.
Proof.
  intros Hr. unfold delete_proxy_key.
  destruct (has_key id (ad_config a)) eqn:Eh; cbn [negb]; [|by intros [= <- <-]].
  intros H Ht.
  apply then_swap in H as [(e & -> & _)|(a1 & x & _ & W & Es & Ek & _)]; [done| |keeps_parts].
  rewrite (sw_config _ _ _ W). injection Ek as <- _. apply stored_audit.
  eapply stored_same; [exact Es|].
  eapply stored_effort; [|exact Ht]. intros s Hs.
  destruct (stands_for_delete reliable yaml _ s id Hs) as [H1 H2]. split; [done|].
  intros id' Hid. rewrite (H2 id' Hid). f_equal. unfold proxy_key.
  cbn [proxy_keys with_proxy_keys]. by rewrite best_effort_config, entry_dropped.
Qed.

(** Every write keeps the rows in step with the running keys, unless it is a deletion
    that fails. *)
Lemma run_write_stored yaml admin w a a' r :
  write_ok w -> Forall key_ok (proxy_keys (ad_config a)) ->
  (is_delete w = true -> is_Ok r = true) ->
  run_write admin w a = Returns (a', r) -> tracked yaml a -> tracked yaml a'.
Proof.
  intros Hw Hks Hd H Ht.
  assert (forall id old, proxy_key (ad_config a) id = Some old -> key_ok old) as Hold.
  { intros id old [Hin _]%(entry_id pk_id). rewrite Forall_forall in Hks. auto. }
  destruct w as [i|id i|id|i|id i|id|id body|id]; cbn in H;
    try (apply no_answer_inv in H as (x & H & ->); revert H).
  - unfold create_resource. case_if; [by intros [= <- <-]|].
    intros H. eapply swap_stored; [| | | |exact H|exact Ht]; [keeps_parts|done|done|].
    intros b f Hb. cbn [fst]. other_tables.
  - unfold update_resource. destruct (resource _ _); [|by intros [= <- <-]].
    intros H. eapply swap_stored; [| | | |exact H|exact Ht]; [keeps_parts|done|done|].
    intros b f Hb. cbn [fst]. other_tables.
  - unfold delete_resource. case_if; [by intros [= <- <-]|]. cbn zeta.
    intros H. eapply (swap_stored yaml _ a); [| | | |exact H|]; [keeps_parts| | | |].
    + cbn. by rewrite !best_effort_config.
    + by rewrite !best_effort_config.
    + intros b f Hb. cbn [fst]. other_tables.
    + other_tables.
  - intros H. by eapply create_key_stored.
  - intros H. eapply edit_key_stored; [| | |exact H|exact Ht]; [done|keeps_parts|].
    intros old b g Ho Hg Hb. cbn [fst]. apply stored_audit.
    eapply stored_effort; [|exact Hb]. intros s Hs.
    apply stands_for_update; [done|done|eapply updated_key_ok, Hold; eassumption|done].
  - specialize (Hd eq_refl). intros H. eapply delete_key_stored; [|exact H|exact Ht]. by destruct x.
  - unfold issue_token. cbn in Hw. unfold issued_expiry in Hw.
    destruct (parse_expires_at body) as [exp|e]; [|by intros [= <- <-]].
    intros H. eapply edit_key_stored; [| | |exact H|exact Ht]; [done|keeps_parts|].
    intros old b g Ho Hg Hb. cbn [fst]. apply stored_audit.
    eapply stored_effort; [|exact Hb]. intros s Hs.
    apply stands_for_upsert; [done|done|]. eapply issued_key_ok, Hold; eassumption.
  - unfold revoke_token in H. eapply edit_key_stored; [| | |exact H|exact Ht]; [done|keeps_parts|].
    intros old b g Ho Hg Hb. cbn [fst]. apply stored_audit.
    eapply stored_effort; [|exact Hb]. intros s Hs.
    apply stands_for_upsert; [done|done|]. eapply revoked_key_ok, Hold; eassumption.
Qed.
End Write.

(** *** Sequences of writes *)

(** The environment of each request is its own; a deletion that fails is excluded. *)
Definition admin_step (a a' : AdminState) : Prop :=
  exists (OA : OpenApiSource) (AE : AdminEnv) admin w r,
    run_write admin w a = Returns (a', r) /\ write_ok w /\
    (is_delete w = true -> is_Ok r = true).

(** The rows of the store stand for the running keys. *)
Definition keys_persisted (yaml : list string) (a : AdminState) : Prop :=
  Forall key_ok (proxy_keys (ad_config a)) /\ stored yaml a (proxy_key (ad_config a)).

Lemma admin_step_persisted yaml a a' :
  admin_step a a' -> keys_persisted yaml a -> keys_persisted yaml a'.
Proof.
  intros (OA & AE & admin & w & r & H & Hw & Hd) [Hk Hs]. split.
  - pose proof (run_write_atomic admin w a a' r H) as Ha. destruct r; cbn in Ha.
    + rewrite (sw_config _ _ _ Ha). cbn. by apply edited_keys_ok.
    + by destruct Ha as [[-> _] _].
  - by eapply run_write_stored.
Qed.

Lemma admin_steps_persisted yaml a a' :
  rtc admin_step a a' -> keys_persisted yaml a -> keys_persisted yaml a'.
Proof. induction 1; [done|]. intros. eauto using admin_step_persisted. Qed.

(** *** Reading back *)

Lemma load_db_entries_runs s :
  exists s', load_db_entries s =
    (s', Ok (sorted_rows (st_resources s), sorted_rows (st_mcp_servers s),
             sorted_rows (st_proxy_keys s))).
Proof.
  unfold load_db_entries, list_resources_rows, list_mcp_server_rows, list_proxy_keys, statement.
  rewrite !reliable. cbn. by eexists.
Qed.

Lemma validate_one_config c k :
  validate_one_key k = Ok tt -> is_Ok (validate_key_credentials (with_proxy_keys c [k])) = true.
Proof. intros H. unfold validate_key_credentials. cbn. by rewrite H. Qed.

(** The keys of a merge: those of the YAML, and those of the rows elsewhere. *)
Lemma merged_keys yaml s f s' c' report :
  NoDup (pk_id <$> proxy_keys yaml) ->
  stands_for (pk_id <$> proxy_keys yaml) (st_proxy_keys s) f ->
  (forall id k, f id = Some k -> validate_one_key k = Ok tt) ->
  merge_db_config yaml s = (s', Ok (c', report)) ->
  forall id, proxy_key c' id =
    if bool_decide (id ∈ pk_id <$> proxy_keys yaml) then proxy_key yaml id else f id.
Proof.
  intros Hnd [Hk Hf] Hv H id.
  unfold merge_db_config in H. destruct (load_db_entries_runs s) as [s1 Hl]. rewrite Hl in H.
  unfold merge_db_into_config in H. injection H as <- <- <-.
  set (m0 := mkMerging (proxy_keys yaml) [] _ _).
  pose proof (merge_rows_merged kr_id pk_id proxy_key_from_record "proxy_key" key_read_id
    (proxy_keys yaml) (sorted_rows (st_proxy_keys s)) m0 (keyed_ids _ _ Hk) eq_refl) as M3.
  revert M3. generalize (merge_rows kr_id pk_id proxy_key_from_record "proxy_key"
    (sorted_rows (st_proxy_keys s)) m0). intros m3 M3.
  destruct M3 as [(nk & E3 & A3 & _ & N3 & I3) _ _]. specialize (N3 Hnd).
  unfold proxy_key at 1. cbn [proxy_keys with_proxy_keys with_mcp_servers with_api_resources added_proxy_keys].
  rewrite E3 in N3 |- *. cbn in A3. rewrite A3.
  set (keep := keep_key _ _).
  assert (forall k, k ∈ nk -> exists row, st_proxy_keys s !! pk_id k = Some row /\
            pk_id k ∉ pk_id <$> proxy_keys yaml /\ proxy_key_from_record row = Some k) as Hnk.
  { intros k Hin. apply I3 in Hin as (row & Hrow & Hid & Hread).
    apply sorted_rows_elem in Hrow as [key Hrow]. pose proof (Hk _ _ Hrow) as Hkey.
    rewrite (key_read_id _ _ Hread). exists row. by rewrite Hkey in *. }
  assert (forall k, k ∈ proxy_keys yaml ++ nk -> keep k = true) as Hkeep.
  { intros k Hin. unfold keep, keep_key. case_if; [|done]. apply elem_of_app in Hin as [Hin|Hin].
    - exfalso. apply existsb_elem in E as (i & Hi & <-%String.eqb_eq).
      rewrite fmap_app in N3. apply NoDup_app in N3 as (_ & N & _).
      by apply (N (pk_id k)); [apply list_elem_of_fmap_2|].
    - apply Hnk in Hin as (row & Hrow & Hid & Hread). apply validate_one_config.
      specialize (Hf _ Hid). rewrite Hrow in Hf. cbn in Hf. rewrite Hread in Hf.
      destruct (f (pk_id k)) as [k'|] eqn:Ek; [|done]. injection Hf as <-. by eapply Hv. }
  rewrite filter_all by done. rewrite entry_app.
  destruct (bool_decide (id ∈ pk_id <$> proxy_keys yaml)) eqn:Ed.
  - apply bool_decide_eq_true in Ed. fold (proxy_key yaml id).
    destruct (proxy_key yaml id) eqn:Ep; [done|]. by apply (entry_none pk_id) in Ep.
  - apply bool_decide_eq_false in Ed. rewrite (proj2 (entry_none pk_id _ _) Ed).
    specialize (Hf _ Ed). rewrite fmap_app in N3. apply NoDup_app in N3 as (_ & _ & N3).
    destruct (f id) as [k|] eqn:Ek.
    + destruct (st_proxy_keys s !! id) as [row|] eqn:Er; [|done]. injection Hf as Hf.
      pose proof (key_read_id _ _ Hf) as Hid. rewrite (Hk _ _ Er) in Hid.
      apply (entry_in pk_id); [done| |done]. apply I3. exists row. split_and!; [|by rewrite (Hk _ _ Er)|done].
      apply sorted_rows_elem. eauto.
    + apply (entry_none pk_id). intros (k & -> & Hin)%list_elem_of_fmap.
      apply Hnk in Hin as (row & Hrow & _). by rewrite Hrow in Hf.
Qed.

Lemma merge_db_config_runs yaml s : exists s' c' report, merge_db_config yaml s = (s', Ok (c', report)).
Proof.
  unfold merge_db_config. destruct (load_db_entries_runs s) as [s1 ->].
  destruct (merge_db_into_config _ _ _ _) as [c rep]. eauto.
Qed.
End Steps.

(** C28: What an administrator changed is what the gateway has after a restart.  On a
    database that executes its statements, after any number of writes (failed ones
    included, unless a deletion fails), the store read back and merged into the YAML
    configuration gives, for every key id outside the YAML, the entry that was running,
    with its scope, limits and token, or none if it was deleted; a key of the YAML
    returns to its YAML entry. *)
Theorem changes_survive_restart {G : Governor} {SHA : Sha256} {SE : Serializers} {JR : JsonReader}
    {JT : JsonText} {RF : Rfc3339} {DB : Database} yaml a a' :
  (forall n, db_failure n = None) -> (forall t, String.length (sha256 t) = 32%nat) ->
  NoDup (pk_id <$> proxy_keys yaml) ->
  keys_persisted (pk_id <$> proxy_keys yaml) a -> rtc admin_step a a' ->
  exists s s' c' report,
    ad_store a' = Some s /\ merge_db_config yaml s = (s', Ok (c', report)) /\
    forall id, proxy_key c' id =
      if bool_decide (id ∈ pk_id <$> proxy_keys yaml) then proxy_key yaml id
      else proxy_key (ad_config a') id.
Proof.
  intros Hdb Hsha Hnd Hp Hsteps.
  destruct (admin_steps_persisted Hdb Hsha _ _ _ Hsteps Hp) as [Hk (s & Hs & Hrows)].
  destruct (merge_db_config_runs Hdb yaml s) as (s' & c' & report & Hm).
  exists s, s', c', report. split_and!; [done|done|].
  eapply merged_keys; [done|done|exact Hrows| |exact Hm].
  intros id k [Hin _]%(entry_id pk_id). rewrite Forall_forall in Hk. by apply Hk.
Qed.

Lemma block_sha_bytes t : String.length (sha256 (Sha256 := block_sha) t) = 32%nat.
Proof.
  cbn [block_sha sha256]. apply substring_prefix_length. rewrite str_app_length. cbn. lia.
Qed.

Definition demo_writes : list admin_write :=
  [CreateProxyKey (demo_params "a"); CreateProxyKey (demo_params "b"); IssueToken "a" "";
   DeleteProxyKey "b"].

Definition demo_changed : AdminState (G := open_governor) :=
  Eval vm_compute in fold_left (fun a w => demo_write w a) demo_writes demo_admin.

Ltac demo_step w :=
  eapply rtc_l;
    [exists no_openapi, demo_env, "root", w; eexists;
     split; [vm_compute; reflexivity|split; [by try split|done]]|].

Lemma changes_survive_restart_witness :
  (exists k, proxy_key (ad_config demo_changed) "a" = Some k /\ token_digest k <> None) /\
  proxy_key (ad_config demo_changed) "b" = None /\
  exists s s' c' report,
    ad_store demo_changed = Some s /\
    merge_db_config (JR := stream_reader) (RF := binary_times) (DB := steady_db)
      GatewayConfig_default s = (s', Ok (c', report)) /\
    forall id, proxy_key c' id =
      if bool_decide (id ∈ pk_id <$> proxy_keys GatewayConfig_default)
      then proxy_key GatewayConfig_default id else proxy_key (ad_config demo_changed) id.
Proof.
  split; [eexists; split; [vm_compute; reflexivity|done]|].
  split; [vm_compute; reflexivity|].
  apply (changes_survive_restart (G := open_governor) (SHA := block_sha) (SE := stream_serializers)
    (JT := stream_text) (DB := steady_db) GatewayConfig_default demo_admin demo_changed).
  - done.
  - apply block_sha_bytes.
  - constructor.
  - split; [constructor|]. exists empty_store. split; [done|]. split; [by intros k r|done].
  - demo_step (CreateProxyKey (demo_params "a")). demo_step (CreateProxyKey (demo_params "b")).
    demo_step (IssueToken "a" ""). demo_step (DeleteProxyKey "b"). apply rtc_refl.
Defined.
