(* ===== verification/AdminTokens.v ===== *)
(** * Issued tokens

    A token that an administrator issues is accepted from the moment the handler
    returns, and it is the only one that is accepted for its key. *)

From S2P Require Import Prelude RustStr Naming Errors Config Policy Secrets Catalog KeyPool Limits.
From S2P Require Import Egress OAuthConfig GatewayAuth Render Observe Integrity Overrides.
From S2P Require Import ConfigJson Store ConfigMerge Admin AdminFacts AdminRestart.
From Stdlib Require Import Ascii.

Local Open Scope string_scope.
Local Open Scope list_scope.
Local Open Scope Z_scope.
Local Open Scope gateway_scope.

Section Tokens.
Context {SHA : Sha256}.

(** The digest that a configured key is accepted by. *)
Definition key_token (resolve : SecretRef -> result SecretError string) (k : ProxyKey)
    : option string :=
  match token_ref k, token_digest k with
  | Some r, _ =>
      match (sr ← map_err secret_to_asterlane (parse_ref r);
             t ← map_err secret_to_asterlane (resolve sr); Ok (sha256 t)) with
      | Ok d => Some d
      | Err _ => None
      end
  | None, Some hex => decode_digest_hex hex
  | None, None => None
  end.

Lemma config_key_parts resolve a k a' :
  config_key resolve a k = Ok a' ->
  tokens a' = match key_token resolve k with
              | Some d => <[d := pk_id k]> (forget (pk_id k) (tokens a))
              | None => tokens a
              end /\
  expires a' = match expires_at k with
               | Some e => <[pk_id k := e]> (expires a)
               | None => expires a
               end /\
  (is_Some (key_token resolve k) -> pk_id k ∈ token_keys a').
Proof.
  unfold config_key, key_token.
  assert (forall o, tokens (insert_expiry (pk_id k) o a) = tokens a) as Ht by (by intros []).
  assert (expires (insert_expiry (pk_id k) (expires_at k) a) =
          match expires_at k with Some e => <[pk_id k := e]> (expires a) | None => expires a end) as He
    by by destruct (expires_at k).
  destruct (token_ref k) as [r|].
  - intros (sr & -> & (t & E & [= <-])%bind_Ok_inv)%bind_Ok_inv. cbn in E |- *. rewrite E. cbn.
    split_and!; [by rewrite Ht|done|set_solver].
  - destruct (token_digest k) as [hex|].
    + intros (d & ->%ok_or_Ok_inv & [= <-])%bind_Ok_inv. cbn.
      split_and!; [by rewrite Ht|done|set_solver].
    + intros [= <-]. cbn. split_and!; [by rewrite Ht|done|by intros []].
Qed.

(** Keys of other ids and other digests leave an entry alone. *)
Lemma config_keys_keep resolve ks a a' id d :
  config_keys resolve ks a = Ok a' -> id ∉ pk_id <$> ks ->
  (forall k, k ∈ ks -> key_token resolve k <> Some d) ->
  tokens a !! d = Some id ->
  tokens a' !! d = Some id /\ expires a' !! id = expires a !! id.
Proof.
  revert a. induction ks as [|k ks IH]; intros a H Hid Hd Ht; [by injection H as <-|].
  cbn in H, Hid. apply bind_Ok_inv in H as (a1 & Hk & H).
  apply config_key_parts in Hk as (Et & Ee & _).
  apply not_elem_of_cons in Hid as [Hne Hid].
  assert (tokens a1 !! d = Some id) as Ht1.
  { rewrite Et. destruct (key_token resolve k) as [d'|] eqn:Ed; [|done].
    rewrite lookup_insert_ne; [by apply forget_lookup|].
    intros ->. by apply (Hd k); [left|]. }
  destruct (IH a1 H Hid) as [H1 H2]; [|done|].
  { intros k' Hk'. apply Hd. by right. }
  split; [done|]. rewrite H2, Ee. destruct (expires_at k); [|done].
  by rewrite lookup_insert_ne.
Qed.

Lemma config_keys_expiry_fresh resolve ks a a' id :
  config_keys resolve ks a = Ok a' -> id ∉ pk_id <$> ks -> expires a' !! id = expires a !! id.
Proof.
  revert a. induction ks as [|k ks IH]; intros a H Hid; [by injection H as <-|].
  cbn in H, Hid. apply bind_Ok_inv in H as (a1 & Hk & H).
  apply config_key_parts in Hk as (_ & Ee & _).
  apply not_elem_of_cons in Hid as [Hne Hid]. rewrite (IH a1 H Hid), Ee.
  destruct (expires_at k); [|done]. by rewrite lookup_insert_ne.
Qed.

(** A key whose digest is its own is accepted by it, with its own expiry. *)
Lemma config_keys_accepts resolve ks a' k d :
  config_keys resolve ks empty_auth = Ok a' -> NoDup (pk_id <$> ks) -> k ∈ ks ->
  key_token resolve k = Some d ->
  (forall k', k' ∈ ks -> pk_id k' <> pk_id k -> key_token resolve k' <> Some d) ->
  tokens a' !! d = Some (pk_id k) /\ expires a' !! pk_id k = expires_at k.
Proof.
  intros H Hnd (l1 & l2 & ->)%list_elem_of_split Hd Hother.
  rewrite fmap_app in Hnd. cbn in Hnd. apply NoDup_app in Hnd as (_ & Hdisj & [Hl2 _]%NoDup_cons).
  assert (pk_id k ∉ pk_id <$> l1) as Hl1 by (intros Hin; apply (Hdisj _ Hin); left).
  assert (exists a0, config_keys resolve l1 empty_auth = Ok a0 /\
                     config_keys resolve (k :: l2) a0 = Ok a') as (a0 & H0 & H1).
  { clear -H. revert H. generalize empty_auth. induction l1 as [|x l1 IH]; intros a H; [by exists a|].
    cbn in H |- *. apply bind_Ok_inv in H as (a1 & -> & H). by apply IH. }
  cbn in H1. apply bind_Ok_inv in H1 as (a1 & Hk & H1).
  apply config_key_parts in Hk as (Et & Ee & _). rewrite Hd in Et.
  destruct (config_keys_keep resolve l2 a1 a' (pk_id k) d H1 Hl2) as [R1 R2].
  - intros k' Hk'. apply Hother; [apply elem_of_app; right; by right|].
    intros E. apply Hl2. rewrite <- E. by apply list_elem_of_fmap_2.
  - by rewrite Et, lookup_insert_eq.
  - split; [done|]. rewrite R2, Ee.
    pose proof (config_keys_expiry_fresh resolve l1 _ _ _ H0 Hl1) as Hf. cbn in Hf.
    destruct (expires_at k); [by rewrite lookup_insert_eq|].
    by rewrite Hf, lookup_empty.
Qed.
End Tokens.

(** The expiry [e] that the body of a request asks for: none when it is empty or an
    object that does not name it, and otherwise the time that its text stands for. *)
Record asked_expiry {JR : JsonReader} {RF : Rfc3339} (body : string) (e : option Z) : Prop := {
  asked_empty : body = "" -> e = None;
  asked_absent fs : body <> "" -> json_tree body = Some (JObject fs) ->
    obj_get "expires_at" fs = None -> e = None;
  asked_text fs t : body <> "" -> json_tree body = Some (JObject fs) ->
    obj_get "expires_at" fs = Some (JString t) -> is_Some e /\ e = parse_rfc3339 t;
}.

Lemma parse_expires_asked {G : Governor} {JR : JsonReader} {RF : Rfc3339} {AE : AdminEnv} body e :
  parse_expires_at body = Ok e -> asked_expiry body e /\ forall t, e = Some t -> ae_now < t.
Proof.
  unfold parse_expires_at. intros H. destruct (is_empty body) eqn:Eb.
  { injection H as <-. split; [|done]. by destruct body. }
  apply bind_Ok_inv in H as (p & Hp%ok_or_Ok_inv & H). split.
  2: { intros t ->. destruct (tp_expires_at p) as [e'|]; [|done]. case_if_in H; [done|].
       injection H as ->. by apply Z.leb_gt. }
  assert (e = tp_expires_at p) as -> by (destruct (tp_expires_at p); [case_if_in H|]; congruence).
  unfold from_json in Hp. split; [by intros ->|..].
  - intros fs _ E Hn. rewrite E in Hp. cbn [mbind option_bind TokenIssueParams_from struct_fields] in Hp.
    unfold TokenIssueParams_from, struct_fields in Hp. case_if_in Hp; [|done].
    cbn [mbind option_bind] in Hp. unfold defaulted in Hp. rewrite Hn in Hp. by injection Hp as <-.
  - intros fs t _ E Ht. rewrite E in Hp. cbn [mbind option_bind] in Hp.
    unfold TokenIssueParams_from, struct_fields in Hp. case_if_in Hp; [|done].
    cbn [mbind option_bind] in Hp. unfold defaulted in Hp. rewrite Ht in Hp.
    change (@from_value _ opt_time (JString t)) with (Some <$> parse_rfc3339 t) in Hp.
    destruct (parse_rfc3339 t) as [x|]; [|done]. by injection Hp as <-.
Qed.

(** C30: an issued token works until the expiry that was asked for, and no other token
    works for its key.  When a token is issued for a key, while ids are distinct and no
    other key has the new token's digest, the running gateway accepts it at once as that
    key: for ever when the request's body is empty or names no expiry, and otherwise
    until the time that the body names, which lies in the future, and no longer; every
    token of another digest is refused for that key, the one issued before included, and
    so is the bare key id. *)
Theorem issued_token_authenticates {G : Governor} {SHA : Sha256} {OA : OpenApiSource}
    {SE : Serializers} {JR : JsonReader} {RF : Rfc3339} {DB : Database} {AE : AdminEnv}
    admin id body a a' resp now q :
  (forall t, String.length (sha256 t) = 32%nat) ->
  NoDup (pk_id <$> proxy_keys (ad_config a)) ->
  (forall k, k ∈ proxy_keys (ad_config a) -> pk_id k <> id ->
     key_token ae_resolve k <> Some (sha256 (ti_token resp))) ->
  issue_token admin id body a = Returns (a', Ok resp) ->
  authenticate (Some (ti_token resp)) q now (ad_auth a') =
    match ti_expires_at resp with
    | Some e => if e <=? now
                then Err (internal AuthExpiredGatewayKey "gateway key token expired") else Ok id
    | None => Ok id
    end /\
  asked_expiry body (ti_expires_at resp) /\
  (forall e, ti_expires_at resp = Some e -> ae_now < e) /\
  (forall t q now, sha256 t <> sha256 (ti_token resp) ->
     authenticate (Some t) q now (ad_auth a') <> Ok id) /\
  authenticate None (Some id) now (ad_auth a') = Err invalid_key.
Proof.
  intros Hlen Hnd Hfresh H. unfold issue_token in H.
  destruct (parse_expires_at body) as [exp|e] eqn:Ep; [|done].
  apply parse_expires_asked in Ep as [Hask Hfut].
  apply edit_key_cases in H as [(e & [=] & _)|(old & a1 & x & Ho & [= <-] & W & _ & Ek)];
    [|keeps_parts].
  injection Ek as _ <-. cbn [ti_token ti_expires_at] in *.
  set (f := with_credentials None (Some (encode_hex (sha256 generate_token))) exp) in *.
  set (ks := update_first _ f _) in *.
  pose proof (sw_auth _ _ _ W) as Ha. unfold auth_from_config in Ha. cbn [proxy_keys with_proxy_keys] in Ha.
  assert (pk_id <$> ks = pk_id <$> proxy_keys (ad_config a)) as Eids by by apply update_first_ids.
  rewrite <- Eids in Hnd.
  apply (entry_id pk_id) in Ho as Hold. destruct Hold as [Hin <-].
  assert (forall k, k ∈ ks -> k = f old \/ (k ∈ proxy_keys (ad_config a) /\ pk_id k <> pk_id old)) as Hks.
  { intros k Hk. eapply update_first_elem; [..|exact Hk]; done. }
  assert (f old ∈ ks) as Hf by by apply update_first_new.
  assert (key_token ae_resolve (f old) = Some (sha256 generate_token)) as Hd
    by apply (digest_hex_roundtrip _ (Hlen generate_token)).
  destruct (config_keys_accepts ae_resolve ks (ad_auth a') (f old) (sha256 generate_token))
    as [T E]; [done|done|done|done| |].
  { intros k' [->|[Hk' Hne]]%Hks Hid; [done|]. by apply Hfresh. }
  assert (auth_ok (ad_auth a')) as Hok.
  { apply (config_keys_ok ae_resolve ks empty_auth); [done|done|set_solver|apply empty_auth_ok]. }
  cbn [pk_id f with_credentials expires_at] in T, E.
  split_and!.
  - unfold authenticate. change (is_empty generate_token) with false. cbn [negb].
    rewrite T. cbn. unfold check_expiry. rewrite E. destruct exp as [e|]; [|done]. by case_if.
  - exact Hask.
  - exact Hfut.
  - intros t q' now' Ht [Ht' _]%bearer_Ok. apply Ht. by eapply (ok_single _ Hok).
  - unfold authenticate. rewrite bool_decide_false; [done|].
    apply (ok_disjoint _ Hok). by eapply (ok_known _ Hok).
Qed.

(** A request that asks for a token until the time 9. *)
Definition demo_expiry : JSON := JObject [("expires_at", JString (to_rfc3339 (Rfc3339 := binary_times) 9))].
Definition expiry_reader : JsonReader := {|
  json_tree := fun s => if s =s "until 9" then Some demo_expiry else None;
  json_error := fun _ => "invalid JSON";
|}.

Lemma issued_token_authenticates_witness :
  exists a' resp, issue_token (G := open_governor) (SHA := block_sha) (OA := no_openapi)
      (SE := stream_serializers) (JR := expiry_reader) (RF := binary_times) (DB := steady_db)
      (AE := demo_env) "root" "a" "until 9" demo_changed = Returns (a', Ok resp) /\
    authenticate (H := block_sha) (Some (ti_token resp)) None 5 (ad_auth a') = Ok "a" /\
    asked_expiry (JR := expiry_reader) (RF := binary_times) "until 9" (ti_expires_at resp) /\
    ti_expires_at resp = Some 9.
Proof.
  eexists _, _. split; [vm_compute; reflexivity|].
  edestruct (issued_token_authenticates (G := open_governor) (SHA := block_sha) (OA := no_openapi)
    (SE := stream_serializers) (JR := expiry_reader) (RF := binary_times) (DB := steady_db)
    (AE := demo_env) "root" "a" "until 9" demo_changed) as (H1 & H2 & _);
    [apply block_sha_bytes | apply (bool_decide_unpack _); vm_compute; exact I
    | | vm_compute; reflexivity | split; [exact H1|split; [exact H2|reflexivity]]].
  intros k Hk Hne. exfalso. apply Hne. cbn in Hk. by apply list_elem_of_singleton in Hk as ->.
Defined.

(** ** What goes wrong *)

(** A deletion removes the row before the configuration is replaced: when a secret
    cannot be resolved the handler fails, the key goes on working, and it is gone after
    the next restart. *)
Definition locked_key : ProxyKey :=
  mkProxyKey "c" "C" [] [] [] [] None (Some "secret://env/TOKEN") None None 20 None None.

Example failed_delete_loses_row :
  let a := with_store (ad_store demo_changed)
    (mkAdminState open_governor
       (with_proxy_keys GatewayConfig_default (proxy_keys (ad_config demo_changed) ++ [locked_key]))
       (ad_catalog demo_changed) (ad_limits demo_changed) (ad_auth demo_changed) None None) in
  exists a' e, delete_proxy_key (G := open_governor) (SHA := block_sha) (OA := no_openapi)
      (SE := stream_serializers) (RF := binary_times) (DB := steady_db) (AE := demo_env) "root" "a" a
    = Returns (a', Err e) /\
    is_Some (proxy_key (ad_config a') "a") /\
    ((fun s => st_proxy_keys s !! "a") <$> ad_store a') = Some None.
Proof.
  eexists _, _. split; [vm_compute; reflexivity|]. split; [|vm_compute; reflexivity].
  eexists. vm_compute. reflexivity.
Qed.

(** With an API resource and an MCP server of the same id, which the configuration
    accepts, the tools of the resource are taken for tools of the server: each change
    adds another copy of them, and their names no longer resolve. *)
Example shared_id_duplicates_tools :
  let c := with_mcp_servers demo_api_config
    [mkMcpServerConfig "exa" "search" "exa" "https://mcp.exa.ai/mcp" "" AuthNone
       SecurityConfig_default true None] in
  exists fresh a1 a2, from_config (OA := no_openapi) c = Ok fresh /\
    let a := mkAdminState open_governor c fresh
      (mkLimitRegistry (G := open_governor) ∅ ∅ ∅) empty_auth None None in
    swap_config_and_catalog (SHA := block_sha) (OA := no_openapi) (AE := demo_env) c a
      = Returns (a1, Ok tt) /\
    swap_config_and_catalog (SHA := block_sha) (OA := no_openapi) (AE := demo_env) c a1
      = Returns (a2, Ok tt) /\
    length (tools fresh) = 2%nat /\ length (tools (ad_catalog a1)) = 4%nat /\
    length (tools (ad_catalog a2)) = 6%nat.
Proof.
  eexists _, _, _. split; [vm_compute; reflexivity|]. cbv zeta.
  split; [vm_compute; reflexivity|]. split; [vm_compute; reflexivity|]. done.
Qed.

(** The counters are copied before the secrets are resolved: a call that is counted
    while they are being resolved is forgotten when the limits are replaced. *)
Definition busy_env : AdminEnv (G := open_governor) :=
  {| ae_resolve := fun _ => Err (SE_NotFound "none"); ae_now := 0; ae_token_bytes := "";
     ae_pool_snap := fun _ => 0; ae_pool_now := fun _ _ => 0; ae_meanwhile := record_call "k" 0 |}.

Example calls_during_swap_are_lost :
  let a := mkAdminState open_governor GatewayConfig_default (mkToolCatalog [] ∅ ∅)
    (mkLimitRegistry (G := open_governor) ∅ ∅ ∅) empty_auth None None in
  exists a', swap_config_and_catalog (SHA := block_sha) (OA := no_openapi) (AE := busy_env)
      GatewayConfig_default a = Returns (a', Ok tt) /\
    usage (record_call "k" 0 (ad_limits a)) !! "k" <> None /\ usage (ad_limits a') !! "k" = None.
Proof. eexists. split; [vm_compute; reflexivity|]. split; [by vm_compute|reflexivity]. Qed.
