(* ===== verification/McpAdmin.v ===== *)
(** * Administration of MCP servers ([admin/mcp.rs], [admin/oauth.rs], [http/lifecycle.rs])

    Servers are created, updated, deleted and probed on the registry, the
    configuration, the catalog, the integrity baseline and the store; authorizations
    are started, completed by the browser's callback and revoked. *)

From S2P Require Import Prelude RustStr Naming Errors Config Policy Secrets Catalog Overrides KeyPool Limits.
From S2P Require Import Egress Shaping GatewayAuth Render Retry Observe Invoke Integrity Surface Peers.
From S2P Require Import Registry McpServer OpenApi OAuthConfig ConfigJson Store ConfigMerge Seal OAuth Admin.

Local Open Scope string_scope.
Local Open Scope list_scope.
Local Open Scope Z_scope.
Local Open Scope gateway_scope.

(** ** Parameters and answers ([admin/types/mcp.rs]) *)

Record McpServerWriteParams := mkMcpServerWriteParams {
  mw_id : option string;
  mw_domain : string;
  mw_provider : string;
  mw_url : string;
  mw_description : string;
  mw_auth : option UpstreamAuth;
  mw_security : option SecurityConfig;
  mw_limits : option UpstreamLimits;
  mw_health_check : option bool;
}.

Inductive AuthTypeResponse := AT_None | AT_Bearer | AT_Header | AT_OAuth.

Definition auth_type_of (a : UpstreamAuth) : AuthTypeResponse :=
  match a with
  | AuthNone => AT_None
  | AuthBearer _ => AT_Bearer
  | AuthHeader _ _ => AT_Header
  | AuthOAuth _ _ _ _ => AT_OAuth
  end.

Record McpLimitsResponse := mkMcpLimitsResponse {
  lr_rps : option Z; lr_rpm : option Z; lr_max_concurrent : option Z }.

Definition limits_response (l : option UpstreamLimits) : McpLimitsResponse :=
  mkMcpLimitsResponse (x ← l; ul_rps x) (x ← l; ul_rpm x) (x ← l; ul_max_concurrent x).

Record McpHealthResponse := mkMcpHealthResponse {
  hr_status : HealthStatus;
  hr_last_check_at : option Z;
  hr_last_ok_at : option Z;
  hr_latency_ms : option Z;
  hr_consecutive_failures : Z;
  hr_last_error : option string;
}.

Definition health_unknown : McpHealthResponse :=
  mkMcpHealthResponse HS_Unknown None None None 0 None.
Definition from_health (h : ServerHealth) : McpHealthResponse :=
  mkMcpHealthResponse (status h) (last_check_at h) (last_ok_at h) (sh_latency_ms h)
    (consecutive_failures h) (last_error h).

Record McpServerResponse := mkMcpServerResponse {
  sv_id : string;
  sv_domain : string;
  sv_provider : string;
  sv_url : string;
  sv_description : string;
  sv_builtin : bool;
  sv_requires_key : bool;
  sv_auth_type : AuthTypeResponse;
  sv_oauth : option McpOAuthResponse;
  sv_integrity_policy : IntegrityPolicy;
  sv_defense_enabled : bool;
  sv_result_budget_bytes : option nat;
  sv_limits : McpLimitsResponse;
  sv_health_check_enabled : bool;
  sv_health : McpHealthResponse;
  sv_tool_count : nat;
}.

(** [server_json] of [from_config]. *)
Definition server_json (s : McpServerConfig) (c : GatewayConfig) (health : option ServerHealth)
    (oauth : option McpOAuthResponse) : McpServerResponse :=
  mkMcpServerResponse (ms_id s) (ms_domain s) (ms_provider s) (ms_url s) (ms_description s)
    (existsb (fun b => b =s ms_id s) (builtin_mcp c))
    (match ms_auth s with AuthNone => false | _ => true end) (auth_type_of (ms_auth s)) oauth
    (integrity_policy (ms_security s)) (defense_enabled (ms_security s))
    (result_budget_bytes (ms_security s)) (limits_response (ms_limits s)) (health_check_enabled s)
    (match health with Some h => from_health h | None => health_unknown end)
    (match health with Some h => tool_count h | None => 0%nat end).

Record McpServerToolResponse := mkMcpServerToolResponse {
  tr_description : string;
  tr_description_override : option string;
  tr_wire_name : string;
  tr_upstream_name : string;
  tr_input_schema : JSON;
}.

(** ** Checks of the parameters *)

Definition invalid (message : string) : AsterlaneError := internal AdminInvalidQuery message.

Definition not_found (id : string) : AsterlaneError :=
  internal AdminNotFound ("mcp server '" +:+ id +:+ "' not found").

Definition validate_auth (a : UpstreamAuth) : result AsterlaneError () :=
  match a with
  | AuthNone | AuthOAuth _ _ _ _ => Ok tt
  | AuthBearer token_ref =>
      if is_empty (trim token_ref)
      then Err (invalid "auth.token_ref is required for bearer auth") else Ok tt
  | AuthHeader name value_ref =>
      if is_empty (trim name) then Err (invalid "auth.name is required for header auth")
      else if is_empty (trim value_ref)
      then Err (invalid "auth.value_ref is required for header auth") else Ok tt
  end.

Definition validate_limits {G : Governor} (c : GatewayConfig) : result AsterlaneError () :=
  match limits_from_config c with
  | Ok _ => Ok tt
  | Err e => Err (invalid ("invalid limits: " +:+ AsterlaneError_to_string e))
  end.

(** The first of the required fields that is blank. *)
Definition required (fields : list (string * string)) : result AsterlaneError () :=
  match List.find (fun f => is_empty (trim (snd f))) fields with
  | Some f => Err (invalid (f.1 +:+ " is required"))
  | None => Ok tt
  end.

Definition into_config {UP : UrlParser} (path_id : option string) (section : option OAuthConfig)
    (i : McpServerWriteParams) : result AsterlaneError McpServerConfig :=
  let id := default "" (match path_id with Some id => Some id | None => mw_id i end) in
  _ ← required [("id", id); ("domain", mw_domain i); ("provider", mw_provider i);
                ("url", mw_url i)];
  let auth := default AuthNone (mw_auth i) in
  _ ← validate_auth auth;
  _ ← map_err (fun m => invalid ("invalid oauth auth: " +:+ m))
        (validate_mcp_oauth auth (mw_url i) section);
  Ok (mkMcpServerConfig id (mw_domain i) (mw_provider i) (mw_url i) (mw_description i) auth
        (default SecurityConfig_default (mw_security i)) (default true (mw_health_check i))
        (mw_limits i)).

(** ** State

    The parts of [AppState] that the handlers share.  The OAuth service works on the
    same database: it is lent the store and gives it back. *)
Record McpAdmin {G : Governor} := mkMcpAdmin {
  ma_core : AdminState;
  ma_registry : option Entries;
  ma_pins : Pins;
  ma_quarantine : gmap string IntegrityPolicy;
  ma_oauth : option OAuthService;
}.

(** What other tasks do while a handler waits (to the registry, to the authorizations),
    the clock of the baseline, the monotonic clock, and the nonce of a sealing. *)
Class McpAdminEnv := {
  me_meanwhile : Entries -> Entries;
  me_oauth_meanwhile : OAuthService -> OAuthService;
  me_pinned_at : Z;
  me_instant : Z;
  me_nonce : option string;
}.

Section McpAdministration.
Context {G : Governor} {SHA : Sha256} {OA : OpenApiSource} {W : World} {JR : JsonReader}
  {RF : Rfc3339} {DB : Database} {AE : AdminEnv} {PO : PinOrder} {ME : McpAdminEnv}
  {RA : RmcpAuth} {AD : Aead}.

Definition with_core (a : AdminState) (m : McpAdmin) : McpAdmin :=
  mkMcpAdmin _ a (ma_registry m) (ma_pins m) (ma_quarantine m) (ma_oauth m).
Definition with_registry (es : Entries) (m : McpAdmin) : McpAdmin :=
  mkMcpAdmin _ (ma_core m) (Some es) (ma_pins m) (ma_quarantine m) (ma_oauth m).
Definition with_pins (pins : Pins) (m : McpAdmin) : McpAdmin :=
  mkMcpAdmin _ (ma_core m) (ma_registry m) pins (ma_quarantine m) (ma_oauth m).
Definition on_core (f : AdminState -> AdminState) (m : McpAdmin) : McpAdmin :=
  with_core (f (ma_core m)) m.

Definition lend_oauth (m : McpAdmin) : option OAuthService :=
  (fun o => with_repository (_ ← oa_repository o; ad_store (ma_core m)) o) <$> ma_oauth m.

Definition return_oauth (o : option OAuthService) (m : McpAdmin) : McpAdmin :=
  let core := match s ← o; oa_repository s with
              | Some s => with_store (Some s) (ma_core m)
              | None => ma_core m
              end in
  mkMcpAdmin _ core (ma_registry m) (ma_pins m) (ma_quarantine m) o.

Definition on_oauth {R} (op : option OAuthService -> option OAuthService * R) (m : McpAdmin)
    : McpAdmin * R :=
  let '(o, r) := op (lend_oauth m) in (return_oauth o m, r).

Definition clear_of (server : string) (o : option OAuthService)
    : option OAuthService * option (result McpError ()) :=
  match o with
  | Some o => let '(o, r) := clear_credentials server o in (Some o, Some r)
  | None => (None, None)
  end.

Definition server_view (s : McpServerConfig) (health : option ServerHealth) (m : McpAdmin)
    : McpAdmin * McpServerResponse :=
  let rejected := match health with Some h => bool_decide (status h = HS_AuthRequired)
                  | None => false end in
  let '(m, view) := on_oauth (fun o => oauth_view o s rejected) m in
  (m, server_json s (ad_config (ma_core m)) health view).

Definition require_registry (m : McpAdmin) : result AsterlaneError Entries :=
  ok_or (internal StoreUnavailable
           ("mcp registry unavailable: start the gateway with at least one mcp server "
              +:+ "(mcp_servers or builtin_mcp) to manage servers at runtime"))
    (ma_registry m).

(** ** Registry to catalog and baseline *)

Definition sync_catalog_from_registry (es : Entries) (m : McpAdmin) : McpAdmin :=
  on_core (fun a => with_catalog
             (replace_mcp_tools (all_wrapped_tools es) (mcp_resource_ids es) (ad_catalog a)) a) m.

Definition rebase_integrity_baseline (es : Entries) (m : McpAdmin) : McpAdmin :=
  with_pins (rebase me_pinned_at (snd <$> all_descriptors es) (ma_pins m)) m.

Definition sync_catalog_and_baseline (es : Entries) (m : McpAdmin) : McpAdmin :=
  rebase_integrity_baseline es (sync_catalog_from_registry es m).

Definition persist_mcp_server (s : McpServerConfig) (is_create : bool) : McpAdmin -> McpAdmin :=
  on_core (if is_create then best_effort (insert_mcp_server (to_db_record s))
           else best_effort (update_mcp_server_row (to_db_record s))).

Definition swap (c : GatewayConfig) (m : McpAdmin)
    : outcome (McpAdmin * result AsterlaneError ()) :=
  '(a, r) ← swap_config_and_catalog c (ma_core m);
  Returns (with_core a m, r).

(** ** Handlers that write *)

(** From the registry's answer on: what follows when it and the swap succeed. *)
Definition registered (admin action : string) (s : McpServerConfig) (c : GatewayConfig)
    (r : Entries * result McpError ServerHealth) (m : McpAdmin)
    : outcome (McpAdmin * result AsterlaneError McpServerResponse) :=
  let '(es, health) := r in
  let m := with_registry es m in
  match health with
  | Err e => Returns (m, Err (mcp_to_asterlane e))
  | Ok health =>
      '(m, swapped) ← swap c m;
      match swapped with
      | Err e => Returns (m, Err e)
      | Ok _ =>
          let m := sync_catalog_and_baseline es m in
          let m := persist_mcp_server s (action =s "create") m in
          let m := on_core (record_audit admin action "mcp_server" (ms_id s)) m in
          let '(m, view) := server_view s (Some health) m in
          Returns (m, Ok view)
      end
  end.

Definition create_server (admin : string) (i : McpServerWriteParams) (m : McpAdmin)
    : outcome (McpAdmin * result AsterlaneError McpServerResponse) :=
  let c := ad_config (ma_core m) in
  match (s ← into_config None (oauth c) i;
         if bool_decide (is_Some (mcp_server c (ms_id s)))
            || bool_decide (is_Some (resource c (ms_id s)))
         then Err (invalid ("id '" +:+ ms_id s +:+ "' already exists"))
         else
           let c' := with_mcp_servers c (mcp_servers c ++ [s]) in
           _ ← validate_limits c';
           es ← require_registry m;
           Ok (s, c', es)) with
  | Err e => Returns (m, Err e)
  | Ok (s, c', es) => registered admin "create" s c' (add_server s me_meanwhile es) m
  end.

Definition with_auth (a : UpstreamAuth) (s : McpServerConfig) : McpServerConfig :=
  mkMcpServerConfig (ms_id s) (ms_domain s) (ms_provider s) (ms_url s) (ms_description s) a
    (ms_security s) (health_check_enabled s) (ms_limits s).

Definition update_server (admin id : string) (i : McpServerWriteParams) (m : McpAdmin)
    : outcome (McpAdmin * result AsterlaneError McpServerResponse) :=
  let c := ad_config (ma_core m) in
  match (s ← into_config (Some id) (oauth c) i;
         old ← ok_or (not_found id) (mcp_server c id);
         let s := match mw_auth i with None => with_auth (ms_auth old) s | Some _ => s end in
         let c' := with_mcp_servers c
                     (update_first (fun x => ms_id x =s id) (fun _ => s) (mcp_servers c)) in
         _ ← validate_limits c';
         es ← require_registry m;
         Ok (s, c', es)) with
  | Err e => Returns (m, Err e)
  | Ok (s, c', es) => registered admin "update" s c' (Registry.update_server s me_meanwhile es) m
  end.

Definition delete_server (admin id : string) (m : McpAdmin)
    : outcome (McpAdmin * result AsterlaneError ()) :=
  let c := ad_config (ma_core m) in
  if negb (bool_decide (is_Some (mcp_server c id))) then Returns (m, Err (not_found id))
  else
    let m := match ma_registry m with
             | Some es => with_registry (remove_server id es).1 m
             | None => m
             end in
    '(m, swapped) ← swap (with_mcp_servers c
                            (List.filter (fun s => negb (ms_id s =s id)) (mcp_servers c))) m;
    match swapped with
    | Err e => Returns (m, Err e)
    | Ok _ =>
        let m := match ma_registry m with
                 | Some es => rebase_integrity_baseline es m
                 | None => m
                 end in
        let m := on_core (best_effort (delete_mcp_server_row id)) m in
        let '(m, _) := on_oauth (clear_of id) m in
        Returns (on_core (record_audit admin "delete" "mcp_server" id) m, Ok tt)
    end.

(** The probe waits for the upstream before it takes the lock. *)
Definition probe_server (id : string) (m : McpAdmin)
    : McpAdmin * result AsterlaneError McpHealthResponse :=
  match require_registry m with
  | Err e => (m, Err e)
  | Ok es =>
      let '(es, health) := probe id me_meanwhile es in
      let m := with_registry es m in
      match health with
      | Err e => (m, Err (mcp_to_asterlane e))
      | Ok h => (sync_catalog_from_registry es m, Ok (from_health h))
      end
  end.

(** ** Handlers that read *)

(** [collect] into a map: the last of equal ids. *)
Definition health_by_id (m : McpAdmin) : gmap string ServerHealth :=
  match ma_registry m with
  | Some es => fold_left (fun acc h => <[sh_server_id h := h]> acc) (health_snapshot es) ∅
  | None => ∅
  end.

Fixpoint view_servers (l : list McpServerConfig) (health : gmap string ServerHealth) (m : McpAdmin)
    : McpAdmin * list McpServerResponse :=
  match l with
  | [] => (m, [])
  | s :: l =>
      let '(m, v) := server_view s (health !! ms_id s) m in
      let '(m, r) := view_servers l health m in
      (m, v :: r)
  end.

Definition list_servers (m : McpAdmin) : McpAdmin * list McpServerResponse :=
  view_servers (mcp_servers (ad_config (ma_core m))) (health_by_id m) m.

Definition server_tool (c : ToolCatalog) (t : WrappedTool) : McpServerToolResponse :=
  mkMcpServerToolResponse (default (description t) (original_description (wire t) c))
    (description_overrides c !! wire t) (wire t) (upstream_path t) (input_schema t).

Definition get_server (id : string) (m : McpAdmin)
    : McpAdmin * result AsterlaneError (McpServerResponse * list McpServerToolResponse) :=
  match mcp_server (ad_config (ma_core m)) id with
  | None => (m, Err (not_found id))
  | Some s =>
      let '(m, v) := server_view s (health_by_id m !! id) m in
      let c := ad_catalog (ma_core m) in
      (m, Ok (v, server_tool c <$> List.filter (fun t => resource_id t =s id) (tools c)))
  end.

(** ** Life of the gateway ([http/lifecycle.rs]) *)

(** At start: a table that cannot be read is skipped. *)
Definition start_description_overrides (m : McpAdmin) : McpAdmin :=
  match ad_store (ma_core m) with
  | None => m
  | Some s =>
      let '(s, r) := list_tool_metadata s in
      let m := on_core (with_store (Some s)) m in
      match r with
      | Ok ((_ :: _) as rows) =>
          let overrides := fold_left (fun acc row => <[tm_tool_name row := tm_description row]> acc)
                             rows ∅ in
          on_core (fun a => with_catalog (load_description_overrides overrides (ad_catalog a)) a) m
      | _ => m
      end
  end.

Definition reconnect_mcp_server (id : string) (m : McpAdmin) : McpAdmin * result McpError ServerHealth :=
  match ma_registry m with
  | None => (m, Err (Mcp_UnknownServer id))
  | Some es =>
      let '(es, health) := reconnect id me_meanwhile es in
      let m := with_registry es m in
      match health with
      | Err e => (m, Err e)
      | Ok h => (sync_catalog_and_baseline es m, Ok h)
      end
  end.

(** One tick: refresh, catalog, drift. *)
Definition refresh_mcp_tools (m : McpAdmin) : McpAdmin :=
  match ma_registry m with
  | None => m
  | Some es =>
      let '(es, _) := refresh_inner true me_meanwhile es in
      let m := sync_catalog_from_registry es (with_registry es m) in
      let '(pins, q, events) :=
        check_drift me_pinned_at (ad_config (ma_core m)) (all_descriptors es) (ma_pins m)
          (ma_quarantine m) in
      let core := fold_left (fun a e => best_effort (insert_security_event e) a) events
                    (ma_core m) in
      mkMcpAdmin _ core (ma_registry m) pins q (ma_oauth m)
  end.

(** ** Authorization handlers ([admin/oauth.rs]) *)

Definition require_oauth (m : McpAdmin) : result AsterlaneError () :=
  match ma_oauth m with
  | Some _ => Ok tt
  | None => Err (internal StoreUnavailable "upstream OAuth is not available")
  end.

Record McpOAuthAuthorizeResponse := mkMcpOAuthAuthorizeResponse {
  oa_authorization_url : string; oa_expires_in : Z }.

Definition start_of (s : McpServerConfig) (o : option OAuthService)
    : option OAuthService * result AsterlaneError AuthorizationStart :=
  match o with
  | Some o => let '(o, r) := start_authorization ae_resolve me_instant s o in
              (Some o, map_err authorize_to_asterlane r)
  | None => (None, Err (internal StoreUnavailable "upstream OAuth is not available"))
  end.

Definition authorize (admin id : string) (m : McpAdmin)
    : McpAdmin * result AsterlaneError McpOAuthAuthorizeResponse :=
  match (s ← authorization_code_server (ad_config (ma_core m)) id; _ ← require_oauth m; Ok s) with
  | Err e => (m, Err e)
  | Ok s =>
      let '(m, start) := on_oauth (start_of s) m in
      match start with
      | Err e => (m, Err e)
      | Ok start =>
          (on_core (record_audit admin "authorize" "mcp_server" id) m,
           Ok (mkMcpOAuthAuthorizeResponse (as_url start) (as_expires_in start / 1000000000)))
      end
  end.

Definition deauthorize (admin id : string) (m : McpAdmin)
    : McpAdmin * result AsterlaneError McpServerResponse :=
  let c := ad_config (ma_core m) in
  match (s ← authorization_code_server c id; _ ← require_oauth m; Ok s) with
  | Err e => (m, Err e)
  | Ok s =>
      let '(m, cleared) := on_oauth (clear_of id) m in
      match cleared with
      | Some (Ok _) =>
          let '(m, health) :=
            match ma_registry m with
            | Some _ => let '(m, r) := reconnect_mcp_server id m in (m, Some <$> r)
            | None => (m, Ok None)
            end in
          match health with
          | Err e => (m, Err (mcp_to_asterlane e))
          | Ok health =>
              let m := on_core (record_audit admin "deauthorize" "mcp_server" id) m in
              let rejected := match health with
                              | Some h => bool_decide (status h = HS_AuthRequired)
                              | None => false end in
              let '(m, view) := on_oauth (fun o => oauth_view o s rejected) m in
              (m, Ok (server_json s c health view))
          end
      | _ => (m, Err (internal StoreUnavailable "failed to clear OAuth credentials"))
      end
  end.

(** ** The browser's callback ([http/oauth_callback.rs]) *)

Definition complete_of (p : CallbackParams) (o : option OAuthService)
    : option OAuthService * result CallbackError string :=
  match o with
  | Some o =>
      let '(o, r) := complete_authorization me_instant me_nonce me_oauth_meanwhile p o in (Some o, r)
  | None => (None, Err InvalidState)
  end.

(** [None]: the query string could not be read.  The answer is the server with whether
    it is connected. *)
Definition callback (p : option CallbackParams) (m : McpAdmin)
    : McpAdmin * result CallbackError (string * bool) :=
  match ma_oauth m, p with
  | None, _ | _, None => (m, Err InvalidState)
  | Some _, Some p =>
      let '(m, r) := on_oauth (complete_of p) m in
      match r with
      | Err e => (m, Err e)
      | Ok id =>
          let '(m, health) := reconnect_mcp_server id m in
          (m, Ok (id, match health with Ok h => negb (is_unavailable (status h)) | Err _ => false end))
      end
  end.
End McpAdministration.
