(* ===== verification/McpAdminFacts.v ===== *)
(** * What the administration of MCP servers guarantees

    The registry holds exactly the configured servers and the catalog lists exactly
    the registry's tools after every write that succeeds; a write that fails half-way
    leaves a server that cannot be removed. *)

From S2P Require Import Prelude RustStr Naming Errors Config Policy Secrets Catalog Overrides KeyPool Limits.
From S2P Require Import Egress Shaping GatewayAuth Render Retry Observe Invoke Integrity Surface Peers.
From S2P Require Import Registry McpServer OpenApi OAuthConfig ConfigJson Store ConfigMerge Seal OAuth OAuthFacts.
From S2P Require Import Admin AdminFacts AdminRestart McpAdmin.

Local Open Scope string_scope.
Local Open Scope list_scope.
Local Open Scope Z_scope.
Local Open Scope gateway_scope.

(** ** Replacing an element by its key *)

Section Replace.
Context {A : Type} (key : A -> string).

Definition replaced (y x : A) : A := if key x =s key y then y else x.

Lemma replaced_other y (l : list A) : key y ∉ key <$> l -> replaced y <$> l = l.
Proof.
  intros H. rewrite <- (list_fmap_id l) at 2. apply list_fmap_ext. intros i x Hx. unfold replaced.
  destruct (String.eqb_spec (key x) (key y)) as [E|]; [|done]. exfalso. apply H. rewrite <- E.
  apply list_elem_of_fmap_2. by eapply list_elem_of_lookup_2.
Qed.

Lemma update_first_replaced (l : list A) y :
  NoDup (key <$> l) -> update_first (fun x => key x =s key y) (fun _ => y) l = replaced y <$> l.
Proof.
  induction l as [|x l IH]; [done|]. cbn. intros [Hx Hnd]%NoDup_cons. unfold replaced at 1.
  destruct (String.eqb_spec (key x) (key y)) as [E|]; [|by rewrite IH].
  rewrite replaced_other; [done|]. by rewrite <- E.
Qed.

Lemma insert_replaced (l : list A) pos x y :
  NoDup (key <$> l) -> l !! pos = Some x -> key x = key y -> <[pos := y]> l = replaced y <$> l.
Proof.
  revert pos. induction l as [|a l IH]; intros [|pos]; [done..| |];
    intros [Ha Hnd]%NoDup_cons Hx E; cbn in Hx.
  - injection Hx as ->. cbn. unfold replaced at 1. rewrite E, String.eqb_refl.
    rewrite replaced_other; [done|]. by rewrite <- E.
  - change (a :: <[pos := y]> l = replaced y a :: (replaced y <$> l)).
    rewrite (IH pos) by done. f_equal. unfold replaced.
    destruct (String.eqb_spec (key a) (key y)) as [E2|]; [|done]. exfalso. apply Ha.
    rewrite E2, <- E. apply list_elem_of_fmap_2. by eapply list_elem_of_lookup_2.
Qed.
End Replace.

(** ** The registry keeps the configurations *)

Section RegistryConfigs.
Context {W : World}.

Lemma probe_entry_config e p : e_config (probe_entry e p) = e_config e.
Proof. unfold probe_entry. by destruct (list_tools p ≫= _) as [[ts ds]|err]. Qed.

Lemma establish_entry_config c prev : e_config (establish_entry c prev) = c.
Proof.
  unfold establish_entry. destruct (connect_server _ _ c); [|done]. by rewrite probe_entry_config.
Qed.

Lemma update_work_config c e : e_config (update_work c e) = c.
Proof.
  unfold update_work. destruct (e_peer e) as [p|]; [|apply establish_entry_config].
  destruct (needs_reconnect e c); [apply establish_entry_config|]. apply probe_entry_config.
Qed.

(** What holds of the entries of the registry. *)
Record entries_fine (es : Entries) : Prop := {
  ef_ids : ids_unique es;
  ef_ok : Forall entry_ok es;
  ef_names : names_unique es;
}.

(** Other tasks that keep the configurations, as refreshes, probes and reconnections
    do that began after the last write. *)
Definition background (f : Entries -> Entries) : Prop :=
  forall es, entries_fine es -> entries_fine (f es) /\ e_config <$> f es = e_config <$> es.

Lemma add_server_configs c meanwhile es es' h :
  background meanwhile -> entries_fine es ->
  add_server c meanwhile es = (es', Ok h) ->
  entries_fine es' /\ e_config <$> es' = (e_config <$> es) ++ [c].
Proof.
  intros Hb Hf. unfold add_server. destruct (has_id _ es); [done|].
  destruct (Hb es Hf) as [[F1 F2 F3] Hc].
  assert (entry_ok (establish_entry c None)) as He by (by apply establish_entry_ok).
  pose proof (add_commit_spec (establish_entry c None) (meanwhile es) He) as H.
  unfold add_commit in *. destruct (has_id _ (meanwhile es)); [done|]. intros [= <- _].
  destruct H as (H1 & H2 & H3 & _). split; [by split; auto|].
  rewrite fmap_app, Hc. f_equal. cbn.
  destruct (dedup_against_others_spec (meanwhile es) None _ He) as [_ Hconf _ _ _ _ _ _].
  by rewrite Hconf, establish_entry_config.
Qed.

(** An operation on one server puts the entry it worked out in the place of the old one. *)
Lemma on_entry_configs id work c meanwhile es es' h :
  background meanwhile -> entries_fine es -> ms_id c = id ->
  (forall e, find_entry id es = Some e -> entry_ok (work e) /\ e_config (work e) = c) ->
  on_entry id work meanwhile es = (es', Ok h) ->
  entries_fine es' /\ e_config <$> es' = replaced ms_id c <$> (e_config <$> es).
Proof.
  intros Hb Hf Hc Hwork. unfold on_entry. destruct (find_entry id es) as [e|] eqn:Ef; [|done].
  destruct (Hwork e eq_refl) as [He Hwc]. unfold finish_replace.
  destruct (Hb es Hf) as [[F1 F2 F3] Hsame].
  pose proof (replace_entry_spec (work e) (meanwhile es) He) as H.
  unfold replace_entry in *. destruct (position _ (meanwhile es)) as [pos|] eqn:Ep; [|done].
  intros [= <- _]. destruct H as (H1 & H2 & H3 & _). split.
  { split; [unfold ids_unique; by rewrite H1|auto|auto]. }
  rewrite list_fmap_insert, <- Hsame.
  destruct (dedup_against_others_spec (meanwhile es) (Some pos) _ He) as [_ Hconf _ _ _ _ _ _].
  rewrite Hconf, Hwc.
  destruct (position_ids _ _ _ Ep) as (x & Hx & Hid).
  unfold e_id in Hid. rewrite Hwc in Hid.
  eapply insert_replaced; [|by rewrite list_lookup_fmap, Hx|done].
  rewrite <- list_fmap_compose. exact F1.
Qed.

Lemma update_server_configs c meanwhile es es' h :
  background meanwhile -> entries_fine es ->
  Registry.update_server c meanwhile es = (es', Ok h) ->
  entries_fine es' /\ e_config <$> es' = replaced ms_id c <$> (e_config <$> es).
Proof.
  intros Hb Hf. apply on_entry_configs; [done..|]. intros e Ef.
  split; [|apply update_work_config].
  eapply update_work_ok; [|by apply find_entry_Some in Ef as [_ ->]].
  eapply find_entry_ok; [apply Hf|done].
Qed.

Lemma remove_server_configs id es :
  entries_fine es ->
  entries_fine (remove_server id es).1 /\
  e_config <$> (remove_server id es).1
  = List.filter (fun c => negb (ms_id c =s id)) (e_config <$> es).
Proof.
  intros [F1 F2 F3]. pose proof (remove_server_sublist id es) as Hs. split.
  - split.
    + unfold ids_unique. eapply sublist_NoDup; [exact F1|]. by apply fmap_sublist.
    + by apply Forall_kept.
    + by eapply reg_names_unique_sublist.
  - cbn. clear. induction es as [|e es IH]; [done|]. cbn. unfold e_id at 1. case_if; [|done].
    cbn. by rewrite IH.
Qed.
End RegistryConfigs.

(** ** The handlers *)

Section Handlers.
Context {G : Governor} {SHA : Sha256} {OA : OpenApiSource} {W : World} {RF : Rfc3339} {DB : Database} {AE : AdminEnv} {ME : McpAdminEnv}
  {RA : RmcpAuth} {AD : Aead}.

Inductive mcp_write :=
| CreateServer (i : McpServerWriteParams)
| UpdateServer (id : string) (i : McpServerWriteParams)
| DeleteServer (id : string).

Definition no_view {A} (m : outcome (McpAdmin * result AsterlaneError A))
    : outcome (McpAdmin * result AsterlaneError ()) :=
  '(m, r) ← m; Returns (m, _ ← r; Ok tt).

Definition run_mcp_write (admin : string) (w : mcp_write) (m : McpAdmin)
    : outcome (McpAdmin * result AsterlaneError ()) :=
  match w with
  | CreateServer i => no_view (create_server admin i m)
  | UpdateServer id i => no_view (update_server admin id i m)
  | DeleteServer id => delete_server admin id m
  end.

Definition config_of (m : McpAdmin) : GatewayConfig := ad_config (ma_core m).
Definition catalog_of (m : McpAdmin) : ToolCatalog := ad_catalog (ma_core m).

(** The registry holds the configured servers, each once. *)
Definition aligned (m : McpAdmin) : Prop :=
  exists es, ma_registry m = Some es /\ entries_fine es /\
    e_config <$> es ≡ₚ mcp_servers (config_of m).

Lemma aligned_ids m : aligned m -> NoDup (ms_id <$> mcp_servers (config_of m)).
Proof.
  intros (es & _ & [Hid _ _] & Hp). rewrite <- Hp, <- list_fmap_compose. exact Hid.
Qed.

(** What the steps after the swap leave alone. *)
Definition same_servers (m m' : McpAdmin) : Prop :=
  config_of m' = config_of m /\ ma_registry m' = ma_registry m /\ catalog_of m' = catalog_of m /\
  ma_pins m' = ma_pins m /\ ad_auth (ma_core m') = ad_auth (ma_core m).

Lemma same_servers_refl m : same_servers m m.
Proof. done. Qed.

Lemma same_servers_trans m1 m2 m3 :
  same_servers m1 m2 -> same_servers m2 m3 -> same_servers m1 m3.
Proof. intros (A1&A2&A3&A4&A5) (B1&B2&B3&B4&B5). split_and!; congruence. Qed.

Lemma same_servers_core f m :
  same_parts (ma_core m) (f (ma_core m)) -> same_servers m (on_core f m).
Proof. intros (E1&E2&E3&_). split_and!; done. Qed.

Lemma same_servers_best {A} (op : Store -> Store * result StoreError A) m :
  same_servers m (on_core (best_effort op) m).
Proof. apply same_servers_core, best_effort_parts. Qed.

Lemma same_servers_audit admin action kind id m :
  same_servers m (on_core (record_audit admin action kind id) m).
Proof. apply same_servers_best. Qed.

Lemma same_servers_oauth {R} (op : option OAuthService -> option OAuthService * R) m :
  same_servers m (on_oauth op m).1.
Proof.
  unfold on_oauth. destruct (op (lend_oauth m)) as [o r]. cbn. unfold return_oauth.
  split_and!; try done; unfold config_of, catalog_of; cbn; by case_match.
Qed.

Lemma same_servers_view s health m : same_servers m (server_view s health m).1.
Proof.
  unfold server_view.
  match goal with |- context [on_oauth ?op m] => pose proof (same_servers_oauth op m) as H end.
  by destruct (on_oauth _ m).
Qed.

(** The swap of a handler. *)
Lemma swap_spec c m m' r :
  swap c m = Returns (m', r) ->
  ma_registry m' = ma_registry m /\ ma_pins m' = ma_pins m /\
  ((exists e, r = Err e /\ config_of m' = config_of m) \/
   (r = Ok tt /\ swapped c (ma_core m) (ma_core m'))).
Proof.
  unfold swap. intros ([a r'] & Hs & [= <- <-])%bind_Returns_inv.
  split; [done|]. split; [done|]. apply swap_cases in Hs as [_ [(e & -> & Hg)|[-> Hw]]].
  - left. exists e. split; [done|]. apply Hg.
  - right. by split.
Qed.

(** ** The catalog after a synchronisation *)

Lemma overlay_all_same o originals l :
  (fun t => (wire t, resource_id t)) <$> (overlay_all o originals l).2
  = (fun t => (wire t, resource_id t)) <$> l.
Proof.
  revert originals. induction l as [|t l IH]; intros originals; [done|]. cbn. unfold overlay_tool.
  destruct (o !! wire t);
    (match goal with |- context [overlay_all o ?x l] => specialize (IH x);
       destruct (overlay_all o x l) as [o' l'] end); cbn in *; by rewrite IH.
Qed.

Lemma registry_tool_ids es :
  Forall entry_ok es ->
  Forall (fun t => resource_id t ∈ mcp_resource_ids es) (all_wrapped_tools es).
Proof.
  intros Hok. apply Forall_forall. intros t (e & He & Ht)%list_elem_of_bind.
  rewrite Forall_forall in Hok. pose proof (entry_aligned _ (Hok e Ht)) as Ha.
  apply list_elem_of_lookup in He as [i Hi].
  destruct (Forall2_lookup_l _ _ _ _ _ Ha Hi) as (d & _ & Hw).
  rewrite (wraps_resource _ _ _ Hw). unfold mcp_resource_ids.
  apply elem_of_list_to_set, list_elem_of_fmap_2, Ht.
Qed.

(** The tools that a catalog lists for a set of servers. *)
Definition listed_for (ids : gset string) (c : ToolCatalog) : list string :=
  wire <$> List.filter (fun t => bool_decide (resource_id t ∈ ids)) (tools c).

Lemma wires_filtered (ids : gset string) l :
  wire <$> List.filter (fun t => bool_decide (resource_id t ∈ ids)) l
  = fst <$> List.filter (fun p => bool_decide (snd p ∈ ids))
      ((fun t => (wire t, resource_id t)) <$> l).
Proof. induction l as [|t l IH]; [done|]. cbn. case_if; cbn; by rewrite IH. Qed.

Definition tool_address (t : WrappedTool) : string * string := (wire t, resource_id t).

(** The same with the servers of the tools. *)
Definition addresses_for (ids : gset string) (c : ToolCatalog) : list (string * string) :=
  tool_address <$> List.filter (fun t => bool_decide (resource_id t ∈ ids)) (tools c).

Lemma addresses_filtered (ids : gset string) l :
  tool_address <$> List.filter (fun t => bool_decide (resource_id t ∈ ids)) l
  = List.filter (fun p => bool_decide (snd p ∈ ids)) (tool_address <$> l).
Proof. induction l as [|t l IH]; [done|]. cbn. case_if; cbn; by rewrite IH. Qed.

Lemma listed_addresses ids c : listed_for ids c = fst <$> addresses_for ids c.
Proof. unfold listed_for, addresses_for. by rewrite <- list_fmap_compose. Qed.

Lemma mirrored_lists es c :
  Forall entry_ok es ->
  addresses_for (mcp_resource_ids es)
    (replace_mcp_tools (all_wrapped_tools es) (mcp_resource_ids es) c)
  ≡ₚ tool_address <$> all_wrapped_tools es.
Proof.
  intros Hok. unfold replace_mcp_tools, extend_with_mcp_tools, addresses_for.
  cbn [description_overrides original_descriptions tools].
  pose proof (overlay_all_same (description_overrides c) (original_descriptions c)
    (all_wrapped_tools es)) as Hov.
  destruct (overlay_all _ _ _) as [originals new]. cbn [fst snd tools] in *.
  set (ids := mcp_resource_ids es) in *.
  rewrite (kept_perm _ _ _ (sort_by_perm wire_leb _)), List.filter_app, fmap_app.
  replace (List.filter _ (List.filter _ (tools c))) with (@nil WrappedTool).
  2: { symmetry. apply filter_none. intros t [_ H%negb_true_iff]%filter_elem. done. }
  rewrite addresses_filtered. change (tool_address <$> new)
    with ((fun t => (wire t, resource_id t)) <$> new). rewrite Hov.
  change ((fun t => (wire t, resource_id t)) <$> all_wrapped_tools es)
    with (tool_address <$> all_wrapped_tools es). rewrite <- addresses_filtered.
  pose proof (registry_tool_ids es Hok) as Hall. fold ids in Hall.
  assert (List.filter (fun t => bool_decide (resource_id t ∈ ids)) (all_wrapped_tools es)
    = all_wrapped_tools es) as ->; [|done].
  clear -Hall. induction Hall as [|t l Ht _ IH]; [done|]. cbn.
  rewrite bool_decide_eq_true_2 by done. by f_equal.
Qed.

Lemma synced_lists es c :
  Forall entry_ok es ->
  listed_for (mcp_resource_ids es) (replace_mcp_tools (all_wrapped_tools es) (mcp_resource_ids es) c)
  ≡ₚ wire <$> all_wrapped_tools es.
Proof.
  intros Hok. rewrite listed_addresses, (mirrored_lists es c Hok).
  by rewrite <- list_fmap_compose.
Qed.

(** ** Writes *)

Definition synced (m : McpAdmin) : Prop :=
  exists es, ma_registry m = Some es /\
    listed_for (mcp_resource_ids es) (catalog_of m) ≡ₚ wire <$> all_wrapped_tools es.

(** The same, with each tool under its server. *)
Definition mirrored (m : McpAdmin) : Prop :=
  exists es, ma_registry m = Some es /\
    addresses_for (mcp_resource_ids es) (catalog_of m) ≡ₚ tool_address <$> all_wrapped_tools es.

Lemma mirrored_synced m : mirrored m -> synced m.
Proof.
  intros (es & H1 & H2). exists es. split; [done|].
  rewrite listed_addresses, H2. by rewrite <- list_fmap_compose.
Qed.

Lemma sync_mirrored es m :
  Forall entry_ok es -> ma_registry m = Some es -> mirrored (sync_catalog_from_registry es m).
Proof. intros Hok Hr. exists es. split; [done|]. by apply mirrored_lists. Qed.

Lemma same_servers_aligned m m' : same_servers m m' -> aligned m -> aligned m'.
Proof. intros (E1&E2&_) (es & H1 & H2 & H3). exists es. by rewrite E1, E2. Qed.

Lemma same_servers_mirrored m m' : same_servers m m' -> mirrored m -> mirrored m'.
Proof. intros (_&E2&E3&_) (es & H1 & H2). exists es. by rewrite E2, E3. Qed.

(** What a write that succeeds leaves. *)
Record written (c : GatewayConfig) (m m' : McpAdmin) : Prop := {
  wr_config : config_of m' = c;
  wr_aligned : aligned m';
  wr_auth : auth_from_config c ae_resolve = Ok (ad_auth (ma_core m'));
  wr_keys : proxy_keys c = proxy_keys (config_of m);
  wr_resources : api_resources c = api_resources (config_of m);
  wr_new : forall s, s ∈ mcp_servers c ->
    ms_id s ∈ ms_id <$> mcp_servers (config_of m) \/ resource (config_of m) (ms_id s) = None;
}.

Lemma registered_spec admin action s c es h m m' r :
  registered admin action s c (es, h) m = Returns (m', r) ->
  match r with
  | Err _ => config_of m' = config_of m
  | Ok _ => is_Ok h = true /\ config_of m' = c /\
      auth_from_config c ae_resolve = Ok (ad_auth (ma_core m')) /\
      (entries_fine es -> e_config <$> es ≡ₚ mcp_servers c -> aligned m' /\ mirrored m')
  end.
Proof.
  unfold registered. destruct h as [h|e]; [|by intros [= <- <-]].
  intros ([m1 sw] & Hs & H)%bind_Returns_inv. apply swap_spec in Hs as (Er & _ & Hs).
  destruct sw as [[]|e].
  2: { injection H as <- <-. by destruct Hs as [(? & _ & ->)|[? _]]. }
  destruct Hs as [(? & ? & _)|[_ W1]]; [done|].
  set (m2 := sync_catalog_and_baseline es m1) in H.
  set (m3 := persist_mcp_server s _ m2) in H.
  set (m4 := on_core (record_audit _ _ _ _) m3) in H.
  pose proof (same_servers_view s (Some h) m4) as Hv.
  destruct (server_view s (Some h) m4) as [m5 v]. injection H as <- <-. cbn [fst] in Hv.
  assert (same_servers m2 m5) as Hsame.
  { eapply same_servers_trans; [|exact Hv]. eapply same_servers_trans; [|apply same_servers_audit].
    unfold m3, persist_mcp_server. destruct (action =s "create"); apply same_servers_best. }
  assert (config_of m2 = c) as Hc2 by apply W1.
  assert (ma_registry m2 = Some es) as Hr2 by exact Er.
  split; [done|]. split; [by destruct Hsame as [-> _]|].
  split; [destruct Hsame as (_ & _ & _ & _ & ->); apply W1|].
  intros Hf Hp. split.
  - eapply same_servers_aligned; [exact Hsame|]. exists es. by rewrite Hc2.
  - eapply same_servers_mirrored; [exact Hsame|].
    by apply (sync_mirrored es m1); [apply Hf|].
Qed.

Lemma create_spec admin i m m' r :
  background me_meanwhile -> aligned m -> create_server admin i m = Returns (m', r) ->
  match r with
  | Err _ => config_of m' = config_of m
  | Ok _ => (exists c, written c m m') /\ mirrored m'
  end.
Proof.
  intros Hb (es0 & Hr & Hf & Hp). unfold create_server.
  destruct (s ← into_config None _ i; _) as [[[s c'] es]|e] eqn:E; [|by intros [= <- <-]].
  apply bind_Ok_inv in E as (s0 & _ & E). case_if_in E; [done|].
  apply bind_Ok_inv in E as ([] & _ & E). unfold require_registry in E. rewrite Hr in E.
  cbn in E. injection E as <- <- <-.
  destruct (add_server s0 me_meanwhile es0) as [es h] eqn:Ea.
  intros H%registered_spec. destruct r as [v|e]; [|done]. destruct H as (Hh & Hc & Ha & H).
  destruct h as [h|]; [|done].
  apply (add_server_configs s0 _ _ _ _ Hb Hf) in Ea as [Hf' Hcs].
  destruct H as [Hal Hmi]; [done|by rewrite Hcs; cbn; rewrite Hp|]. split; [|done].
  eexists. split; try done.
  intros x [Hx| ->%list_elem_of_singleton]%elem_of_app; [left; by apply list_elem_of_fmap_2|].
  right. apply orb_false_iff in E0 as [_ E0%bool_decide_eq_false]. by apply eq_None_not_Some.
Qed.

Lemma update_spec admin id i m m' r :
  background me_meanwhile -> aligned m -> update_server admin id i m = Returns (m', r) ->
  match r with
  | Err _ => config_of m' = config_of m
  | Ok _ => (exists c, written c m m') /\ mirrored m'
  end.
Proof.
  intros Hb Hal. pose proof (aligned_ids m Hal) as Hnd. destruct Hal as (es0 & Hr & Hf & Hp).
  unfold update_server. destruct (s ← into_config (Some id) _ i; _) as [[[s c'] es]|e] eqn:E;
    [|by intros [= <- <-]].
  apply bind_Ok_inv in E as (s0 & Hs0 & E). apply bind_Ok_inv in E as (old & _ & E).
  apply bind_Ok_inv in E as ([] & _ & E). unfold require_registry in E. rewrite Hr in E.
  cbn in E. injection E as <- <- <-.
  assert (ms_id s0 = id) as Hid.
  { unfold into_config in Hs0. repeat (apply bind_Ok_inv in Hs0 as ([] & _ & Hs0)).
    by injection Hs0 as <-. }
  set (s := match mw_auth i with Some _ => s0 | None => with_auth (ms_auth old) s0 end).
  assert (ms_id s = id) as Hids by (subst s; by destruct (mw_auth i)).
  destruct (Registry.update_server s me_meanwhile es0) as [es h] eqn:Ea.
  intros H%registered_spec. destruct r as [v|e]; [|done]. destruct H as (Hh & Hc & Ha & H).
  destruct h as [h|]; [|done].
  apply (update_server_configs s _ _ _ _ Hb Hf) in Ea as [Hf' Hcs].
  set (l' := update_first _ _ _) in *.
  assert (l' = replaced ms_id s <$> mcp_servers (config_of m)) as El.
  { unfold l'. by rewrite <- Hids, update_first_replaced. }
  destruct H as [Hal Hmi]; [done|cbn; by rewrite Hcs, El, Hp|]. split; [|done].
  eexists. split; try done. cbn. rewrite El.
  intros x (y & -> & Hy)%list_elem_of_fmap. left. unfold replaced.
  destruct (String.eqb_spec (ms_id y) (ms_id s)) as [<-|]; by apply list_elem_of_fmap_2.
Qed.

Lemma delete_spec admin id m m' r :
  aligned m -> delete_server admin id m = Returns (m', r) ->
  match r with
  | Err _ => config_of m' = config_of m
  | Ok _ =>
      let c := with_mcp_servers (config_of m)
                 (List.filter (fun s => negb (ms_id s =s id)) (mcp_servers (config_of m))) in
      written c m m' /\
      (exists es, ma_registry m = Some es /\ ma_registry m' = Some (remove_server id es).1) /\
      exists fresh, Catalog.from_config c = Ok fresh /\
        catalog_of m' = rebuild_catalog c (catalog_of m) fresh
  end.
Proof.
  intros (es & Hr & Hf & Hp). unfold delete_server. case_if; [by intros [= <- <-]|]. rewrite Hr.
  set (c' := with_mcp_servers _ _). intros ([m1 sw] & Hs & H)%bind_Returns_inv.
  apply swap_spec in Hs as (Er & _ & Hs). cbn in Er.
  destruct sw as [[]|e].
  2: { injection H as <- <-. by destruct Hs as [(? & _ & ->)|[? _]]. }
  destruct Hs as [(? & ? & _)|[_ W1]]; [done|]. rewrite Er in H.
  set (m2 := rebase_integrity_baseline _ m1) in H.
  set (m3 := on_core (best_effort _) m2) in H.
  pose proof (same_servers_oauth (clear_of id) m3) as Hv.
  destruct (on_oauth (clear_of id) m3) as [m4 x]. injection H as <- <-. cbn [fst] in Hv.
  set (m5 := on_core _ m4). cbn zeta. fold (config_of m). fold c'.
  assert (same_servers m2 m5) as (S1 & S2 & S3 & _ & S5).
  { eapply same_servers_trans; [apply (same_servers_best (delete_mcp_server_row id))|].
    eapply same_servers_trans; [exact Hv|]. apply same_servers_audit. }
  assert (config_of m5 = c') as Ec5 by (rewrite S1; apply W1).
  split; [|split].
  - split; try done.
    + exists (remove_server id es).1. destruct (remove_server_configs id es Hf) as [Hf' Hcf].
      rewrite S2. split; [exact Er|]. split; [done|]. rewrite Hcf, Ec5. cbn. by apply kept_perm.
    + rewrite S5. apply W1.
    + intros s [Hs _]%filter_elem. left. by apply list_elem_of_fmap_2.
  - exists es. split; [done|]. rewrite S2. exact Er.
  - destruct (sw_catalog _ _ _ W1) as (fresh & Hfr & Ecat). exists fresh. split; [done|].
    rewrite S3. exact Ecat.
Qed.
End Handlers.

(** C35: the registry and the configuration agree after a write, as long as no older
    refresh disturbs it.  Suppose that whatever other tasks do to the registry while the
    write waits for a server keeps its entries well formed and their configurations as
    they are, as refreshes, probes and reconnections do that begin and end within that
    wait ([Life.registry_tasks_background]; one that began before the last write does
    not, and can bring an old configuration back or list a name twice).  If the registry
    held exactly the configured servers, well formed, under distinct ids and wire names,
    then after a creation, update or deletion that succeeds it does so again; after a
    creation or an update the catalog lists for the registered servers exactly the tools
    that the registry has, and after a deletion no server of that id is configured.  A
    write that fails leaves the configuration as it was; of the registry nothing is said
    then. *)
Theorem mcp_writes_aligned {G : Governor} {SHA : Sha256} {OA : OpenApiSource} {W : World}
    {RF : Rfc3339} {DB : Database} {AE : AdminEnv} {ME : McpAdminEnv} {RA : RmcpAuth} {AD : Aead} admin w m m' r :
  background me_meanwhile -> aligned m -> run_mcp_write admin w m = Returns (m', r) ->
  match r with
  | Err _ => config_of m' = config_of m
  | Ok _ => aligned m' /\
      match w with
      | DeleteServer id => mcp_server (config_of m') id = None
      | _ => synced m'
      end
  end.
Proof.
  intros Hb Hal H. destruct w as [i|id i|id]; cbn in H.
  - apply bind_Returns_inv in H as ([m1 r1] & H & [= <- <-]).
    apply create_spec in H; [|done..]. destruct r1; [|done]. destruct H as [[c Hw] Hm].
    split; [apply Hw|by apply mirrored_synced].
  - apply bind_Returns_inv in H as ([m1 r1] & H & [= <- <-]).
    apply update_spec in H; [|done..]. destruct r1; [|done]. destruct H as [[c Hw] Hm].
    split; [apply Hw|by apply mirrored_synced].
  - apply delete_spec in H; [|done]. destruct r; [|done]. destruct H as [Hw _].
    split; [apply Hw|]. rewrite (wr_config _ _ _ Hw). apply find_None_all. cbn.
    intros s [_ Hs%negb_true_iff]%filter_elem. exact Hs.
Qed.

(** ** A gateway with one server *)

(** Addresses without a path, over http or https. *)
Definition demo_urls : UrlParser := {|
  Url_parse := fun s =>
    match strip_prefix "https://" s, strip_prefix "http://" s with
    | Some h, _ => Some (mkUrl "https" (Some h) None None (Some 443) "/")
    | None, Some h => Some (mkUrl "http" (Some h) None None (Some 80) "/")
    | None, None => None
    end |}.

Definition demo_world : World := {|
  w_rmcp := Registry.demo_rmcp (fun _ => ["x"]);
  w_serializers := stream_serializers;
  w_urls := demo_urls;
  w_oauth := None;
  w_resolve := fun _ => Ok "";
  w_now := fun _ => 0;
  w_elapsed := fun _ => 7000000;
|}.

Definition quiet : McpAdminEnv := {|
  me_meanwhile := fun es => es; me_oauth_meanwhile := fun o => o; me_pinned_at := 0;
  me_instant := 0; me_nonce := demo_nonce |}.

(** An environment by what it resolves. *)
Definition resolving (r : result SecretError string) : AdminEnv (G := open_governor) :=
  {| ae_resolve := fun _ => r; ae_now := 0; ae_token_bytes := "0123456789abcdef0123456789abcdef";
     ae_pool_snap := fun _ => 0; ae_pool_now := fun _ _ => 0; ae_meanwhile := fun r => r |}.

Definition write_with (env : AdminEnv (G := open_governor)) (w : mcp_write)
    (m : McpAdmin (G := open_governor))
    : outcome (McpAdmin (G := open_governor) * result AsterlaneError ()) :=
  run_mcp_write (SHA := block_sha) (OA := no_openapi) (W := demo_world) (RF := binary_times)
    (DB := steady_db) (AE := env) (ME := quiet) (RA := OAuthFacts.demo_rmcp)
    (AD := plain_aead) "root" w m.

Definition after_write (env : AdminEnv (G := open_governor)) (w : mcp_write)
    (m : McpAdmin (G := open_governor)) : McpAdmin (G := open_governor) :=
  match write_with env w m with Returns (m, _) => m | Panics => m end.

Definition answer_of (env : AdminEnv (G := open_governor)) (w : mcp_write)
    (m : McpAdmin (G := open_governor)) : option (result AsterlaneError ()) :=
  match write_with env w m with Returns (_, r) => Some r | Panics => None end.

(** One agent, whose token is behind a reference. *)
Definition demo_agent : ProxyKey :=
  mkProxyKey "a" "Agent" ["*"] [] [] [] None (Some "secret://env/AGENT") None None 20 None None.

Definition demo_gateway : McpAdmin (G := open_governor) :=
  mkMcpAdmin _ (with_store (Some empty_store)
    (mkAdminState open_governor (with_proxy_keys GatewayConfig_default [demo_agent])
       (mkToolCatalog [] ∅ ∅) (mkLimitRegistry (G := open_governor) ∅ ∅ ∅) empty_auth None None))
    (Some []) ∅ ∅ (Some (demo_service (Some empty_store))).

Definition demo_mcp_params (id url : string) (auth : option UpstreamAuth) : McpServerWriteParams :=
  mkMcpServerWriteParams (Some id) "d" "p" url "" auth None None None.

Definition demo_create : mcp_write := CreateServer (demo_mcp_params "s" "https://s.example" None).

Lemma mcp_writes_aligned_witness :
  answer_of (resolving (Ok "token")) demo_create demo_gateway = Some (Ok tt) /\
  aligned (after_write (resolving (Ok "token")) demo_create demo_gateway) /\
  synced (after_write (resolving (Ok "token")) demo_create demo_gateway).
Proof.
  split; [vm_compute; reflexivity|].
  apply (mcp_writes_aligned (SHA := block_sha) (OA := no_openapi) (W := demo_world)
    (RF := binary_times) (DB := steady_db) (AE := resolving (Ok "token"))
    (ME := quiet) (RA := OAuthFacts.demo_rmcp) (AD := plain_aead) "root" demo_create demo_gateway _
    (Ok tt)).
  - by intros es Hes.
  - exists []. split; [done|]. split; [|done]. split; repeat constructor.
  - vm_compute. reflexivity.
Defined.

(** When the token of any agent cannot be resolved at that moment, a creation fails
    after the registry took the server: it cannot be created again, nor deleted. *)
Definition ghost : McpAdmin (G := open_governor) :=
  after_write (resolving (Err (SE_Transient "AGENT" "timeout"))) demo_create demo_gateway.

Example failed_create_leaves_ghost :
  mcp_servers (config_of ghost) = [] /\
  option_map (fun es => map e_id es) (ma_registry ghost) = Some ["s"] /\
  answer_of (resolving (Ok "token")) demo_create ghost
  = Some (Err (mcp_to_asterlane (duplicate_server "s"))) /\
  answer_of (resolving (Ok "token")) (DeleteServer "s") ghost = Some (Err (McpAdmin.not_found "s")).
Proof. split_and!; vm_compute; reflexivity. Qed.

(** A deletion takes the server out of the registry before the configuration is replaced:
    when that fails, the administrator is told so, and the server is still configured
    and its tools are listed, but nothing serves them. *)
Definition half_deleted : McpAdmin (G := open_governor) :=
  after_write (resolving (Err (SE_Transient "AGENT" "timeout"))) (DeleteServer "s")
    (after_write (resolving (Ok "token")) demo_create demo_gateway).

Example failed_delete_stops_server :
  map ms_id (mcp_servers (config_of half_deleted)) = ["s"] /\
  map wire (tools (catalog_of half_deleted)) = ["d__p__x"] /\
  option_map (map e_id) (ma_registry half_deleted) = Some [] /\
  option_map (registry_contains_tool "d__p__x") (ma_registry half_deleted) = Some false.
Proof. split_and!; vm_compute; reflexivity. Qed.

(** An update that leaves the authorization out is checked as one without any: an
    OAuth server moves to an address without TLS, and the configuration that is
    stored is refused at the next start. *)
Definition oauth_create : mcp_write :=
  CreateServer (demo_mcp_params "s" "https://s.example"
    (Some (AuthOAuth ClientCredentials (Some "client") (Some "secret://env/S") []))).

Definition moved : McpAdmin (G := open_governor) :=
  let env := resolving (Ok "token") in
  after_write env (UpdateServer "s" (demo_mcp_params "s" "http://plain.example" None))
    (after_write env oauth_create demo_gateway).

Example update_keeps_unchecked_auth :
  (ms_url <$> mcp_server (config_of moved) "s") = Some "http://plain.example" /\
  is_Ok (validate_oauth (UP := demo_urls)
           (config_of (after_write (resolving (Ok "token")) oauth_create demo_gateway))) = true /\
  is_Ok (validate_oauth (UP := demo_urls) (config_of moved)) = false.
Proof. split_and!; vm_compute; reflexivity. Qed.
