(* ===== verification/AdminTools.v ===== *)
(** * Administration of tools ([admin/metadata.rs], [admin/defaults.rs], [admin/types/tools.rs])

    Descriptions of tools are overridden, default arguments are kept, and a tool is
    called for a trial through the same pipeline as an agent's call. *)

From S2P Require Import Prelude RustStr Naming Errors Config Policy Secrets Catalog Overrides KeyPool Limits.
From S2P Require Import Egress Shaping GatewayAuth Render Retry Observe Invoke Integrity Surface Peers.
From S2P Require Import Registry SchemaView Semantic Discovery McpCall McpServer HttpTools.
From S2P Require Import OpenApi OAuthConfig ConfigJson Store ConfigMerge Seal OAuth OAuthFacts Admin AdminFacts.
From S2P Require Import AdminRestart McpAdmin McpAdminFacts.

Local Open Scope string_scope.
Local Open Scope list_scope.
Local Open Scope Z_scope.
Local Open Scope gateway_scope.

Record ToolDefaultResponse := mkToolDefaultResponse {
  tdr_tool_name : string;
  tdr_args : JSON;
  tdr_source : string;
  tdr_updated_by : option string;
  tdr_updated_at : string;
}.

Record ToolInvokeParams := mkToolInvokeParams { ip_use_defaults : option bool; ip_save : option bool }.

Record ToolInvokeResponse := mkToolInvokeResponse {
  ivr_request_id : string; ivr_status : Z; ivr_latency_ms : Z; ivr_result : JSON }.

Definition defaults_not_found (name : string) : AsterlaneError :=
  internal AdminNotFound ("no defaults for tool '" +:+ name +:+ "'").
Definition metadata_not_found (name : string) : AsterlaneError :=
  internal AdminNotFound ("no metadata for tool '" +:+ name +:+ "'").
Definition invalid_body : AsterlaneError := internal AdminInvalidQuery "body must be a JSON object".
Definition invalid_description : AsterlaneError :=
  internal AdminInvalidQuery "body must be a JSON object with a non-empty string 'description'".

Definition store_required : AsterlaneError :=
  internal StoreUnavailable "tool defaults require a configured store".

Section Tools.
Context {G : Governor} {SE : Serializers} {JR : JsonReader} {RF : Rfc3339} {DB : Database}
  {AE : AdminEnv}.

(** A statement of a handler, whose failure is the handler's; [None] without a store. *)
Definition on_store {R} (op : Store -> Store * result StoreError R) (a : AdminState)
    : AdminState * option (result AsterlaneError R) :=
  match ad_store a with
  | Some s => let '(s, r) := op s in (with_store (Some s) a, Some (map_err store_to_asterlane r))
  | None => (a, None)
  end.

(** The same where the handler needs a store. *)
Definition require_store {R} (op : Store -> Store * result StoreError R) (a : AdminState)
    : AdminState * result AsterlaneError R :=
  let '(a, r) := on_store op a in (a, default (Err store_required) r).

Definition parse_object_body (body : string) : result AsterlaneError (option (list (string * JSON))) :=
  if is_empty body then Ok None
  else match json_value body with
       | Some (JObject fs) => Ok (Some fs)
       | Some JNull => Ok None
       | _ => Err invalid_body
       end.

(** ** Descriptions ([admin/metadata.rs]) *)

Definition parse_description (body : string) : result AsterlaneError string :=
  fs ← map_err (fun _ => invalid_description) (parse_object_body body);
  fs ← ok_or invalid_description fs;
  d ← ok_or invalid_description (v ← obj_get "description" fs; as_str v);
  if is_empty (trim d) then Err invalid_description else Ok d.

Definition list_metadata (a : AdminState)
    : AdminState * result AsterlaneError (list ToolMetadataEntry) :=
  let '(a, r) := on_store list_tool_metadata a in (a, default (Ok []) r).

Definition get_metadata (name : string) (a : AdminState)
    : AdminState * result AsterlaneError ToolMetadataEntry :=
  let '(a, r) := on_store (get_tool_metadata name) a in
  (a, e ← default (Ok None) r; ok_or (metadata_not_found name) e).

(** The two halves of [put_metadata]: the row, written outside the lock of the
    administration, and the overlay with the audit event. *)
Definition put_metadata_row (admin name description : string)
    : AdminState -> AdminState * result AsterlaneError () :=
  require_store (set_tool_metadata name description (Some admin)).

Definition put_metadata_overlay (admin name description : string) (a : AdminState) : AdminState :=
  record_audit admin "set" "tool_metadata" name
    (with_catalog (set_description_override name description (ad_catalog a)) a).

Definition put_metadata (admin name body : string) (a : AdminState)
    : AdminState * result AsterlaneError string :=
  match parse_description body with
  | Err e => (a, Err e)
  | Ok description =>
      match put_metadata_row admin name description a with
      | (a, Err e) => (a, Err e)
      | (a, Ok _) => (put_metadata_overlay admin name description a, Ok name)
      end
  end.

Definition delete_metadata (admin name : string) (a : AdminState)
    : AdminState * result AsterlaneError string :=
  let '(a, r) := require_store (delete_tool_metadata name) a in
  match r with
  | Err e => (a, Err e)
  | Ok false => (a, Err (metadata_not_found name))
  | Ok true =>
      let a := with_catalog (remove_description_override name (ad_catalog a)) a in
      (record_audit admin "delete" "tool_metadata" name a, Ok name)
  end.

(** ** Default arguments ([admin/defaults.rs]) *)

Definition record_to_json (r : ToolDefaultRecord) : ToolDefaultResponse :=
  mkToolDefaultResponse (td_tool_name r) (default (JObject []) (json_value (td_args_json r)))
    (td_source r) (td_updated_by r) (td_updated_at r).

Definition save_default (name : string) (args : JSON) (source admin : string)
    : AdminState -> AdminState * result AsterlaneError () :=
  require_store (set_tool_default
                   (mkToolDefaultRecord name (value_to_string args) source (Some admin) "")).

Definition list_defaults (a : AdminState)
    : AdminState * result AsterlaneError (list ToolDefaultResponse) :=
  let '(a, r) := on_store list_tool_defaults a in
  (a, match r with
      | Some (Ok rows) => Ok (map record_to_json rows)
      | Some (Err e) => Err e
      | None => Ok []
      end).

Definition get_default (name : string) (a : AdminState)
    : AdminState * result AsterlaneError ToolDefaultResponse :=
  let '(a, r) := on_store (get_tool_default name) a in
  (a, e ← default (Ok None) r; record_to_json <$> ok_or (defaults_not_found name) e).

Definition put_default (admin name body : string) (a : AdminState)
    : AdminState * result AsterlaneError string :=
  match (fs ← parse_object_body body; ok_or invalid_body fs) with
  | Err e => (a, Err e)
  | Ok fs =>
      let '(a, r) := save_default name (JObject fs) "manual" admin a in
      match r with
      | Err e => (a, Err e)
      | Ok _ => (record_audit admin "set" "tool_default" name a, Ok name)
      end
  end.

Definition delete_default (admin name : string) (a : AdminState)
    : AdminState * result AsterlaneError string :=
  let '(a, r) := require_store (delete_tool_default name) a in
  match r with
  | Err e => (a, Err e)
  | Ok false => (a, Err (defaults_not_found name))
  | Ok true => (record_audit admin "delete" "tool_default" name a, Ok name)
  end.

(** ** Trial calls *)

(** The arguments: those of the body, the stored ones when the body has none and they
    are asked for, or none. *)
Definition trial_args (name : string) (q : ToolInvokeParams) (body : string) (a : AdminState)
    : AdminState * result AsterlaneError JSON :=
  match parse_object_body body with
  | Err e => (a, Err e)
  | Ok (Some ((_ :: _) as fs)) => (a, Ok (JObject fs))
  | Ok _ =>
      if default false (ip_use_defaults q) then
        let '(a, r) := on_store (get_tool_default name) a in
        (a, e ← default (Ok None) r;
            Ok (default (JObject []) (r ← e; json_value (td_args_json r))))
      else (a, Ok (JObject []))
  end.

(** The key of a trial call: it sees every tool, and is not in the configuration. *)
Definition synthetic_key (admin : string) : ProxyKey :=
  mkProxyKey ("admin:" +:+ admin) "admin debug invoke" [".*"] [] [] [] None None None None 20 None None.

(** [execute] is [execute_invoke] of the HTTP layer, which goes on from its own state
    [g]; [elapsed] is how long it took, in milliseconds. *)
Definition invoke_tool_debug {St} (execute : string -> JSON -> ProxyKey -> ResponseFormat -> St ->
      outcome (St * list Contact * result AsterlaneError InvokeResult)) (elapsed : Z)
    (admin name : string) (q : ToolInvokeParams) (body : string) (a : AdminState) (g : St)
    : outcome (AdminState * St * list Contact * result AsterlaneError ToolInvokeResponse) :=
  let '(a, args) := trial_args name q body a in
  match (args ← args;
         format ← map_err render_to_asterlane
                    (resolve_format None None (default_response_format (ad_config a)));
         Ok (args, format)) with
  | Err e => Returns (a, g, [], Err e)
  | Ok (args, format) =>
      '(g, contacts, r) ← execute name args (synthetic_key admin) format g;
      match r with
      | Err e => Returns (a, g, contacts, Err e)
      | Ok r =>
          let '(a, saved) :=
            if default false (ip_save q) && (ir_status r <? 400) then
              let '(a, s) := save_default name args "captured" admin a in
              match s with
              | Ok _ => (record_audit admin "capture" "tool_default" name a, Ok tt)
              | Err e => (a, Err e)
              end
            else (a, Ok tt) in
          Returns (a, g, contacts,
            _ ← saved;
            Ok (mkToolInvokeResponse (Retry.request_id r) (ir_status r) (Z.min elapsed u32_max)
                  (default (JString (from_utf8_lossy (Retry.body r))) (json_value (Retry.body r)))))
      end
  end.
End Tools.

(** ** Descriptions and the store *)

(** Rows by their key, collected one after the other. *)
Lemma fold_rows {R V} (key : R -> string) (v : R -> V) (m : gmap string R) rows
    (acc : gmap string V) k :
  (forall r, r ∈ rows -> m !! key r = Some r) ->
  fold_left (fun acc r => <[key r := v r]> acc) rows acc !! k =
  if bool_decide (k ∈ key <$> rows) then v <$> m !! k else acc !! k.
Proof.
  revert acc. induction rows as [|r rows IH]; intros acc H; [done|]. cbn.
  rewrite IH by set_solver. specialize (H r ltac:(set_solver)).
  repeat case_bool_decide; set_unfold; try tauto; [|by rewrite lookup_insert_ne by naive_solver].
  assert (k = key r) as -> by tauto. by rewrite lookup_insert_eq, H.
Qed.

Lemma sorted_rows_map {R V} (key : R -> string) (v : R -> V) (m : gmap string R) :
  keyed key m ->
  fold_left (fun (acc : gmap string V) r => <[key r := v r]> acc) (sorted_rows m) ∅ = v <$> m.
Proof.
  intros K. apply map_eq. intros k. rewrite (fold_rows key v m).
  - rewrite lookup_fmap, lookup_empty. case_bool_decide as H; [done|].
    destruct (m !! k) as [r|] eqn:E; [|done]. exfalso. apply H. rewrite <- (K _ _ E).
    apply list_elem_of_fmap_2, sorted_rows_elem. eauto.
  - intros r (k' & Hr)%sorted_rows_elem. by rewrite (K _ _ Hr).
Qed.

Inductive tool_write :=
| PutMetadata (name body : string)
| DeleteMetadata (name : string)
| PutDefault (name body : string)
| DeleteDefault (name : string).

Section Descriptions.
Context {G : Governor} {SHA : Sha256} {OA : OpenApiSource} {SE : Serializers} {JR : JsonReader}
  {RF : Rfc3339} {DB : Database} {AE : AdminEnv}.

Definition run_tool_write (admin : string) (w : tool_write) (a : AdminState)
    : AdminState * result AsterlaneError string :=
  match w with
  | PutMetadata name body => put_metadata admin name body a
  | DeleteMetadata name => delete_metadata admin name a
  | PutDefault name body => put_default admin name body a
  | DeleteDefault name => delete_default admin name a
  end.

(** What agents read is what the store holds. *)
Definition overrides_stored (a : AdminState) : Prop :=
  exists s, ad_store a = Some s /\ keyed tm_tool_name (st_tool_metadata s) /\
    description_overrides (ad_catalog a) = tm_description <$> st_tool_metadata s.

Definition keeps_metadata {R} (op : Store -> Store * result StoreError R) : Prop :=
  forall s, st_tool_metadata (op s).1 = st_tool_metadata s.

Lemma statement_metadata {R} (f : string -> Store -> result string (Store * R)) :
  (forall now s s' x, f now s = Ok (s', x) -> st_tool_metadata s' = st_tool_metadata s) ->
  keeps_metadata (statement f).
Proof.
  intros H s. apply (statement_inv (fun s' => st_tool_metadata s' = st_tool_metadata s)); [done..|].
  intros now s' x _ Hf. by rewrite (H _ _ _ _ Hf).
Qed.

Ltac keeps_rows := intros; cbn in *; repeat case_match; simplify_eq; done.

Lemma on_store_stored {R} (op : Store -> Store * result StoreError R) a :
  keeps_metadata op -> overrides_stored a -> overrides_stored (on_store op a).1.
Proof.
  intros Hop (s & Hs & K & D). unfold on_store. rewrite Hs. specialize (Hop s).
  destruct (op s) as [s' r]. cbn in *. exists s'. by rewrite Hop.
Qed.

Lemma require_store_stored {R} (op : Store -> Store * result StoreError R) a :
  keeps_metadata op -> overrides_stored a -> overrides_stored (require_store op a).1.
Proof.
  intros Hop H. apply (on_store_stored op a Hop) in H. unfold require_store.
  by destruct (on_store op a).
Qed.

Lemma audit_stored admin action kind id a :
  overrides_stored a -> overrides_stored (record_audit admin action kind id a).
Proof.
  intros (s & Hs & K & D). unfold record_audit, best_effort. rewrite Hs. eexists. split; [done|].
  cbn. unfold insert_security_event. rewrite (statement_metadata _); [done|]. keeps_rows.
Qed.

(** The row and the overlay change together, or neither does. *)
Lemma put_metadata_stored admin name body a :
  overrides_stored a -> overrides_stored (put_metadata admin name body a).1.
Proof.
  intros H. unfold put_metadata. destruct (parse_description body) as [d|e]; [|done].
  destruct H as (s & Hs & K & D). unfold put_metadata_row, require_store, on_store. rewrite Hs.
  unfold set_tool_metadata, statement. destruct (db_failure _) as [e|]; cbn -[record_audit].
  - eexists. by split.
  - apply audit_stored. eexists. split; [done|]. cbn. split; [by apply keyed_insert|].
    by rewrite set_overrides, D, fmap_insert.
Qed.

Lemma delete_metadata_stored admin name a :
  overrides_stored a -> overrides_stored (delete_metadata admin name a).1.
Proof.
  intros (s & Hs & K & D). unfold delete_metadata, require_store, on_store. rewrite Hs.
  unfold delete_tool_metadata, delete_row, statement. destruct (db_failure _) as [e|]; cbn -[record_audit].
  - eexists. by split.
  - case_bool_decide as Hit; cbn -[record_audit].
    + apply audit_stored. eexists. split; [done|]. cbn. split; [by apply keyed_delete|].
      by rewrite D, fmap_delete.
    + eexists. split; [done|]. cbn. apply eq_None_not_Some in Hit.
      by rewrite delete_id.
Qed.

Lemma put_default_stored admin name body a :
  overrides_stored a -> overrides_stored (put_default admin name body a).1.
Proof.
  intros H. unfold put_default. destruct (_ ≫= _) as [fs|e]; [|done].
  unfold save_default. set (op := set_tool_default _).
  assert (keeps_metadata op) as Hop by (apply statement_metadata; keeps_rows).
  apply (require_store_stored op a Hop) in H. destruct (require_store op a) as [a' [u|e]]; [|done].
  by apply audit_stored.
Qed.

Lemma delete_default_stored admin name a :
  overrides_stored a -> overrides_stored (delete_default admin name a).1.
Proof.
  intros H. unfold delete_default. set (op := delete_tool_default _).
  assert (keeps_metadata op) as Hop by (apply statement_metadata; keeps_rows).
  apply (require_store_stored op a Hop) in H.
  destruct (require_store op a) as [a' [[|]|e]]; [|done..]. by apply audit_stored.
Qed.

Lemma load_overrides o c : description_overrides (load_description_overrides o c) = o.
Proof. unfold load_description_overrides. by destruct (overlay_all _ _ _). Qed.

Lemma extend_overrides new c :
  description_overrides (extend_with_mcp_tools new c) = description_overrides c.
Proof. unfold extend_with_mcp_tools. by destruct (overlay_all _ _ _). Qed.

Lemma swap_stored_overrides c a a' r :
  swap_config_and_catalog c a = Returns (a', r) -> overrides_stored a -> overrides_stored a'.
Proof.
  intros [Hs [(e & _ & W)|[_ W]]]%swap_cases (s & E & K & D); exists s; rewrite Hs; split_and!; try done.
  - by destruct W as (_ & -> & _).
  - destruct (sw_catalog _ _ _ W) as (fresh & _ & ->). unfold rebuild_catalog.
    by rewrite extend_overrides, load_overrides.
Qed.

Lemma tool_write_stored admin w a :
  overrides_stored a -> overrides_stored (run_tool_write admin w a).1.
Proof.
  destruct w; cbn; auto using put_metadata_stored, delete_metadata_stored, put_default_stored,
    delete_default_stored.
Qed.

(** The catalog presents the tools [upstream] under some overrides. *)
Definition presents (upstream : list WrappedTool) (a : AdminState) : Prop :=
  exists o, represents (ad_catalog a) (mkAbsCatalog upstream o).

Lemma presents_same upstream a a' :
  ad_catalog a' = ad_catalog a -> presents upstream a -> presents upstream a'.
Proof. unfold presents. by intros ->. Qed.

Lemma require_store_catalog {R} (op : Store -> Store * result StoreError R) a :
  ad_catalog (require_store op a).1 = ad_catalog a.
Proof. unfold require_store, on_store. destruct (ad_store a); [|done]. by destruct (op s). Qed.

Lemma audit_catalog admin action kind id a :
  ad_catalog (record_audit admin action kind id a) = ad_catalog a.
Proof. apply record_audit_parts. Qed.

Lemma tool_write_presents admin w upstream a :
  presents upstream a -> presents upstream (run_tool_write admin w a).1.
Proof.
  assert (forall {R} (op : Store -> Store * result StoreError R),
    presents upstream a -> presents upstream (require_store op a).1) as Hreq
    by (intros R op; apply presents_same, require_store_catalog).
  assert (forall action kind id b, presents upstream b -> presents upstream (record_audit admin action kind id b))
    as Haud by (intros action kind id b; apply presents_same, audit_catalog).
  intros H. destruct w as [n b|n|n b|n]; cbn [run_tool_write].
  - unfold put_metadata, put_metadata_row. destruct (parse_description b) as [d|]; [|done].
    specialize (Hreq _ (set_tool_metadata n d (Some admin)) H).
    destruct (require_store _ a) as [a1 [[]|]]; [|done]. apply Haud.
    destruct Hreq as [o R]. exists (<[n := d]> o). exact (represents_set _ _ n d R).
  - unfold delete_metadata. specialize (Hreq _ (delete_tool_metadata n) H).
    destruct (require_store _ a) as [a1 [[|]|]]; [|done..]. apply Haud.
    destruct Hreq as [o R]. exists (delete n o). exact (represents_remove _ _ n R).
  - unfold put_default, save_default. destruct (_ ≫= _) as [fs|]; [|done].
    match goal with |- context [require_store ?op a] => specialize (Hreq _ op H) end.
    destruct (require_store _ a) as [a1 [[]|]]; [|done]. by apply Haud.
  - unfold delete_default. specialize (Hreq _ (delete_tool_default n) H).
    destruct (require_store _ a) as [a1 [[|]|]]; [|done..]. by apply Haud.
Qed.

(** A request that edits a tool, one that replaces the configuration or is refused, and
    an update of the tools of MCP servers, each with the tools that the upstreams have
    sent before and after it; no two of them share a name. *)
Inductive tool_step : list WrappedTool * AdminState -> list WrappedTool * AdminState -> Prop :=
| StepTool admin w upstream a :
    tool_step (upstream, a) (upstream, (run_tool_write admin w a).1)
| StepConfig c fresh upstream upstream' a a' :
    swap_config_and_catalog c a = Returns (a', Ok tt) -> from_config c = Ok fresh ->
    upstream' = raw (abs_swap c fresh (mkAbsCatalog upstream ∅)) -> Overrides.names_unique upstream' ->
    tool_step (upstream, a) (upstream', a')
| StepRefused c e upstream a a' :
    swap_config_and_catalog c a = Returns (a', Err e) -> tool_step (upstream, a) (upstream, a')
| StepServers new ids upstream upstream' a :
    upstream' = raw (abs_op (OpReplace new ids) (mkAbsCatalog upstream ∅)) ->
    Overrides.names_unique upstream' ->
    tool_step (upstream, a)
      (upstream', with_catalog (replace_mcp_tools new ids (ad_catalog a)) a).

Lemma tool_step_shown x y :
  tool_step x y -> overrides_stored x.2 /\ presents x.1 x.2 ->
  overrides_stored y.2 /\ presents y.1 y.2.
Proof.
  intros Hxy [Hs Hp].
  destruct Hxy as [admin w u a|c fresh u u' a a' Hc Hf -> Hu|c e u a a' Hc|new ids u u' a -> Hu];
    cbn [fst snd] in *.
  - split; [by apply tool_write_stored|by apply tool_write_presents].
  - split; [by eapply swap_stored_overrides|].
    apply swap_cases in Hc as [_ [(e & [=] & _)|[_ W]]].
    destruct Hp as [o R], (sw_catalog _ _ _ W) as (fresh' & Hf' & E).
    assert (fresh' = fresh) as -> by congruence.
    exists o. rewrite E. by apply (represents_rebuild c fresh _ (mkAbsCatalog u o)).
  - split; [by eapply swap_stored_overrides|].
    apply swap_cases in Hc as [_ [(e' & _ & W)|[[=] _]]]. eapply presents_same; [apply W|done].
  - split.
    { destruct Hs as (s & Es & K & D). exists s. split; [done|]. split; [done|].
      cbn [with_catalog ad_catalog]. unfold replace_mcp_tools. by rewrite extend_overrides. }
    destruct Hp as [o R]. exists o.
    by apply (represents_op (OpReplace new ids) _ (mkAbsCatalog u o)).
Qed.

Lemma tool_steps_shown x y :
  rtc tool_step x y -> overrides_stored x.2 /\ presents x.1 x.2 ->
  overrides_stored y.2 /\ presents y.1 y.2.
Proof. induction 1 as [x|x y z Hxy _ IH]; [done|]. intros H. by apply IH, (tool_step_shown x y). Qed.
End Descriptions.

(** C36: what agents read of a tool is what the administrator stored, before and after a
    restart.  Suppose that at first the store's descriptions are the catalog's overrides
    and the catalog presents the tools of the upstreams under them.  Then after any
    sequence of requests to the tool administration, changes of the configuration and
    updates of the servers' tools that follow one another, whichever statements on the
    store fail, and while no two tools of the upstreams share a name, the catalog shows
    exactly the tools that the upstreams sent, each with the description that the store
    holds for its name, or else the one its upstream sent.  And a gateway that starts on
    that store and can read its descriptions, with whatever tools [upstream] it then
    has, shows each of them with the stored description or else the upstream's. *)
Theorem descriptions_survive_restart {G : Governor} {SHA : Sha256} {OA : OpenApiSource}
    {SE : Serializers} {JR : JsonReader} {RF : Rfc3339} {DB : Database} {AE : AdminEnv}
    {W : World} now now' a a' :
  overrides_stored a -> presents now a -> rtc tool_step (now, a) (now', a') ->
  exists s, ad_store a' = Some s /\
    let stored := tm_description <$> st_tool_metadata s in
    tools (ad_catalog a') = Overrides.render stored <$> now' /\
    forall m upstream, ad_store (ma_core m) = Some s -> db_failure (st_statements s) = None ->
      represents (ad_catalog (ma_core m)) (mkAbsCatalog upstream ∅) ->
      tools (ad_catalog (ma_core (start_description_overrides m)))
      = Overrides.render stored <$> upstream.
Proof.
  intros Ha Hp Hs. destruct (tool_steps_shown _ _ Hs (conj Ha Hp)) as [(s & Es & K & D) [o R]].
  cbn [fst snd] in *. exists s. split; [done|]. cbn zeta. split.
  { rewrite (rep_tools _ _ R). pose proof (rep_overrides _ _ R) as Eo. cbn in Eo.
    by rewrite <- D, Eo. }
  intros m upstream Hm Hdb R'.
  unfold start_description_overrides, list_tool_metadata, statement. rewrite Hm, Hdb. cbn.
  pose proof (sorted_rows_map _ tm_description _ K) as E.
  destruct (sorted_rows (st_tool_metadata s)) as [|row rows].
  - cbn in E. rewrite <- E. exact (rep_tools _ _ R').
  - rewrite E. pose proof (represents_load _ _ (tm_description <$> st_tool_metadata s) R') as RL.
    exact (rep_tools _ _ RL).
Qed.

(** *** A gateway with one tool *)

Definition body_of (fs : list (string * JSON)) : string :=
  value_to_string (Serializers := stream_serializers) (JObject fs).

Definition describe_body (d : string) : string := body_of [("description", JString d)].

Definition edit (w : tool_write) (a : AdminState (G := open_governor))
    : AdminState (G := open_governor) :=
  (run_tool_write (SE := stream_serializers) (JR := stream_reader) (RF := binary_times) (DB := steady_db)
     (AE := demo_env) "root" w a).1.

Definition one_tool : AdminState (G := open_governor) :=
  with_catalog (mkToolCatalog [Catalog.demo_tool "docs" "ctx" "read"] ∅ ∅) demo_admin.

Definition edited_tool : AdminState (G := open_governor) :=
  edit (PutDefault "docs__ctx__read" (body_of [("q", JString "x")]))
    (edit (PutMetadata "docs__ctx__read" (describe_body "mine")) one_tool).

Definition restart_of (a : AdminState (G := open_governor)) : McpAdmin (G := open_governor) :=
  mkMcpAdmin _ (with_catalog (ad_catalog one_tool) a) None ∅ ∅ None.

Lemma descriptions_survive_restart_witness :
  tools (ad_catalog edited_tool)
  = Overrides.render (<["docs__ctx__read" := "mine"]> ∅) <$> [Catalog.demo_tool "docs" "ctx" "read"] /\
  tools (ad_catalog (ma_core (start_description_overrides (DB := steady_db)
                                 (restart_of edited_tool)))) =
  Overrides.render (<["docs__ctx__read" := "mine"]> ∅) <$> [Catalog.demo_tool "docs" "ctx" "read"].
Proof.
  assert (represents (ad_catalog one_tool)
            (mkAbsCatalog [Catalog.demo_tool "docs" "ctx" "read"] ∅)) as R.
  { split; [apply NoDup_singleton|done|done| |done]. intros t _ [d Hd]. discriminate Hd. }
  destruct (descriptions_survive_restart (SHA := block_sha) (OA := no_openapi)
    (SE := stream_serializers) (JR := stream_reader) (RF := binary_times) (DB := steady_db)
    (AE := demo_env) (W := demo_world) [Catalog.demo_tool "docs" "ctx" "read"]
    [Catalog.demo_tool "docs" "ctx" "read"] one_tool edited_tool) as (s & Es & H1 & H2).
  - exists empty_store. split; [done|]. split; [done|]. vm_compute. reflexivity.
  - by exists ∅.
  - eapply rtc_l; [apply StepTool|]. eapply rtc_l; [apply StepTool|]. apply rtc_refl.
  - assert (tm_description <$> st_tool_metadata s = <["docs__ctx__read" := "mine"]> ∅) as E.
    { assert ((fun s => tm_description <$> st_tool_metadata s) <$> ad_store edited_tool
              = Some (<["docs__ctx__read" := "mine"]> ∅)) as E by (vm_compute; reflexivity).
      rewrite Es in E. by injection E as E. }
    rewrite E in H1, H2. split; [exact H1|]. apply (H2 (restart_of edited_tool)); [exact Es|done|exact R].
Defined.

(** The row is written outside the lock that orders changes of the overlay.  Two requests
    can pass each other there: agents then read one description, the store holds the
    other, and the next start changes what agents read. *)
Definition interleaved_puts : AdminState (G := open_governor) :=
  let row d := put_metadata_row (DB := steady_db) "root" "docs__ctx__read" d in
  let overlay d := put_metadata_overlay (SE := stream_serializers) (RF := binary_times)
                     (DB := steady_db) (AE := demo_env) "root" "docs__ctx__read" d in
  overlay "first" (overlay "second" (row "second" (row "first" one_tool).1).1).

Example interleaved_puts_diverge :
  description <$> tools (ad_catalog interleaved_puts) = ["first"] /\
  description <$> tools (ad_catalog (ma_core (start_description_overrides (DB := steady_db)
                                        (restart_of interleaved_puts)))) = ["second"].
Proof. split; vm_compute; reflexivity. Qed.

(** A trial call that asks to keep its arguments fails when there is no store, although
    the tool was called. *)
Definition trial : outcome (AdminState (G := open_governor) * nat * list Contact
                            * result AsterlaneError ToolInvokeResponse) :=
  invoke_tool_debug (SE := stream_serializers) (JR := stream_reader) (RF := binary_times)
    (DB := steady_db) (AE := demo_env)
    (fun _ _ _ _ n => Returns (S n, [], Ok (mkInvokeResult "r" 200 "ok" None false false None)))
    3 "root" "docs__ctx__read" (mkToolInvokeParams None (Some true)) "" (with_store None one_tool) 0%nat.

Example trial_runs_before_store_check :
  trial = Returns (with_store None one_tool, 1%nat, [], Err store_required).
Proof. vm_compute. reflexivity. Qed.
