(* ===== verification/AdminRead.v ===== *)
(** * Administration: access and reading ([admin/auth.rs], [admin/read.rs], [admin/crud.rs])

    Admin keys authenticate by token, apart from the keys of agents.  The listings show
    the configuration, the pools, the events and the usage; the check of the
    configuration reports what is wrong with it.  Rows of events, summaries and totals
    are answered with the fields they have in the store's projection. *)

From S2P Require Import Prelude RustStr Naming Errors Config Policy Secrets Catalog KeyPool Limits.
From S2P Require Import Egress GatewayAuth Render Observe Integrity Overrides.
From S2P Require Import OAuthConfig ConfigJson Store ConfigMerge Events Admin AdminFacts AdminRestart McpAdmin.

Local Open Scope string_scope.
Local Open Scope list_scope.
Local Open Scope Z_scope.
Local Open Scope gateway_scope.

(** ** Admin keys ([config/admin.rs], [admin/auth.rs]) *)

Record AdminKey := mkAdminKey { ak_id : string; ak_token_ref : string }.
Record AdminConfig := mkAdminConfig { admin_keys : list AdminKey }.

(** Digest of a token to the id of the admin key. *)
Record AdminAuth := mkAdminAuth { at_tokens : gmap string string }.

Definition unauthorized : AsterlaneError :=
  internal AdminUnauthorized "missing or invalid admin token".

Section Access.
Context {H : Sha256}.

Fixpoint admin_tokens (resolve : SecretRef -> result SecretError string) (ks : list AdminKey)
    (m : gmap string string) : result SecretError (gmap string string) :=
  match ks with
  | [] => Ok m
  | k :: ks =>
      r ← parse_ref (ak_token_ref k);
      token ← resolve r;
      admin_tokens resolve ks (<[sha256 token := ak_id k]> m)
  end.

Definition admin_auth_from_config (c : AdminConfig)
    (resolve : SecretRef -> result SecretError string) : result SecretError (option AdminAuth) :=
  match admin_keys c with
  | [] => Ok None
  | ks => m ← admin_tokens resolve ks ∅; Ok (Some (mkAdminAuth m))
  end.

Definition verify (token : string) (a : AdminAuth) : option string :=
  if is_empty token then None else at_tokens a !! sha256 token.

(** What the middleware does: the id that the handlers get, or the refusal. *)
Definition require_admin (auth : option AdminAuth) (authorization : option string)
    : result AsterlaneError string :=
  match auth with
  | None => Err unauthorized
  | Some a => ok_or unauthorized (token ← bearer_token authorization; verify token a)
  end.
End Access.

(** ** The configuration *)

Inductive ProxyKeyAuthModeResponse := AuthMode_Token | AuthMode_Legacy.

Record ProxyKeyResponse := mkProxyKeyResponse {
  pkr_id : string;
  pkr_display_name : string;
  pkr_auth_mode : ProxyKeyAuthModeResponse;
  pkr_expires_at : option Z;
  pkr_usage : KeyUsage;
  pkr_allowed_tools : list string;
  pkr_denied_tools : list string;
  pkr_allowed_servers : list string;
  pkr_allowed_tool_names : list string;
  pkr_limits : option KeyLimits;
  pkr_default_tool_page_size : nat;
}.

Record ResourceSummaryResponse := mkResourceSummaryResponse {
  rsr_id : string;
  rsr_domain : string;
  rsr_provider : string;
  rsr_base_url : string;
  rsr_endpoint_count : nat;
  rsr_auth_type : AuthTypeResponse;
  rsr_key_pool_size : nat;
}.

Record ToolSummaryResponse := mkToolSummaryResponse {
  tsr_name : string;
  tsr_resource_id : string;
  tsr_description : string;
  tsr_description_override : option string;
}.

Record ToolCatalogResponse := mkToolCatalogResponse {
  tcr_total_count : nat; tcr_tools : list ToolSummaryResponse }.

Record McpPresetResponse := mkMcpPresetResponse {
  mpr_preset : McpPreset; mpr_enabled : bool; mpr_requires_key : bool }.

Definition from_resource (r : ApiResource) : ResourceSummaryResponse :=
  mkResourceSummaryResponse (ar_id r) (ar_domain r) (provider_or_id r) (base_url r)
    (length (endpoints r)) (auth_type_of (ar_auth r))
    (match key_pool r with Some p => length (keys p) | None => 0%nat end).

Definition auth_mode (k : ProxyKey) : ProxyKeyAuthModeResponse :=
  match token_ref k, token_digest k with
  | None, None => AuthMode_Legacy
  | _, _ => AuthMode_Token
  end.

Definition from_key (k : ProxyKey) (u : KeyUsage) : ProxyKeyResponse :=
  mkProxyKeyResponse (pk_id k) (pk_display_name k) (auth_mode k) (expires_at k) u
    (allowed_tools k) (denied_tools k) (allowed_servers k) (allowed_tool_names k) (pk_limits k)
    (default_tool_page_size k).

Definition no_usage : KeyUsage := mkKeyUsage 0 0 None None.

Definition resources (c : GatewayConfig) : list ResourceSummaryResponse :=
  from_resource <$> api_resources c.

(** [clock] is the time at which each key is looked at. *)
Definition proxy_keys_list {G : Governor} (clock : string -> Z) (r : LimitRegistry)
    (c : GatewayConfig) : list ProxyKeyResponse :=
  (fun k => from_key k (default no_usage (key_usage_at (pk_id k) (clock (pk_id k)) r)))
    <$> proxy_keys c.

Definition tool_summary (c : ToolCatalog) (t : WrappedTool) : ToolSummaryResponse :=
  mkToolSummaryResponse (wire t) (resource_id t)
    (default (description t) (original_description (wire t) c)) (description_overrides c !! wire t).

Definition tools_list (c : ToolCatalog) : ToolCatalogResponse :=
  mkToolCatalogResponse (length (tools c)) (tool_summary c <$> tools c).

Definition mcp_presets (c : GatewayConfig) : list McpPresetResponse :=
  (fun p => mkMcpPresetResponse p
     (match mcp_server c (pr_id p) with Some _ => true | None => false end
      || existsb (fun id => id =s pr_id p) (builtin_mcp c)) (requires_key p))
    <$> builtin_presets.

(** [to_yaml] prints a configuration. *)
Definition config_export (to_yaml : GatewayConfig -> result string string) (c : GatewayConfig)
    : result AsterlaneError (list (string * string) * string) :=
  yaml ← map_err (fun e => internal ConfigInvalidYaml
                             ("config export serialization failed: " +:+ e)) (to_yaml c);
  Ok ([("content-type", "text/yaml");
       ("content-disposition", "attachment; filename=" +:+ quote +:+ "gateway-export.yaml" +:+ quote)], yaml).

(** ** The check of the configuration ([admin/crud.rs], [admin/types/config.rs]) *)

Inductive ConfigIssueLevel := Level_Error | Level_Warn.

Record ConfigIssueResponse := mkConfigIssueResponse {
  ci_level : ConfigIssueLevel; ci_target : string; ci_message : string }.

Record ConfigValidateResponse := mkConfigValidateResponse {
  cv_valid : bool;
  cv_resource_count : nat;
  cv_proxy_key_count : nat;
  cv_mcp_server_count : nat;
  cv_issues : list ConfigIssueResponse;
}.

(** An issue for every id that was [seen] before. *)
Fixpoint duplicate_issues (kind message : string) (ids : list string) (seen : gset string)
    : list ConfigIssueResponse :=
  match ids with
  | [] => []
  | id :: ids =>
      if bool_decide (id ∈ seen)
      then mkConfigIssueResponse Level_Error (kind +:+ ":" +:+ id) message
             :: duplicate_issues kind message ids seen
      else duplicate_issues kind message ids ({[id]} ∪ seen)
  end.

Definition warn (target message : string) : ConfigIssueResponse :=
  mkConfigIssueResponse Level_Warn target message.

Definition is_error_issue (i : ConfigIssueResponse) : bool :=
  match ci_level i with Level_Error => true | Level_Warn => false end.

Definition scope_issues {RE : RegexEngine} (k : ProxyKey) : list ConfigIssueResponse :=
  omap (fun p => match Regex_new p with
                 | Ok _ => None
                 | Err e => Some (warn ("proxy_key:" +:+ pk_id k) ("invalid regex in scope: " +:+ e))
                 end) (allowed_tools k ++ denied_tools k).

Definition validate_config {RE : RegexEngine} (c : GatewayConfig) : ConfigValidateResponse :=
  let issues :=
    duplicate_issues "resource" "duplicate resource id" (ar_id <$> api_resources c) ∅
    ++ duplicate_issues "proxy_key" "duplicate proxy key id" (pk_id <$> proxy_keys c) ∅
    ++ (proxy_keys c ≫= scope_issues)
    ++ ((fun r => warn ("resource:" +:+ ar_id r) "empty base_url")
          <$> List.filter (fun r => is_empty (base_url r)) (api_resources c))
    ++ ((fun s => warn ("mcp_server:" +:+ ms_id s) "empty url")
          <$> List.filter (fun s => is_empty (ms_url s)) (mcp_servers c)) in
  mkConfigValidateResponse (negb (existsb is_error_issue issues)) (length (api_resources c))
    (length (proxy_keys c)) (length (mcp_servers c)) issues.

(** ** Key pools *)

Inductive KeyRuntimeStateResponse := Runtime_Available | Runtime_Leased | Runtime_Cooling.

Record KeyPoolKeyResponse := mkKeyPoolKeyResponse {
  kp_key_id : string;
  kp_state : KeyRuntimeStateResponse;
  kp_leased_count : Z;
  kp_cooling_remaining_ms : option Z;
  kp_weight : Z;
  kp_ewma_latency_ms : option Z;
  kp_key_ref : string;
}.

Record KeyPoolResponse := mkKeyPoolResponse {
  kpr_resource_id : string;
  kpr_strategy : LoadBalanceStrategy;
  kpr_keys : list KeyPoolKeyResponse;
}.

Definition runtime_state (s : KeyState) : KeyRuntimeStateResponse :=
  if is_cooling s then Runtime_Cooling
  else if 0 <? active_count s then Runtime_Leased else Runtime_Available.

(** Durations are nanoseconds. *)
Definition from_snapshot (s : KeyStatusSnapshot) (secret_ref : option string)
    : KeyPoolKeyResponse :=
  mkKeyPoolKeyResponse (KeyId_to_string (ss_key_id s)) (runtime_state (ss_state s))
    (active_count (ss_state s)) ((fun d => (d / 1000000) mod 2 ^ 64) <$> ss_cooling_remaining s)
    (ss_weight s) (ss_ewma s) (default "" (redact_secret_ref <$> secret_ref)).

Definition pool_view (now : Z) (id : string) (p : ResourceKeyPool) : KeyPoolResponse :=
  mkKeyPoolResponse id (rp_strategy p)
    ((fun s => from_snapshot s (secret_ref_for (ss_key_id s) p)) <$> (snapshot now (rp_pool p)).2).

(** A snapshot ends the cooling of the keys whose time is over. *)
Definition snapshot_pool (now : Z) (p : ResourceKeyPool) : ResourceKeyPool :=
  mkResourceKeyPool (snapshot now (rp_pool p)).1 (rp_strategy p) (refs p).

Definition key_pools (clock : string -> Z) (pools : option KeyPoolRegistry)
    : option KeyPoolRegistry * list KeyPoolResponse :=
  match pools with
  | None => (None, [])
  | Some m =>
      (Some (map_imap (fun id p => Some (snapshot_pool (clock id) p)) m),
       sort_by (fun a b => String.leb (kpr_resource_id a) (kpr_resource_id b))
         ((fun kv => pool_view (clock kv.1) kv.1 kv.2) <$> map_to_list m))
  end.

(** ** Events, usage and totals *)

Record EventsListParams := mkEventsListParams {
  el_limit : option nat;
  el_proxy_key_id : option string;
  el_resource_id : option string;
  el_request_kind : option string;
  el_tool_name : option string;
  el_from : option string;
  el_to : option string;
}.

Record SecurityEventsListParams := mkSecurityEventsListParams {
  sl_limit : option nat; sl_resource_id : option string; sl_kind : option string }.

Record UsageListParams := mkUsageListParams {
  ul_group_by : option string;
  ul_proxy_key_id : option string;
  ul_resource_id : option string;
  ul_from : option string;
  ul_to : option string;
  ul_limit : option nat;
}.

Record UsageResponse := mkUsageResponse { ur_group_by : string; ur_rows : list UsageSummary }.

Definition page_limit (asked : option nat) (usual most : nat) : nat :=
  Nat.min (default usual asked) most.

Section Reading.
Context {SE : Serializers} {JR : JsonReader} {RF : Rfc3339} {DB : Database}.

Definition optional {A B} (f : A -> result AsterlaneError B) (o : option A)
    : result AsterlaneError (option B) :=
  match o with
  | None => Ok None
  | Some a => b ← f a; Ok (Some b)
  end.

Definition read_time (name : string) : option string -> result AsterlaneError (option Z) :=
  optional (fun raw => ok_or (internal AdminInvalidQuery
                                ("invalid " +:+ name +:+ ": expected RFC3339 timestamp"))
                         (parse_rfc3339 raw)).

Definition read_request_kind : option string -> result AsterlaneError (option RequestKind) :=
  optional (fun raw => ok_or (internal AdminInvalidQuery
                                ("invalid request_kind: " +:+ raw +:+ " (expected tool|prompt|resource)"))
                         (kind_parse raw)).

Definition parse_event_kind (raw : string) : result AsterlaneError SecurityEventKind :=
  ok_or (internal AdminInvalidQuery
           ("invalid kind: " +:+ raw +:+ " (expected a security event kind like admin_audit)"))
    (List.find (fun k => encode_security_kind k =s raw) all_security_kinds).

(** A question to the store of events, whose failure is the handler's. *)
Definition ask_events {R} (empty : R) (q : EventStore -> EventStore * result StoreError R)
    (s : option EventStore) : option EventStore * result AsterlaneError R :=
  match s with
  | None => (None, Ok empty)
  | Some s => let '(s, r) := q s in (Some s, map_err store_to_asterlane r)
  end.

Definition events_filter (q : EventsListParams) : result AsterlaneError RequestEventFilter :=
  from ← read_time "from" (el_from q);
  to ← read_time "to" (el_to q);
  kind ← read_request_kind (el_request_kind q);
  Ok (mkRequestEventFilter (el_proxy_key_id q) (el_resource_id q) kind (el_tool_name q) from to).

Definition events (q : EventsListParams) (s : option EventStore)
    : option EventStore * result AsterlaneError (list RequestEvent) :=
  match events_filter q with
  | Err e => (s, Err e)
  | Ok f => ask_events [] (list_events f (page_limit (el_limit q) 50 200)) s
  end.

Definition read_dimension (group_by : string) : result AsterlaneError (option AggregationDimension) :=
  if group_by =s "bucket" then Ok None
  else if group_by =s "proxy_key" then Ok (Some ByProxyKey)
  else if group_by =s "resource" then Ok (Some ByResource)
  else if group_by =s "tool" then Ok (Some ByTool)
  else if group_by =s "status" then Ok (Some ByStatus)
  else if group_by =s "domain" then Ok (Some ByDomain)
  else Err (internal AdminInvalidQuery
              ("invalid group_by: " +:+ group_by
               +:+ " (expected proxy_key|resource|tool|status|domain|bucket)")).

Definition usage (q : UsageListParams) (s : option EventStore)
    : option EventStore * result AsterlaneError UsageResponse :=
  let group_by := default "tool" (ul_group_by q) in
  match (d ← read_dimension group_by;
         from ← read_time "from" (ul_from q);
         to ← read_time "to" (ul_to q);
         Ok (d, mkAggregationFilter (ul_proxy_key_id q) (ul_resource_id q) from to)) with
  | Err e => (s, Err e)
  | Ok (d, f) =>
      let '(s, rows) :=
        ask_events []
          (match d with
           | Some d => summarize_by d f (page_limit (ul_limit q) 20 100)
           | None => series_by_bucket "hour" f (page_limit (ul_limit q) 168 744)
           end) s in
      (s, rows ← rows; Ok (mkUsageResponse group_by rows))
  end.

(** A failure of the store shows as an empty list here. *)
Definition security_events (q : SecurityEventsListParams) (s : option Store)
    : option Store * result AsterlaneError (list SecurityEvent) :=
  match optional parse_event_kind (sl_kind q) with
  | Err e => (s, Err e)
  | Ok kind =>
      match s with
      | None => (None, Ok [])
      | Some s =>
          let '(s, r) := list_security_events
                           (mkSecurityEventFilter (sl_resource_id q) kind None None)
                           (page_limit (sl_limit q) 50 200) s in
          (Some s, Ok (match r with Ok l => l | Err _ => [] end))
      end
  end.

Definition no_stats : OverallStats := mkOverallStats 0 0 0 0 0 (0, 0) 0.

Definition stats (null_integer : result StoreError Z) (s : option EventStore)
    : option EventStore * result AsterlaneError OverallStats :=
  ask_events no_stats (overall_stats null_integer no_filter) s.
End Reading.
