(* ===== verification/AdminReadFacts.v ===== *)
(** * What administrators can see, and who is one

    A token of the configuration is the only way in; the listings are computed without
    any credential; the check of the configuration finds repeated ids, which the
    administration never makes; and no answer is longer than its limit. *)

From S2P Require Import Prelude RustStr Naming Errors Config Policy Secrets Catalog KeyPool Limits.
From S2P Require Import Egress GatewayAuth Render Observe Integrity Overrides HttpTools.
From S2P Require Import OAuthConfig ConfigJson Store ConfigMerge Events Admin AdminFacts AdminRestart McpAdmin AdminRead.
From Stdlib Require Import Ascii.

Local Open Scope string_scope.
Local Open Scope list_scope.
Local Open Scope Z_scope.
Local Open Scope gateway_scope.

(** ** Access *)

Section Access.
Context {H : Sha256} (resolve : SecretRef -> result SecretError string).

(** The digest of the token of a key. *)
Definition key_digest (k : AdminKey) : option string :=
  match (r ← parse_ref (ak_token_ref k); resolve r) with
  | Ok t => Some (sha256 t)
  | Err _ => None
  end.

(** [k] is the last key with the token of that digest. *)
Definition last_with (digest : string) (k : AdminKey) (ks : list AdminKey) : Prop :=
  exists before after, ks = before ++ k :: after /\ key_digest k = Some digest /\
    Forall (fun k' => key_digest k' <> Some digest) after.

Lemma admin_tokens_lookup ks m0 m d id :
  admin_tokens resolve ks m0 = Ok m ->
  m !! d = Some id <->
  (exists k, last_with d k ks /\ ak_id k = id) \/
  (Forall (fun k => key_digest k <> Some d) ks /\ m0 !! d = Some id).
Proof.
  revert m0. induction ks as [|k ks IH]; intros m0 Hm.
  { injection Hm as <-. split.
    - intros E. right. split; [constructor|done].
    - intros [(k & (b & a & E & _) & _)|[_ E]]; [by destruct b|done]. }
  cbn in Hm. apply bind_Ok_inv in Hm as (r & Hr & (t & Ht & Hm)%bind_Ok_inv).
  assert (key_digest k = Some (sha256 t)) as Hk by (unfold key_digest; rewrite Hr; cbn; by rewrite Ht).
  rewrite (IH _ Hm). clear IH Hm. split.
  - intros [(k' & (b & a & -> & Hd & Ha) & <-)|[Hno E]].
    + left. exists k'. split; [|done]. by exists (k :: b), a.
    + apply lookup_insert_Some in E as [[<- <-]|[Hne E]].
      * left. exists k. split; [|done]. by exists [], ks.
      * right. split; [|done]. constructor; [congruence|done].
  - intros [(k' & (b & a & E & Hd & Ha) & <-)|[[Hd Hno]%Forall_cons E]].
    + destruct b as [|k0 b]; injection E as -> ->.
      * right. split; [done|]. assert (d = sha256 t) as -> by congruence. by rewrite lookup_insert_eq.
      * left. exists k'. split; [|done]. by exists b, a.
    + right. split; [done|]. rewrite lookup_insert_ne; [done|congruence].
Qed.

(** The token behind the reference of a key, or the error of reading it. *)
Definition key_secret (k : AdminKey) : result SecretError string :=
  r ← parse_ref (ak_token_ref k); resolve r.

Lemma key_digest_secret k :
  key_digest k = match key_secret k with Ok t => Some (sha256 t) | Err _ => None end.
Proof. done. Qed.

Lemma admin_tokens_reads ks m0 :
  match admin_tokens resolve ks m0 with
  | Ok _ => Forall (fun k => is_Ok (key_secret k) = true) ks
  | Err e => exists before k after, ks = before ++ k :: after /\
      Forall (fun k => is_Ok (key_secret k) = true) before /\ key_secret k = Err e
  end.
Proof.
  revert m0. induction ks as [|k ks IH]; intros m0; [constructor|]. cbn [admin_tokens].
  assert (key_secret k = r ← parse_ref (ak_token_ref k); resolve r) as Ek by done.
  destruct (parse_ref (ak_token_ref k)) as [r|e]; cbn [mbind result_bind] in Ek |- *;
    [|exists [], k, ks; by rewrite Ek].
  destruct (resolve r) as [t|e]; cbn [mbind result_bind] in Ek |- *; [|exists [], k, ks; by rewrite Ek].
  specialize (IH (<[sha256 t := ak_id k]> m0)). destruct (admin_tokens resolve ks _) as [m|e].
  - constructor; [by rewrite Ek|done].
  - destruct IH as (before & k' & after & -> & Hb & He). exists (k :: before), k', after.
    split; [done|]. split; [|done]. constructor; [by rewrite Ek|done].
Qed.
End Access.

(** C32: nobody is an administrator without the token of a configured admin key.  Once
    the admin keys of a configuration have been read, every one of them was, and a
    request passes as [id] exactly when it presents a token, not an empty one, whose
    digest is that of the secret behind some admin key, and [id] is the last such key;
    so without admin keys nobody passes.  When a key's reference or secret cannot be
    read, no access is set up at all: reading ends with the error of the first such
    key. *)
Theorem admin_token_required {H : Sha256} resolve c :
  match admin_auth_from_config c resolve with
  | Ok auth =>
      Forall (fun k => is_Ok (key_secret resolve k) = true) (admin_keys c) /\
      forall authorization id,
        require_admin auth authorization = Ok id <->
        exists token k, authorization = Some ("Bearer " +:+ token) /\ token <> "" /\
          last_with resolve (sha256 token) k (admin_keys c) /\ ak_id k = id
  | Err e =>
      exists before k after, admin_keys c = before ++ k :: after /\
        Forall (fun k => is_Ok (key_secret resolve k) = true) before /\ key_secret resolve k = Err e
  end.
Proof.
  unfold admin_auth_from_config. pose proof (admin_tokens_reads resolve (admin_keys c) ∅) as Hr.
  destruct (admin_keys c) as [|k0 ks] eqn:Ek.
  { split; [constructor|]. intros authorization id. split; [done|].
    intros (t & k & _ & _ & (b & a & E & _) & _). by destruct b. }
  destruct (admin_tokens resolve (k0 :: ks) ∅) as [m|e] eqn:Hm; cbn [mbind result_bind]; [|exact Hr].
  split; [exact Hr|]. intros authorization id.
  pose proof (fun d => admin_tokens_lookup _ _ _ _ d id Hm) as L.
  unfold require_admin. split.
  - intros E%ok_or_Ok_inv. apply bind_Some in E as (t & Ht & Hv). unfold bearer_token in Ht.
    apply bind_Some in Ht as (v & -> & ->%strip_prefix_Some). unfold verify in Hv. case_if_in Hv; [done|].
    apply L in Hv as [(k & Hl & <-)|[_ Hv]]; [|by rewrite lookup_empty in Hv].
    exists t, k. split; [done|]. split; [|done]. by intros ->.
  - intros (t & k & -> & Ht & Hl & <-). unfold bearer_token. cbn [mbind option_bind].
    rewrite (proj2 (strip_prefix_Some "Bearer " _ _) eq_refl). cbn. unfold verify.
    destruct t as [|a t]; [done|]. cbn [is_empty]. cbn [at_tokens].
    rewrite (proj2 (L _)); [done|]. left. eauto.
Qed.

Definition two_admins : AdminConfig :=
  mkAdminConfig [mkAdminKey "old" "secret://env/A"; mkAdminKey "ops" "secret://env/A"].

Definition two_admins_auth : option AdminAuth :=
  Some (mkAdminAuth (<[sha256 (Sha256 := block_sha) "s3cret" := "ops"]>
                       (<[sha256 (Sha256 := block_sha) "s3cret" := "old"]> ∅))).

Lemma admin_token_required_witness :
  admin_auth_from_config (H := block_sha) two_admins (fun _ => Ok "s3cret") = Ok two_admins_auth /\
  require_admin (H := block_sha) two_admins_auth (Some "Bearer s3cret") = Ok "ops" /\
  exists token k, Some "Bearer s3cret" = Some ("Bearer " +:+ token) /\ token <> "" /\
    last_with (H := block_sha) (fun _ => Ok "s3cret") (sha256 (Sha256 := block_sha) token) k
      (admin_keys two_admins) /\ ak_id k = "ops".
Proof.
  assert (admin_auth_from_config (H := block_sha) two_admins (fun _ => Ok "s3cret") = Ok two_admins_auth)
    as E by (vm_compute; reflexivity).
  split; [exact E|]. split; [vm_compute; reflexivity|].
  pose proof (admin_token_required (H := block_sha) (fun _ => Ok "s3cret") two_admins) as W.
  rewrite E in W. apply (proj2 W). vm_compute; reflexivity.
Defined.

(** ** The check of the configuration *)

Lemma duplicate_issues_none kind message ids seen :
  duplicate_issues kind message ids seen = [] <-> NoDup ids /\ Forall (fun id => id ∉ seen) ids.
Proof.
  revert seen. induction ids as [|id ids IH]; intros seen; cbn.
  { split; [|done]. intros _. split; constructor. }
  rewrite NoDup_cons, Forall_cons. case_bool_decide as E; [naive_solver|].
  rewrite IH, !Forall_forall. set_solver.
Qed.

Lemma duplicate_issues_errors kind message ids seen :
  existsb is_error_issue (duplicate_issues kind message ids seen)
  = negb (bool_decide (duplicate_issues kind message ids seen = [])).
Proof.
  revert seen. induction ids as [|id ids IH]; intros seen; [done|]. cbn. by case_bool_decide.
Qed.

Lemma existsb_no_errors l :
  Forall (fun i => is_error_issue i = false) l -> existsb is_error_issue l = false.
Proof. induction 1 as [|i l Hi _ IH]; [done|]. cbn. by rewrite Hi, IH. Qed.

Lemma validate_spec {RE : RegexEngine} c :
  cv_valid (validate_config c) = true <->
  NoDup (ar_id <$> api_resources c) /\ NoDup (pk_id <$> proxy_keys c).
Proof.
  unfold validate_config. cbn [cv_valid]. rewrite !existsb_app, !duplicate_issues_errors.
  rewrite (existsb_no_errors (proxy_keys c ≫= scope_issues)).
  2: { apply Forall_bind, Forall_forall. intros k _. apply Forall_forall. unfold scope_issues.
       intros i (p & _ & Hp)%list_elem_of_omap. destruct (Regex_new p); [done|]. by injection Hp as <-. }
  rewrite !existsb_no_errors by (apply Forall_fmap, Forall_forall; done).
  rewrite !orb_false_r, negb_true_iff, orb_false_iff, !negb_false_iff, !bool_decide_eq_true.
  rewrite !duplicate_issues_none, !Forall_forall. set_solver.
Qed.

Section Writes.
Context {G : Governor} {SHA : Sha256} {OA : OpenApiSource} {SE : Serializers} {JR : JsonReader}
  {RF : Rfc3339} {DB : Database} {AE : AdminEnv}.

Definition write_step (a a' : AdminState) : Prop :=
  exists admin w r, run_write admin w a = Returns (a', r).

(** A creation that succeeds is of a new id. *)
Definition new_ids (w : admin_write) (c : GatewayConfig) : Prop :=
  match w with
  | CreateResource i => rw_id i ∉ ar_id <$> api_resources c
  | CreateProxyKey i => kw_id i ∉ pk_id <$> proxy_keys c
  | _ => True
  end.

Lemma not_existing {A} (key : A -> string) id l :
  existsb (fun x => key x =s id) l = false -> id ∉ key <$> l.
Proof.
  rewrite existsb_false. intros E (x & -> & Hx)%list_elem_of_fmap. specialize (E x Hx).
  by rewrite String.eqb_refl in E.
Qed.

Lemma created_new admin w a a' :
  run_write admin w a = Returns (a', Ok tt) -> new_ids w (ad_config a).
Proof.
  destruct w; cbn [run_write new_ids]; try done.
  - intros (x & Hr & Hx)%no_answer_inv. revert Hr. unfold create_resource.
    destruct (has_resource _ _) eqn:E; [intros [= _ <-]; discriminate Hx|].
    intros _. by apply not_existing.
  - intros (x & Hr & Hx)%no_answer_inv. revert Hr. unfold create_proxy_key.
    destruct (has_key _ _) eqn:E; [intros [= _ <-]; discriminate Hx|].
    intros _. by apply not_existing.
Qed.

Lemma NoDup_created {A} (key : A -> string) l x :
  NoDup (key <$> l) -> key x ∉ key <$> l -> NoDup (key <$> (l ++ [x])).
Proof.
  intros Hl Hx. rewrite fmap_app. apply NoDup_app. split; [done|]. split; [|apply NoDup_singleton].
  set_solver.
Qed.

Lemma NoDup_dropped {A} (key : A -> string) p l :
  NoDup (key <$> l) -> NoDup (key <$> List.filter p l).
Proof.
  induction l as [|x l IH]; [done|]. cbn. intros [Hx Hl]%NoDup_cons. destruct (p x); [|by apply IH].
  apply NoDup_cons. split; [|by apply IH]. intros (y & E & [Hy _]%filter_elem)%list_elem_of_fmap.
  apply Hx. rewrite E. by apply list_elem_of_fmap_2.
Qed.

Lemma edited_unique w c :
  NoDup (ar_id <$> api_resources c) -> NoDup (pk_id <$> proxy_keys c) -> new_ids w c ->
  NoDup (ar_id <$> edited_resources w (api_resources c)) /\
  NoDup (pk_id <$> edited_keys w (proxy_keys c)).
Proof.
  intros Hr Hk Hn. destruct w; cbn [edited_resources edited_keys]; split;
    try rewrite update_first_ids by done; auto using NoDup_dropped;
    by apply NoDup_created.
Qed.

Lemma write_step_unique {RE : RegexEngine} a a' :
  write_step a a' -> cv_valid (validate_config (ad_config a)) = true ->
  cv_valid (validate_config (ad_config a')) = true.
Proof.
  intros (admin & w & r & Hw). pose proof (run_write_atomic _ _ _ _ _ Hw) as A.
  destruct r as [[]|e].
  - apply created_new in Hw. rewrite !validate_spec, (sw_config _ _ _ A). intros [Hr Hk].
    by apply edited_unique.
  - destruct A as [(-> & _) _]. done.
Qed.
End Writes.

(** C33: The administration keeps a configuration free of errors: the check of the
    configuration finds no error exactly when no two resources and no two keys have the
    same id, and if it finds none, it finds none after any sequence of changes, refused
    and failed ones included. *)
Theorem writes_keep_valid {RE : RegexEngine} {G : Governor} {SHA : Sha256} {OA : OpenApiSource}
    {SE : Serializers} {JR : JsonReader} {RF : Rfc3339} {DB : Database} {AE : AdminEnv} a a' :
  (cv_valid (validate_config (ad_config a)) = true <->
   NoDup (ar_id <$> api_resources (ad_config a)) /\ NoDup (pk_id <$> proxy_keys (ad_config a))) /\
  (rtc write_step a a' -> cv_valid (validate_config (ad_config a)) = true ->
   cv_valid (validate_config (ad_config a')) = true).
Proof.
  split; [apply validate_spec|]. induction 1 as [|a b c Hab _ IH]; [done|]. intros Ha.
  by apply IH, (write_step_unique a b).
Qed.

Definition two_creations : AdminState (G := open_governor) :=
  Eval vm_compute in
    demo_write (CreateProxyKey (demo_params "a")) (demo_write (CreateProxyKey (demo_params "a")) demo_admin).

Lemma writes_keep_valid_witness :
  pk_id <$> proxy_keys (ad_config two_creations) = ["a"] /\
  cv_valid (validate_config (RE := literal_engine) (ad_config two_creations)) = true.
Proof.
  split; [vm_compute; reflexivity|].
  apply (writes_keep_valid (RE := literal_engine) (G := open_governor) (SHA := block_sha)
    (OA := no_openapi) (SE := stream_serializers) (JR := stream_reader) (RF := binary_times)
    (DB := steady_db) (AE := demo_env) demo_admin two_creations).
  - do 2 (eapply rtc_l; [exists "root", (CreateProxyKey (demo_params "a")); eexists;
                         vm_compute; reflexivity|]). apply rtc_refl.
  - vm_compute. reflexivity.
Defined.

(** ** Credentials *)

Definition hide_auth (a : UpstreamAuth) : UpstreamAuth :=
  match a with
  | AuthNone => AuthNone
  | AuthBearer _ => AuthBearer ""
  | AuthHeader _ _ => AuthHeader "" ""
  | AuthOAuth g _ _ _ => AuthOAuth g None None []
  end.

Definition hide_pool_config (p : KeyPoolConfig) : KeyPoolConfig :=
  mkKeyPoolConfig (strategy p) ((fun k => mkPoolKeyConfig "" (weight k)) <$> keys p).

Definition hide_resource (r : ApiResource) : ApiResource :=
  mkApiResource (ar_id r) (ar_domain r) (ar_provider r) (base_url r) (ar_description r)
    (hide_auth (ar_auth r)) (hide_pool_config <$> key_pool r) (endpoints r) (discovery r)
    (ar_security r) (ar_limits r).

(** Whether a key has a token stays visible. *)
Definition hide_key (k : ProxyKey) : ProxyKey :=
  mkProxyKey (pk_id k) (pk_display_name k) (allowed_tools k) (denied_tools k) (allowed_servers k)
    (allowed_tool_names k) (pk_limits k)
    (match auth_mode k with AuthMode_Token => Some "" | AuthMode_Legacy => None end) None
    (expires_at k) (default_tool_page_size k) (discovery_mode k) (pk_response_format k).

Definition hide_server (s : McpServerConfig) : McpServerConfig :=
  mkMcpServerConfig (ms_id s) (ms_domain s) (ms_provider s) (ms_url s) (ms_description s)
    (hide_auth (ms_auth s)) (ms_security s) (health_check_enabled s) (ms_limits s).

(** The configuration without references to secrets and without digests. *)
Definition hide (c : GatewayConfig) : GatewayConfig :=
  mkGatewayConfig (default_response_format c) (observability c) (http c) (mcp c) None
    (block_private_addresses c) (hide_resource <$> api_resources c) (builtin_mcp c)
    (hide_server <$> mcp_servers c) (hide_key <$> proxy_keys c).

(** A pool that knows of its references only the backend. *)
Definition hide_pool (p : ResourceKeyPool) : ResourceKeyPool :=
  mkResourceKeyPool (rp_pool p) (rp_strategy p) (redact_secret_ref <$> refs p).

Lemma redact_twice r : redact_secret_ref (redact_secret_ref r) = redact_secret_ref r.
Proof.
  unfold redact_secret_ref at 2 3. destruct (strip_prefix "secret://" r) as [rest|]; [|done].
  destruct (split_once "/"%char rest) as [[p q]|] eqn:E; [|done].
  destruct (is_empty p) eqn:Ep; [done|]. apply split_once_Some in E as [_ Hp].
  unfold redact_secret_ref. rewrite (proj2 (strip_prefix_Some "secret://" _ _) eq_refl).
  rewrite (split_once_app "/"%char p ""); [|done]. by rewrite Ep.
Qed.

Lemma from_resource_hidden r : from_resource (hide_resource r) = from_resource r.
Proof.
  destruct r as [id d p b de a kp ep di se li]. unfold from_resource. cbn. f_equal.
  - by destruct a.
  - destruct kp; [|done]. cbn. by rewrite length_fmap.
Qed.

Lemma auth_mode_hidden k : auth_mode (hide_key k) = auth_mode k.
Proof. unfold hide_key. cbn. unfold auth_mode at 1. cbn. by destruct (auth_mode k). Qed.

Lemma from_key_hidden k u : from_key (hide_key k) u = from_key k u.
Proof. unfold from_key. by rewrite auth_mode_hidden. Qed.

Lemma pool_view_hidden now id p : pool_view now id (hide_pool p) = pool_view now id p.
Proof.
  unfold pool_view. cbn. f_equal. apply list_fmap_ext. intros i s _. unfold from_snapshot. f_equal.
  unfold secret_ref_for. case_if; [done|]. cbn. rewrite list_lookup_fmap.
  destruct (refs p !! _); [|done]. cbn. apply redact_twice.
Qed.

Lemma find_hidden id l :
  is_Some (List.find (fun s => ms_id s =s id) (hide_server <$> l))
  <-> is_Some (List.find (fun s => ms_id s =s id) l).
Proof. induction l as [|s l IH]; [done|]. cbn. by case_if. Qed.

(** C34: The listings hold no credential: what administrators read of resources, keys,
    presets and key pools, and the summary of the configuration that agents read, is the
    same as it would be of a gateway whose configuration has no reference to a secret
    and no digest, and whose pools know only the backend of each reference. *)
Theorem listings_hide_credentials {G : Governor} clock r c now (pools : KeyPoolRegistry) :
  AdminRead.resources (hide c) = AdminRead.resources c /\
  proxy_keys_list clock r (hide c) = proxy_keys_list clock r c /\
  mcp_presets (hide c) = mcp_presets c /\
  config_summary (hide c) = config_summary c /\
  (key_pools now (Some (hide_pool <$> pools))).2 = (key_pools now (Some pools)).2.
Proof.
  split_and!.
  - unfold AdminRead.resources. cbn. rewrite <- list_fmap_compose. apply list_fmap_ext.
    intros. apply from_resource_hidden.
  - unfold proxy_keys_list. cbn. rewrite <- list_fmap_compose. apply list_fmap_ext.
    intros. apply from_key_hidden.
  - unfold mcp_presets. apply list_fmap_ext. intros i p _. f_equal. f_equal.
    pose proof (find_hidden (pr_id p) (mcp_servers c)) as F. unfold mcp_server. cbn.
    do 2 case_match; try done; exfalso; destruct F as [F1 F2]; naive_solver.
  - unfold config_summary. cbn. rewrite <- !list_fmap_compose. f_equal; apply list_fmap_ext; done.
  - cbn. f_equal. rewrite map_to_list_fmap, <- list_fmap_compose. apply list_fmap_ext.
    intros i [id p] _. apply pool_view_hidden.
Qed.

(** ** Limits *)

Lemma try_map_length {E A B} (f : A -> result E B) l r : try_map f l = Ok r -> length r = length l.
Proof. intros H%try_map_Ok. symmetry. by eapply Forall2_length. Qed.

Section Limits.
Context {SE : Serializers} {JR : JsonReader} {RF : Rfc3339} {DB : Database}.

(** A question whose answers have [n] rows at most. *)
Definition bounded_question {S R E} (n : nat) (q : S -> S * result E (list R)) : Prop :=
  forall s s' l, q s = (s', Ok l) -> (length l <= n)%nat.

Lemma event_statement_value {A} (f : EventStore -> EventStore * A) s s' a :
  event_statement f s = (s', Ok a) -> exists s0, a = (f s0).2.
Proof.
  unfold event_statement. destruct (db_failure _); [done|].
  destruct (f _) as [s1 x] eqn:E. intros [= _ <-]. eexists. by rewrite E.
Qed.

Lemma list_events_bounded f n : bounded_question n (list_events f n).
Proof.
  intros s s' l. unfold list_events. destruct (event_statement _ s) as [s1 [rows|e]] eqn:E; [|done].
  intros [= _ Hl]. apply event_statement_value in E as (s0 & ->).
  apply try_map_length in Hl. rewrite Hl. cbn. rewrite length_take. lia.
Qed.

Lemma summarize_bounded d f n : bounded_question n (summarize_by d f n).
Proof.
  intros s s' l. unfold summarize_by. destruct (event_statement _ s) as [s1 [rows|e]] eqn:E; [|done].
  intros [= _ Hl]. apply event_statement_value in E as (s0 & ->).
  apply try_map_length in Hl. rewrite Hl. cbn. rewrite length_take. lia.
Qed.

Lemma series_bounded g f n : bounded_question n (series_by_bucket g f n).
Proof.
  intros s s' l. unfold series_by_bucket. intros (s0 & ->)%event_statement_value. cbn.
  rewrite length_fmap, length_take. lia.
Qed.

Lemma security_bounded f n : bounded_question n (list_security_events f n).
Proof.
  intros s s' l. unfold list_security_events, statement. destruct (db_failure _); [done|].
  intros [= _ Hl]. apply try_map_length in Hl. rewrite Hl, length_take. lia.
Qed.

Lemma ask_events_bounded {R} n (q : EventStore -> EventStore * result StoreError (list R)) s s' l :
  bounded_question n q -> ask_events [] q s = (s', Ok l) -> (length l <= n)%nat.
Proof.
  intros Hq. destruct s as [s|]; cbn; [|intros [= _ <-]; cbn; lia].
  destruct (q s) as [s1 [rows|e]] eqn:E; [|done]. intros [= _ <-]. by eapply Hq.
Qed.
End Limits.

(** No answer is longer than its limit, whatever the store holds: at most 200 request
    events, 200 security events, 100 summaries and 744 hours, and no more than the
    request asked for. *)
Theorem answers_bounded {SE : Serializers} {JR : JsonReader} {RF : Rfc3339} {DB : Database} :
  (forall q s s' l, events q s = (s', Ok l) ->
     (length l <= 200 /\ forall n, el_limit q = Some n -> length l <= n)%nat) /\
  (forall q s s' l, security_events q s = (s', Ok l) ->
     (length l <= 200 /\ forall n, sl_limit q = Some n -> length l <= n)%nat) /\
  (forall q s s' u, usage q s = (s', Ok u) ->
     (length (ur_rows u) <= (if AdminRead.ur_group_by u =s "bucket" then 744 else 100) /\
      forall n, ul_limit q = Some n -> length (ur_rows u) <= n)%nat).
Proof.
  assert (forall asked usual most k, (k <= page_limit asked usual most)%nat ->
    (k <= most /\ forall n, asked = Some n -> k <= n)%nat) as Hp.
  { unfold page_limit. intros [a|] usual most k Hk; cbn in Hk; split; try lia; intros n [= ->]; lia. }
  split_and!; intros q s s' l.
  - unfold events. destruct (events_filter q) as [f|e]; [|done].
    intros H. eapply Hp, ask_events_bounded; [apply list_events_bounded|exact H].
  - unfold security_events. destruct (optional _ _) as [k|e]; [|done].
    intros H. apply (Hp _ 50%nat). destruct s as [s|]; [|injection H as _ <-; cbn; lia].
    destruct (list_security_events _ _ s) as [s1 [rows|e]] eqn:E; injection H as _ <-; [|cbn; lia].
    by eapply security_bounded.
  - unfold usage. destruct (read_dimension _) as [d|e] eqn:Ed; [|done].
    destruct (read_time "from" _) as [from|e]; [|done]. destruct (read_time "to" _) as [to|e]; [|done].
    cbn [mbind result_bind].
    destruct (ask_events _ _ s) as [s1 [rows|e]] eqn:E; [|done]. intros [= _ <-]. cbn.
    assert (d = None <-> default "tool" (ul_group_by q) = "bucket") as Hd.
    { unfold read_dimension in Ed. destruct (String.eqb_spec (default "tool" (ul_group_by q)) "bucket");
        [naive_solver|]. repeat case_match; naive_solver. }
    destruct d as [d|].
    + rewrite (proj2 (String.eqb_neq _ _)) by naive_solver.
      eapply Hp, ask_events_bounded; [apply summarize_bounded|exact E].
    + rewrite (proj2 (String.eqb_eq _ _)) by naive_solver.
      eapply Hp, ask_events_bounded; [apply series_bounded|exact E].
Qed.
