(* ===== verification/Routes.v ===== *)
(** * The HTTP server around the handlers ([http/mod.rs], [admin/mod.rs],
    [admin/oauth.rs], [http/boundary.rs], [http/request_id.rs], [http/error.rs])

    Which handler a request reaches and with what credentials, and what happens to its
    answer on the way out: the error envelope with the request id, the time limit, the
    limit on bodies and the security headers.  The path matcher, the decoding of path
    parameters and the framework's own refusals are axum's. *)

From S2P Require Import Prelude RustStr Naming Errors Config GatewayAuth Render HttpTools.
From S2P Require Import Observe AdminFacts AdminRead.
From Stdlib Require Import Ascii.

Local Open Scope string_scope.
Local Open Scope list_scope.
Local Open Scope Z_scope.
Local Open Scope gateway_scope.

(** ** Handlers *)

Inductive Method := GET | HEAD | POST | PUT | DELETE | Extension (name : string).
#[export] Instance Method_eq_dec : EqDecision Method.
Proof. solve_decision. Defined.

(** The handlers of [/admin], by module and function. *)
Inductive AdminHandler :=
| Read_health | Read_resources | Read_proxy_keys | Read_config_export | Read_tools
| Read_mcp_presets | Read_events | Read_security_events | Read_stats | Read_usage | Read_key_pools
| Crud_create_resource | Crud_update_resource | Crud_delete_resource
| Crud_create_proxy_key | Crud_update_proxy_key | Crud_delete_proxy_key | Crud_validate_config
| Tokens_issue_token | Tokens_revoke_token
| Defaults_list_defaults | Defaults_get_default | Defaults_put_default | Defaults_delete_default
| Defaults_invoke_tool_debug
| Metadata_list_metadata | Metadata_get_metadata | Metadata_put_metadata
| Metadata_delete_metadata
| Mcp_list_servers | Mcp_create_server | Mcp_get_server | Mcp_update_server | Mcp_delete_server
| Mcp_probe_server
| OAuth_authorize | OAuth_deauthorize.

Inductive Handler :=
| Healthz | Versionz | Metrics
| Get_config | List_tools | Invoke_tool | Oauth_callback
| Mcp_service
| Admin (h : AdminHandler).

(** ** Routes *)

(** The part of the router a route belongs to, which decides its layers. *)
Inductive Zone := PublicZone | ApiZone | AdminZone | McpZone.

Inductive Service A :=
| Methods (handlers : list (Method * A))
| AnyMethod (a : A).
Arguments Methods {A} handlers.
Arguments AnyMethod {A} a.

Record Route := mkRoute { r_path : string; r_zone : Zone; r_service : Service Handler }.

(** [admin::oauth::router]. *)
Definition oauth_router : list (string * list (Method * AdminHandler)) :=
  [ ("/mcp-servers/{id}/oauth/authorize", [(POST, OAuth_authorize)]);
    ("/mcp-servers/{id}/oauth", [(DELETE, OAuth_deauthorize)]) ].

(** [admin::router]. *)
Definition admin_router : list (string * list (Method * AdminHandler)) :=
  [ ("/health", [(GET, Read_health)]);
    ("/resources", [(GET, Read_resources); (POST, Crud_create_resource)]);
    ("/resources/{id}", [(PUT, Crud_update_resource); (DELETE, Crud_delete_resource)]);
    ("/proxy-keys", [(GET, Read_proxy_keys); (POST, Crud_create_proxy_key)]);
    ("/proxy-keys/{id}", [(PUT, Crud_update_proxy_key); (DELETE, Crud_delete_proxy_key)]);
    ("/proxy-keys/{id}/token", [(POST, Tokens_issue_token); (DELETE, Tokens_revoke_token)]);
    ("/config/validate", [(GET, Crud_validate_config)]);
    ("/config/export", [(GET, Read_config_export)]);
    ("/tools", [(GET, Read_tools)]);
    ("/tool-defaults", [(GET, Defaults_list_defaults)]);
    ("/tools/{name}/defaults",
      [(GET, Defaults_get_default); (PUT, Defaults_put_default); (DELETE, Defaults_delete_default)]);
    ("/tools/{name}/invoke", [(POST, Defaults_invoke_tool_debug)]);
    ("/tool-metadata", [(GET, Metadata_list_metadata)]);
    ("/tools/{name}/metadata",
      [(GET, Metadata_get_metadata); (PUT, Metadata_put_metadata);
       (DELETE, Metadata_delete_metadata)]);
    ("/mcp-servers", [(GET, Mcp_list_servers); (POST, Mcp_create_server)]);
    ("/mcp-servers/{id}",
      [(GET, Mcp_get_server); (PUT, Mcp_update_server); (DELETE, Mcp_delete_server)]);
    ("/mcp-servers/{id}/probe", [(POST, Mcp_probe_server)]) ]
  ++ oauth_router ++
  [ ("/mcp-presets", [(GET, Read_mcp_presets)]);
    ("/events", [(GET, Read_events)]);
    ("/security-events", [(GET, Read_security_events)]);
    ("/stats", [(GET, Read_stats)]);
    ("/usage", [(GET, Read_usage)]);
    ("/key-pools", [(GET, Read_key_pools)]) ].

(** [Router::nest] for the routes of the administration. *)
Definition nest (prefix : string) (rs : list (string * list (Method * AdminHandler)))
    : list Route :=
  (fun r => mkRoute (prefix +:+ r.1) AdminZone
              (Methods ((fun m => (m.1, Admin m.2)) <$> r.2))) <$> rs.

Definition OAUTH_CALLBACK_PATH : string := "/oauth/callback".

(** What the server holds for its requests; [sv_upstream_oauth]: whether it is there. *)
Record Server := mkServer {
  sv_gateway_auth : GatewayAuth;
  sv_admin_auth : option AdminAuth;
  sv_upstream_oauth : bool;
  sv_http : HttpServerConfig;
}.

(** The routes of [build_app_with_ct].  [nest_service] matches the prefix, the prefix
    with a slash, and all below. *)
Definition api_routes (s : Server) : list Route :=
  [ mkRoute "/config" ApiZone (Methods [(GET, Get_config)]);
    mkRoute "/v1/tools" ApiZone (Methods [(GET, List_tools)]);
    mkRoute "/v1/tools/{name}/invoke" ApiZone (Methods [(POST, Invoke_tool)]) ]
  ++ match sv_admin_auth s with
     | Some _ =>
         nest "/admin" admin_router
         ++ (if sv_upstream_oauth s
             then [mkRoute OAUTH_CALLBACK_PATH ApiZone (Methods [(GET, Oauth_callback)])] else [])
     | None => []
     end.

Definition public_routes : list Route :=
  [ mkRoute "/healthz" PublicZone (Methods [(GET, Healthz)]);
    mkRoute "/versionz" PublicZone (Methods [(GET, Versionz)]);
    mkRoute "/metrics" PublicZone (Methods [(GET, Metrics)]) ].

Definition mcp_routes : list Route :=
  [ mkRoute "/mcp" McpZone (AnyMethod Mcp_service);
    mkRoute "/mcp/" McpZone (AnyMethod Mcp_service);
    mkRoute "/mcp/{*rest}" McpZone (AnyMethod Mcp_service) ].

Definition routes (s : Server) : list Route := public_routes ++ api_routes s ++ mcp_routes.

(** ** The framework *)

(** [s.split(c)]. *)
Fixpoint split_char (c : ascii) (s : string) : list string :=
  match s with
  | "" => [""]
  | String a s =>
      if Ascii.eqb a c then "" :: split_char c s
      else match split_char c s with
           | [] => [String a ""]
           | w :: ws => String a w :: ws
           end
  end.

Notation slash := "/"%char.

(** A pattern by its segments: fixed, [{id}] or [{*rest}]. *)
Inductive Segment := Static (s : string) | Capture | Wildcard.

Definition segment (s : string) : Segment :=
  if starts_with "{*" s then Wildcard else if starts_with "{" s then Capture else Static s.

Definition pattern_segments (p : string) : list Segment := segment <$> split_char slash p.

(** What a pattern captures of the segments of a path, when it matches: a parameter is
    one segment, and not empty. *)
Fixpoint captures (ps : list Segment) (path : list string) : option (list string) :=
  match ps, path with
  | [], [] => Some []
  | [Wildcard], _ => let rest := join "/" path in if is_empty rest then None else Some [rest]
  | Static s :: ps, x :: path => if s =s x then captures ps path else None
  | Capture :: ps, x :: path =>
      if is_empty x then None else l ← captures ps path; Some (x :: l)
  | _, _ => None
  end.

(** axum: [match_path] picks the pattern of a path, [percent_bytes]
    undoes the escapes of a parameter, [rejection] gives the answers 400, 404 and 405. *)
Class Axum := {
  match_path : list string -> string -> option string;
  percent_bytes : string -> string;
  rejection : Z -> HttpResponse;
}.

Class AxumLaws (AX : Axum) : Prop := {
  match_path_sound ps path p :
    match_path ps path = Some p ->
    p ∈ ps /\ is_Some (captures (pattern_segments p) (split_char slash path));
  match_path_complete ps path p :
    p ∈ ps -> is_Some (captures (pattern_segments p) (split_char slash path)) ->
    is_Some (match_path ps path);
  percent_nil : percent_bytes "" = "";
  percent_plain c s : c <> "%"%char -> percent_bytes (String c s) = String c (percent_bytes s);
  percent_escape a b hi lo s :
    to_digit16 a = Some hi -> to_digit16 b = Some lo ->
    percent_bytes (String "%" (String a (String b s)))
    = String (chr (16 * hi + lo)) (percent_bytes s);
  rejection_status n : hr_status (rejection n) = n;
}.

(** ** Dispatch *)

Record Request := mkRequest {
  rt_method : Method;
  rt_path : string;
  rt_authorization : option string;
  (** [X-Request-Id], when it is visible ASCII *)
  rt_request_id : option string;
}.

(** Whom the layers found the request to come from; open mode has no gateway key. *)
Inductive Caller := Anonymous | AdminCaller (id : string) | KeyCaller (id : option string).

Inductive Dispatch :=
| NoRoute
| Refused (e : AsterlaneError)
| NoMethod
| BadPath
| Runs (z : Zone) (h : Handler) (params : list string) (c : Caller).

(** [get] also answers [HEAD]. *)
Definition pick {A} (s : Service A) (m : Method) : option A :=
  match s with
  | AnyMethod a => Some a
  | Methods l =>
      let m := if bool_decide (m = HEAD) then GET else m in
      snd <$> List.find (fun h => bool_decide (h.1 = m)) l
  end.

Section Serving.
Context {SHA : Sha256} {AX : Axum} {SE : Serializers}.

Definition path_param (raw : string) : option string :=
  let s := percent_bytes raw in if utf8_valid s then Some s else None.

(** The layers [require_admin] and [require_mcp_auth]. *)
Definition authorize (s : Server) (z : Zone) (req : Request) (now : Z)
    : result AsterlaneError Caller :=
  match z with
  | AdminZone => id ← require_admin (sv_admin_auth s) (rt_authorization req); Ok (AdminCaller id)
  | McpZone =>
      k ← require_mcp_auth (rt_authorization req) now (sv_gateway_auth s); Ok (KeyCaller k)
  | PublicZone | ApiZone => Ok Anonymous
  end.

Definition find_route (rs : list Route) (path : string) : option (Route * list string) :=
  p ← match_path (r_path <$> rs) path;
  r ← List.find (fun r => r_path r =s p) rs;
  raw ← captures (pattern_segments p) (split_char slash path);
  Some (r, raw).

Definition dispatch (s : Server) (req : Request) (now : Z) : Dispatch :=
  match find_route (routes s) (rt_path req) with
  | None => NoRoute
  | Some (r, raw) =>
      match authorize s (r_zone r) req now with
      | Err e => Refused e
      | Ok c =>
          match r_service r with
          | AnyMethod h => Runs (r_zone r) h [] c
          | Methods _ as methods =>
              match pick methods (rt_method req) with
              | None => NoMethod
              | Some h =>
                  match mapM path_param raw with
                  | None => BadPath
                  | Some ps => Runs (r_zone r) h ps c
                  end
              end
          end
      end
  end.

(** ** Request ids ([http/request_id.rs]) *)

Definition MAX_CLIENT_REQUEST_ID_LEN : nat := 64.

(** [char::is_control] on the text of a header, which is ASCII. *)
Definition is_control (c : ascii) : bool := (code c <? 32) || (code c =? 127).

Fixpoint keep_visible (room : nat) (s : string) : string :=
  match room, s with
  | O, _ => ""
  | _, "" => ""
  | S n, String c s => if is_control c then keep_visible room s else String c (keep_visible n s)
  end.

Definition sanitize_client_request_id (raw : string) : option string :=
  let out := keep_visible MAX_CLIENT_REQUEST_ID_LEN (trim raw) in
  if is_empty out then None else Some out.

(** [attach_request_id]: the id of the request; [next] is a fresh one. *)
Definition attach_request_id (req : Request) (next : string) : string :=
  default next (raw ← rt_request_id req; sanitize_client_request_id raw).

(** ** Errors ([http/error.rs]) *)

Definition error_envelope (code : ErrorCode) (message request_id : string) : JSON :=
  JObject [("error", JObject [("code", JString (Errors.as_str code)); ("message", JString message);
                              ("request_id", JString request_id)])].

(** [IntoResponse for AsterlaneError] in the scope of a request id. *)
Definition into_response (request_id : string) (e : AsterlaneError) : HttpResponse :=
  let view := http_response e in
  mkHttpResponse (if in_range 100 999 (hv_status view) then hv_status view else 500)
    (Some "application/json")
    (match hv_retry_after view with
     | Some d => [("retry-after", fmt_Z (Z.max 1 (as_secs d)))]
     | None => []
     end)
    (value_to_string (error_envelope (hv_code view) (hv_message view) request_id)).

(** ** The boundary ([http/boundary.rs]) *)

(** What a handler does: it answers or fails, or has not finished when the time is up. *)
Inductive Served := Finished (r : result AsterlaneError HttpResponse) | Unfinished.

Definition finish (request_id : string) (r : result AsterlaneError HttpResponse) : HttpResponse :=
  match r with Ok a => a | Err e => into_response request_id e end.

Definition request_timed_out : AsterlaneError := internal HttpTimeout "request timed out".

(** [None]: the connection stays open. *)
Definition with_request_timeout (timeout_secs : Z) (request_id : string) (s : Served)
    : option HttpResponse :=
  match s with
  | Finished r => Some (finish request_id r)
  | Unfinished =>
      if timeout_secs =? 0 then None else Some (into_response request_id request_timed_out)
  end.

Definition body_too_large : AsterlaneError := internal HttpBodyTooLarge "request body too large".

Definition map_payload_too_large (request_id : string) (r : HttpResponse) : HttpResponse :=
  if hr_status r =? 413 then into_response request_id body_too_large else r.

(** [SetResponseHeaderLayer::overriding]. *)
Definition set_header (k v : string) (r : HttpResponse) : HttpResponse :=
  mkHttpResponse (hr_status r) (hr_content_type r)
    (List.filter (fun h => negb (h.1 =s k)) (hr_headers r) ++ [(k, v)]) (hr_body r).

Definition with_global_guards (request_id : string) (r : HttpResponse) : HttpResponse :=
  set_header "referrer-policy" "no-referrer"
    (set_header "x-frame-options" "DENY"
       (set_header "x-content-type-options" "nosniff" (map_payload_too_large request_id r))).

Definition timeout_of (s : Server) (z : Zone) : Z :=
  match z with
  | ApiZone | AdminZone => request_timeout_secs (sv_http s)
  | PublicZone | McpZone => 0
  end.

(** A request through the app of [build_app_with_ct]; [run] is what the handlers do. *)
Definition serve (s : Server) (req : Request) (now : Z) (next : string)
    (run : string -> Handler -> list string -> Caller -> Served) : option HttpResponse :=
  let id := attach_request_id req next in
  with_global_guards id <$>
    match dispatch s req now with
    | NoRoute => Some (rejection 404)
    | NoMethod => Some (rejection 405)
    | BadPath => Some (rejection 400)
    | Refused e => Some (into_response id e)
    | Runs z h params c => with_request_timeout (timeout_of s z) id (run id h params c)
    end.
End Serving.

(** ** No two routes match the same path *)

#[export] Instance Segment_eq_dec : EqDecision Segment.
Proof. solve_decision. Defined.

(** Two segments, the last of their patterns when [last], that match nothing in common. *)
Definition segments_apart (last : bool) (p q : Segment) : bool :=
  match p, q with
  | Wildcard, Static s | Static s, Wildcard => last && is_empty s
  | Static a, Static b => negb (a =s b)
  | Static a, Capture | Capture, Static a => is_empty a
  | _, _ => false
  end.

Fixpoint apart (ps qs : list Segment) : bool :=
  match ps, qs with
  | [], [] => false
  | [], _ | _, [] => true
  | p :: ps, q :: qs =>
      segments_apart (bool_decide (ps = []) && bool_decide (qs = [])) p q
      || negb (bool_decide (p = Wildcard)) && negb (bool_decide (q = Wildcard)) && apart ps qs
  end.

Lemma captures_nil_path ps : is_Some (captures ps []) -> ps = [].
Proof. destruct ps as [|[|  |] [|]]; cbn; try done; intros [? [=]]. Qed.

Lemma captures_wildcard ps path : is_Some (captures (Wildcard :: ps) path) -> ps = [] /\ path <> [""].
Proof.
  intros [l Hl]. destruct ps as [|p ps]; [|by destruct path, p]. split; [done|]. by intros ->.
Qed.

Lemma captures_cons p ps path :
  p <> Wildcard -> is_Some (captures (p :: ps) path) ->
  exists x rest, path = x :: rest /\ is_Some (captures ps rest) /\
    match p with Static s => x = s | _ => x <> "" end.
Proof.
  intros Hp [l H]. destruct p as [s| |]; [| |done]; destruct path as [|x rest]; try done; cbn in H;
    exists x, rest.
  - destruct (String.eqb_spec s x); [|done]. split_and!; [done|by eexists|done].
  - destruct x as [|c x]; [done|]. cbn in H. apply bind_Some in H as (l' & Hl & _).
    split_and!; [done|by eexists|done].
Qed.

Lemma segments_apart_sound p q ps qs path :
  segments_apart (bool_decide (ps = []) && bool_decide (qs = [])) p q = true ->
  is_Some (captures (p :: ps) path) -> is_Some (captures (q :: qs) path) -> False.
Proof.
  intros Ha Hp Hq.
  assert (forall s ps', ps' = [] -> is_empty s = true ->
    is_Some (captures (Static s :: ps') path) -> path = [""]) as Hlast.
  { intros s ps' -> Hs (x & r & -> & Hr & ->)%captures_cons; [|done].
    destruct s; [|done]. f_equal. destruct r; [done|]. by destruct Hr. }
  destruct p as [a| |], q as [b| |]; cbn in Ha; try done.
  - apply captures_cons in Hp as (x & r & -> & _ & ->); [|done].
    apply captures_cons in Hq as (y & r' & [= <- <-] & _ & E); [|done]. subst.
    by rewrite String.eqb_refl in Ha.
  - apply captures_cons in Hp as (x & r & -> & _ & ->); [|done].
    apply captures_cons in Hq as (y & r' & [= <- <-] & _ & E); [|done]. by destruct a.
  - rewrite !andb_true_iff, !bool_decide_eq_true in Ha. destruct Ha as [[-> ->] Ha].
    apply captures_wildcard in Hq as [_ []]. by apply (Hlast a []).
  - apply captures_cons in Hp as (x & r & -> & _ & E); [|done].
    apply captures_cons in Hq as (y & r' & [= <- <-] & _ & ->); [|done]. by destruct b.
  - rewrite !andb_true_iff, !bool_decide_eq_true in Ha. destruct Ha as [[-> ->] Ha].
    apply captures_wildcard in Hp as [_ []]. by apply (Hlast b []).
Qed.

Lemma apart_sound ps qs path :
  apart ps qs = true -> is_Some (captures ps path) -> is_Some (captures qs path) -> False.
Proof.
  revert qs path. induction ps as [|p ps IH]; intros [|q qs] path Ha Hp Hq; try done.
  - destruct path; [by apply captures_nil_path in Hq|by destruct Hp].
  - destruct path; [by apply captures_nil_path in Hp|by destruct Hq].
  - cbn [apart] in Ha. apply orb_true_iff in Ha as [Ha|Ha]; [by eapply segments_apart_sound|].
    rewrite !andb_true_iff, !negb_true_iff, !bool_decide_eq_false in Ha.
    destruct Ha as [[Hwp Hwq] Ha].
    apply captures_cons in Hp as (x & r & -> & Hr & _); [|done].
    apply captures_cons in Hq as (y & r' & [= <- <-] & Hr' & _); [|done]. by apply (IH qs r).
Qed.

Definition route_segments (r : Route) : list Segment := pattern_segments (r_path r).

Fixpoint all_apart (rs : list (list Segment)) : bool :=
  match rs with
  | [] => true
  | r :: rs => forallb (apart r) rs && all_apart rs
  end.

Lemma all_apart_unique rs path r r' :
  all_apart (route_segments <$> rs) = true -> r ∈ rs -> r' ∈ rs ->
  is_Some (captures (route_segments r) path) -> is_Some (captures (route_segments r') path) ->
  r = r'.
Proof.
  induction rs as [|r0 rs IH]; intros Ha; [by intros ?%elem_of_nil|].
  cbn in Ha. apply andb_true_iff in Ha as [H0 Ha]. rewrite forallb_forall in H0.
  assert (forall q, q ∈ rs -> is_Some (captures (route_segments r0) path) ->
    is_Some (captures (route_segments q) path) -> False) as Hno.
  { intros q Hq. apply apart_sound, H0, in_map. by apply list_elem_of_In. }
  intros [->|Hr]%elem_of_cons [->|Hr']%elem_of_cons Hc Hc'; eauto; exfalso; eauto.
Qed.

Lemma routes_apart s : all_apart (route_segments <$> routes s) = true.
Proof.
  unfold routes, api_routes. destruct (sv_admin_auth s), (sv_upstream_oauth s); vm_compute; reflexivity.
Qed.

Section Finding.
Context {AX : Axum} {AL : AxumLaws AX}.

Lemma find_route_spec s path r raw :
  find_route (routes s) path = Some (r, raw) <->
  r ∈ routes s /\ captures (route_segments r) (split_char slash path) = Some raw.
Proof.
  assert (forall p q raw, match_path (r_path <$> routes s) path = Some p ->
    List.find (fun q => r_path q =s p) (routes s) = Some q ->
    captures (pattern_segments p) (split_char slash path) = Some raw ->
    q ∈ routes s /\ captures (route_segments q) (split_char slash path) = Some raw) as Hfound.
  { intros p q raw' _ [Hq E%String.eqb_eq]%find_some Hc.
    split; [by apply list_elem_of_In|]. unfold route_segments. by rewrite E. }
  unfold find_route. split.
  - intros (p & Hp & (q & Hq & (l & Hl & [= <- <-])%bind_Some)%bind_Some)%bind_Some. eauto.
  - intros [Hr Hc].
    destruct (match_path_complete (r_path <$> routes s) path (r_path r)) as [p Hp];
      [by apply list_elem_of_fmap_2|by eexists|].
    rewrite Hp. cbn [mbind option_bind]. apply match_path_sound in Hp as Hs. destruct Hs as [Hin [l Hl]].
    destruct (List.find (fun q => r_path q =s p) (routes s)) as [q|] eqn:Hq.
    + destruct (Hfound p q l Hp Hq Hl) as [Hqin Hql]. cbn [mbind option_bind]. rewrite Hl.
      cbn [mbind option_bind].
      assert (q = r) as -> by (eapply all_apart_unique; eauto using routes_apart).
      congruence.
    + exfalso. apply list_elem_of_fmap in Hin as (q & -> & Hqin).
      apply list_elem_of_In, (find_none _ _ Hq) in Hqin. by rewrite String.eqb_refl in Hqin.
Qed.
End Finding.

(** ** Credentials *)

(** The zone of a route is the one of its handlers. *)
Definition zone_of (h : Handler) : Zone :=
  match h with
  | Healthz | Versionz | Metrics => PublicZone
  | Get_config | List_tools | Invoke_tool | Oauth_callback => ApiZone
  | Mcp_service => McpZone
  | Admin _ => AdminZone
  end.
#[export] Instance Zone_eq_dec : EqDecision Zone.
Proof. solve_decision. Defined.

Definition handlers_of (r : Route) : list Handler :=
  match r_service r with Methods l => snd <$> l | AnyMethod h => [h] end.

Definition admin_part (h : Handler) : bool :=
  match h with Admin _ | Oauth_callback => true | _ => false end.

Lemma routes_zones s r h : r ∈ routes s -> h ∈ handlers_of r -> r_zone r = zone_of h.
Proof.
  intros Hr Hh.
  assert (forallb (fun r => forallb (fun h => bool_decide (r_zone r = zone_of h)) (handlers_of r))
            (routes s) = true) as H.
  { unfold routes, api_routes. destruct (sv_admin_auth s), (sv_upstream_oauth s); vm_compute; reflexivity. }
  rewrite forallb_forall in H. specialize (H r (proj1 (list_elem_of_In _ _) Hr)).
  rewrite forallb_forall in H. specialize (H h (proj1 (list_elem_of_In _ _) Hh)).
  by apply bool_decide_eq_true in H.
Qed.

(** The administration and the callback are there only with administrators, the
    callback only with the OAuth service. *)
Lemma routes_admin s r h :
  r ∈ routes s -> h ∈ handlers_of r -> admin_part h = true ->
  sv_admin_auth s <> None /\ (h = Oauth_callback -> sv_upstream_oauth s = true).
Proof.
  intros Hr Hh Ha.
  assert (forallb (fun r => forallb (fun h =>
      negb (admin_part h) || (bool_decide (is_Some (sv_admin_auth s))
        && (match h with Oauth_callback => sv_upstream_oauth s | _ => true end)))
    (handlers_of r)) (routes s) = true) as H.
  { unfold routes, api_routes. destruct (sv_admin_auth s), (sv_upstream_oauth s); vm_compute; reflexivity. }
  rewrite forallb_forall in H. specialize (H r (proj1 (list_elem_of_In _ _) Hr)).
  rewrite forallb_forall in H. specialize (H h (proj1 (list_elem_of_In _ _) Hh)).
  rewrite Ha in H. cbn in H. apply andb_true_iff in H as [H1 H2].
  split; [by destruct (sv_admin_auth s)|]. by intros ->.
Qed.

Lemma pick_handler (r : Route) m h : pick (r_service r) m = Some h -> h ∈ handlers_of r.
Proof.
  unfold pick, handlers_of. destruct (r_service r) as [l|h0].
  - intros (mh & [Hf _]%find_some & ->)%fmap_Some. apply list_elem_of_fmap_2.
    by apply list_elem_of_In.
  - intros [= ->]. by apply list_elem_of_singleton.
Qed.

Section Access.
Context {SHA : Sha256} {AX : Axum} {AL : AxumLaws AX}.

Lemma dispatch_runs s req now z h ps c :
  dispatch s req now = Runs z h ps c ->
  exists r, r ∈ routes s /\ h ∈ handlers_of r /\ z = r_zone r /\ authorize s z req now = Ok c.
Proof.
  unfold dispatch. destruct (find_route _ _) as [[r raw]|] eqn:Ef; [|done].
  apply find_route_spec in Ef as [Hr _].
  destruct (authorize s (r_zone r) req now) as [c'|e] eqn:Ea; [|done].
  destruct (r_service r) as [l|h0] eqn:Es.
  - destruct (pick _ _) as [h0|] eqn:Ep; [|done]. destruct (mapM path_param raw); [|done].
    intros [= <- -> -> ->]. exists r. split_and!; try done. apply (pick_handler r (rt_method req)).
    by rewrite Es.
  - intros [= <- -> <- ->]. exists r. split_and!; try done. unfold handlers_of. rewrite Es.
    by apply list_elem_of_singleton.
Qed.

(** C24: Which handlers a request reaches is decided by its credentials: a handler of the
    administration runs only as the administrator whose token the request carries, and
    only when administrators are configured; the MCP service runs only for the gateway
    key that the request authenticates, unless no key has a token; the callback of the
    OAuth flow is there only with both administration and OAuth; all other handlers run
    for nobody in particular. *)
Theorem reach_needs_credentials s req now z h ps c :
  dispatch s req now = Runs z h ps c ->
  match h with
  | Admin _ => exists id a, c = AdminCaller id /\ sv_admin_auth s = Some a /\
      exists token, rt_authorization req = Some ("Bearer " +:+ token) /\ verify token a = Some id
  | Mcp_service => exists k, c = KeyCaller k /\
      if mcp_auth_required (sv_gateway_auth s)
      then exists id token, k = Some id /\ rt_authorization req = Some ("Bearer " +:+ token) /\
        authenticate (Some token) None now (sv_gateway_auth s) = Ok id
      else k = None
  | Oauth_callback => c = Anonymous /\ sv_admin_auth s <> None /\ sv_upstream_oauth s = true
  | _ => c = Anonymous
  end.
Proof.
  intros (r & Hr & Hh & -> & Ha)%dispatch_runs. pose proof (routes_zones s r h Hr Hh) as Hz.
  rewrite Hz in Ha. pose proof (routes_admin s r h Hr Hh) as Had.
  destruct h; cbn in Ha; try by injection Ha as <-.
  - injection Ha as <-. destruct (Had eq_refl) as [Hsome Ho]. eauto.
  - apply bind_Ok_inv in Ha as (k & Hk & [= <-]). exists k. split; [done|].
    unfold require_mcp_auth in Hk. destruct (mcp_auth_required _); [|by injection Hk as <-].
    apply bind_Ok_inv in Hk as (id & Hid & [= <-]).
    destruct (bearer_token (rt_authorization req)) as [t|] eqn:Eb.
    + unfold bearer_token in Eb. apply bind_Some in Eb as (v & Ev & ->%strip_prefix_Some). eauto 6.
    + done.
  - apply bind_Ok_inv in Ha as (id & Hid & [= <-]). unfold require_admin in Hid.
    destruct (sv_admin_auth s) as [a|]; [|done]. apply ok_or_Ok_inv in Hid.
    apply bind_Some in Hid as (t & Ht & Hv). unfold bearer_token in Ht.
    apply bind_Some in Ht as (v & Ev & ->%strip_prefix_Some). exists id, a. eauto.
Qed.
End Access.

(** ** Request ids *)

Lemma keep_visible_length n s : (String.length (keep_visible n s) <= n)%nat.
Proof.
  revert n. induction s as [|c s IH]; intros [|n]; cbn; try lia.
  destruct (is_control c); [apply IH|]. cbn. specialize (IH n). lia.
Qed.

Lemma keep_visible_clean n s : str_forallb (fun c => negb (is_control c)) (keep_visible n s) = true.
Proof.
  revert n. induction s as [|c s IH]; intros [|n]; cbn; try done.
  destruct (is_control c) eqn:E; [apply IH|]. cbn. by rewrite E, IH.
Qed.

Lemma keep_visible_id n s :
  (String.length s <= n)%nat -> str_forallb (fun c => negb (is_control c)) s = true ->
  keep_visible n s = s.
Proof.
  revert n. induction s as [|c s IH]; intros [|n] Hn Hs; cbn in *; try done; [lia|].
  apply andb_true_iff in Hs as [Hc%negb_true_iff Hs]. rewrite Hc. f_equal. apply IH; [lia|done].
Qed.

(** The id under which a request is logged and its errors are answered is short and has
    no control character, whatever the client sends; an id that is already like this is
    taken as it is, up to surrounding white space. *)
Theorem request_id_clean req next :
  let id := attach_request_id req next in
  (id = next \/
   (1 <= String.length id <= MAX_CLIENT_REQUEST_ID_LEN)%nat /\
   str_forallb (fun c => negb (is_control c)) id = true) /\
  forall raw, rt_request_id req = Some raw -> trim raw <> "" ->
    (String.length (trim raw) <= MAX_CLIENT_REQUEST_ID_LEN)%nat ->
    str_forallb (fun c => negb (is_control c)) (trim raw) = true -> id = trim raw.
Proof.
  cbn zeta. unfold attach_request_id. split.
  - destruct (rt_request_id req) as [raw|]; [|by left]. cbn. unfold sanitize_client_request_id.
    pose proof (keep_visible_length MAX_CLIENT_REQUEST_ID_LEN (trim raw)) as Hl.
    pose proof (keep_visible_clean MAX_CLIENT_REQUEST_ID_LEN (trim raw)) as Hc.
    destruct (keep_visible _ _) as [|c s]; [by left|]. cbn [is_empty]. right. cbn in Hl |- *.
    split; [|done]. lia.
  - intros raw -> Hne Hl Hc. cbn. unfold sanitize_client_request_id.
    rewrite keep_visible_id by done. by destruct (trim raw).
Qed.

(** ** Answers *)

Lemma set_header_once k v r :
  List.filter (fun h => h.1 =s k) (hr_headers (set_header k v r)) = [(k, v)].
Proof.
  cbn [set_header hr_headers]. rewrite List.filter_app. cbn [List.filter fst]. rewrite String.eqb_refl.
  assert (List.filter (fun h => h.1 =s k) (List.filter (fun h => negb (h.1 =s k)) (hr_headers r)) = [])
    as ->; [|done].
  induction (hr_headers r) as [|h hs IH]; [done|]. cbn [List.filter].
  destruct (h.1 =s k) eqn:E; cbn [negb]; [done|]. cbn [List.filter]. by rewrite E.
Qed.

Lemma set_header_other k k' v r :
  k <> k' ->
  List.filter (fun h => h.1 =s k') (hr_headers (set_header k v r))
  = List.filter (fun h => h.1 =s k') (hr_headers r).
Proof.
  intros Hk. cbn [set_header hr_headers]. rewrite List.filter_app. cbn [List.filter fst].
  apply String.eqb_neq in Hk. rewrite Hk, app_nil_r.
  induction (hr_headers r) as [|h hs IH]; [done|]. cbn [List.filter].
  destruct (String.eqb_spec h.1 k) as [E|E]; cbn [negb].
  - by rewrite E, Hk.
  - cbn [List.filter]. by rewrite IH.
Qed.

Definition security_headers : list (string * string) :=
  [("x-content-type-options", "nosniff"); ("x-frame-options", "DENY");
   ("referrer-policy", "no-referrer")].

(** The answer to an error is an error: no client takes it for a success. *)
Lemma into_response_status {SE : Serializers} id e :
  400 <= hr_status (into_response id e) <= 504 /\
  hr_status (into_response id e) = http_status_for (error_code e).
Proof. unfold into_response, http_response. cbn. by destruct (error_code e). Qed.

Section Answers.
Context {SHA : Sha256} {AX : Axum} {AL : AxumLaws AX} {SE : Serializers}.

Lemma guards_status id r :
  hr_status (with_global_guards id r) = hr_status r /\
  hr_body (with_global_guards id r) =
    if hr_status r =? 413 then hr_body (into_response id body_too_large) else hr_body r.
Proof.
  unfold with_global_guards. cbn [set_header hr_status hr_body]. unfold map_payload_too_large.
  destruct (Z.eqb_spec (hr_status r) 413) as [->|]; done.
Qed.

(** Every answer of the server carries each security header once and with
    its value, whatever the handler set; an answer with status 413 is the error
    [http.body_too_large] with the id of the request.  A request is left without an
    answer exactly when its handler has not finished and no time limit applies, so never
    in the REST and administration interfaces with a limit, and the sessions of [/mcp]
    are not cut off. *)
Theorem answers_guarded s req now next run :
  let id := attach_request_id req next in
  (forall resp, serve s req now next run = Some resp ->
    (forall k v, (k, v) ∈ security_headers ->
      List.filter (fun h => h.1 =s k) (hr_headers resp) = [(k, v)]) /\
    (hr_status resp = 413 -> hr_body resp =
      value_to_string (error_envelope HttpBodyTooLarge "request body too large" id))) /\
  (serve s req now next run = None <->
    exists z h ps c, dispatch s req now = Runs z h ps c /\ run id h ps c = Unfinished /\
      timeout_of s z = 0).
Proof.
  cbn zeta. unfold serve. set (id := attach_request_id req next). split.
  - intros resp Hs. apply fmap_Some in Hs as (r & _ & ->). split.
    + intros k v Hkv. unfold with_global_guards.
      apply elem_of_cons in Hkv as [[= -> ->]|[[= -> ->]|[= -> ->]%list_elem_of_singleton]%elem_of_cons].
      * rewrite !set_header_other by done. apply set_header_once.
      * rewrite set_header_other by done. apply set_header_once.
      * apply set_header_once.
    + destruct (guards_status id r) as [-> ->]. intros E. by rewrite E.
  - rewrite fmap_None. destruct (dispatch s req now) as [|e| | |z h ps c] eqn:Ed;
      try (split; [done|]; by intros (? & ? & ? & ? & ? & _)).
    unfold with_request_timeout. destruct (run id h ps c) eqn:Er.
    + split; [done|]. intros (? & ? & ? & ? & [= <- <- <- <-] & E & _). congruence.
    + destruct (Z.eqb_spec (timeout_of s z) 0) as [Hz|Hz].
      * split; [|done]. intros _. by exists z, h, ps, c.
      * split; [done|]. by intros (? & ? & ? & ? & [= <- <- <- <-] & _ & E).
Qed.
End Answers.

(** ** Concrete instances *)

(** The first pattern that matches, and escapes decoded from the left. *)
Fixpoint demo_percent (s : string) : string :=
  match s with
  | "" => ""
  | String c r =>
      let other := String c (demo_percent r) in
      if Ascii.eqb c "%" then
        match r with
        | String a (String b r') =>
            match to_digit16 a, to_digit16 b with
            | Some hi, Some lo => String (chr (16 * hi + lo)) (demo_percent r')
            | _, _ => other
            end
        | _ => other
        end
      else other
  end.

Definition demo_axum : Axum := {|
  match_path ps path :=
    List.find (fun p => bool_decide (is_Some (captures (pattern_segments p) (split_char slash path)))) ps;
  percent_bytes := demo_percent;
  rejection n := mkHttpResponse n None [] "";
|}.

#[export] Instance demo_axum_laws : AxumLaws demo_axum.
Proof.
  split; cbn; try done.
  - intros ps path p [Hp Hc%bool_decide_eq_true]%find_some. split; [by apply list_elem_of_In|done].
  - intros ps path p Hp Hc. destruct (List.find _ ps) eqn:E; [by eexists|].
    apply list_elem_of_In, (find_none _ _ E) in Hp. by rewrite bool_decide_eq_true_2 in Hp.
  - intros c s Hc. by destruct (Ascii.eqb_spec c "%").
  - intros a b hi lo s Ha Hb. by rewrite Ha, Hb.
Qed.

Definition demo_server : Server :=
  mkServer empty_auth
    (Some (mkAdminAuth {[ sha256 (Sha256 := block_sha) "s3cret" := "ops" ]})) true
    (mkHttpServerConfig 1048576 30).

Definition demo_delete : Request :=
  mkRequest DELETE "/admin/proxy-keys/a%2Fb/token" (Some "Bearer s3cret") (Some " run-7 ").

Lemma reach_needs_credentials_witness :
  dispatch (SHA := block_sha) (AX := demo_axum) demo_server demo_delete 0
  = Runs AdminZone (Admin Tokens_revoke_token) ["a/b"] (AdminCaller "ops") /\
  exists id a, AdminCaller "ops" = AdminCaller id /\ sv_admin_auth demo_server = Some a /\
    exists token, rt_authorization demo_delete = Some ("Bearer " +:+ token) /\
      verify (H := block_sha) token a = Some id.
Proof.
  split; [vm_compute; reflexivity|].
  apply (reach_needs_credentials (SHA := block_sha) (AX := demo_axum) demo_server demo_delete 0
    AdminZone (Admin Tokens_revoke_token) ["a/b"] (AdminCaller "ops")).
  vm_compute. reflexivity.
Defined.

(** An upstream that answers 413 to a tool call: the client is told that its own request
    was too large, and the answer of the upstream is lost. *)
Example upstream_413_replaced :
  (fun r => (hr_status r, hr_body r)) <$>
    serve (SHA := block_sha) (AX := demo_axum) (SE := demo_serializers) demo_server
      (mkRequest POST "/v1/tools/a__b__c/invoke" None None) 0 "req-1"
      (fun _ _ _ _ => Finished (Ok (mkHttpResponse 413 None [] "the file has 20 MB, 10 are allowed")))
  = Some (413, value_to_string (Serializers := demo_serializers)
                 (error_envelope HttpBodyTooLarge "request body too large" "req-1")).
Proof. vm_compute. reflexivity. Qed.
