(* ===== verification/Cli.v ===== *)
(** * The command line client ([cli/client.rs], [input.rs], [output.rs], [tools.rs],
    [admin.rs], [admin/run.rs])

    The commands [asterlane admin] and [asterlane tools]: the requests they send to a
    running gateway, how they read its answers, what they print and with which exit code
    they end.  The parsing of the arguments is clap's; reqwest, the environment, files and
    the YAML parser are parameters. *)

From S2P Require Import Prelude RustStr Naming Errors Config Policy Render SchemaView ConfigJson.
From S2P Require Import HttpTools Routes.
From Stdlib Require Import Ascii.

Local Open Scope string_scope.
Local Open Scope list_scope.
Local Open Scope Z_scope.
Local Open Scope gateway_scope.

(** ** The client ([cli/client.rs]) *)

Definition DEFAULT_SERVER : string := "http://127.0.0.1:3000".
Definition RAW_BODY_PREVIEW_CHARS : nat := 2000.

(** A local error is its text, the contexts before the cause. *)
Inductive CliError := Api (body : JSON) | Local (message : string).

Definition context {E A} (to_text : E -> string) (what : string) (r : result E A) : result CliError A :=
  map_err (fun e => Local (what +:+ ": " +:+ to_text e)) r.

(** [json!] with an object: serde_json keeps the fields sorted. *)
Definition json_object (fs : list (string * JSON)) : JSON := JObject (json_map fs).

Definition hex_upper (d : Z) : ascii := chr (if d <? 10 then d + 48 else d + 55).

Definition is_unreserved (c : ascii) : bool :=
  is_ascii_alphanumeric c || Ascii.eqb c "-" || Ascii.eqb c "_" || Ascii.eqb c "." || Ascii.eqb c "~".

Fixpoint encode_component (s : string) : string :=
  match s with
  | "" => ""
  | String c s =>
      if is_unreserved c then String c (encode_component s)
      else String "%" (String (hex_upper (code c / 16)) (String (hex_upper (code c mod 16))
             (encode_component s)))
  end.

Definition encode_path_segment (value : string) : string := encode_component value.

Fixpoint build_query (first : bool) (query : list (string * string)) : string :=
  match query with
  | [] => ""
  | (k, v) :: query =>
      (if first then "?" else "&") +:+ k +:+ "=" +:+ encode_component v +:+ build_query false query
  end.

Definition build_url (base path : string) (query : list (string * string)) : string :=
  base +:+ path +:+ build_query true query.

Definition resolve_server (flag env : option string) : string :=
  trim_end_matches "/"
    (default DEFAULT_SERVER (match flag with Some f => Some f | None => env end)).

(** [code.split('.').next()]. *)
Definition first_part (code : string) : string :=
  match split_once "." code with Some (a, _) => a | None => code end.

Definition exit_code_for_code (code : string) : Z :=
  let cat := first_part code in
  if cat =s "config" then 2
  else if (cat =s "auth") || (cat =s "admin") then 3
  else if (cat =s "catalog") || (cat =s "mcp") then 4
  else if cat =s "store" then 5
  else if cat =s "proxy" then 6
  else if cat =s "limit" then 7
  else 1.

Definition cli_exit_code (e : CliError) : Z :=
  match e with
  | Api body =>
      match (v ← json_get "error" body; c ← json_get "code" v; as_str c) with
      | Some c => exit_code_for_code c
      | None => 1
      end
  | Local _ => 1
  end.

Definition parse_body {JR : JsonReader} (status : Z) (text : string) : JSON :=
  if is_empty (trim text)
  then json_object [("ok", JBool (status <? 400)); ("http_status", JNumber (fmt_Z status))]
  else match json_value text with
       | Some v => v
       | None =>
           if status <? 400 then JString text
           else json_object
             [("error", json_object
                 [("code", JString "internal.unexpected");
                  ("message", JString (concat_chars (take RAW_BODY_PREVIEW_CHARS (chars text))));
                  ("http_status", JNumber (fmt_Z status))])]
       end.

(** What reqwest reports of a request. *)
Inductive Exchange :=
| SendFailed (cause : string)
| ReadFailed (cause : string)
| Answered (status : Z) (text : string).

Record ApiRequest := mkApiRequest {
  ap_method : Method;
  ap_url : string;
  ap_token : string;
  ap_body : option JSON;
}.

Record ApiClient := mkApiClient { ac_base : string; ac_token : string }.

(** The machine the command runs on: its environment and files, the YAML parser, whether
    standard output is a terminal, the printer, and the network with its state. *)
Class Host := {
  Net : Type;
  exchange : Net -> ApiRequest -> Net * Exchange;
  env_var : string -> option string;
  read_to_string : string -> result string string;
  yaml_value : string -> option JSON;
  is_terminal : bool;
  to_string_pretty : JSON -> string;
  (** [reqwest::Client::builder().build()] *)
  client_error : option string;
}.

Section Cli.
Context {HS : Host} {JR : JsonReader} {SE : Serializers} {RE : RegexEngine}.

(** A command runs on the network, and writes notes to standard error; [cs_sent] are its
    requests. *)
Record CliState := mkCliState {
  cs_net : Net;
  cs_sent : list ApiRequest;
  cs_stderr : list string;
}.

Definition cli (A : Type) : Type := CliState -> CliState * result CliError A.

#[global] Instance cli_ret : MRet cli := fun _ a s => (s, Ok a).
#[global] Instance cli_bind : MBind cli := fun _ _ f m s =>
  let '(s, r) := m s in
  match r with Ok a => f a s | Err e => (s, Err e) end.

Definition lift {A} (r : result CliError A) : cli A := fun s => (s, r).

Definition note (text : string) : cli unit := fun s =>
  (mkCliState (cs_net s) (cs_sent s) (cs_stderr s ++ [text]), Ok ()).

Definition ApiClient_new (server : option string) (token_env : string) : result CliError ApiClient :=
  token ← ok_or (Local ("credential not found: set env " +:+ token_env +:+
            " (credentials are only read from the environment; there is no --token flag because argv is visible via ps)"))
    (t ← env_var token_env; if is_empty (trim t) then None else Some t);
  match client_error with
  | Some e => Err (Local ("failed to build http client: " +:+ e))
  | None => Ok (mkApiClient (resolve_server server (env_var "ASTERLANE_SERVER")) token)
  end.

Definition api_send (c : ApiClient) (m : Method) (url : string) (body : option JSON) : cli JSON :=
  fun s =>
    let req := mkApiRequest m url (ac_token c) body in
    let '(net, x) := exchange (cs_net s) req in
    (mkCliState net (cs_sent s ++ [req]) (cs_stderr s),
     match x with
     | SendFailed e => Err (Local ("api request failed (is the gateway running?): " +:+ e))
     | ReadFailed e => Err (Local ("failed to read api response: " +:+ e))
     | Answered status text =>
         let body := parse_body status text in
         if in_range 200 299 status then Ok body else Err (Api body)
     end).

Definition api_get (c : ApiClient) (path : string) (query : list (string * string)) : cli JSON :=
  api_send c GET (build_url (ac_base c) path query) None.
Definition put_json (c : ApiClient) (path : string) (body : JSON) : cli JSON :=
  api_send c PUT (build_url (ac_base c) path []) (Some body).
Definition api_delete (c : ApiClient) (path : string) : cli JSON :=
  api_send c DELETE (build_url (ac_base c) path []) None.
Definition post_json (c : ApiClient) (path : string) (query : list (string * string)) (body : JSON)
    : cli JSON :=
  api_send c POST (build_url (ac_base c) path query) (Some body).

(** ** Input ([cli/input.rs]) *)

Definition is_object (v : JSON) : bool := match v with JObject _ => true | _ => false end.

Definition from_str_value (text : string) : result string JSON := ok_or (json_error text) (json_value text).

Definition read_or (what path : string) : result CliError string :=
  context id (what +:+ path) (read_to_string path).

Definition load_json_object (args file : option string) : result CliError (option JSON) :=
  match (match args, file with
         | Some inline, _ => Ok (Some inline)
         | None, Some path => Some <$> read_or "failed to read args file " path
         | None, None => Ok None
         end) with
  | Err e => Err e
  | Ok None => Ok None
  | Ok (Some raw) =>
      v ← context id "args must be valid JSON" (from_str_value raw);
      if is_object v then Ok (Some v) else Err (Local "args must be a JSON object")
  end.

Definition ensure_object (v : JSON) : result CliError JSON :=
  if is_object v then Ok v else Err (Local "body must be a JSON object").

Definition parse_object_document (raw : string) : result CliError JSON :=
  match from_str_value raw with
  | Ok v => ensure_object v
  | Err json_err =>
      match yaml_value raw with
      | Some v => ensure_object v
      | None => Err (Local ("body must be a JSON or YAML object: " +:+ json_err))
      end
  end.

Definition cli_error_text (e : CliError) : string :=
  match e with Api body => to_string_pretty body | Local m => m end.

Definition load_object_document (json file : option string) : result CliError JSON :=
  match json, file with
  | Some _, Some _ => Err (Local "--json and --from-file are mutually exclusive")
  | None, None => Err (Local "requires --json or --from-file")
  | Some raw, None => parse_object_document raw
  | None, Some path =>
      raw ← read_or "failed to read " path;
      context cli_error_text ("invalid object in " +:+ path) (parse_object_document raw)
  end.

Definition overlay_id (body : JSON) (id : string) : result CliError JSON :=
  match body with
  | JObject fs => Ok (JObject (insert_field "id" (JString id) fs))
  | _ => Err (Local "body must be a JSON object")
  end.

(** ** Output ([cli/output.rs]) *)

Definition resolve_from (flag env : option string) (terminal : bool) : result CliError ResponseFormat :=
  match (match flag with Some f => Some f | None => env end) with
  | Some v => map_err (fun e => Local (RenderError_to_string e)) (format_from_str v)
  | None => Ok (if terminal then Markdown else Json)
  end.

Definition resolve_cli_format (flag : option string) : result CliError ResponseFormat :=
  resolve_from flag (env_var "ASTERLANE_FORMAT") is_terminal.

Definition format_value (v : JSON) (f : ResponseFormat) : string :=
  default (to_string_pretty v) (render v f).

Definition output_with_newline (v : JSON) (f : ResponseFormat) : string :=
  let out := format_value v f in if ends_with nl out then out else out +:+ nl.

(** What a command leaves behind. *)
Record CommandResult := mkCommandResult { fi_stdout : string; fi_stderr : list string; fi_exit : Z }.

(** [CliError::report]. *)
Definition report (e : CliError) : string :=
  match e with Api body => to_string_pretty body | Local m => "error: " +:+ m end.

Definition run_command (flag : option string) (execute : cli JSON) (net : Net)
    : CliState * CommandResult :=
  let s := mkCliState net [] [] in
  match resolve_cli_format flag with
  | Err e => (s, mkCommandResult "" [report e] (cli_exit_code e))
  | Ok f =>
      let '(s, r) := execute s in
      (s, match r with
          | Ok body => mkCommandResult (output_with_newline body f) (cs_stderr s) 0
          | Err e => mkCommandResult "" (cs_stderr s ++ [report e]) (cli_exit_code e)
          end)
  end.
End Cli.

(** ** The administration ([cli/admin.rs], [cli/admin/run.rs]) *)

Record ObjectBodyArgs := mkObjectBodyArgs { ob_json : option string; ob_from_file : option string }.

Inductive ResourcesCommand :=
| Resources_Create (body : ObjectBodyArgs)
| Resources_Update (id : string) (body : ObjectBodyArgs)
| Resources_Rm (id : string).

Inductive ProxyKeysCommand :=
| ProxyKeys_Issue (id : string) (expires_at : option string)
| ProxyKeys_RevokeToken (id : string)
| ProxyKeys_Create (body : ObjectBodyArgs)
| ProxyKeys_Update (id : string) (body : ObjectBodyArgs)
| ProxyKeys_Rm (id : string).

Inductive McpServersCommand :=
| McpServers_Get (id : string)
| McpServers_Probe (id : string)
| McpServers_Authorize (id : string)
| McpServers_Deauthorize (id : string)
| McpServers_Create (body : ObjectBodyArgs)
| McpServers_Update (id : string) (body : ObjectBodyArgs)
| McpServers_Rm (id : string).

Inductive MetadataCommand :=
| Metadata_List
| Metadata_Get (tool : string)
| Metadata_Set (tool description : string)
| Metadata_Rm (tool : string).

Inductive DefaultsCommand :=
| Defaults_List
| Defaults_Get (tool : string)
| Defaults_Set (tool : string) (args args_file : option string) (from_last_event : bool)
| Defaults_Rm (tool : string).

Inductive AdminCommand :=
| Stats
| Resources (command : option ResourcesCommand)
| ProxyKeys (command : option ProxyKeysCommand)
| KeyPools
| Presets
| McpServers (command : option McpServersCommand)
| Metadata (command : MetadataCommand)
| Validate
| Tools (filter : option string)
| Events (tool key resource : option string) (limit : option Z) (from to : option string)
| SecurityEvents (resource kind : option string)
| Usage (group_by from to : option string)
| Defaults (command : DefaultsCommand)
| Invoke (tool : string) (args args_file : option string) (use_defaults save_defaults : bool).

(** The parameters that are there, in order. *)
Definition given (query : list (string * option string)) : list (string * string) :=
  omap (fun q => v ← q.2; Some (q.1, v)) query.

Definition events_query (tool key resource : option string) (limit : option Z)
    (from to : option string) : list (string * string) :=
  given [("tool_name", tool); ("proxy_key_id", key); ("resource_id", resource);
         ("limit", fmt_Z <$> limit); ("from", from); ("to", to)].

Definition security_events_query (resource kind : option string) : list (string * string) :=
  given [("resource_id", resource); ("kind", kind)].

Definition usage_query (group_by from to : option string) : list (string * string) :=
  given [("group_by", group_by); ("from", from); ("to", to)].

Definition div_ceil (a b : Z) : Z := a / b + (if a mod b =? 0 then 0 else 1).

Definition authorize_note (result : JSON) : string :=
  let window :=
    match (v ← json_get "expires_in" result; as_u64 v) with
    | Some secs => "within " +:+ fmt_Z (div_ceil secs 60) +:+ " minutes (" +:+ fmt_Z secs +:+ " seconds)"
    | None => "before it expires"
    end in
  "note: open authorization_url in a browser and finish the authorization " +:+ window
  +:+ "; the URL is single-use and should not be shared".

Section Admin.
Context {HS : Host} {JR : JsonReader} {SE : Serializers} {RE : RegexEngine}.

Definition parse_last_event_args (events : JSON) (tool : string) : result CliError JSON :=
  row ← ok_or (Local ("no request events found for tool " +:+ tool))
    (match events with JArray (row :: _) => Some row | _ => None end);
  raw ← ok_or (Local ("last event for " +:+ tool
            +:+ " has no captured request args (is capture_payloads enabled?)"))
    (v ← json_get "request_args" row; as_str v);
  v ← ok_or (Local ("captured request args for " +:+ tool
            +:+ " are truncated or not valid JSON (capture_max_bytes cut them off); cannot use as defaults — pass --args explicitly"))
    (json_value raw);
  if is_object v then Ok v
  else Err (Local ("captured request args for " +:+ tool +:+ " are not a JSON object")).

Definition filter_tools (body : JSON) (filter : option string) : result CliError JSON :=
  match filter with
  | None => Ok body
  | Some pattern =>
      is_match ← context id ("invalid --filter regex: " +:+ pattern) (Regex_new pattern);
      let tools :=
        List.filter (fun t => match (n ← json_get "name" t; as_str n) with
                              | Some name => is_match name
                              | None => false
                              end)
          (default [] (ts ← json_get "tools" body; as_array ts)) in
      Ok (json_object [("total_count", JNumber (fmt_nat (length tools))); ("tools", JArray tools)])
  end.

Definition load_body (body : ObjectBodyArgs) : result CliError JSON :=
  load_object_document (ob_json body) (ob_from_file body).

Definition run_resources (c : ApiClient) (command : option ResourcesCommand) : cli JSON :=
  match command with
  | None => api_get c "/admin/resources" []
  | Some (Resources_Create body) =>
      body ← lift (load_body body); post_json c "/admin/resources" [] body
  | Some (Resources_Update id body) =>
      body ← lift (b ← load_body body; overlay_id b id);
      put_json c ("/admin/resources/" +:+ encode_path_segment id) body
  | Some (Resources_Rm id) => api_delete c ("/admin/resources/" +:+ encode_path_segment id)
  end.

Definition run_proxy_keys (c : ApiClient) (command : option ProxyKeysCommand) : cli JSON :=
  match command with
  | None => api_get c "/admin/proxy-keys" []
  | Some (ProxyKeys_Issue id expires_at) =>
      let body := match expires_at with
                  | Some ts => JObject [("expires_at", JString ts)]
                  | None => JObject []
                  end in
      r ← post_json c ("/admin/proxy-keys/" +:+ encode_path_segment id +:+ "/token") [] body;
      _ ← note "note: the token plaintext is shown only once; store it now";
      mret r
  | Some (ProxyKeys_RevokeToken id) =>
      api_delete c ("/admin/proxy-keys/" +:+ encode_path_segment id +:+ "/token")
  | Some (ProxyKeys_Create body) =>
      body ← lift (load_body body); post_json c "/admin/proxy-keys" [] body
  | Some (ProxyKeys_Update id body) =>
      body ← lift (b ← load_body body; overlay_id b id);
      put_json c ("/admin/proxy-keys/" +:+ encode_path_segment id) body
  | Some (ProxyKeys_Rm id) => api_delete c ("/admin/proxy-keys/" +:+ encode_path_segment id)
  end.

Definition run_mcp_servers (c : ApiClient) (command : option McpServersCommand) : cli JSON :=
  match command with
  | None => api_get c "/admin/mcp-servers" []
  | Some (McpServers_Get id) => api_get c ("/admin/mcp-servers/" +:+ encode_path_segment id) []
  | Some (McpServers_Probe id) =>
      post_json c ("/admin/mcp-servers/" +:+ encode_path_segment id +:+ "/probe") [] (JObject [])
  | Some (McpServers_Authorize id) =>
      r ← post_json c ("/admin/mcp-servers/" +:+ encode_path_segment id +:+ "/oauth/authorize") []
            (JObject []);
      _ ← note (authorize_note r);
      mret r
  | Some (McpServers_Deauthorize id) =>
      api_delete c ("/admin/mcp-servers/" +:+ encode_path_segment id +:+ "/oauth")
  | Some (McpServers_Create body) =>
      body ← lift (load_body body); post_json c "/admin/mcp-servers" [] body
  | Some (McpServers_Update id body) =>
      body ← lift (b ← load_body body; overlay_id b id);
      put_json c ("/admin/mcp-servers/" +:+ encode_path_segment id) body
  | Some (McpServers_Rm id) => api_delete c ("/admin/mcp-servers/" +:+ encode_path_segment id)
  end.

Definition run_metadata (c : ApiClient) (command : MetadataCommand) : cli JSON :=
  match command with
  | Metadata_List => api_get c "/admin/tool-metadata" []
  | Metadata_Get tool => api_get c ("/admin/tools/" +:+ encode_path_segment tool +:+ "/metadata") []
  | Metadata_Set tool description =>
      put_json c ("/admin/tools/" +:+ encode_path_segment tool +:+ "/metadata")
        (JObject [("description", JString description)])
  | Metadata_Rm tool => api_delete c ("/admin/tools/" +:+ encode_path_segment tool +:+ "/metadata")
  end.

Definition last_event_args (c : ApiClient) (tool : string) : cli JSON :=
  events ← api_get c "/admin/events" [("tool_name", tool); ("limit", "1")];
  lift (parse_last_event_args events tool).

Definition run_defaults (c : ApiClient) (command : DefaultsCommand) : cli JSON :=
  match command with
  | Defaults_List => api_get c "/admin/tool-defaults" []
  | Defaults_Get tool => api_get c ("/admin/tools/" +:+ encode_path_segment tool +:+ "/defaults") []
  | Defaults_Rm tool => api_delete c ("/admin/tools/" +:+ encode_path_segment tool +:+ "/defaults")
  | Defaults_Set tool args args_file from_last_event =>
      body ←
        (if from_last_event then last_event_args c tool
         else lift (o ← load_json_object args args_file;
                    ok_or (Local "defaults set requires one of --args, --args-file, --from-last-event") o));
      put_json c ("/admin/tools/" +:+ encode_path_segment tool +:+ "/defaults") body
  end.

Definition fmt_bool (b : bool) : string := if b then "true" else "false".

(** [execute] of [cli/admin/run.rs], after the client has been made. *)
Definition admin_command (c : ApiClient) (command : AdminCommand) : cli JSON :=
  match command with
  | Stats => api_get c "/admin/stats" []
  | Resources command => run_resources c command
  | ProxyKeys command => run_proxy_keys c command
  | KeyPools => api_get c "/admin/key-pools" []
  | Presets => api_get c "/admin/mcp-presets" []
  | McpServers command => run_mcp_servers c command
  | Metadata command => run_metadata c command
  | Validate => api_get c "/admin/config/validate" []
  | Tools filter =>
      body ← api_get c "/admin/tools" []; lift (filter_tools body filter)
  | Events tool key resource limit from to =>
      api_get c "/admin/events" (events_query tool key resource limit from to)
  | SecurityEvents resource kind =>
      api_get c "/admin/security-events" (security_events_query resource kind)
  | Usage group_by from to => api_get c "/admin/usage" (usage_query group_by from to)
  | Defaults command => run_defaults c command
  | Invoke tool args args_file use_defaults save_defaults =>
      o ← lift (load_json_object args args_file);
      post_json c ("/admin/tools/" +:+ encode_path_segment tool +:+ "/invoke")
        [("use_defaults", fmt_bool use_defaults); ("save", fmt_bool save_defaults)]
        (default (JObject []) o)
  end.

Record AdminArgs := mkAdminArgs {
  aa_server : option string;
  aa_token_env : string;
  aa_format : option string;
  aa_command : AdminCommand;
}.

Definition admin_execute (args : AdminArgs) : cli JSON :=
  c ← lift (ApiClient_new (aa_server args) (aa_token_env args));
  admin_command c (aa_command args).

Definition run_admin (args : AdminArgs) (net : Net) : CliState * CommandResult :=
  run_command (aa_format args) (admin_execute args) net.

(** ** The tools ([cli/tools.rs]) *)

Inductive ToolsCommand :=
| Tools_List (include exclude domain provider tool : option string) (limit cursor : option Z)
| Tools_Search (query : string) (include_schema : bool) (limit cursor : option Z)
| Tools_Get (names : list string)
| Tools_Call (name : string) (args args_file : option string)
| Tools_CallBatch (args args_file : option string).

Definition list_query (include exclude domain provider tool : option string) (limit cursor : option Z)
    : list (string * string) :=
  given [("include", include); ("exclude", exclude); ("domain", domain); ("provider", provider);
         ("tool", tool); ("limit", fmt_Z <$> limit); ("cursor", fmt_Z <$> cursor)].

Definition content_text (body : JSON) : option string :=
  c ← json_get "content" body; l ← as_array c; first ← head l; t ← json_get "Text" first; as_str t.

Definition is_array (v : JSON) : bool := match v with JArray _ => true | _ => false end.
Definition is_u64_or_null (v : JSON) : bool :=
  match v with JNull => true | _ => bool_decide (is_Some (as_u64 v)) end.

Definition normalize_meta_result (body : JSON) (array_field : string) : result CliError JSON :=
  text ← ok_or (Local "unexpected search response: missing content[0].Text") (content_text body);
  if bool_decide ((e ← json_get "is_error" body; as_bool e) = Some true)
  then Err (Local ("meta-tool call failed: " +:+ text))
  else
    value ← map_err (fun e => Local ("unexpected search response JSON: " +:+ e)) (from_str_value text);
    let field p k := match json_get k value with Some v => p v | None => false end in
    if negb (field is_array array_field)
       || (array_field =s "tools") && negb (field is_u64_or_null "next_cursor")
    then Err (Local ("unexpected meta-tool response: expected " +:+ array_field +:+ " array"))
    else Ok value.

Definition normalize_search_result (body : JSON) : result CliError JSON :=
  normalize_meta_result body "tools".

Definition json_format : list (string * string) := [("format", "json")].

Definition opt_number (k : string) (n : option Z) : list (string * JSON) :=
  match n with Some n => [(k, JNumber (fmt_Z n))] | None => [] end.

Definition search_args (query : string) (include_schema : bool) (limit cursor : option Z) : JSON :=
  json_object ([("query", JString query); ("include_schema", JBool include_schema)]
               ++ opt_number "limit" limit ++ opt_number "cursor" cursor).

(** [execute] of [cli/tools.rs], after the client has been made. *)
Definition tools_command (c : ApiClient) (command : ToolsCommand) : cli JSON :=
  match command with
  | Tools_List include exclude domain provider tool limit cursor =>
      api_get c "/v1/tools" (list_query include exclude domain provider tool limit cursor)
  | Tools_Search query include_schema limit cursor =>
      body ← post_json c "/v1/tools/asl__search/invoke" json_format
               (search_args query include_schema limit cursor);
      lift (normalize_search_result body)
  | Tools_Get names =>
      body ← post_json c "/v1/tools/asl__describe/invoke" json_format
               (JObject [("names", JArray (JString <$> names))]);
      lift (normalize_meta_result body "results")
  | Tools_Call name args args_file =>
      o ← lift (load_json_object args args_file);
      post_json c ("/v1/tools/" +:+ encode_path_segment name +:+ "/invoke") json_format
        (default (JObject []) o)
  | Tools_CallBatch args args_file =>
      body ← lift (o ← load_json_object args args_file;
                   ok_or (Local "call-batch requires --args or --args-file") o);
      response ← post_json c "/v1/tools/asl__batch/invoke" json_format body;
      lift (normalize_meta_result response "results")
  end.

Record ToolsArgs := mkToolsArgs {
  ta_server : option string;
  ta_token_env : string;
  ta_format : option string;
  ta_command : ToolsCommand;
}.

Definition tools_execute (args : ToolsArgs) : cli JSON :=
  c ← lift (ApiClient_new (ta_server args) (ta_token_env args));
  tools_command c (ta_command args).

Definition run_tools (args : ToolsArgs) (net : Net) : CliState * CommandResult :=
  run_command (ta_format args) (tools_execute args) net.
End Admin.
