(* ===== verification/CliFacts.v ===== *)
(** * What the command line client guarantees

    Commands reach the handlers they are meant for, with exactly the ids and parameters
    given; and the exit code of a refused command is the one of the error model. *)

From S2P Require Import Prelude RustStr Naming Errors Config Policy Render ConfigJson GatewayAuth.
From S2P Require Import HttpTools Observe AdminFacts AdminRead Routes Cli.
From Stdlib Require Import Ascii.

Local Open Scope string_scope.
Local Open Scope list_scope.
Local Open Scope Z_scope.
Local Open Scope gateway_scope.

(** ** Encoding of components *)

Definition wire_char (c : ascii) : bool := is_unreserved c || Ascii.eqb c "%".

Lemma hex_upper_digit d : 0 <= d < 16 -> to_digit16 (hex_upper d) = Some d.
Proof.
  intros H. assert (d ∈ seqZ 0 16) as Hd by (apply elem_of_seqZ; lia).
  clear H. revert d Hd. apply Forall_forall. repeat constructor.
Qed.

Lemma hex_upper_wire d : 0 <= d < 16 -> is_unreserved (hex_upper d) = true.
Proof.
  intros H. assert (d ∈ seqZ 0 16) as Hd by (apply elem_of_seqZ; lia).
  clear H. revert d Hd. apply Forall_forall. repeat constructor.
Qed.

Lemma code_range c : 0 <= code c < 256.
Proof.
  assert (forall c, in_range 0 255 (code c) = true) as H by (apply by_all_bytes; vm_compute; reflexivity).
  specialize (H c). unfold in_range in H. apply andb_true_iff in H as [?%Z.leb_le ?%Z.leb_le]. lia.
Qed.

Lemma nibbles c : 0 <= code c / 16 < 16 /\ 0 <= code c mod 16 < 16.
Proof.
  pose proof (code_range c). split; [|apply Z.mod_pos_bound; lia].
  split; [apply Z.div_pos|apply Z.div_lt_upper_bound]; lia.
Qed.

Lemma chr_code c : chr (16 * (code c / 16) + code c mod 16) = c.
Proof.
  rewrite <- Z.div_mod by lia. unfold chr, code. rewrite N2Z.id. apply ascii_N_embedding.
Qed.

Lemma unreserved_wire c : is_unreserved c = true -> wire_char c = true.
Proof. unfold wire_char. by intros ->. Qed.

Lemma encode_wire s : str_forallb wire_char (encode_component s) = true.
Proof.
  induction s as [|c s IH]; [done|]. cbn [encode_component].
  destruct (is_unreserved c) eqn:E; cbn [str_forallb].
  - by rewrite unreserved_wire, IH.
  - destruct (nibbles c). rewrite IH, (unreserved_wire (hex_upper (code c / 16))) by (by apply hex_upper_wire).
    by rewrite (unreserved_wire (hex_upper (code c mod 16))) by (by apply hex_upper_wire).
Qed.

Lemma encode_unreserved s : str_forallb is_unreserved s = true -> encode_component s = s.
Proof.
  induction s as [|c s IH]; [done|]. cbn. intros [-> Hs]%andb_true_iff. by rewrite IH.
Qed.

Lemma encode_nonempty s : s <> "" -> encode_component s <> "".
Proof. destruct s as [|c s]; [done|]. intros _. cbn. by destruct (is_unreserved c). Qed.

Section Decoding.
Context {AX : Axum} {AL : AxumLaws AX}.

Lemma decode_unreserved s : str_forallb is_unreserved s = true -> percent_bytes s = s.
Proof.
  induction s as [|c s IH]; [by rewrite percent_nil|]. cbn. intros [Hc Hs]%andb_true_iff.
  rewrite percent_plain by (by intros ->). by rewrite IH.
Qed.

(** The server reads back what the client encoded. *)
Lemma encode_roundtrip s : percent_bytes (encode_component s) = s.
Proof.
  induction s as [|c s IH]; [by rewrite percent_nil|]. cbn [encode_component].
  destruct (is_unreserved c) eqn:E.
  - rewrite percent_plain by (by intros ->). by rewrite IH.
  - destruct (nibbles c). rewrite (percent_escape _ _ (code c / 16) (code c mod 16)) by
      (by apply hex_upper_digit). by rewrite IH, chr_code.
Qed.

Lemma param_roundtrip id : utf8_valid id = true -> path_param (encode_component id) = Some id.
Proof. intros H. unfold path_param. by rewrite encode_roundtrip, H. Qed.
End Decoding.

Lemma encode_inj s t : encode_component s = encode_component t -> s = t.
Proof.
  intros E. by rewrite <- (encode_roundtrip (AX := demo_axum) s), E,
    (encode_roundtrip (AX := demo_axum) t).
Qed.

(** ** Paths *)

Lemma wire_no_slash w : str_forallb wire_char w = true -> split_char slash w = [w].
Proof.
  induction w as [|c w IH]; [done|]. cbn. intros [Hc Hw]%andb_true_iff. rewrite IH by done.
  by destruct (Ascii.eqb_spec c slash) as [->|].
Qed.

Lemma split_app w rest :
  str_forallb wire_char w = true ->
  split_char slash (w +:+ String slash rest) = w :: split_char slash rest.
Proof.
  induction w as [|c w IH]; [done|]. cbn. intros [Hc Hw]%andb_true_iff. rewrite IH by done.
  by destruct (Ascii.eqb_spec c slash) as [->|].
Qed.

Lemma split_join ws :
  ws <> [] -> Forall (fun w => str_forallb wire_char w = true) ws ->
  split_char slash (join "/" ws) = ws.
Proof.
  intros Hne H. induction H as [|w ws Hw Hws IH]; [done|]. destruct ws as [|w' ws].
  - by apply wire_no_slash.
  - change (join "/" (w :: w' :: ws)) with (w +:+ String slash (join "/" (w' :: ws))).
    rewrite split_app by done. by rewrite IH.
Qed.

(** ** URLs

    [origin] are the addresses of a server without a path.  Of a URL the client sends the
    path and the query; the segments [.] and [..] of a path are resolved before that, as
    in the URL standard.  A query is read as form data. *)
Fixpoint resolve_dots (acc segs : list string) : list string :=
  match segs with
  | [] => rev acc
  | s :: rest =>
      if s =s ".." then
        match rest with [] => rev ("" :: tail acc) | _ => resolve_dots (tail acc) rest end
      else if s =s "." then
        match rest with [] => rev ("" :: acc) | _ => resolve_dots acc rest end
      else resolve_dots (s :: acc) rest
  end.

Definition query_text (query : list (string * string)) : string :=
  join "&" ((fun kv => kv.1 +:+ "=" +:+ kv.2) <$> query).

Class Wire := {
  origin : string -> bool;
  request_target : string -> option (string * string);
  query_pairs : string -> list (string * string);
}.

Class WireLaws {AX : Axum} (WR : Wire) : Prop := {
  target_plain base segs :
    origin base = true -> segs <> [] -> Forall (fun w => str_forallb wire_char w = true) segs ->
    request_target (base +:+ "/" +:+ join "/" segs)
    = Some ("/" +:+ join "/" (resolve_dots [] segs), "");
  target_query base segs query :
    origin base = true -> segs <> [] -> Forall (fun w => str_forallb wire_char w = true) segs ->
    Forall (fun kv => str_forallb wire_char kv.1 = true /\ str_forallb wire_char kv.2 = true) query ->
    request_target (base +:+ "/" +:+ join "/" segs +:+ "?" +:+ query_text query)
    = Some ("/" +:+ join "/" (resolve_dots [] segs), query_text query);
  pairs_empty : query_pairs "" = [];
  pairs_query query :
    query <> [] ->
    Forall (fun kv => str_forallb wire_char kv.1 = true /\ str_forallb wire_char kv.2 = true) query ->
    query_pairs (query_text query)
    = (fun kv => (percent_bytes kv.1, percent_bytes kv.2)) <$> query;
}.

Lemma resolve_no_dots acc segs :
  Forall (fun s => s <> "." /\ s <> "..") segs -> resolve_dots acc segs = rev acc ++ segs.
Proof.
  intros H. revert acc. induction H as [|s segs [H1 H2] _ IH]; intros acc; cbn [resolve_dots].
  { by rewrite app_nil_r. }
  apply String.eqb_neq in H1, H2. rewrite H1, H2, IH. cbn [rev]. by rewrite <- app_assoc.
Qed.

Definition encode_query (query : list (string * string)) : list (string * string) :=
  (fun kv => (kv.1, encode_component kv.2)) <$> query.

Lemma query_text_cons k v kv query :
  query_text ((k, v) :: kv :: query) = k +:+ "=" +:+ v +:+ "&" +:+ query_text (kv :: query).
Proof. unfold query_text. cbn [fmap list_fmap fst snd join]. by rewrite !str_app_assoc. Qed.

Lemma build_query_tail query :
  build_query false query
  = match query with [] => "" | _ => "&" +:+ query_text (encode_query query) end.
Proof.
  induction query as [|[k v] query IH]; [done|]. cbn [build_query]. rewrite IH.
  destruct query as [|[k' v'] query]; [by rewrite str_app_nil_r|]. f_equal. symmetry.
  apply query_text_cons.
Qed.

Lemma build_query_text query :
  build_query true query
  = match query with [] => "" | _ => "?" +:+ query_text (encode_query query) end.
Proof.
  destruct query as [|[k v] query]; [done|]. cbn [build_query]. rewrite build_query_tail.
  destruct query as [|[k' v'] query]; [by rewrite str_app_nil_r|]. f_equal. symmetry.
  apply query_text_cons.
Qed.

(** ** What a command means

    The operation of the administration a command stands for: its method and handler, the
    parameters of the path and those of the query. *)
Record Operation := mkOperation {
  op_method : Method;
  op_handler : AdminHandler;
  op_params : list string;
  op_query : list (string * string);
}.

Definition op (m : Method) (h : AdminHandler) (params : list string) : Operation :=
  mkOperation m h params [].

Definition operations (c : AdminCommand) : list Operation :=
  match c with
  | Stats => [op GET Read_stats []]
  | Resources None => [op GET Read_resources []]
  | Resources (Some (Resources_Create _)) => [op POST Crud_create_resource []]
  | Resources (Some (Resources_Update id _)) => [op PUT Crud_update_resource [id]]
  | Resources (Some (Resources_Rm id)) => [op DELETE Crud_delete_resource [id]]
  | ProxyKeys None => [op GET Read_proxy_keys []]
  | ProxyKeys (Some (ProxyKeys_Issue id _)) => [op POST Tokens_issue_token [id]]
  | ProxyKeys (Some (ProxyKeys_RevokeToken id)) => [op DELETE Tokens_revoke_token [id]]
  | ProxyKeys (Some (ProxyKeys_Create _)) => [op POST Crud_create_proxy_key []]
  | ProxyKeys (Some (ProxyKeys_Update id _)) => [op PUT Crud_update_proxy_key [id]]
  | ProxyKeys (Some (ProxyKeys_Rm id)) => [op DELETE Crud_delete_proxy_key [id]]
  | KeyPools => [op GET Read_key_pools []]
  | Presets => [op GET Read_mcp_presets []]
  | McpServers None => [op GET Mcp_list_servers []]
  | McpServers (Some (McpServers_Get id)) => [op GET Mcp_get_server [id]]
  | McpServers (Some (McpServers_Probe id)) => [op POST Mcp_probe_server [id]]
  | McpServers (Some (McpServers_Authorize id)) => [op POST OAuth_authorize [id]]
  | McpServers (Some (McpServers_Deauthorize id)) => [op DELETE OAuth_deauthorize [id]]
  | McpServers (Some (McpServers_Create _)) => [op POST Mcp_create_server []]
  | McpServers (Some (McpServers_Update id _)) => [op PUT Mcp_update_server [id]]
  | McpServers (Some (McpServers_Rm id)) => [op DELETE Mcp_delete_server [id]]
  | Metadata Metadata_List => [op GET Metadata_list_metadata []]
  | Metadata (Metadata_Get tool) => [op GET Metadata_get_metadata [tool]]
  | Metadata (Metadata_Set tool _) => [op PUT Metadata_put_metadata [tool]]
  | Metadata (Metadata_Rm tool) => [op DELETE Metadata_delete_metadata [tool]]
  | Validate => [op GET Crud_validate_config []]
  | Tools _ => [op GET Read_tools []]
  | Events tool key resource limit from to =>
      [mkOperation GET Read_events [] (events_query tool key resource limit from to)]
  | SecurityEvents resource kind =>
      [mkOperation GET Read_security_events [] (security_events_query resource kind)]
  | Usage group_by from to => [mkOperation GET Read_usage [] (usage_query group_by from to)]
  | Defaults Defaults_List => [op GET Defaults_list_defaults []]
  | Defaults (Defaults_Get tool) => [op GET Defaults_get_default [tool]]
  | Defaults (Defaults_Rm tool) => [op DELETE Defaults_delete_default [tool]]
  | Defaults (Defaults_Set tool _ _ false) => [op PUT Defaults_put_default [tool]]
  | Defaults (Defaults_Set tool _ _ true) =>
      [mkOperation GET Read_events [] [("tool_name", tool); ("limit", "1")];
       op PUT Defaults_put_default [tool]]
  | Invoke tool _ _ use_defaults save =>
      [mkOperation POST Defaults_invoke_tool_debug [tool]
         [("use_defaults", fmt_bool use_defaults); ("save", fmt_bool save)]]
  end.

(** An id that can stand in a path: text that is not empty, [.] or [..]. *)
Definition plain_id (id : string) : Prop :=
  id <> "" /\ id <> "." /\ id <> ".." /\ utf8_valid id = true.

#[export] Instance AdminHandler_eq_dec : EqDecision AdminHandler.
Proof. solve_decision. Defined.

(** The handler of the administration at a pattern. *)
Definition admin_endpoint (p : string) (m : Method) : option AdminHandler :=
  r ← List.find (fun r => r.1 =s p) admin_router; pick (Methods r.2) m.

Section Reaching.
Context {SHA : Sha256} {AX : Axum} {AL : AxumLaws AX} {WR : Wire} {WL : WireLaws WR}.
Variables (s : Server) (auth : AdminAuth) (c : ApiClient) (admin : string) (now : Z).
Hypothesis Hauth : sv_admin_auth s = Some auth.
Hypothesis Hadmin : verify (ac_token c) auth = Some admin.
Hypothesis Hbase : origin (ac_base c) = true.

(** The request reaches the handler of the operation, as the administrator of the client. *)
Definition reaches (q : ApiRequest) (o : Operation) : Prop :=
  exists path query,
    request_target (ap_url q) = Some (path, query) /\
    query_pairs query = op_query o /\
    dispatch s (mkRequest (ap_method q) path (Some ("Bearer " +:+ ap_token q)) None) now
    = Runs AdminZone (Admin (op_handler o)) (op_params o) (AdminCaller admin).

Lemma admin_endpoint_route p m h :
  admin_endpoint p m = Some h ->
  exists ms, mkRoute ("/admin" +:+ p) AdminZone (Methods ms) ∈ routes s /\
    pick (Methods ms) m = Some (Admin h).
Proof.
  intros ([p' ms] & [Hin E%String.eqb_eq]%find_some & Hp)%bind_Some. cbn in E. subst p'.
  exists ((fun m => (m.1, Admin m.2)) <$> ms). split.
  - unfold routes, api_routes. rewrite Hauth. apply elem_of_app. right. apply elem_of_app. left.
    apply elem_of_app. right. apply elem_of_app. left.
    apply (list_elem_of_fmap_2 (fun r => mkRoute ("/admin" +:+ r.1) AdminZone
             (Methods ((fun m => (m.1, Admin m.2)) <$> r.2))) _ (p, ms)).
    by apply list_elem_of_In.
  - cbn in Hp |- *. revert Hp. generalize (if bool_decide (m = HEAD) then GET else m). intros m0.
    clear Hin. induction ms as [|[m' h'] ms IH]; [done|]. cbn. case_bool_decide; [|done].
    by intros [= ->].
Qed.

Lemma authorized : forall m path,
  authorize s AdminZone (mkRequest m path (Some ("Bearer " +:+ ac_token c)) None) now
  = Ok (AdminCaller admin).
Proof.
  intros m path. unfold authorize, require_admin. rewrite Hauth. cbn [rt_authorization].
  unfold bearer_token. cbn [mbind option_bind].
  rewrite (proj2 (strip_prefix_Some "Bearer " _ _) eq_refl). cbn [mbind option_bind].
  by rewrite Hadmin.
Qed.

Lemma mapM_params ids :
  Forall (fun id => utf8_valid id = true) ids -> mapM path_param (encode_component <$> ids) = Some ids.
Proof.
  induction 1 as [|id ids Hid _ IH]; [done|]. cbn. rewrite param_roundtrip by done. cbn.
  by rewrite IH.
Qed.

Lemma dispatch_at p m h segs ids :
  admin_endpoint p m = Some h ->
  captures (pattern_segments ("/admin" +:+ p)) ("" :: segs) = Some (encode_component <$> ids) ->
  segs <> [] -> Forall (fun w => str_forallb wire_char w = true) segs -> Forall plain_id ids ->
  dispatch s (mkRequest m ("/" +:+ join "/" segs) (Some ("Bearer " +:+ ac_token c)) None) now
  = Runs AdminZone (Admin h) ids (AdminCaller admin).
Proof.
  intros (ms & Hr & Hp)%admin_endpoint_route Hc Hne Hw Hids. unfold dispatch. cbn [rt_path rt_method].
  assert (split_char slash ("/" +:+ join "/" segs) = "" :: segs) as Es.
  { change ("/" +:+ join "/" segs) with (String slash (join "/" segs)). cbn.
    by rewrite split_join. }
  assert (find_route (routes s) ("/" +:+ join "/" segs)
    = Some (mkRoute ("/admin" +:+ p) AdminZone (Methods ms), encode_component <$> ids)) as ->.
  { apply find_route_spec. split; [done|]. by rewrite Es. }
  cbn [r_zone r_service]. rewrite authorized, Hp, mapM_params; [done|].
  apply (Forall_impl _ _ _ Hids). by intros id (_ & _ & _ & H).
Qed.

Lemma query_wire query :
  Forall (fun kv => str_forallb is_unreserved kv.1 = true) query ->
  Forall (fun kv => str_forallb wire_char kv.1 = true /\ str_forallb wire_char kv.2 = true)
    (encode_query query).
Proof.
  intros H. apply Forall_fmap, (Forall_impl _ _ _ H). intros kv Hk. split; [|apply encode_wire].
  revert Hk. apply str_forallb_impl, unreserved_wire.
Qed.

Lemma query_roundtrip query :
  Forall (fun kv => str_forallb is_unreserved kv.1 = true) query ->
  (fun kv => (percent_bytes kv.1, percent_bytes kv.2)) <$> encode_query query = query.
Proof.
  intros H. unfold encode_query. rewrite <- list_fmap_compose. rewrite <- (list_fmap_id query) at 2.
  apply list_fmap_ext. intros i [k v] Hi. cbn. rewrite encode_roundtrip, decode_unreserved; [done|].
  rewrite Forall_lookup in H. apply (H i _ Hi).
Qed.

Lemma reaches_operation p m h path segs ids query body :
  admin_endpoint p m = Some h ->
  path = "/" +:+ join "/" (encode_component <$> segs) -> segs <> [] ->
  Forall (fun s => s <> "." /\ s <> "..") segs ->
  captures (pattern_segments ("/admin" +:+ p)) ("" :: (encode_component <$> segs))
    = Some (encode_component <$> ids) ->
  Forall plain_id ids -> Forall (fun kv => str_forallb is_unreserved kv.1 = true) query ->
  reaches (mkApiRequest m (build_url (ac_base c) path query) (ac_token c) body)
    (mkOperation m h ids query).
Proof.
  intros He -> Hne Hdots Hc Hids Hq.
  assert (Forall (fun w => str_forallb wire_char w = true) (encode_component <$> segs)) as Hw
    by (apply Forall_fmap, Forall_forall; intros; apply encode_wire).
  assert (resolve_dots [] (encode_component <$> segs) = encode_component <$> segs) as Hres.
  { rewrite resolve_no_dots; [done|]. apply Forall_fmap, (Forall_impl _ _ _ Hdots).
    intros x [H1 H2]. split; intros E; [apply H1|apply H2]; by apply encode_inj. }
  assert (encode_component <$> segs <> []) as Hne' by (by destruct segs).
  exists ("/" +:+ join "/" (encode_component <$> segs)), (query_text (encode_query query)).
  cbn [ap_url ap_method ap_token op_query op_handler op_params]. split_and!.
  - unfold build_url. rewrite build_query_text. destruct query as [|kv query].
    + rewrite str_app_nil_r, target_plain by done. by rewrite Hres.
    + rewrite str_app_assoc, target_query by (done || by apply query_wire). by rewrite Hres.
  - destruct query as [|kv query]; [apply pairs_empty|].
    rewrite pairs_query by (done || by apply query_wire). by apply query_roundtrip.
  - by apply (dispatch_at p).
Qed.
End Reaching.

(** ** What a command sends *)

Section Sending.
Context {HS : Host}.
Variable good : ApiRequest -> Operation -> Prop.

(** The requests of a command are those of some first operations of the list, and of all
    of them when it succeeds. *)
Definition sends {A} (m : cli A) (ops : list Operation) : Prop :=
  forall st, exists new before after,
    cs_sent (m st).1 = cs_sent st ++ new /\ ops = before ++ after /\ Forall2 good new before /\
    (is_Ok (m st).2 = true -> after = []).

Lemma sends_nothing {A} (m : cli A) : (forall st, cs_sent (m st).1 = cs_sent st) -> sends m [].
Proof. intros H st. exists [], [], []. rewrite H, app_nil_r. by split_and!. Qed.

Lemma sends_lift {A} (r : result CliError A) : sends (lift r) [].
Proof. by apply sends_nothing. Qed.
Lemma sends_note text : sends (note text) [].
Proof. by apply sends_nothing. Qed.
Lemma sends_ret {A} (a : A) : sends (mret a) [].
Proof. by apply sends_nothing. Qed.

Lemma sends_bind {A B} (m : cli A) (f : A -> cli B) ops ops' :
  sends m ops -> (forall a, sends (f a) ops') -> sends (m ≫= f) (ops ++ ops').
Proof.
  intros Hm Hf st. destruct (Hm st) as (n1 & b1 & a1 & E1 & -> & H1 & Hok).
  unfold mbind, cli_bind. destruct (m st) as [st' [a|e]]; cbn in *.
  - rewrite (Hok eq_refl), app_nil_r. destruct (Hf a st') as (n2 & b2 & a2 & E2 & -> & H2 & Hok2).
    exists (n1 ++ n2), (b1 ++ b2), a2. rewrite E2, E1, <- !app_assoc.
    split_and!; [done|done|by apply Forall2_app|done].
  - exists n1, b1, (a1 ++ ops'). rewrite <- app_assoc. by split_and!.
Qed.

Lemma sends_request {JR : JsonReader} c m url body o :
  good (mkApiRequest m url (ac_token c) body) o -> sends (api_send c m url body) [o].
Proof.
  intros H st. exists [mkApiRequest m url (ac_token c) body], [o], []. unfold api_send.
  destruct (exchange _ _) as [net x]. cbn. split_and!; try done. by repeat constructor.
Qed.
End Sending.

(** ** Every command reaches its handlers *)

(** The request of one command: its route, its segments and the keys of its query. *)
Ltac endpoint pat ws :=
  eapply reaches_operation with (p := pat) (segs := ws);
  [eassumption|eassumption|assumption|vm_compute; reflexivity|reflexivity|discriminate|..];
  [repeat (apply Forall_cons_2; [first [split; discriminate | unfold plain_id in *; naive_solver]|]);
   apply Forall_nil_2
  |cbn [fmap list_fmap];
   repeat match goal with
   | H : plain_id ?id |- context [encode_component ?id] =>
       let w := fresh "w" in let Hw := fresh in
       pose proof (encode_nonempty id (proj1 H)) as Hw; revert Hw;
       generalize (encode_component id); intros [|? w] Hw; [done|clear H]
   end; try reflexivity
  |repeat (apply Forall_cons_2; [assumption|]); apply Forall_nil_2
  |try (repeat constructor)].

(** The structure of a command. *)
Ltac command_sends :=
  lazymatch goal with
  | |- sends _ (lift _) [] => apply sends_lift
  | |- sends _ (mret _) [] => apply sends_ret
  | |- sends _ (mbind _ (lift _)) ?l =>
      apply (sends_bind _ _ _ [] l); [apply sends_lift|intros ?; command_sends]
  | |- sends _ (mbind _ (note _)) ?l =>
      apply (sends_bind _ _ _ [] l); [apply sends_note|intros ?; command_sends]
  | |- sends _ (mbind _ _) (?o :: ?l) =>
      apply (sends_bind _ _ _ [o] l); [command_sends|intros ?; command_sends]
  | |- sends _ _ [_] =>
      first [unfold api_get | unfold put_json | unfold api_delete | unfold post_json];
      apply sends_request
  end.

Ltac plain_ids :=
  repeat (cbn [op op_params] in *;
          match goal with H : Forall _ (_ :: _) |- _ => apply Forall_cons in H as [? H] end).

Lemma given_keys query :
  Forall (fun q => str_forallb is_unreserved q.1 = true) query ->
  Forall (fun kv => str_forallb is_unreserved kv.1 = true) (given query).
Proof.
  intros Hq. apply Forall_forall. intros kv ([k o] & Hin & (v & _ & [= <-])%bind_Some)%list_elem_of_omap.
  rewrite Forall_forall in Hq. apply (Hq (k, o) Hin).
Qed.

Ltac query_keys := apply given_keys; repeat constructor.

Section Commands.
Context {SHA : Sha256} {AX : Axum} {AL : AxumLaws AX} {WR : Wire} {WL : WireLaws WR}
  {HS : Host} {JR : JsonReader} {SE : Serializers} {RE : RegexEngine}.

(** C19: A command of [asterlane admin] does what it says: with the token of an
    administrator, against a gateway with the routes of this program, each request it
    sends reaches the handler of its operation, as that administrator, with exactly the
    ids and query parameters that were given (no id can turn into another path), in the
    order of the operations; and all of them when the command succeeds.  This needs ids
    other than the empty one, [.] and [..]. *)
Theorem admin_commands_reach s auth c admin now command st :
  sv_admin_auth s = Some auth -> verify (ac_token c) auth = Some admin ->
  origin (ac_base c) = true ->
  Forall (fun o => Forall plain_id (op_params o)) (operations command) ->
  exists new before after,
    cs_sent (admin_command c command st).1 = cs_sent st ++ new /\
    operations command = before ++ after /\
    Forall2 (reaches s admin now) new before /\
    (is_Ok (admin_command c command st).2 = true -> after = []).
Proof.
  intros Ha Hv Hb Hids. revert st. change (sends (reaches s admin now) (admin_command c command) (operations command)).
  destruct command as [|cmd|cmd| | |cmd|cmd| |f|t k r l f o|r k|g f o|cmd|t a f u sv].
  all: cbn [admin_command operations] in *.
  - command_sends. endpoint "/stats" ["admin"; "stats"].
  - destruct cmd as [[b|id b|id]|]; cbn [run_resources operations] in *; plain_ids; command_sends.
    + endpoint "/resources" ["admin"; "resources"].
    + endpoint "/resources/{id}" ["admin"; "resources"; id].
    + endpoint "/resources/{id}" ["admin"; "resources"; id].
    + endpoint "/resources" ["admin"; "resources"].
  - destruct cmd as [[id t|id|b|id b|id]|]; cbn [run_proxy_keys operations] in *; plain_ids; command_sends.
    + endpoint "/proxy-keys/{id}/token" ["admin"; "proxy-keys"; id; "token"].
    + endpoint "/proxy-keys/{id}/token" ["admin"; "proxy-keys"; id; "token"].
    + endpoint "/proxy-keys" ["admin"; "proxy-keys"].
    + endpoint "/proxy-keys/{id}" ["admin"; "proxy-keys"; id].
    + endpoint "/proxy-keys/{id}" ["admin"; "proxy-keys"; id].
    + endpoint "/proxy-keys" ["admin"; "proxy-keys"].
  - command_sends. endpoint "/key-pools" ["admin"; "key-pools"].
  - command_sends. endpoint "/mcp-presets" ["admin"; "mcp-presets"].
  - destruct cmd as [[id|id|id|id|b|id b|id]|]; cbn [run_mcp_servers operations] in *; plain_ids;
      command_sends.
    + endpoint "/mcp-servers/{id}" ["admin"; "mcp-servers"; id].
    + endpoint "/mcp-servers/{id}/probe" ["admin"; "mcp-servers"; id; "probe"].
    + endpoint "/mcp-servers/{id}/oauth/authorize" ["admin"; "mcp-servers"; id; "oauth"; "authorize"].
    + endpoint "/mcp-servers/{id}/oauth" ["admin"; "mcp-servers"; id; "oauth"].
    + endpoint "/mcp-servers" ["admin"; "mcp-servers"].
    + endpoint "/mcp-servers/{id}" ["admin"; "mcp-servers"; id].
    + endpoint "/mcp-servers/{id}" ["admin"; "mcp-servers"; id].
    + endpoint "/mcp-servers" ["admin"; "mcp-servers"].
  - destruct cmd as [|t|t d|t]; cbn [run_metadata operations] in *; plain_ids; command_sends.
    + endpoint "/tool-metadata" ["admin"; "tool-metadata"].
    + endpoint "/tools/{name}/metadata" ["admin"; "tools"; t; "metadata"].
    + endpoint "/tools/{name}/metadata" ["admin"; "tools"; t; "metadata"].
    + endpoint "/tools/{name}/metadata" ["admin"; "tools"; t; "metadata"].
  - command_sends. endpoint "/config/validate" ["admin"; "config"; "validate"].
  - command_sends. endpoint "/tools" ["admin"; "tools"].
  - command_sends. endpoint "/events" ["admin"; "events"]. query_keys.
  - command_sends. endpoint "/security-events" ["admin"; "security-events"]. query_keys.
  - command_sends. endpoint "/usage" ["admin"; "usage"]. query_keys.
  - destruct cmd as [|t|t a f [|]|t]; cbn [run_defaults operations] in *; plain_ids.
    + command_sends. endpoint "/tool-defaults" ["admin"; "tool-defaults"].
    + command_sends. endpoint "/tools/{name}/defaults" ["admin"; "tools"; t; "defaults"].
    + unfold last_event_args. command_sends.
      * endpoint "/events" ["admin"; "events"].
      * endpoint "/tools/{name}/defaults" ["admin"; "tools"; t; "defaults"].
    + command_sends. endpoint "/tools/{name}/defaults" ["admin"; "tools"; t; "defaults"].
    + command_sends. endpoint "/tools/{name}/defaults" ["admin"; "tools"; t; "defaults"].
  - plain_ids. command_sends. endpoint "/tools/{name}/invoke" ["admin"; "tools"; t; "invoke"].
Qed.
End Commands.

(** ** Exit codes *)

(** The text of a JSON value is never blank. *)
Class JsonNotBlank (SE : Serializers) : Prop := {
  json_not_blank v : is_empty (trim (value_to_string v)) = false;
}.

Lemma exit_code_of_code code : exit_code_for_code (Errors.as_str code)
  = exit_code (internal code "").
Proof. by destruct code. Qed.

Lemma exit_code_by_code e code : error_code e = code -> exit_code (internal code "") = exit_code e.
Proof. intros <-. reflexivity. Qed.

Section ExitCodes.
Context {HS : Host} {JR : JsonReader} {SE : Serializers} {JT : JsonText} {NB : JsonNotBlank SE}.

(** The error that the client finds in an answer. *)
Definition reported (field : string) (body : JSON) : option string :=
  e ← json_get "error" body; m ← json_get field e; as_str m.

Lemma envelope_read status code message id :
  parse_body status (value_to_string (error_envelope code message id))
  = error_envelope code message id.
Proof.
  unfold parse_body. rewrite json_not_blank. unfold json_value.
  rewrite json_text_roundtrip; [reflexivity|]. cbn. lia.
Qed.

(** C16: a request of the command line client that the gateway refuses ends with the
    exit code of that error.  When the answer that the client gets is what the server
    sends for an error, through its outer layers, the client takes it for an error
    whatever its status; it reports the code of the error and the id of the request,
    and the error's message too unless the body was too large, where the outer layer
    puts its own; and the process ends with the exit code that the error model gives
    the error. *)
Theorem refused_exit_code c m url body st net id e :
  let answer := with_global_guards id (into_response id e) in
  exchange (cs_net st) (mkApiRequest m url (ac_token c) body)
    = (net, Answered (hr_status answer) (hr_body answer)) ->
  exists b, (api_send c m url body st).2 = Err (Api b) /\
    cli_exit_code (Api b) = exit_code e /\
    (error_code e <> HttpBodyTooLarge -> reported "message" b = Some (safe_message e)) /\
    reported "code" b = Some (Errors.as_str (error_code e)) /\
    reported "request_id" b = Some id.
Proof.
  cbn zeta. destruct (into_response_status id e) as [Hs Hst].
  destruct (guards_status id (into_response id e)) as [-> ->]. rewrite Hst in *.
  intros Hx. unfold api_send. rewrite Hx.
  assert (in_range 200 299 (http_status_for (error_code e)) = false) as ->.
  { unfold in_range. apply andb_false_iff. right. apply Z.leb_gt. lia. }
  eexists. split; [reflexivity|].
  assert (forall c, (http_status_for c =? 413) = bool_decide (c = HttpBodyTooLarge)) as -> by (by intros []).
  case_bool_decide as E.
  - unfold into_response. cbn [hr_body http_response hv_code hv_message body_too_large internal error_code
      safe_message]. rewrite envelope_read. cbn. rewrite E. split_and!; try done.
    by rewrite <- (exit_code_by_code e _ E).
  - unfold into_response. cbn [hr_body http_response hv_code hv_message]. rewrite envelope_read.
    cbn [cli_exit_code]. split_and!; try done.
    rewrite <- (exit_code_by_code e (error_code e)) by done. apply exit_code_of_code.
Qed.
End ExitCodes.

(** ** Concrete instances *)

Definition free (c : ascii) (s : string) : bool := str_forallb (fun a => negb (Ascii.eqb a c)) s.

Lemma wire_free c s : wire_char c = false -> str_forallb wire_char s = true -> free c s = true.
Proof.
  intros Hc. apply str_forallb_impl. intros a Ha. by destruct (Ascii.eqb_spec a c) as [->|]; [congruence|].
Qed.

Lemma split_char_free c w : free c w = true -> split_char c w = [w].
Proof.
  induction w as [|a w IH]; [done|]. cbn. intros [Ha%negb_true_iff Hw]%andb_true_iff.
  by rewrite Ha, IH.
Qed.

Lemma split_char_app c w rest :
  free c w = true -> split_char c (w +:+ String c rest) = w :: split_char c rest.
Proof.
  induction w as [|a w IH]; cbn; [by rewrite Ascii.eqb_refl|].
  intros [Ha%negb_true_iff Hw]%andb_true_iff. by rewrite Ha, IH.
Qed.

Lemma split_once_free c s : free c s = true -> split_once c s = None.
Proof.
  induction s as [|a s IH]; [done|]. cbn. intros [Ha%negb_true_iff Hs]%andb_true_iff.
  by rewrite Ha, IH.
Qed.

Lemma join_free c segs :
  c <> slash -> wire_char c = false -> Forall (fun w => str_forallb wire_char w = true) segs ->
  free c (String slash (join "/" segs)) = true.
Proof.
  intros Hs Hc H. unfold free. cbn [str_forallb].
  destruct (Ascii.eqb_spec slash c) as [|_]; [congruence|]. cbn [negb andb].
  induction H as [|w segs Hw H IH]; [done|]. destruct segs as [|w' segs].
  - by apply (wire_free c).
  - change (join "/" (w :: w' :: segs)) with (w +:+ String slash (join "/" (w' :: segs))).
    rewrite str_forallb_app. cbn [str_forallb]. destruct (Ascii.eqb_spec slash c) as [|_]; [congruence|].
    rewrite IH. apply (wire_free c) in Hw; [|done]. unfold free in Hw. by rewrite Hw.
Qed.

Definition demo_base : string := "http://h:1".

Definition demo_path (p : string) : string :=
  "/" +:+ join "/" (resolve_dots [] (tail (split_char slash p))).

Definition demo_target (url : string) : option (string * string) :=
  rest ← strip_prefix demo_base url;
  Some (match split_once "?" rest with
        | Some (p, q) => (demo_path p, q)
        | None => (demo_path rest, "")
        end).

Definition demo_pair (p : string) : string * string :=
  match split_once "=" p with
  | Some (k, v) => (demo_percent k, demo_percent v)
  | None => (demo_percent p, "")
  end.

Definition demo_wire : Wire := {|
  origin b := b =s demo_base;
  request_target := demo_target;
  query_pairs q := if is_empty q then [] else demo_pair <$> split_char "&" q;
|}.

Lemma demo_path_join segs :
  segs <> [] -> Forall (fun w => str_forallb wire_char w = true) segs ->
  demo_path (String slash (join "/" segs)) = "/" +:+ join "/" (resolve_dots [] segs).
Proof.
  intros Hne H. unfold demo_path.
  assert (split_char slash (String slash (join "/" segs)) = "" :: segs) as ->; [|done].
  cbn. by rewrite split_join.
Qed.

Lemma query_text_split query :
  query <> [] ->
  Forall (fun kv => str_forallb wire_char kv.1 = true /\ str_forallb wire_char kv.2 = true) query ->
  split_char "&" (query_text query) = (fun kv => kv.1 +:+ "=" +:+ kv.2) <$> query.
Proof.
  intros Hne H. induction H as [|[k v] query [Hk Hv] H IH]; [done|].
  assert (free "&" (k +:+ "=" +:+ v) = true) as Hf.
  { unfold free. rewrite !str_forallb_app. cbn [fst snd] in *.
    apply (wire_free "&") in Hk, Hv; [|done..]. unfold free in Hk, Hv. by rewrite Hk, Hv. }
  destruct query as [|kv query]; [by apply split_char_free|].
  destruct kv as [k' v']. rewrite query_text_cons.
  change (k +:+ "=" +:+ v +:+ "&" +:+ query_text ((k', v') :: query))
    with (k +:+ "=" +:+ v +:+ String "&" (query_text ((k', v') :: query))).
  assert (forall r, k +:+ "=" +:+ v +:+ r = (k +:+ "=" +:+ v) +:+ r) as Ea
    by (intros; by rewrite !str_app_assoc).
  rewrite Ea, split_char_app by done. by rewrite IH.
Qed.

#[export] Instance demo_wire_laws : WireLaws (AX := demo_axum) demo_wire.
Proof.
  split; cbn [origin request_target query_pairs demo_wire percent_bytes demo_axum].
  - intros base segs ->%String.eqb_eq Hne H. unfold demo_target.
    rewrite (proj2 (strip_prefix_Some demo_base _ _) eq_refl). cbn [mbind option_bind].
    change ("/" +:+ join "/" segs) with (String slash (join "/" segs)).
    rewrite split_once_free by (by apply join_free). by rewrite demo_path_join.
  - intros base segs query ->%String.eqb_eq Hne H Hq. unfold demo_target.
    rewrite (proj2 (strip_prefix_Some demo_base _ _) eq_refl). cbn [mbind option_bind].
    change ("/" +:+ join "/" segs +:+ "?" +:+ query_text query)
      with (String slash (join "/" segs) +:+ String "?" (query_text query)).
    rewrite split_once_app by (by apply join_free). by rewrite demo_path_join.
  - done.
  - intros query Hne Hq.
    assert (is_empty (query_text query) = false) as ->.
    { destruct query as [|[k v] [|[k' v'] query]]; [done|..]; [|rewrite query_text_cons];
        unfold query_text; cbn; by destruct k. }
    rewrite query_text_split by done. rewrite <- list_fmap_compose. apply Forall_fmap_ext_1.
    apply (Forall_impl _ _ _ Hq). intros [k v] [Hk _]. cbn [compose fst snd] in *. unfold demo_pair.
    change (k +:+ "=" +:+ v) with (k +:+ String "=" v).
    by rewrite split_once_app by (by apply wire_free).
Qed.

(** A gateway that refuses every request: there are no such keys. *)
Definition refused : AsterlaneError := internal AdminNotFound "unknown proxy key: a/b".

Definition refusing_host : Host := {|
  Net := unit;
  exchange _ _ :=
    let answer := with_global_guards (SE := stream_serializers) "req-1"
                    (into_response (SE := stream_serializers) "req-1" refused) in
    (tt, Answered (hr_status answer) (hr_body answer));
  env_var _ := None;
  read_to_string _ := Err "no file";
  yaml_value _ := None;
  is_terminal := false;
  to_string_pretty _ := "";
  client_error := None;
|}.

#[export] Instance stream_not_blank : JsonNotBlank stream_serializers.
Proof.
  constructor. intros v. cbn [value_to_string stream_serializers].
  assert (forall c r, c ∈ ["<"; ";"; "'"]%char -> is_empty (trim (String c r)) = false) as Hc.
  { intros c r Hc. unfold trim. cbn [trim_start].
    assert (ws1 (code c) = false /\ (forall b, ws2 (code c) b = false) /\
      forall b d, ws3 (code c) b d = false) as (H1 & H2 & H3).
    { revert c Hc. apply Forall_forall. repeat constructor. }
    rewrite H1. assert (all_ws (String c r) = false) as Hw.
    { cbn [all_ws]. rewrite H1. destruct r as [|b r]; [done|]. rewrite H2. destruct r; [done|].
      by rewrite H3. }
    destruct r as [|b r]; [cbn [trim_end]; by rewrite Hw|]. rewrite H2.
    destruct r as [|d r]; [cbn [trim_end]; by rewrite Hw|]. rewrite H3. cbn [trim_end]. by rewrite Hw. }
  assert (forall l, l <> [] -> is_empty (trim (stream l)) = false) as Hs.
  { intros [|[[w n]|[|c t]] l] Hl; [done|..]; cbn [stream quoted]; apply Hc; set_solver. }
  apply Hs. destruct (json_to_gen v) as [t|n ts]; [done|]. cbn. by destruct (_ ++ _) eqn:E; [apply app_nil in E as [_ ?]|].
Qed.

Definition demo_client : ApiClient := mkApiClient demo_base "s3cret".
Definition fresh_state {HS : Host} (net : Net) : CliState := mkCliState net [] [].

Lemma refused_exit_code_witness :
  exists b,
    (api_send (HS := refusing_host) (JR := stream_reader) demo_client DELETE "http://h:1/admin" None
       (@fresh_state refusing_host tt)).2 = Err (Api b) /\
    cli_exit_code (Api b) = exit_code refused /\
    (error_code refused <> HttpBodyTooLarge -> reported "message" b = Some (safe_message refused)) /\
    reported "code" b = Some (Errors.as_str (error_code refused)) /\
    reported "request_id" b = Some "req-1".
Proof.
  apply (refused_exit_code (HS := refusing_host) (JR := stream_reader) (SE := stream_serializers)
    (JT := stream_text) demo_client DELETE "http://h:1/admin" None (@fresh_state refusing_host tt) tt
    "req-1" refused).
  reflexivity.
Defined.

Definition revoke (id : string) : AdminCommand := ProxyKeys (Some (ProxyKeys_RevokeToken id)).

Lemma admin_commands_reach_witness :
  exists new before after,
    cs_sent (admin_command (HS := refusing_host) (JR := stream_reader) (RE := literal_engine) demo_client
               (revoke "a/b") (@fresh_state refusing_host tt)).1 = [] ++ new /\
    operations (revoke "a/b") = before ++ after /\
    Forall2 (reaches (SHA := block_sha) (AX := demo_axum) (WR := demo_wire) demo_server "ops" 0)
      new before /\
    (is_Ok (admin_command (HS := refusing_host) (JR := stream_reader) (RE := literal_engine) demo_client
              (revoke "a/b") (@fresh_state refusing_host tt)).2 = true -> after = []).
Proof.
  apply (admin_commands_reach (SHA := block_sha) (AX := demo_axum) (WR := demo_wire)
    (HS := refusing_host) (JR := stream_reader) (RE := literal_engine) demo_server
    (mkAdminAuth {[ sha256 (Sha256 := block_sha) "s3cret" := "ops" ]}) demo_client "ops" 0
    (revoke "a/b") (@fresh_state refusing_host tt)).
  - reflexivity.
  - vm_compute. reflexivity.
  - reflexivity.
  - repeat constructor; discriminate.
Defined.

(** An id that is a dot is not encoded, and the URL standard resolves it: revoking the
    token of the key [.] asks the gateway to delete the key [token]. *)
Example dot_deletes_another_key :
  let url := build_url demo_base ("/admin/proxy-keys/" +:+ encode_path_segment "." +:+ "/token") [] in
  (p ← request_target (Wire := demo_wire) url;
   Some (dispatch (SHA := block_sha) (AX := demo_axum) demo_server
          (mkRequest DELETE p.1 (Some "Bearer s3cret") None) 0))
  = Some (Runs AdminZone (Admin Crud_delete_proxy_key) ["token"] (AdminCaller "ops")).
Proof. vm_compute. reflexivity. Qed.
