(* ===== verification/Start.v ===== *)
(** * The start of the gateway ([main.rs], [http/state.rs], [limits/seed.rs])

    [serve] puts the components together: the configuration with the entries of the
    store, the secret store, the catalog and the registry of servers, the descriptions,
    the tables of tokens, the key pools, the limits with the counts of earlier calls, and
    the integrity baseline.  What holds of the running gateway by its invariants holds
    from here on. *)

From S2P Require Import Prelude RustStr Naming Errors Config Policy Secrets Catalog Overrides KeyPool Limits.
From S2P Require Import Egress Shaping GatewayAuth Render Retry Observe Invoke Integrity Surface Peers.
From S2P Require Import Registry Semantic OAuthConfig ConfigJson Store ConfigMerge SecretClients Seal OAuth.
From S2P Require Import Events Admin AdminFacts McpAdmin McpAdminFacts AdminTools AdminRead.

Local Open Scope string_scope.
Local Open Scope list_scope.
Local Open Scope Z_scope.
Local Open Scope gateway_scope.

(** ** Counts of earlier calls ([limits/seed.rs]) *)

(** The columns of the aggregation that the limits read. *)
Definition counted (u : Events.UsageSummary) : Limits.UsageSummary :=
  Limits.mkUsageSummary (us_dimension_value u) (us_request_count u) (us_error_count u).

Definition rows_or_error (r : result StoreError (list Events.UsageSummary))
    : result string (list Limits.UsageSummary) :=
  match r with Ok rows => Ok (counted <$> rows) | Err _ => Err "" end.

Definition day_start (now : Z) : Z := date_naive now * ns_per_day.

Definition today_filter (now : Z) : AggregationFilter :=
  mkAggregationFilter None None (Some (day_start now)) None.

(** The limit [u32::MAX] of the two queries. *)
Notation all_rows := (Z.to_nat u32_max).

Definition seed_registry {G : Governor} {DB : Database} {RF : Rfc3339} (now : Z) (s : EventStore)
    (r : LimitRegistry) : EventStore * LimitRegistry :=
  let '(s, all) := summarize_by ByProxyKey no_filter all_rows s in
  let '(s, today) := summarize_by ByProxyKey (today_filter now) all_rows s in
  (s, seed_from_store (rows_or_error all) (rows_or_error today) now r).

(** ** Sections and state *)

(** The sections of the configuration that only the start reads. *)
Record StartSections := mkStartSections {
  ss_secrets : SecretsConfig;
  ss_admin : AdminConfig;
  ss_semantic_search : option SemanticSearchConfig;
}.

Record Gateway {G : Governor} := mkGateway {
  gw_state : McpAdmin;
  gw_events : option EventStore;
  gw_secrets : SecretSettings;
  gw_admin_auth : option AdminAuth;
  gw_semantic : option SemanticIndex;
}.

(** Where the start fails, with the cause. *)
Inductive StartError :=
| LoadingConfig (e : AsterlaneError)
| SecretBackends (e : AsterlaneError)
| CatalogFailed (e : CatalogError)
| UpstreamOAuthFailed (e : AsterlaneError)
| AdminKeyRefs (e : SecretError)
| ProxyKeyTokens (e : AsterlaneError)
| InvalidKeyPool (e : KeyPoolError)
| InvalidLimits (e : AsterlaneError)
| SemanticKeyRef (e : SecretError).

Section Start.
Context {G : Governor} {SHA : Sha256} {OA : OpenApiSource} {W : World} {JR : JsonReader}
  {RF : Rfc3339} {DB : Database} {AE : AdminEnv} {ME : McpAdminEnv} {UP : UrlParser}
  {SW : SecretWorld} {SH : SecretHttp} {RA : RmcpAuth} {AD : Aead}.
(** whether the HTTP clients of the OAuth service can be built *)
Variable clients : result McpError ().

Definition default_limits : LimitRegistry := mkLimitRegistry ∅ ∅ ∅.

(** [AppState::new]. *)
Definition AppState_new (c : GatewayConfig) (catalog : ToolCatalog) (store : option Store)
    : AdminState :=
  mkAdminState _ c catalog default_limits (from_config_unresolved c) None store.

Definition assemble_state (c : GatewayConfig) (store : option Store) : result StartError McpAdmin :=
  catalog ← map_err CatalogFailed (Catalog.from_config c);
  service ← map_err UpstreamOAuthFailed
              (oauth_from_config clients ae_resolve (oauth c) store (block_private_addresses c));
  let es := connect_all_with (mcp_servers c) in
  let catalog := extend_with_mcp_tools (all_wrapped_tools es) catalog in
  Ok (mkMcpAdmin _ (AppState_new c catalog store) (Some es) ∅ ∅ (Some service)).

Definition with_auth (auth : GatewayAuth) (a : AdminState) : AdminState :=
  mkAdminState _ (ad_config a) (ad_catalog a) (ad_limits a) auth (ad_pools a) (ad_store a).

Definition attach_auth (admins : AdminConfig) (m : McpAdmin)
    : result StartError (McpAdmin * option AdminAuth) :=
  admin ← map_err AdminKeyRefs (admin_auth_from_config admins ae_resolve);
  auth ← map_err ProxyKeyTokens (auth_from_config (ad_config (ma_core m)) ae_resolve);
  Ok (on_core (with_auth auth) m, admin).

Definition with_pools (pools : option KeyPoolRegistry) (a : AdminState) : AdminState :=
  mkAdminState _ (ad_config a) (ad_catalog a) (ad_limits a) (ad_auth a) pools (ad_store a).

Definition attach_runtime_services (now : Z) (semantic : option SemanticSearchConfig)
    (events : option EventStore) (m : McpAdmin)
    : result StartError (McpAdmin * option EventStore * option SemanticIndex) :=
  let c := ad_config (ma_core m) in
  pools ← map_err InvalidKeyPool (registry_from_config c);
  limits ← map_err InvalidLimits (limits_from_config c);
  let '(events, limits) :=
    match events with
    | Some s => let '(s, limits) := seed_registry now s limits in (Some s, limits)
    | None => (None, limits)
    end in
  index ← map_err SemanticKeyRef (index_from_config semantic ae_resolve);
  Ok (on_core (fun a => with_limits limits (with_pools pools a)) m, events, index).

(** [pin_initial_baseline] of [spawn_background_tasks]. *)
Definition pin_baseline (m : McpAdmin) : McpAdmin :=
  match ma_registry m with
  | Some es => rebase_integrity_baseline es m
  | None => m
  end.

(** From the YAML and the database to the gateway that the server runs on; [now] is the
    clock of the counts. *)
Definition start_on (yaml : GatewayConfig) (sections : StartSections) (store : option Store)
    (events : option EventStore) (now : Z) : result StartError Gateway :=
  let '(store, loaded) := load_serve_config yaml store in
  c ← map_err LoadingConfig loaded;
  secrets ← map_err SecretBackends (secret_store_from_secrets_config (ss_secrets sections));
  m ← assemble_state c store;
  let m := start_description_overrides m in
  '(m, admin) ← attach_auth (ss_admin sections) m;
  '(m, events, index) ← attach_runtime_services now (ss_semantic_search sections) events m;
  Ok (mkGateway _ (pin_baseline m) events secrets admin index).

(** One database has both tables of entries and the requests. *)
Definition start (yaml : GatewayConfig) (sections : StartSections)
    (database : option (Store * EventStore)) (now : Z) : result StartError Gateway :=
  start_on yaml sections (fst <$> database) (snd <$> database) now.
End Start.

(** ** The configuration *)

Section Loading.
Context {JR : JsonReader} {RF : Rfc3339} {DB : Database} {UP : UrlParser} {SE : Serializers}.

Lemma kept_sublist {A} (p : A -> bool) l : sublist (List.filter p l) l.
Proof. induction l as [|x l IH]; cbn; [constructor|]. destruct (p x); by constructor. Qed.

(** What reading the three tables gives, and leaves alone. *)
Lemma load_db_entries_Ok s s' rs ms ks :
  load_db_entries s = (s', Ok (rs, ms, ks)) ->
  rs = sorted_rows (st_resources s) /\ ms = sorted_rows (st_mcp_servers s) /\
  ks = sorted_rows (st_proxy_keys s).
Proof.
  unfold load_db_entries, list_resources_rows, list_mcp_server_rows, list_proxy_keys, statement.
  intros H. repeat (case_match; simplify_eq/=). done.
Qed.

Lemma load_db_entries_metadata s :
  st_tool_metadata (load_db_entries s).1 = st_tool_metadata s.
Proof.
  unfold load_db_entries, list_resources_rows, list_mcp_server_rows, list_proxy_keys, statement.
  repeat (case_match; simplify_eq/=); done.
Qed.

Lemma merge_db_config_Ok c s s' c' report :
  store_ok s -> merge_db_config c s = (s', Ok (c', report)) ->
  (NoDup (ms_id <$> mcp_servers c) -> NoDup (ms_id <$> mcp_servers c')) /\
  (NoDup (pk_id <$> proxy_keys c) -> NoDup (pk_id <$> proxy_keys c')).
Proof.
  intros Hs H. unfold merge_db_config in H.
  destruct (load_db_entries s) as [s1 [[[rs ms] ks]|e]] eqn:El; [|done].
  apply load_db_entries_Ok in El as (-> & -> & ->).
  destruct (merge_db_into_config c _ _ _) as [c1 rep] eqn:Em. injection H as <- <- <-.
  destruct Hs as [K1 K2 _ K4 _ _ _].
  destruct (merge_tables c _ _ _ c1 rep (keyed_ids _ _ K1) (keyed_ids _ _ K4) (keyed_ids _ _ K2) Em)
    as (m1 & m2 & m3 & _ & [(nm & _ & _ & _ & N2 & _) _ _] & [(nk & _ & _ & _ & N3 & _) _ _] & -> & _).
  split; [exact N2|]. intros Hnd. eapply sublist_NoDup; [by apply N3|].
  apply fmap_sublist, kept_sublist.
Qed.

Lemma load_serve_config_ids yaml store store' c :
  load_serve_config yaml store = (store', Ok c) ->
  (forall s, store = Some s -> store_ok s) ->
  NoDup (ms_id <$> mcp_servers yaml) -> NoDup (pk_id <$> proxy_keys yaml) ->
  NoDup (ms_id <$> mcp_servers c) /\ NoDup (pk_id <$> proxy_keys c) /\ validate_oauth c = Ok tt.
Proof.
  unfold load_serve_config. intros H Hs Hm Hk.
  destruct (check_config_file yaml) as [y|e] eqn:Ey; [|done].
  assert (y = yaml) as ->.
  { unfold check_config_file in Ey. apply bind_Ok_inv in Ey as (? & _ & Ey).
    apply bind_Ok_inv in Ey as (? & _ & Ey). by apply bind_Ok_inv in Ey as (? & _ & [= <-]). }
  assert (forall c1, (c ← expand_builtin_mcp c1; _ ← validate_oauth c; Ok c) = Ok c ->
    NoDup (ms_id <$> mcp_servers c1) -> NoDup (pk_id <$> proxy_keys c1) ->
    NoDup (ms_id <$> mcp_servers c) /\ NoDup (pk_id <$> proxy_keys c) /\ validate_oauth c = Ok tt) as Hrest.
  { intros c1 (c2 & He & ([] & Hv & [= ->])%bind_Ok_inv)%bind_Ok_inv Hm1 Hk1.
    unfold expand_builtin_mcp in He. apply bind_Ok_inv in He as (l & Hl & [= <-]).
    apply expand_loop_Ok in Hl as (ext & _ & _ & _ & Hnd). split_and!; auto. }
  destruct store as [s|]; [|injection H as _ H; by apply (Hrest yaml)].
  destruct (merge_db_config yaml s) as [s1 [[c1 rep]|e]] eqn:Em; [|done].
  injection H as _ H. destruct (merge_db_config_Ok _ _ _ _ _ (Hs s eq_refl) Em) as [N1 N2].
  apply (Hrest c1); auto.
Qed.

Lemma load_serve_config_metadata yaml s store' r :
  load_serve_config yaml (Some s) = (store', r) ->
  exists s', store' = Some s' /\ st_tool_metadata s' = st_tool_metadata s.
Proof.
  unfold load_serve_config. destruct (check_config_file yaml) as [y|e]; [|intros [= <- _]; eauto].
  pose proof (load_db_entries_metadata s) as Hm. unfold merge_db_config.
  destruct (load_db_entries s) as [s1 [[[rs ms] ks]|e]].
  - destruct (merge_db_into_config y rs ms ks). intros [= <- _]. eauto.
  - intros [= <- _]. eauto.
Qed.
End Loading.

(** ** The catalog *)

(** Loading overrides changes descriptions only. *)
Definition addresses (c : ToolCatalog) : list (string * string) :=
  tool_address <$> tools c.

Lemma restore_originals_same o l :
  tool_address <$> restore_originals o l = tool_address <$> l.
Proof.
  revert o. induction l as [|t l IH]; intros o; [done|]. cbn. case_match; cbn; by rewrite IH.
Qed.

Lemma load_overrides_addresses o c : addresses (load_description_overrides o c) = addresses c.
Proof.
  unfold load_description_overrides, addresses.
  pose proof (overlay_all_same o ∅ (restore_originals (original_descriptions c) (tools c))) as H.
  destruct (overlay_all _ _ _) as [os ts]. cbn [fst snd tools] in *.
  unfold tool_address. rewrite H. apply restore_originals_same.
Qed.

Lemma addresses_for_same ids c c' :
  addresses c = addresses c' -> addresses_for ids c = addresses_for ids c'.
Proof. intros H. unfold addresses_for. rewrite !addresses_filtered. unfold addresses in H. by rewrite H. Qed.

(** The tools of the configuration belong to its resources. *)
Lemma tool_resource {OA : OpenApiSource} r ts :
  resource_tools r = Ok ts -> Forall (fun t => resource_id t = ar_id r) ts.
Proof.
  assert (forall (A : Type) (f : A -> result CatalogError WrappedTool) l ts,
    (forall a t, f a = Ok t -> resource_id t = ar_id r) ->
    try_map f l = Ok ts -> Forall (fun t => resource_id t = ar_id r) ts) as Hmap.
  { intros A f l. induction l as [|a l IH]; intros ts0 Hf H; [by injection H as <-|].
    cbn in H. apply bind_Ok_inv in H as (t & Ht & (ts1 & H1 & [= <-])%bind_Ok_inv).
    constructor; eauto. }
  unfold resource_tools. intros (own & Ho & H)%bind_Ok_inv.
  assert (Forall (fun t => resource_id t = ar_id r) own) as Hown.
  { eapply Hmap; [|exact Ho]. intros e t (n & _ & [= <-])%bind_Ok_inv. done. }
  destruct (discovery r) as [d|]; [|by injection H as <-].
  apply bind_Ok_inv in H as (more & Hm & [= <-]). apply Forall_app. split; [done|].
  unfold tools_from_openapi in Hm. apply bind_Ok_inv in Hm as (spec & _ & (eps & _ & Hm)%bind_Ok_inv).
  eapply Hmap; [|exact Hm]. intros e t (n & _ & [= <-])%bind_Ok_inv. done.
Qed.

Lemma from_config_resources {OA : OpenApiSource} c cat :
  Catalog.from_config c = Ok cat ->
  Forall (fun t => resource_id t ∈ ar_id <$> api_resources c) (tools cat).
Proof.
  intros (ts & Hts & [= <-])%bind_Ok_inv. cbn.
  assert (Forall (fun t => resource_id t ∈ ar_id <$> api_resources c) ts) as H.
  { revert ts Hts. induction (api_resources c) as [|r rs IH]; intros ts Hts; [by injection Hts as <-|].
    cbn in Hts. apply bind_Ok_inv in Hts as (t1 & H1 & (t2 & H2 & [= <-])%bind_Ok_inv).
    apply Forall_app. split.
    - apply tool_resource in H1. eapply Forall_impl; [exact H1|]. intros t ->. set_solver.
    - eapply Forall_impl; [exact (IH _ H2)|]. set_solver. }
  apply Forall_forall. intros t Ht%sort_by_elem. by apply (proj1 (Forall_forall _ _) H).
Qed.

(** No API resource has the id of a server. *)
Definition apart (c : GatewayConfig) : Prop :=
  forall r, r ∈ api_resources c -> ar_id r ∉ ms_id <$> mcp_servers c.

(** The catalog that the start assembles. *)
Lemma assembled_lists {OA : OpenApiSource} c cat (es : Entries) :
  Catalog.from_config c = Ok cat -> Forall entry_ok es -> e_id <$> es = ms_id <$> mcp_servers c ->
  apart c ->
  addresses_for (mcp_resource_ids es) (extend_with_mcp_tools (all_wrapped_tools es) cat)
  ≡ₚ tool_address <$> all_wrapped_tools es.
Proof.
  intros Hc%from_config_resources Hok Hid Hsep.
  replace (extend_with_mcp_tools _ cat)
    with (replace_mcp_tools (all_wrapped_tools es) (mcp_resource_ids es) cat); [by apply mirrored_lists|].
  unfold replace_mcp_tools. destruct cat as [ts o os]. cbn in *. do 2 f_equal.
  apply filter_all. intros t Ht. apply negb_true_iff, bool_decide_eq_false.
  unfold mcp_resource_ids. rewrite elem_of_list_to_set, Hid.
  rewrite Forall_forall in Hc. apply Hc, list_elem_of_fmap in Ht as (r & -> & Hr). by apply Hsep.
Qed.

(** The registry holds the servers of the configuration, in order. *)
Lemma connect_all_configs {W : World} configs : e_config <$> connect_all_with configs = configs.
Proof.
  unfold connect_all_with.
  assert (forall es seen, pushed_ok es seen ->
    e_config <$> (fold_left connect_step configs (es, seen)).1 = (e_config <$> es) ++ configs) as H.
  { induction configs as [|c configs IH]; cbn; intros es seen H; [by rewrite app_nil_r|].
    pose proof (push_deduped_ok (establish_entry c None) es seen) as Hp.
    destruct (push_deduped_entry _ es seen) as [[es1 seen1] n].
    destruct Hp as [H1 (_ & e' & -> & [Hc _ _ _] & _)]; [by apply establish_entry_ok | done |].
    rewrite IH by done. rewrite fmap_app, <- app_assoc. cbn. rewrite Hc.
    by rewrite establish_entry_config. }
  by apply (H [] ∅ pushed_ok_nil).
Qed.

(** ** What the start establishes *)

Section Established.
Context {G : Governor} {SHA : Sha256} {OA : OpenApiSource} {W : World} {JR : JsonReader}
  {RF : Rfc3339} {DB : Database} {AE : AdminEnv} {ME : McpAdminEnv} {UP : UrlParser}
  {SW : SecretWorld} {SH : SecretHttp} {RA : RmcpAuth} {AD : Aead}.

(** The parts of a gateway that the later steps of the start leave alone. *)
Record assembled (c : GatewayConfig) (store : option Store) (m : McpAdmin) : Prop := {
  as_config : config_of m = c;
  as_registry : ma_registry m = Some (connect_all_with (mcp_servers c));
  as_pins : ma_pins m = ∅;
  as_store : ad_store (ma_core m) = store;
  as_catalog : exists cat, Catalog.from_config c = Ok cat /\
    addresses (catalog_of m) =
      addresses (extend_with_mcp_tools (all_wrapped_tools (connect_all_with (mcp_servers c))) cat);
}.

Lemma assemble_state_spec clients c store m :
  assemble_state clients c store = Ok m ->
  assembled c store m /\ description_overrides (catalog_of m) = ∅.
Proof.
  unfold assemble_state.
  intros (cat & Hcat%map_err_Ok_inv & (o & _ & [= <-])%bind_Ok_inv)%bind_Ok_inv.
  split; [split; try done; by exists cat|]. cbn. rewrite extend_overrides.
  by apply bind_Ok_inv in Hcat as (ts & _ & [= <-]).
Qed.

Lemma start_descriptions_assembled c store m :
  assembled c store m ->
  exists store', assembled c store' (start_description_overrides m) /\
    (forall s, store = Some s -> exists s', store' = Some s' /\ st_tool_metadata s' = st_tool_metadata s).
Proof.
  intros [E1 E2 E3 E4 (cat & E5 & E6)]. unfold start_description_overrides. rewrite E4.
  destruct store as [s|]; [|exists None; split; [split; try done; by exists cat | done]].
  pose proof (statement_metadata (fun (_ : string) s => Ok (s, sorted_rows (st_tool_metadata s)))) as Hm.
  unfold list_tool_metadata. specialize (Hm ltac:(intros; by simplify_eq/=) s).
  destruct (statement _ s) as [s1 r]. cbn in Hm.
  exists (Some s1). split; [|intros ? [= <-]; eauto].
  destruct r as [[|row rows]|e]; split; try done; exists cat; split; try done.
  cbn. by rewrite load_overrides_addresses.
Qed.

Lemma start_descriptions_stored store m :
  (forall n, db_failure n = None) -> ad_store (ma_core m) = Some store ->
  keyed tm_tool_name (st_tool_metadata store) ->
  description_overrides (catalog_of m) = ∅ ->
  overrides_stored (ma_core (start_description_overrides m)).
Proof.
  intros Hdb Hs K Ho. unfold start_description_overrides, list_tool_metadata, statement.
  rewrite Hs, Hdb. cbn.
  pose proof (sorted_rows_map _ tm_description _ K) as E.
  destruct (sorted_rows (st_tool_metadata store)) as [|row rows].
  - eexists. split; [done|]. split; [done|]. cbn. by rewrite <- E.
  - eexists. split; [done|]. split; [done|]. cbn. by rewrite load_overrides, <- E.
Qed.

(** The two steps after the descriptions, and the baseline, change other parts. *)
Lemma services_assembled (c : GatewayConfig) store m m' :
  config_of m' = config_of m -> ma_registry m' = ma_registry m -> ma_pins m' = ma_pins m ->
  ad_store (ma_core m') = ad_store (ma_core m) -> catalog_of m' = catalog_of m ->
  assembled c store m -> assembled c store m'.
Proof. intros E1 E2 E3 E4 E5 []. split; by rewrite ?E1, ?E2, ?E3, ?E4, ?E5. Qed.

Lemma attach_auth_spec admins m m' admin :
  attach_auth admins m = Ok (m', admin) ->
  exists auth, auth_from_config (config_of m) ae_resolve = Ok auth /\ m' = on_core (with_auth auth) m.
Proof.
  unfold attach_auth.
  intros (a & _ & (auth & H%map_err_Ok_inv & [= <- _])%bind_Ok_inv)%bind_Ok_inv. by exists auth.
Qed.

Lemma attach_services_spec now semantic events m m' events' index :
  attach_runtime_services now semantic events m = Ok (m', events', index) ->
  exists pools limits, m' = on_core (fun a => with_limits limits (with_pools pools a)) m.
Proof.
  unfold attach_runtime_services.
  intros (pools & _ & (limits & _ & H)%bind_Ok_inv)%bind_Ok_inv.
  destruct events as [s|]; [destruct (seed_registry now s limits)|];
    apply bind_Ok_inv in H as (i & _ & [= <- _ _]); eauto.
Qed.

Lemma configured_auth_ok c auth :
  auth_from_config c ae_resolve = Ok auth -> NoDup (pk_id <$> proxy_keys c) -> auth_ok auth.
Proof.
  unfold auth_from_config. intros Hc Hnd.
  apply (config_keys_ok ae_resolve (proxy_keys c) empty_auth); [done..|set_solver|apply empty_auth_ok].
Qed.

(** A start that succeeds puts the gateway into a state on which its invariants
    hold: its configuration is the one that the file and the database give, the registry
    has exactly the configured servers with unique tool names, the
    table of tokens is consistent, the configuration has the OAuth section that its
    servers need, the catalog lists the tools of the registry when no API resource has
    the id of a server, the integrity baseline is the one of the tools just discovered, so
    that checking them finds no drift, and the descriptions that agents read are those
    of the store when the database answers. *)
Theorem start_establishes {PO : PinOrder} {OL : PinOrderLaws PO} clients yaml sections database now g :
  start clients yaml sections database now = Ok g ->
  NoDup (ms_id <$> mcp_servers yaml) -> NoDup (pk_id <$> proxy_keys yaml) ->
  (forall s e, database = Some (s, e) -> store_ok s) ->
  let m := gw_state g in
  (load_serve_config yaml (fst <$> database)).2 = Ok (config_of m) /\
  aligned m /\ auth_ok (ad_auth (ma_core m)) /\ validate_oauth (config_of m) = Ok tt /\
  (apart (config_of m) -> mirrored m) /\
  (forall es later q, ma_registry m = Some es ->
   (check_drift later (config_of m) (all_descriptors es) (ma_pins m) q).2 = []) /\
  ((forall n, db_failure n = None) -> database <> None -> overrides_stored (ma_core m)).
Proof.
  unfold start, start_on. intros H Hms Hpk Hst.
  destruct (load_serve_config yaml (fst <$> database)) as [store loaded] eqn:El.
  apply bind_Ok_inv in H as (c & ->%map_err_Ok_inv & (secrets & _ & H)%bind_Ok_inv).
  destruct (load_serve_config_ids _ _ _ _ El) as (Nm & Nk & Hv); [|done..|].
  { intros s ([s' e] & [= ->] & ->)%fmap_Some. eauto. }
  apply bind_Ok_inv in H as (m0 & [A0 O0]%assemble_state_spec & H).
  pose proof (start_descriptions_assembled _ _ _ A0) as (store1 & A1 & _).
  apply bind_Ok_inv in H as ([m2 admin] & (auth & Hauth & ->)%attach_auth_spec & H).
  apply bind_Ok_inv in H as ([[m3 events] index] & (pools & limits & ->)%attach_services_spec & [= <-]).
  set (m1 := start_description_overrides m0) in *. cbn zeta. cbn [gw_state].
  set (es := connect_all_with (mcp_servers c)).
  destruct A1 as [E1 E2 E3 E4 (cat & E5 & E6)].
  set (m3 := on_core _ _).
  assert (pin_baseline m3 = rebase_integrity_baseline es m3) as ->.
  { unfold pin_baseline, m3. cbn. by rewrite E2. }
  destruct (connect_all_ok (mcp_servers c)) as (K1 & K2 & K3). fold es in K1, K2, K3.
  split_and!.
  - unfold config_of. cbn. fold (config_of m1). by rewrite E1.
  - exists es. split; [exact E2|]. split; [split; [unfold ids_unique; by rewrite K3 | done | done]|].
    unfold config_of. cbn. fold (config_of m1). rewrite E1. unfold es. by rewrite connect_all_configs.
  - cbn. eapply configured_auth_ok; [exact Hauth|]. by rewrite E1.
  - unfold config_of. cbn. fold (config_of m1). by rewrite E1.
  - unfold config_of, mirrored, catalog_of. cbn. fold (config_of m1). rewrite E1. intros Hsep.
    exists es. split; [exact E2|]. rewrite (addresses_for_same _ _ _ E6).
    by eapply assembled_lists.
  - cbn. rewrite E2. intros es' later q [= <-].
    change (rebase me_pinned_at (snd <$> all_descriptors es) (ma_pins m1))
      with (pin_initial_baseline me_pinned_at (all_descriptors es) (ma_pins m1)).
    rewrite rebased_list_clean; [done|]. by apply all_descriptors_names.
  - intros Hdb Hsome. destruct database as [[s e]|]; [|done].
    apply load_serve_config_metadata in El as (s' & -> & Em).
    apply (start_descriptions_stored s'); [done|apply A0| |done]. rewrite Em. by eapply Hst.
Qed.

(** Counting earlier calls cannot fail a start. *)
Lemma start_any_events clients yaml sections store events now :
  is_Ok (start_on clients yaml sections store (Some events) now)
  = is_Ok (start_on clients yaml sections store None now).
Proof.
  unfold start_on. destruct (load_serve_config yaml store) as [st [c|]]; [|done]. cbn.
  destruct (secret_store_from_secrets_config _); [|done]. cbn.
  destruct (assemble_state clients c st) as [m|]; [|done]. cbn.
  destruct (attach_auth _ _) as [[m1 admin]|]; [|done]. cbn. unfold attach_runtime_services.
  destruct (registry_from_config _); [|done]. cbn. destruct (limits_from_config _) as [l|]; [|done]. cbn.
  destruct (seed_registry now events l). by destruct (index_from_config _ _).
Qed.
End Established.

(** ** Counts of earlier calls *)

Section Counts.
Context {G : Governor} {DB : Database} {RF : Rfc3339}.

(** The successful calls of a key that an aggregation sees. *)
Definition successes (f : AggregationFilter) (key_id : string) (l : list RequestRow) : Z :=
  Z.of_nat (length (List.filter (fun r => (rr_proxy_key_id r =s key_id) && (rr_status_kind r =s "success")
    && aggregated f (rr_proxy_key_id r) (rr_resource_id r) (rr_timestamp r)) l)).

(** Setting the counters of keys one after the other. *)
Lemma fold_counters (f : LimitRegistry -> Limits.UsageSummary -> LimitRegistry)
    (F : Limits.UsageSummary -> option KeyCounters -> KeyCounters) rows r :
  (forall r row, Limits.usage (f r row) =
     <[dimension_value row := F row (Limits.usage r !! dimension_value row)]> (Limits.usage r)) ->
  NoDup (dimension_value <$> rows) ->
  (forall k, k ∉ dimension_value <$> rows ->
   Limits.usage (fold_left f rows r) !! k = Limits.usage r !! k) /\
  (forall row, row ∈ rows -> Limits.usage (fold_left f rows r) !! dimension_value row
                             = Some (F row (Limits.usage r !! dimension_value row))).
Proof.
  intros Hf. revert r. induction rows as [|x rows IH]; intros r Hnd.
  { split; [done|]. intros row []%not_elem_of_nil. }
  apply NoDup_cons in Hnd as [Hx Hnd]. cbn. destruct (IH (f r x) Hnd) as [I1 I2]. split.
  - intros k Hk. apply not_elem_of_cons in Hk as [N1 N2]. rewrite I1 by done.
    by rewrite Hf, lookup_insert_ne.
  - intros row [->|Hrow]%elem_of_cons.
    + rewrite I1 by done. by rewrite Hf, lookup_insert_eq.
    + rewrite I2 by done. rewrite Hf, lookup_insert_ne; [done|].
      intros E. apply Hx. rewrite E. by apply list_elem_of_fmap_2.
Qed.

Lemma distinct_length {K} `{EqDecision K} (l : list K) : (length (distinct l) <= length l)%nat.
Proof.
  apply submseteq_length, NoDup_submseteq; [apply distinct_from_NoDup, NoDup_nil_2|].
  intros k. by rewrite distinct_elem.
Qed.

Lemma succeeded_count rows :
  Z.of_nat (length rows) - sum_by row_is_error rows
  = Z.of_nat (length (List.filter (fun r => rr_status_kind r =s "success") rows)).
Proof.
  induction rows as [|r rows IH]; [done|]. cbn. unfold row_is_error at 1. case_if; cbn; lia.
Qed.

(** A row of the aggregation by key. *)
Definition key_summary (g : (option string * string) * list RequestRow) : Events.UsageSummary :=
  Events.mkUsageSummary g.1.2 None (Z.of_nat (length g.2)) (sum_by row_is_error g.2)
    (sum_by rr_request_units g.2) (sum_by rr_latency_ms g.2, Z.of_nat (length g.2))
    (sum_by rr_rate_limited g.2).

Lemma key_rows f s :
  (forall n, db_failure n = None) -> (length (es_events s) <= all_rows)%nat ->
  summarize_by ByProxyKey f all_rows s =
    (mkEventStore (es_events s) (es_buckets s) (S (es_statements s)),
     Ok (key_summary <$> summary_groups ByProxyKey f (es_events s))).
Proof.
  intros Hdb Hlen. unfold summarize_by, event_statement. rewrite Hdb. cbn [es_events mbind].
  f_equal. rewrite take_ge.
  - unfold mbind, result_bind. apply try_map_all. intros [[kind k] rows] Hg. unfold summary_groups in Hg.
    apply sort_by_elem, group_by_elem in Hg as [(r & [= -> _] & _)%list_elem_of_fmap _]. done.
  - unfold summary_groups. rewrite sort_by_length. unfold group_by. rewrite length_fmap.
    etransitivity; [apply distinct_length|]. rewrite length_fmap.
    etransitivity; [apply List.filter_length_le|done].
Qed.

(** The rows that the limits read: one per key that has a request, with the count of its
    successful calls. *)
Lemma counted_rows f l :
  let rows := counted <$> (key_summary <$> summary_groups ByProxyKey f l) in
  NoDup (dimension_value <$> rows) /\
  (forall row, row ∈ rows -> success_count row = successes f (dimension_value row) l) /\
  (forall k, k ∉ dimension_value <$> rows -> successes f k l = 0).
Proof.
  cbn zeta. rewrite <- !list_fmap_compose. unfold summary_groups.
  set (seen := List.filter _ l). set (key := fun r => (group_kind ByProxyKey r, dimension_column ByProxyKey r)).
  split_and!.
  - rewrite (sort_by_perm _ (group_by key seen)).
    apply (NoDup_fmap_1 (pair (@None string))). rewrite <- list_fmap_compose.
    rewrite (list_fmap_ext _ fst (group_by key seen)); [apply group_by_NoDup|].
    intros n [[kind k] rows] Hg%list_elem_of_lookup_2.
    by apply group_by_elem in Hg as [(r & [= -> ->] & _)%list_elem_of_fmap _].
  - intros row ([[kind k] rows] & -> & Hg%sort_by_elem)%list_elem_of_fmap.
    apply group_by_elem in Hg as [(r & [= -> ->] & _)%list_elem_of_fmap ->]. cbn.
    unfold success_count. cbn. rewrite succeeded_count, Z.max_l by lia.
    unfold successes, seen. do 2 f_equal. rewrite !filter_filter. apply List.filter_ext.
    intros x. unfold key, group_kind, dimension_column. set (ag := aggregated _ _ _ _).
    case_bool_decide; destruct (String.eqb_spec (rr_proxy_key_id x) (rr_proxy_key_id r));
      destruct ag, (rr_status_kind x =s "success"); (done || congruence).
  - intros k Hk. unfold successes. rewrite filter_none; [done|]. intros x Hx.
    apply not_true_iff_false. rewrite !andb_true_iff. intros [[<-%String.eqb_eq _] Ha]. apply Hk.
    apply list_elem_of_fmap. eexists (key x, _). split; [done|].
    apply sort_by_elem, group_by_elem. split; [|done]. apply list_elem_of_fmap_2, filter_elem. done.
Qed.

Lemma seed_counts now s r k :
  (forall n, db_failure n = None) -> (length (es_events s) <= all_rows)%nat ->
  Limits.usage r = ∅ ->
  let c := default (KeyCounters_new (date_naive now)) (Limits.usage (seed_registry now s r).2 !! k) in
  total c = successes no_filter k (es_events s) /\ day c = date_naive now /\
  Limits.today c = successes (today_filter now) k (es_events s).
Proof.
  intros Hdb Hlen Hr. unfold seed_registry. rewrite key_rows by done. rewrite key_rows by done.
  cbn [snd es_events rows_or_error]. unfold seed_from_store. cbn zeta.
  set (all := counted <$> (key_summary <$> summary_groups ByProxyKey no_filter (es_events s))).
  set (rest := counted <$> (key_summary <$> summary_groups ByProxyKey (today_filter now) (es_events s))).
  set (seed := fun r row => seed_call_count (dimension_value row) (success_count row) now r).
  set (seed_today := fun r row => seed_daily_count_at (dimension_value row) (success_count row) now r).
  set (fresh := KeyCounters_new (date_naive now)).
  destruct (counted_rows no_filter (es_events s)) as (N1 & S1 & Z1). fold all in N1, S1, Z1.
  destruct (counted_rows (today_filter now) (es_events s)) as (N2 & S2 & Z2). fold rest in N2, S2, Z2.
  destruct (fold_counters seed (fun row o => let c := default fresh o in
    mkKeyCounters (success_count row) (day c) (Limits.today c)) all r ltac:(done) N1) as [A1 A2].
  set (r1 := fold_left seed all r) in *.
  destruct (fold_counters seed_today (fun row o => let c := default fresh o in
    mkKeyCounters (total c) (date_naive now) (success_count row)) rest r1 ltac:(done) N2) as [B1 B2].
  assert (forall k, let c := default fresh (Limits.usage r1 !! k) in
    total c = successes no_filter k (es_events s) /\ day c = date_naive now /\ Limits.today c = 0) as Hall.
  { intros k'. destruct (decide (k' ∈ dimension_value <$> all)) as [Hk|Hk].
    - apply list_elem_of_fmap in Hk as (row & -> & Hrow). rewrite A2, Hr, lookup_empty by done.
      cbn. by rewrite S1.
    - rewrite A1, Hr, lookup_empty, Z1 by done. done. }
  destruct (Hall k) as (H1 & H2 & H3).
  destruct (decide (k ∈ dimension_value <$> rest)) as [Hk|Hk].
  - apply list_elem_of_fmap in Hk as (row & -> & Hrow). rewrite B2 by done. cbn. by rewrite S2.
  - rewrite B1, Z2 by done. done.
Qed.

(** C27: a start counts again what the store knows.  On a database that executes its
    statements and holds at most [u32::MAX] requests, the limits that come without
    counts from the configuration have after the start, for every key, as many calls as
    the store has successful requests of that key, and as many calls of today as it has
    successful requests of the key since midnight UTC; refused and failed requests do
    not count, and a key without requests has no calls. *)
Theorem seeded_counts now s r k :
  (forall n, db_failure n = None) -> (length (es_events s) <= all_rows)%nat ->
  Limits.usage r = ∅ ->
  let c := default (KeyCounters_new (date_naive now)) (Limits.usage (seed_registry now s r).2 !! k) in
  total c = successes no_filter k (es_events s) /\ day c = date_naive now /\
  Limits.today c = successes (today_filter now) k (es_events s).
Proof. apply seed_counts. Qed.
End Counts.

(** ** A restart after the retention *)

(** The calls that the database has of a key after [days] days with the retention at its
    default of 14 days. *)
Definition after_days (days : Z) : EventStore :=
  (purge_expired_request_events (DB := steady_db) (RF := digit_times) 0 14
     (7200 * 1000000000 + days * ns_per_day)
     (persisted (DB := steady_db) (RF := digit_times) demo_requests)).1.

Definition counted_at (now : Z) (s : EventStore) : option KeyCounters :=
  Limits.usage (seed_registry (G := open_governor) (DB := steady_db) (RF := digit_times) now s
                  default_limits).2 !! "agent".

Definition counters_of (now : Z) (s : EventStore) : Z * Z :=
  let c := default (KeyCounters_new (date_naive now)) (counted_at now s) in (total c, Limits.today c).

Lemma demo_counts days :
  (length (es_events (after_days days)) <= 3)%nat ->
  counters_of (7200 * 1000000000 + days * ns_per_day) (after_days days) =
  (successes (RF := digit_times) no_filter "agent" (es_events (after_days days)),
   successes (RF := digit_times) (today_filter (7200 * 1000000000 + days * ns_per_day)) "agent"
     (es_events (after_days days))).
Proof.
  intros Hlen. unfold counters_of, counted_at.
  destruct (seed_counts (G := open_governor) (DB := steady_db) (RF := digit_times)
    (7200 * 1000000000 + days * ns_per_day) (after_days days) default_limits "agent")
    as (-> & _ & ->); [done| |done|done].
  etransitivity; [exact Hlen|]. change 3%nat with (Z.to_nat 3).
  apply Z2Nat.inj_le; done.
Qed.

(** One day later the two calls of the key are counted, none of them today. *)
Lemma seeded_counts_witness :
  let now := 7200 * 1000000000 + 1 * ns_per_day in
  counters_of now (after_days 1) = (2, 0) /\
  successes (RF := digit_times) no_filter "agent" (es_events (after_days 1)) = 2.
Proof.
  intros now. unfold counters_of, counted_at.
  destruct (seeded_counts (G := open_governor) (DB := steady_db) (RF := digit_times)
    now (after_days 1) default_limits "agent") as (-> & _ & ->); [done| |done|].
  - transitivity 3%nat; [vm_compute; lia|]. change 3%nat with (Z.to_nat 3).
    apply Z2Nat.inj_le; done.
  - split; vm_compute; reflexivity.
Defined.

(** The quota of a key counts its calls of all time; a restart takes the count from the
    requests that the retention kept.  Two calls of a key are forgotten after two weeks,
    whatever the key's quota. *)
Example restart_forgets_purged_calls :
  counters_of (7200 * 1000000000 + 1 * ns_per_day) (after_days 1) = (2, 0) /\
  counters_of (7200 * 1000000000 + 15 * ns_per_day) (after_days 15) = (0, 0).
Proof. split; rewrite demo_counts by (vm_compute; lia); vm_compute; reflexivity. Qed.

(** ** A gateway with one server, one key and one description *)

Definition demo_yaml : GatewayConfig :=
  with_proxy_keys
    (with_mcp_servers GatewayConfig_default [demo_server "s" "https://s.example"]) [demo_agent].

Definition described_store : Store :=
  (set_tool_metadata (DB := steady_db) "d__p__x" "mine" None empty_store).1.

Definition demo_start : result StartError (Gateway (G := open_governor)) :=
  start (G := open_governor) (SHA := block_sha) (OA := no_openapi) (W := demo_world)
    (JR := stream_reader) (RF := digit_times) (DB := steady_db) (AE := resolving (Ok "token"))
    (ME := quiet) (UP := demo_urls) (SW := Secrets.demo_world "") (SH := busy_vault)
    (AD := plain_aead) (Ok tt) demo_yaml
    (mkStartSections SecretsConfig_default (mkAdminConfig []) None)
    (Some (described_store, persisted (DB := steady_db) (RF := digit_times) demo_requests)) 0.

Lemma demo_resources c :
  (load_serve_config (JR := stream_reader) (RF := digit_times) (DB := steady_db) (UP := demo_urls)
     demo_yaml (Some described_store)).2 = Ok c -> api_resources c = [].
Proof.
  intros H. set (l := load_serve_config _ _) in H.
  assert (match l.2 with Ok c => api_resources c | Err _ => [] end = []) as E
    by (vm_compute; reflexivity).
  by rewrite H in E.
Qed.

Lemma demo_start_ok : is_Ok demo_start = true.
Proof.
  unfold demo_start, start. cbn [fmap option_fmap option_map fst snd].
  rewrite start_any_events. vm_compute. reflexivity.
Qed.

Lemma start_establishes_witness :
  match demo_start with
  | Ok g => aligned (gw_state g) /\ mirrored (gw_state g) /\ overrides_stored (ma_core (gw_state g))
  | Err _ => False
  end.
Proof.
  destruct demo_start as [g|e] eqn:E.
  - destruct (start_establishes (PO := key_order) (OL := key_order_laws) _ _ _ _ _ _ E)
      as (H0 & H1 & _ & _ & H4 & _ & H6).
    + apply NoDup_singleton.
    + apply NoDup_singleton.
    + intros s ev [= <- _]. apply (run_store_op_ok (SE := stream_serializers)
        (RF := digit_times) (DB := steady_db)
        (OpSetToolMetadata "d__p__x" "mine" None)). by constructor.
    + split; [exact H1|]. split; [|by apply H6]. apply H4. intros r Hr.
      rewrite (demo_resources _ H0) in Hr. destruct (not_elem_of_nil _ Hr).
  - pose proof demo_start_ok as H. rewrite E in H. discriminate H.
Defined.
