(* ===== verification/Life.v ===== *)
(** * The life of a gateway

    What holds from the start on, whatever the administrators write, however the servers
    are refreshed, probed, reconnected and authorized, and whatever calls do to the
    counters: the registry has exactly the configured servers, the tokens are
    consistent, and the catalog lists for the servers exactly the tools that the
    registry serves. *)

From S2P Require Import Prelude RustStr Naming Errors Config Policy Secrets Catalog Overrides KeyPool Limits.
From S2P Require Import Egress Shaping GatewayAuth Render Retry Observe Invoke Integrity Surface Peers.
From S2P Require Import Registry Semantic OAuthConfig ConfigJson Store ConfigMerge SecretClients Seal OAuth.
From S2P Require Import Events Admin AdminFacts AdminRestart McpAdmin McpAdminFacts AdminTools AdminRead.
From S2P Require Import AdminReadFacts Start.

Local Open Scope string_scope.
Local Open Scope list_scope.
Local Open Scope Z_scope.
Local Open Scope gateway_scope.

(** ** Steps *)

(** Between the snapshot and the commit of an operation nothing else happens. *)
Definition calm (f : Entries -> Entries) : Prop := forall es, f es = es.

Section Life.
Context {G : Governor} {SHA : Sha256} {OA : OpenApiSource} {SE : Serializers} {JR : JsonReader}
  {RF : Rfc3339} {DB : Database}.

(** One event of the life of a gateway; [between] says what other tasks may do to the
    registry while an operation waits for a server.  Every step has answers of the
    outside of its own.  A write to a server that fails after the registry was changed
    is not a step (it can leave a server that is not configured, or a configured one
    that is not served), nor is a resource with the id of a server. *)
Inductive life_step (between : (Entries -> Entries) -> Prop) : McpAdmin -> McpAdmin -> Prop :=
| LifeWrite {AE : AdminEnv} admin w m a r :
    (forall i, w = CreateResource i -> rw_id i ∉ ms_id <$> mcp_servers (config_of m)) ->
    run_write admin w (ma_core m) = Returns (a, r) -> life_step between m (with_core a m)
| LifeServer {W : World} {AE : AdminEnv} {ME : McpAdminEnv} {RA : RmcpAuth} {AD : Aead}
    admin w m m' r :
    between me_meanwhile -> run_mcp_write admin w m = Returns (m', r) -> r = Ok tt \/ m' = m ->
    life_step between m m'
| LifeTool {AE : AdminEnv} admin w m :
    life_step between m (on_core (fun a => (run_tool_write admin w a).1) m)
| LifeProbe {W : World} {ME : McpAdminEnv} id m :
    between me_meanwhile -> life_step between m (probe_server id m).1
| LifeReconnect {W : World} {ME : McpAdminEnv} id m :
    between me_meanwhile -> life_step between m (reconnect_mcp_server id m).1
| LifeRefresh {W : World} {PO : PinOrder} {ME : McpAdminEnv} m :
    between me_meanwhile -> life_step between m (refresh_mcp_tools m)
| LifeAuthorize {W : World} {AE : AdminEnv} {ME : McpAdminEnv} {RA : RmcpAuth} {AD : Aead} admin id m :
    life_step between m (authorize admin id m).1
| LifeDeauthorize {W : World} {AE : AdminEnv} {ME : McpAdminEnv} {RA : RmcpAuth} {AD : Aead} admin id m :
    between me_meanwhile -> life_step between m (deauthorize admin id m).1
| LifeCallback {W : World} {ME : McpAdminEnv} {RA : RmcpAuth} {AD : Aead} p m :
    between me_meanwhile -> life_step between m (callback p m).1
| LifeCalls limits pools m :
    life_step between m (on_core (fun a => with_limits limits (with_pools pools a)) m).

(** What holds throughout. *)
Record gateway_fine (m : McpAdmin) : Prop := {
  gf_aligned : aligned m;
  gf_auth : auth_ok (ad_auth (ma_core m));
  gf_keys : NoDup (pk_id <$> proxy_keys (config_of m));
  gf_apart : apart (config_of m);
}.

(** What the steps outside the configuration leave alone. *)
Record same_listing (m m' : McpAdmin) : Prop := {
  sl_config : config_of m' = config_of m;
  sl_registry : ma_registry m' = ma_registry m;
  sl_auth : ad_auth (ma_core m') = ad_auth (ma_core m);
  sl_addresses : addresses (catalog_of m') = addresses (catalog_of m);
}.

Lemma same_listing_fine m m' : same_listing m m' -> gateway_fine m -> gateway_fine m'.
Proof.
  intros [E1 E2 E3 _] [(es & H1 & H2 & H3) A K P].
  split; [exists es|..]; by rewrite ?E1, ?E2, ?E3.
Qed.

Lemma same_listing_mirrored m m' : same_listing m m' -> mirrored m -> mirrored m'.
Proof.
  intros [_ E2 _ E4] (es & H1 & H2). exists es. rewrite E2. split; [done|].
  by rewrite (addresses_for_same _ _ _ E4).
Qed.

(** ** Edits of tools *)

Lemma update_first_address p f l :
  (forall t, tool_address (f t) = tool_address t) ->
  tool_address <$> update_first p f l = tool_address <$> l.
Proof.
  intros Hf. induction l as [|t l IH]; [done|]. cbn. case_if; cbn; [by rewrite Hf|by rewrite IH].
Qed.

Lemma set_override_addresses n d c : addresses (set_description_override n d c) = addresses c.
Proof.
  unfold set_description_override, addresses. destruct (List.find _ (tools c)); [|done].
  by apply update_first_address.
Qed.

Lemma remove_override_addresses n c : addresses (remove_description_override n c) = addresses c.
Proof.
  unfold remove_description_override, addresses. cbn. case_match; [|done].
  by apply update_first_address.
Qed.

Definition same_tools (a a' : AdminState) : Prop :=
  ad_config a' = ad_config a /\ ad_auth a' = ad_auth a /\
  addresses (ad_catalog a') = addresses (ad_catalog a).

Lemma same_tools_refl a : same_tools a a.
Proof. done. Qed.

Lemma same_tools_trans a b c : same_tools a b -> same_tools b c -> same_tools a c.
Proof. intros (A1&A2&A3) (B1&B2&B3). split_and!; congruence. Qed.

Lemma same_parts_tools a a' : same_parts a a' -> same_tools a a'.
Proof. intros (E1&E2&E3&_). unfold same_tools. by rewrite E1, E2, E3. Qed.

Lemma require_store_tools {R} (op : Store -> Store * result StoreError R) a :
  same_tools a (require_store op a).1.
Proof.
  unfold require_store, on_store. destruct (ad_store a); [|done]. by destruct (op s).
Qed.

Lemma tool_write_tools {AE : AdminEnv} admin w a : same_tools a (run_tool_write admin w a).1.
Proof.
  assert (forall action kind id b, same_tools b (record_audit admin action kind id b)) as Haudit.
  { intros. apply same_parts_tools, record_audit_parts. }
  destruct w as [n b|n|n b|n]; cbn [run_tool_write].
  - unfold put_metadata, put_metadata_row. destruct (parse_description b) as [d|]; [|done].
    pose proof (require_store_tools (set_tool_metadata n d (Some admin)) a) as H.
    destruct (require_store _ a) as [a1 [[]|]]; [|done]. eapply same_tools_trans; [exact H|].
    unfold put_metadata_overlay. eapply same_tools_trans; [|apply Haudit].
    split_and!; [done..|]. apply set_override_addresses.
  - unfold delete_metadata. pose proof (require_store_tools (delete_tool_metadata n) a) as H.
    destruct (require_store _ a) as [a1 [[|]|]]; [|done..]. eapply same_tools_trans; [exact H|].
    eapply same_tools_trans; [|apply Haudit]. split_and!; [done..|]. apply remove_override_addresses.
  - unfold put_default, save_default. destruct (_ ← parse_object_body b; _) as [fs|]; [|done].
    match goal with |- context [require_store ?op a] =>
      pose proof (require_store_tools op a) as H end.
    destruct (require_store _ a) as [a1 [[]|]]; [|done]. eapply same_tools_trans; [exact H|apply Haudit].
  - unfold delete_default. pose proof (require_store_tools (delete_tool_default n) a) as H.
    destruct (require_store _ a) as [a1 [[|]|]]; [|done..]. eapply same_tools_trans; [exact H|apply Haudit].
Qed.

Lemma same_tools_listing f m : same_tools (ma_core m) (f (ma_core m)) -> same_listing m (on_core f m).
Proof. intros (E1&E2&E3). by split. Qed.

Lemma same_servers_listing m m' : same_servers m m' -> same_listing m m'.
Proof. intros (E1&E2&E3&_&E5). split; try done. by rewrite E3. Qed.

(** ** Operations of the registry *)

Lemma calm_background f : calm f -> background f.
Proof. intros Hc es Hes. by rewrite Hc. Qed.

Lemma replaced_same {A} (key : A -> string) y l :
  NoDup (key <$> l) -> y ∈ l -> replaced key y <$> l = l.
Proof.
  intros Hnd Hy. rewrite <- (list_fmap_id l) at 2. apply list_fmap_ext. intros i x Hx.
  unfold replaced. destruct (String.eqb_spec (key x) (key y)) as [E|]; [|done].
  eapply (NoDup_key_inj key); eauto using list_elem_of_lookup_2.
Qed.

Lemma configs_ids (es es' : Entries) : e_config <$> es' = e_config <$> es -> e_id <$> es' = e_id <$> es.
Proof.
  intros E. change (ms_id ∘ e_config <$> es' = ms_id ∘ e_config <$> es).
  by rewrite !list_fmap_compose, E.
Qed.

Section Operations.
Context {W : World}.

Lemma refreshed_config b e : e_config (refreshed b e) = e_config e.
Proof.
  unfold refreshed. case_if; [done|]. destruct (e_peer e); [apply probe_entry_config|].
  destruct b; [apply establish_entry_config|done].
Qed.

Lemma refresh_work_configs b es :
  Forall entry_ok es -> e_config <$> rw_entries (refresh_work b es) = e_config <$> es.
Proof.
  unfold refresh_work. intros Hes.
  assert (forall w, pushed_ok (rw_entries w) (rw_seen w) ->
    e_config <$> rw_entries (fold_left (refresh_one b) es w)
    = (e_config <$> rw_entries w) ++ (e_config <$> es)) as H.
  { induction Hes as [|e es He _ IH]; cbn; intros w Hw; [by rewrite app_nil_r|].
    destruct (refresh_one_grows b w e He Hw) as (H1 & _ & e' & H2 & [Hc _ _ _]).
    rewrite IH by done. rewrite H2, fmap_app, <- app_assoc. cbn. by rewrite Hc, refreshed_config. }
  apply (H (mkRefreshWork [] ∅ [] 0)), pushed_ok_nil.
Qed.

Lemma refresh_configs b f es :
  background f -> entries_fine es ->
  entries_fine (refresh_inner b f es).1 /\ e_config <$> (refresh_inner b f es).1 = e_config <$> es.
Proof.
  intros Hb Hf. destruct (Hb es Hf) as [[I1 _ _] Hsame].
  destruct (refresh_work_ok b es (ef_ok _ Hf)) as (H1 & H2 & H3).
  pose proof (refresh_work_configs b es (ef_ok _ Hf)) as Hc. cbn.
  rewrite refresh_commit_same; [|done|by rewrite H3, (configs_ids _ _ Hsame)].
  split; [|done]. split; [|done..]. unfold ids_unique. rewrite H3. apply Hf.
Qed.

(** An operation on one server that keeps its configuration. *)
Lemma on_entry_keeps id work f es :
  background f -> entries_fine es ->
  (forall e, find_entry id es = Some e -> entry_ok (work e) /\ e_config (work e) = e_config e) ->
  entries_fine (on_entry id work f es).1 /\ e_config <$> (on_entry id work f es).1 = e_config <$> es.
Proof.
  intros Hb Hf Hwork. destruct (on_entry id work f es) as [es' [h|err]] eqn:E; cbn.
  - destruct (find_entry id es) as [e|] eqn:Ef; [|by unfold on_entry in E; rewrite Ef in E].
    destruct (find_entry_Some _ _ _ Ef) as [He Hid].
    destruct (on_entry_configs id work (e_config e) f es es' h Hb Hf Hid) as [H1 H2]; [|done|].
    { rewrite Ef. intros e' [= <-]. by apply Hwork. }
    split; [done|]. rewrite H2. apply replaced_same.
    + rewrite <- list_fmap_compose. apply Hf.
    + by apply list_elem_of_fmap_2.
  - unfold on_entry in E. destruct (find_entry id es); [|by injection E as <- _].
    unfold finish_replace, replace_entry in E. destruct (position _ (f es)); [done|].
    injection E as <- _. by apply Hb.
Qed.

Lemma on_entry_refused id work f es es' err :
  calm f -> on_entry id work f es = (es', Err err) -> es' = es.
Proof.
  unfold on_entry. intros Hc. destruct (find_entry id es); [|congruence].
  unfold finish_replace, replace_entry. destruct (position _ (f es)); [done|].
  intros [= <- _]. apply Hc.
Qed.

Lemma probe_configs id f es :
  background f -> entries_fine es ->
  entries_fine (Registry.probe id f es).1 /\ e_config <$> (Registry.probe id f es).1 = e_config <$> es.
Proof.
  intros Hb Hf. apply on_entry_keeps; [done..|]. intros e Ef.
  pose proof (find_entry_ok _ _ _ (ef_ok _ Hf) Ef). split; [by apply probe_work_ok|].
  unfold probe_work. destruct (e_peer e); [apply probe_entry_config|apply establish_entry_config].
Qed.

Lemma reconnect_configs id f es :
  background f -> entries_fine es ->
  entries_fine (Registry.reconnect id f es).1 /\ e_config <$> (Registry.reconnect id f es).1 = e_config <$> es.
Proof.
  intros Hb Hf. apply on_entry_keeps; [done..|]. intros e Ef.
  pose proof (find_entry_ok _ _ _ (ef_ok _ Hf) Ef).
  split; [by apply entry_ok_establish|apply establish_entry_config].
Qed.
End Operations.

(** A new registry with the same configurations, and what the catalog has of it. *)
Lemma registry_step_fine m m' es es' :
  ma_registry m = Some es -> ma_registry m' = Some es' -> config_of m' = config_of m ->
  ad_auth (ma_core m') = ad_auth (ma_core m) ->
  entries_fine es' /\ e_config <$> es' = e_config <$> es ->
  gateway_fine m -> gateway_fine m'.
Proof.
  intros Hr Hr' Ec Ea [Hf Hs] [(es0 & H1 & H2 & H3) A K P].
  rewrite Hr in H1. injection H1 as ->. split; rewrite ?Ec, ?Ea; [|done..].
  exists es'. rewrite Ec, Hs. done.
Qed.

(** ** Replacing the configuration *)

Definition server_ids (c : GatewayConfig) : gset string := list_to_set (ms_id <$> mcp_servers c).

Lemma carried_addresses ids old :
  tool_address <$> carried_tools ids old = addresses_for ids old.
Proof.
  unfold carried_tools, addresses_for. rewrite <- list_fmap_compose. apply list_fmap_ext.
  intros i t _. cbn. by case_match.
Qed.

Lemma addresses_for_twice ids l :
  List.filter (fun p : string * string => bool_decide (snd p ∈ (ids : gset string)))
    (List.filter (fun p => bool_decide (snd p ∈ ids)) l)
  = List.filter (fun p => bool_decide (snd p ∈ ids)) l.
Proof. rewrite filter_filter. apply List.filter_ext. intros p. apply andb_diag. Qed.

(** The tools of the remaining servers go into the new catalog. *)
Lemma rebuild_addresses c old fresh :
  Catalog.from_config c = Ok fresh -> apart c ->
  addresses_for (server_ids c) (rebuild_catalog c old fresh) ≡ₚ addresses_for (server_ids c) old.
Proof.
  intros Hc%from_config_resources Ha. unfold rebuild_catalog, extend_with_mcp_tools.
  set (loaded := load_description_overrides _ fresh).
  assert (addresses_for (server_ids c) loaded = []) as Hnone.
  { rewrite (addresses_for_same _ loaded fresh) by apply load_overrides_addresses.
    unfold addresses_for. rewrite filter_none; [done|]. intros t Ht. apply bool_decide_eq_false.
    unfold server_ids. rewrite elem_of_list_to_set. rewrite Forall_forall in Hc.
    apply Hc, list_elem_of_fmap in Ht as (r & -> & Hr). by apply Ha. }
  pose proof (overlay_all_same (description_overrides loaded) (original_descriptions loaded)
    (carried_tools (server_ids c) old)) as Hov.
  fold (server_ids c). destruct (overlay_all _ _ _) as [originals new]. cbn [snd] in Hov.
  unfold addresses_for in *. cbn [tools].
  rewrite (kept_perm _ _ _ (sort_by_perm wire_leb _)), List.filter_app, fmap_app, Hnone.
  rewrite addresses_filtered. change (tool_address <$> new)
    with ((fun t => (wire t, resource_id t)) <$> new). rewrite Hov.
  change ((fun t => (wire t, resource_id t)) <$> carried_tools (server_ids c) old)
    with (tool_address <$> carried_tools (server_ids c) old).
  rewrite carried_addresses. unfold addresses_for. by rewrite addresses_filtered, addresses_for_twice.
Qed.

Lemma edited_apart {AE : AdminEnv} w c :
  apart c -> (forall i, w = CreateResource i -> rw_id i ∉ ms_id <$> mcp_servers c) ->
  apart (edited w c).
Proof.
  intros Ha Hnew r Hr. change (mcp_servers (edited w c)) with (mcp_servers c).
  assert (ar_id r ∈ ar_id <$> api_resources c \/ exists i, w = CreateResource i /\ ar_id r = rw_id i)
    as [(x & -> & Hx)%list_elem_of_fmap|(i & -> & ->)]; [|by apply Ha|by apply Hnew].
  revert Hr. cbn. destruct w as [i|id i|id|i|id i|id|id b|id]; cbn;
    try (intros Hr; left; by apply list_elem_of_fmap_2).
  - intros [Hr| ->%list_elem_of_singleton]%elem_of_app; [left; by apply list_elem_of_fmap_2|right; eauto].
  - intros Hr. left. rewrite <- (update_first_ids ar_id (apply_update i) (api_resources c) id) by done.
    by apply list_elem_of_fmap_2.
  - intros [Hr _]%filter_elem. left. by apply list_elem_of_fmap_2.
Qed.

Lemma edited_keys_unique {AE : AdminEnv} w c :
  NoDup (pk_id <$> proxy_keys c) -> new_ids w c -> NoDup (pk_id <$> proxy_keys (edited w c)).
Proof.
  intros Hk Hn. apply (edited_unique w (with_api_resources c [])); [apply NoDup_nil_2|done|].
  destruct w; try done. apply not_elem_of_nil.
Qed.

(** A configuration that replaces another one for the same servers. *)
Lemma swapped_fine {AE : AdminEnv} m c a :
  swapped c (ma_core m) a -> mcp_servers c = mcp_servers (config_of m) ->
  NoDup (pk_id <$> proxy_keys c) -> apart c -> gateway_fine m -> gateway_fine (with_core a m).
Proof.
  intros W Hs Hk Ha [(es & H1 & H2 & H3) _ _ _].
  assert (config_of (with_core a m) = c) as Ec by apply W.
  split; rewrite ?Ec; [|by eapply configured_auth_ok; [apply W|]|done..].
  exists es. rewrite Ec, Hs. done.
Qed.

Lemma aligned_server_ids m es :
  ma_registry m = Some es -> aligned m -> mcp_resource_ids es = server_ids (config_of m).
Proof.
  intros Hr (es0 & H1 & _ & H3). rewrite Hr in H1. injection H1 as <-.
  unfold mcp_resource_ids, server_ids. apply set_eq. intros id.
  rewrite !elem_of_list_to_set, <- H3, <- list_fmap_compose. done.
Qed.

Lemma swapped_mirrored {AE : AdminEnv} m c a :
  swapped c (ma_core m) a -> mcp_servers c = mcp_servers (config_of m) -> apart c ->
  aligned m -> mirrored m -> mirrored (with_core a m).
Proof.
  intros W Hs Ha Hal (es & H1 & H2). exists es. split; [done|].
  destruct (sw_catalog _ _ _ W) as (fresh & Hf & Ec).
  rewrite (aligned_server_ids m es H1 Hal) in *.
  assert (server_ids (config_of m) = server_ids c) as E by (unfold server_ids; by rewrite Hs).
  rewrite E in *. unfold catalog_of. cbn. rewrite Ec, (rebuild_addresses c _ fresh Hf Ha). done.
Qed.

(** ** Every step *)

Lemma write_step_fine {AE : AdminEnv} admin w m a r :
  (forall i, w = CreateResource i -> rw_id i ∉ ms_id <$> mcp_servers (config_of m)) ->
  run_write admin w (ma_core m) = Returns (a, r) -> gateway_fine m ->
  gateway_fine (with_core a m) /\ (mirrored m -> mirrored (with_core a m)).
Proof.
  intros Hnew Hw Hm. pose proof (run_write_atomic _ _ _ _ _ Hw) as A. destruct r as [[]|e].
  - pose proof (edited_apart w _ (gf_apart _ Hm) Hnew) as Ha. split.
    + eapply swapped_fine; [exact A|done| |exact Ha|done].
      apply edited_keys_unique; [apply Hm|]. by eapply created_new.
    + intros Hmi. eapply swapped_mirrored; [exact A|done|exact Ha|apply Hm|done].
  - destruct A as [(E1 & E2 & E3 & _) _].
    assert (same_listing m (with_core a m)) as Hs.
    { split; try done. unfold catalog_of. cbn. by rewrite E2. }
    split; [by eapply same_listing_fine|by apply same_listing_mirrored].
Qed.

Lemma written_fine {AE : AdminEnv} c m m' : written c m m' -> gateway_fine m -> gateway_fine m'.
Proof.
  intros [Ec Hal Hau Hk Hr Hn] [_ _ K P]. rewrite <- Hk in K. split; [done| | |].
  - by eapply configured_auth_ok.
  - by rewrite Ec.
  - rewrite Ec. intros x Hx (s & E & Hs)%list_elem_of_fmap. rewrite Hr in Hx.
    destruct (Hn s Hs) as [Hold|Hfresh].
    + apply (P x Hx). by rewrite E.
    + unfold resource in Hfresh. rewrite find_None_all in Hfresh. specialize (Hfresh x Hx).
      cbn in Hfresh. by rewrite E, String.eqb_refl in Hfresh.
Qed.

(** The tools of the servers that stay. *)
Lemma remaining_addresses id es :
  Forall entry_ok es ->
  tool_address <$> all_wrapped_tools (remove_server id es).1
  = List.filter (fun p => negb (snd p =s id)) (tool_address <$> all_wrapped_tools es).
Proof.
  intros Hok. unfold all_wrapped_tools. cbn. induction Hok as [|e es He _ IH]; [done|]. cbn.
  rewrite fmap_app, List.filter_app, <- IH.
  pose proof (registry_tool_ids [e] ltac:(by apply Forall_singleton)) as Hids.
  unfold all_wrapped_tools, mcp_resource_ids in Hids. cbn in Hids. rewrite app_nil_r in Hids.
  assert (forall p, p ∈ tool_address <$> e_tools e -> snd p = e_id e) as Hp.
  { intros p (t & -> & Ht)%list_elem_of_fmap. rewrite Forall_forall in Hids.
    specialize (Hids t Ht). cbn. set_solver. }
  destruct (String.eqb_spec (e_id e) id) as [E|E]; cbn.
  - rewrite (filter_none _ (tool_address <$> e_tools e)); [done|]. intros p Hin.
    by rewrite (Hp p Hin), E, String.eqb_refl.
  - rewrite fmap_app, (filter_all _ (tool_address <$> e_tools e)); [done|]. intros p Hin. rewrite (Hp p Hin).
    by apply negb_true_iff, String.eqb_neq.
Qed.

Lemma removed_ids id es p :
  p ∈ mcp_resource_ids es -> p ∈ mcp_resource_ids (remove_server id es).1 <-> p <> id.
Proof.
  unfold mcp_resource_ids. rewrite !elem_of_list_to_set. cbn. intros (e & -> & He)%list_elem_of_fmap.
  split.
  - intros (x & E & [_ Hx%negb_true_iff%String.eqb_neq]%filter_elem)%list_elem_of_fmap. congruence.
  - intros Hne. apply list_elem_of_fmap_2, filter_elem. split; [done|].
    by apply negb_true_iff, String.eqb_neq.
Qed.

Lemma delete_mirrored {W : World} {AE : AdminEnv} {RA : RmcpAuth} {AD : Aead} {ME : McpAdminEnv}
    admin id m m' r :
  delete_server admin id m = Returns (m', Ok r) -> gateway_fine m -> mirrored m -> mirrored m'.
Proof.
  intros H Hm (es & Hr & Hp). pose proof (gf_aligned _ Hm) as Hal.
  apply (delete_spec admin id m m' (Ok r) Hal) in H as (Hw & (es0 & H1 & H2) & fresh & Hf & Ec).
  rewrite Hr in H1. injection H1 as <-. exists (remove_server id es).1. split; [done|].
  set (c := with_mcp_servers _ _) in *.
  assert (entries_fine es) as Hfine.
  { destruct Hal as (es1 & E & Hfine & _). rewrite Hr in E. by injection E as <-. }
  assert (apart c) as Ha.
  { pose proof (gf_apart _ (written_fine _ _ _ Hw Hm)) as Ha. by rewrite (wr_config _ _ _ Hw) in Ha. }
  rewrite (aligned_server_ids m' _ H2 (wr_aligned _ _ _ Hw)), (wr_config _ _ _ Hw), Ec.
  rewrite (rebuild_addresses c _ fresh Hf Ha).
  pose proof (aligned_server_ids m' _ H2 (wr_aligned _ _ _ Hw)) as Eids.
  rewrite (wr_config _ _ _ Hw) in Eids. rewrite <- Eids.
  rewrite remaining_addresses by apply Hfine. rewrite <- (kept_perm _ _ _ Hp).
  unfold addresses_for. rewrite !addresses_filtered, filter_filter. erewrite List.filter_ext; [done|].
  intros p. cbn. destruct (decide (snd p ∈ mcp_resource_ids es)) as [Hin|Hin].
  - rewrite (bool_decide_eq_true_2 _ Hin). cbn. apply eq_true_iff_eq.
    rewrite bool_decide_eq_true, negb_true_iff, String.eqb_neq. by apply removed_ids.
  - rewrite (bool_decide_eq_false_2 _ Hin). cbn. apply bool_decide_eq_false_2. intros Hx. apply Hin.
    revert Hx. unfold mcp_resource_ids. rewrite !elem_of_list_to_set. cbn.
    intros (e & -> & [He _]%filter_elem)%list_elem_of_fmap. by apply list_elem_of_fmap_2.
Qed.

(** A step keeps what holds throughout, and under [quiet] also what the catalog lists. *)
Definition good (quiet : Prop) (m m' : McpAdmin) : Prop :=
  gateway_fine m -> gateway_fine m' /\ (quiet -> mirrored m -> mirrored m').

Lemma good_trans quiet m1 m2 m3 : good quiet m1 m2 -> good quiet m2 m3 -> good quiet m1 m3.
Proof. intros H1 H2 Hm. destruct (H1 Hm) as [F1 M1]. destruct (H2 F1) as [F2 M2]. auto. Qed.

Lemma same_listing_good quiet m m' : same_listing m m' -> good quiet m m'.
Proof.
  intros Hs Hm. split; [by eapply same_listing_fine|]. intros _. by apply same_listing_mirrored.
Qed.

Lemma same_servers_good quiet m m' : same_servers m m' -> good quiet m m'.
Proof. intros H. by apply same_listing_good, same_servers_listing. Qed.

(** A registry with the same configurations that is then copied to the catalog. *)
Lemma synced_good quiet m m' es es' :
  ma_registry m = Some es ->
  (entries_fine es -> entries_fine es' /\ e_config <$> es' = e_config <$> es) ->
  same_listing (sync_catalog_from_registry es' (with_registry es' m)) m' -> good quiet m m'.
Proof.
  intros Hr Hes Hs Hm. destruct (gf_aligned _ Hm) as (es0 & E & Hf & _). rewrite Hr in E.
  injection E as <-. specialize (Hes Hf).
  set (m1 := sync_catalog_from_registry es' (with_registry es' m)) in *.
  destruct (same_listing_good True m1 m' Hs) as [H1 H2].
  - by apply (registry_step_fine m m1 es es').
  - split; [done|]. intros _ _. apply H2; [done|]. apply sync_mirrored; [apply Hes|done].
Qed.

(** A registry with the same configurations that the catalog has not seen. *)
Lemma unsynced_good (quiet : Prop) m es es' :
  ma_registry m = Some es ->
  (entries_fine es -> entries_fine es' /\ e_config <$> es' = e_config <$> es) ->
  (quiet -> es' = es) -> good quiet m (with_registry es' m).
Proof.
  intros Hr Hes Hq Hm. destruct (gf_aligned _ Hm) as (es0 & E & Hf & _). rewrite Hr in E.
  injection E as <-. split; [by apply (registry_step_fine m _ es es'); auto|].
  intros Q (es1 & E1 & E2). exists es. rewrite Hr in E1. injection E1 as <-.
  split; [by rewrite (Hq Q)|exact E2].
Qed.

Section Handlers.
Context {W : World} {ME : McpAdminEnv}.
Hypothesis Hback : background me_meanwhile.

Lemma probe_good id m : good (calm me_meanwhile) m (probe_server id m).1.
Proof.
  unfold probe_server, require_registry. destruct (ma_registry m) as [es|] eqn:Er; [|by apply same_listing_good].
  cbn [ok_or]. pose proof (probe_configs id me_meanwhile es Hback) as Hc.
  destruct (Registry.probe id me_meanwhile es) as [es' [h|e]] eqn:E; cbn [fst] in *.
  - by apply (synced_good _ m _ es es').
  - apply (unsynced_good _ m es es'); [done..|]. intros Q. by eapply on_entry_refused.
Qed.

Lemma reconnect_good id m : good (calm me_meanwhile) m (reconnect_mcp_server id m).1.
Proof.
  unfold reconnect_mcp_server. destruct (ma_registry m) as [es|] eqn:Er; [|by apply same_listing_good].
  pose proof (reconnect_configs id me_meanwhile es Hback) as Hc.
  destruct (Registry.reconnect id me_meanwhile es) as [es' [h|e]] eqn:E; cbn [fst] in *.
  - by apply (synced_good _ m _ es es').
  - apply (unsynced_good _ m es es'); [done..|]. intros Q. by eapply on_entry_refused.
Qed.
End Handlers.

Lemma stored_all_parts {A E} (op : E -> Store -> Store * result StoreError A) l a :
  same_parts a (fold_left (fun a e => best_effort (op e) a) l a).
Proof.
  revert a. induction l as [|e l IH]; intros a; [done|]. cbn.
  eapply same_parts_trans; [apply (best_effort_parts (op e))|apply IH].
Qed.

Lemma refresh_good {W : World} {PO : PinOrder} {ME : McpAdminEnv} quiet m :
  background me_meanwhile -> good quiet m (refresh_mcp_tools m).
Proof.
  intros Hb. unfold refresh_mcp_tools.
  destruct (ma_registry m) as [es|] eqn:Er; [|by apply same_listing_good].
  pose proof (refresh_configs true me_meanwhile es Hb) as Hc.
  destruct (refresh_inner true me_meanwhile es) as [es' res]. cbn [fst] in Hc.
  set (m1 := sync_catalog_from_registry es' (with_registry es' m)).
  destruct (check_drift _ _ _ _ _) as [[pins q] events].
  apply (synced_good _ m _ es es'); [done..|]. fold m1.
  match goal with |- context [fold_left (fun a e => best_effort (?op e) a) _ _] =>
    destruct (stored_all_parts op events (ma_core m1)) as (E1 & E2 & E3 & _) end.
  split; [exact E1|done|exact E3|].
  unfold catalog_of. cbn [ma_core]. by rewrite E2.
Qed.

Lemma server_good {W : World} {AE : AdminEnv} {ME : McpAdminEnv} {RA : RmcpAuth} {AD : Aead}
    quiet admin w m m' :
  background me_meanwhile -> run_mcp_write admin w m = Returns (m', Ok tt) -> good quiet m m'.
Proof.
  intros Hb H Hm. pose proof (gf_aligned _ Hm) as Hal. destruct w as [i|id i|id]; cbn in H.
  - apply bind_Returns_inv in H as ([m1 r1] & H & [= <- Hr]). apply create_spec in H; [|done..].
    destruct r1; [|done]. destruct H as [[c Hw] Hmi]. split; [by eapply written_fine|done].
  - apply bind_Returns_inv in H as ([m1 r1] & H & [= <- Hr]). apply update_spec in H; [|done..].
    destruct r1; [|done]. destruct H as [[c Hw] Hmi]. split; [by eapply written_fine|done].
  - pose proof H as H'. apply delete_spec in H as [Hw _]; [|done].
    split; [by eapply written_fine|]. intros _. by eapply delete_mirrored.
Qed.

Lemma viewed_good {W : World} {RA : RmcpAuth} {AD : Aead} {R S} quiet
    (audit : AdminState -> AdminState) (op : option OAuthService -> option OAuthService * S)
    (f : S -> R) m m2 :
  (forall a, same_parts a (audit a)) -> good quiet m m2 ->
  good quiet m (let '(m, view) := on_oauth op (on_core audit m2) in (m, f view)).1.
Proof.
  intros Ha H. pose proof (same_servers_oauth op (on_core audit m2)) as Hs.
  destruct (on_oauth op _) as [m3 v]. eapply good_trans; [exact H|]. apply same_servers_good.
  eapply same_servers_trans; [|exact Hs]. by apply same_servers_core.
Qed.

Lemma deauthorize_good {W : World} {AE : AdminEnv} {ME : McpAdminEnv} {RA : RmcpAuth} {AD : Aead}
    admin id m :
  background me_meanwhile -> good (calm me_meanwhile) m (deauthorize admin id m).1.
Proof.
  intros Hb. unfold deauthorize. cbn zeta.
  destruct (_ ← authorization_code_server _ id; _) as [s|e]; [|by apply same_listing_good].
  pose proof (same_servers_good (calm me_meanwhile) m _ (same_servers_oauth (clear_of id) m)) as H1.
  destruct (on_oauth (clear_of id) m) as [m1 cleared]. cbn [fst] in H1.
  destruct cleared as [[[]|e]|]; [|exact H1..].
  destruct (ma_registry m1).
  - pose proof (reconnect_good Hb id m1) as H2.
    destruct (reconnect_mcp_server id m1) as [m2 [h|e]]; cbn [fst] in *;
      [|by eapply good_trans].
    apply viewed_good; [intros; apply record_audit_parts|]. by eapply good_trans.
  - apply viewed_good; [intros; apply record_audit_parts|done].
Qed.

Lemma callback_good {W : World} {ME : McpAdminEnv} {RA : RmcpAuth} {AD : Aead} p m :
  background me_meanwhile -> good (calm me_meanwhile) m (callback p m).1.
Proof.
  intros Hb. unfold callback. destruct (ma_oauth m) as [o|]; [|by apply same_listing_good].
  destruct p as [p|]; [|by apply same_listing_good].
  pose proof (same_servers_good (calm me_meanwhile) m _ (same_servers_oauth (complete_of p) m)) as H1.
  destruct (on_oauth (complete_of p) m) as [m1 r]. cbn [fst] in H1.
  destruct r as [id|e]; [|exact H1]. pose proof (reconnect_good Hb id m1) as H2.
  destruct (reconnect_mcp_server id m1) as [m2 h]. cbn [fst] in *. by eapply good_trans.
Qed.

Lemma authorize_good {W : World} {AE : AdminEnv} {ME : McpAdminEnv} {RA : RmcpAuth} {AD : Aead}
    quiet admin id m : good quiet m (authorize admin id m).1.
Proof.
  unfold authorize. destruct (_ ← authorization_code_server _ id; _) as [s|e]; [|by apply same_listing_good].
  pose proof (same_servers_oauth (start_of s) m) as H. destruct (on_oauth (start_of s) m) as [m1 r].
  cbn [fst] in H. destruct r as [st|e]; [|by apply same_servers_good]. apply same_servers_good.
  eapply same_servers_trans; [exact H|]. apply same_servers_core, record_audit_parts.
Qed.

Lemma life_step_good between m m' :
  (forall f, between f -> background f) -> life_step between m m' ->
  good (forall f, between f -> calm f) m m'.
Proof.
  intros Hb Hs.
  assert (forall f, between f -> (forall f, between f -> calm f) -> calm f) as Hq by auto.
  assert (forall f m m', between f -> good (calm f) m m' -> good (forall f, between f -> calm f) m m')
    as Hgood.
  { intros f m1 m2 Hf Hg Hm. destruct (Hg Hm) as [F M]. split; [done|]. intros Q. by apply M, Q. }
  destruct Hs as [AE admin w m a r Hnew Hw|W AE ME RA AD admin w m m' r Hf Hw Hr|AE admin w m
    |W ME id m Hf|W ME id m Hf|W PO ME m Hf|W AE ME RA AD admin id m|W AE ME RA AD admin id m Hf
    |W ME RA AD p m Hf|limits pools m].
  - intros Hm. destruct (write_step_fine admin w m a r Hnew Hw Hm). auto.
  - destruct Hr as [->| ->]; [|by apply same_listing_good]. eapply server_good; eauto.
  - apply same_listing_good, same_tools_listing, tool_write_tools.
  - eapply Hgood; [exact Hf|]. apply probe_good. auto.
  - eapply Hgood; [exact Hf|]. apply reconnect_good. auto.
  - apply refresh_good. auto.
  - apply authorize_good.
  - eapply Hgood; [exact Hf|]. apply deauthorize_good. auto.
  - eapply Hgood; [exact Hf|]. apply callback_good. auto.
  - by apply same_listing_good.
Qed.

Lemma life_good between m m' :
  (forall f, between f -> background f) -> rtc (life_step between) m m' ->
  good (forall f, between f -> calm f) m m'.
Proof.
  intros Hb. induction 1 as [m|m1 m2 m3 H _ IH]; [by apply same_listing_good|].
  eapply good_trans; [by apply life_step_good|exact IH].
Qed.
End Life.

(** What other tasks do to the registry that begin and end while an operation waits. *)
Inductive registry_tasks : (Entries -> Entries) -> Prop :=
| TasksNone : registry_tasks (fun es => es)
| TasksRefresh {W : World} b f :
    registry_tasks f -> registry_tasks (fun es => (refresh_inner b f es).1)
| TasksProbe {W : World} id f :
    registry_tasks f -> registry_tasks (fun es => (Registry.probe id f es).1)
| TasksReconnect {W : World} id f :
    registry_tasks f -> registry_tasks (fun es => (Registry.reconnect id f es).1)
| TasksThen f g : registry_tasks f -> registry_tasks g -> registry_tasks (fun es => g (f es)).

(** They keep the configurations. *)
Lemma registry_tasks_background f : registry_tasks f -> background f.
Proof.
  induction 1 as [|W b f _ IH|W id f _ IH|W id f _ IH|f g _ IHf _ IHg]; intros es Hes.
  - done.
  - by apply refresh_configs.
  - by apply probe_configs.
  - by apply reconnect_configs.
  - destruct (IHf es Hes) as [H1 H2]. destruct (IHg _ H1) as [H3 H4].
    split; [done|]. by rewrite H4.
Qed.

(** C29: what the gateway lists stays what it serves.  Take a gateway that has started
    from a YAML whose servers have distinct ids and whose keys have distinct ids, on a
    sound database, with no API resource under the id of a server, and let it live on:
    through changes of resources, keys and tokens, failing ones included (no resource is
    created under the id of a server), of servers that succeed or leave everything
    alone, and of descriptions, through refreshes, probes, reconnections,
    authorizations, revocations, callbacks and calls.  While an operation waits for a
    server, other tasks keep the entries of the registry well formed and their
    configurations as they are ([registry_tasks_background]); a refresh that began
    before the last write to a server is not among them, nor is a write to a server
    that fails half-way a step.  Then at every moment the registry has exactly the
    configured servers, no token stands for two keys and the ids of keys are distinct;
    and when operations on servers follow one another, the catalog has for these
    servers exactly the tools of the registry, and each of them is served. *)
Theorem listed_tools_stay_served {G : Governor} {SHA : Sha256} {OA : OpenApiSource}
    {SE : Serializers} {JR : JsonReader} {RF : Rfc3339} {DB : Database} {W : World} {AE : AdminEnv}
    {ME : McpAdminEnv} {UP : UrlParser} {SW : SecretWorld} {SH : SecretHttp} {AD : Aead} {PO : PinOrder}
    {OL : PinOrderLaws PO} clients yaml sections database now g between m :
  start clients yaml sections database now = Ok g ->
  NoDup (ms_id <$> mcp_servers yaml) -> NoDup (pk_id <$> proxy_keys yaml) ->
  (forall s e, database = Some (s, e) -> store_ok s) -> apart (config_of (gw_state g)) ->
  (forall f, between f -> background f) ->
  rtc (life_step between) (gw_state g) m ->
  gateway_fine m /\
  ((forall f, between f -> calm f) ->
   exists es, ma_registry m = Some es /\
     addresses_for (server_ids (config_of m)) (catalog_of m) ≡ₚ tool_address <$> all_wrapped_tools es /\
     forall t, t ∈ tools (catalog_of m) -> resource_id t ∈ ms_id <$> mcp_servers (config_of m) ->
       registry_contains_tool (wire t) es = true).
Proof.
  intros Hs Hms Hpk Hst Hap Hb Hl.
  assert (gateway_fine (gw_state g) /\ mirrored (gw_state g)) as [F M].
  { destruct (start_establishes _ _ _ _ _ _ Hs Hms Hpk Hst) as (H0 & H1 & H2 & _ & H4 & _).
    split; [|by apply H4]. split; [done..| |done].
    destruct (load_serve_config yaml (fst <$> database)) as [store loaded] eqn:El. cbn in H0. subst loaded.
    apply (load_serve_config_ids _ _ _ _ El); [|done..]. intros s ([s' e] & [= ->] & ->)%fmap_Some. eauto. }
  destruct (life_good between _ _ Hb Hl F) as [F' M']. split; [done|]. intros Q.
  destruct (M' Q M) as (es & Hr & Hp). exists es. split; [done|].
  rewrite <- (aligned_server_ids m es Hr (gf_aligned _ F')). split; [done|].
  intros t Ht Hid. destruct (gf_aligned _ F') as (es0 & E & [_ Hok [Hu _]] & _).
  rewrite Hr in E. injection E as <-.
  assert (tool_address t ∈ tool_address <$> all_wrapped_tools es)
    as (t' & Et & (e & Ht' & He)%list_elem_of_bind)%list_elem_of_fmap.
  { rewrite <- Hp. apply list_elem_of_fmap_2, filter_elem. split; [done|].
    apply bool_decide_eq_true. rewrite (aligned_server_ids m es Hr (gf_aligned _ F')).
    by apply elem_of_list_to_set. }
  injection Et as Ew _. rewrite Ew. unfold registry_contains_tool.
  destruct (find_tool_listed es e t' Hok Hu He Ht') as (p & _ & ->). by apply bool_decide_eq_true.
Qed.

(** *** A refresh after the start *)

Definition refreshed_once (g : Gateway (G := open_governor)) : McpAdmin (G := open_governor) :=
  refresh_mcp_tools (W := demo_world) (RF := digit_times) (DB := steady_db) (PO := key_order)
    (SHA := block_sha) (ME := quiet) (gw_state g).

Lemma listed_tools_stay_served_witness :
  match demo_start with
  | Ok g => gateway_fine (refreshed_once g) /\
      exists es, ma_registry (refreshed_once g) = Some es /\
        forall t, t ∈ tools (catalog_of (refreshed_once g)) ->
          resource_id t ∈ ms_id <$> mcp_servers (config_of (refreshed_once g)) ->
          registry_contains_tool (wire t) es = true
  | Err _ => False
  end.
Proof.
  destruct demo_start as [g|e] eqn:E.
  2: { pose proof demo_start_ok as H. rewrite E in H. discriminate H. }
  destruct (listed_tools_stay_served (SE := stream_serializers) (PO := key_order)
    (OL := key_order_laws) _ _ _ _ _ g calm (refreshed_once g) E) as [F H].
  - apply NoDup_singleton.
  - apply NoDup_singleton.
  - intros s ev [= <- _]. apply (run_store_op_ok (SE := stream_serializers)
      (RF := digit_times) (DB := steady_db)
      (OpSetToolMetadata "d__p__x" "mine" None)). by constructor.
  - destruct (start_establishes (PO := key_order) (OL := key_order_laws) _ _ _ _ _ _ E)
      as (H0 & _).
    + apply NoDup_singleton.
    + apply NoDup_singleton.
    + intros s ev [= <- _]. apply (run_store_op_ok (SE := stream_serializers)
        (RF := digit_times) (DB := steady_db)
        (OpSetToolMetadata "d__p__x" "mine" None)). by constructor.
    + intros r Hr. rewrite (demo_resources _ H0) in Hr. destruct (not_elem_of_nil _ Hr).
  - apply calm_background.
  - eapply rtc_l; [|apply rtc_refl]. apply LifeRefresh. by intros es.
  - split; [exact F|]. destruct (H (fun f h => h)) as (es & H1 & _ & H2).
    exact (ex_intro _ es (conj H1 H2)).
Defined.
