(* ===== verification/Launch.v ===== *)
(** * Around the start ([config_path.rs], [main.rs])

    Where the configuration file is looked for, the preview of the tools of a key without
    a server, and the loop that refreshes the servers. *)

From S2P Require Import Prelude RustStr Naming Errors Config Policy Secrets Catalog Overrides KeyPool Limits.
From S2P Require Import Egress Shaping GatewayAuth Render Retry Observe Invoke Integrity Surface Peers.
From S2P Require Import Registry Semantic OAuthConfig ConfigJson Store ConfigMerge SecretClients Seal OAuth.
From S2P Require Import Events Admin AdminFacts AdminRestart McpAdmin McpAdminFacts AdminTools AdminRead.
From S2P Require Import AdminReadFacts Start Life.

Local Open Scope string_scope.
Local Open Scope list_scope.
Local Open Scope Z_scope.
Local Open Scope gateway_scope.

(** ** The configuration file ([config_path.rs]) *)

Inductive Platform := Linux | Macos | Windows | OtherPlatform (name : string).

(** The rules for paths of the operating system ([std::path]). *)
Class PathRules := {
  path_join : string -> string -> string;
  is_absolute : string -> bool;
}.

(** An error of the file system: its kind by name, and its text. *)
Record IoError := mkIoError { io_kind : string; io_text : string }.

Definition not_found_error (text : string) : IoError := mkIoError "NotFound" text.

Definition CONFIG_ENV : string := "ASTERLANE_CONFIG".

Definition non_blank_path (value : option string) : option string :=
  v ← value; if is_empty (trim v) then None else Some v.

Definition missing_default_config (path : string) : IoError :=
  not_found_error ("no config file found; pass --config PATH, set " +:+ CONFIG_ENV
                     +:+ ", or create " +:+ path).

Definition missing_default_root (p : Platform) : IoError :=
  let detail :=
    match p with
    | Linux => "the Linux default path ${XDG_CONFIG_HOME:-$HOME/.config}/asterlane/config.yaml "
        +:+ "cannot be resolved because no absolute XDG_CONFIG_HOME or HOME is available"
    | Macos => "the macOS default path $HOME/Library/Application Support/asterlane/config.yaml "
        +:+ "cannot be resolved because HOME is not available"
    | Windows => "the Windows default path %APPDATA%\asterlane\config.yaml cannot be resolved "
        +:+ "because APPDATA is not available"
    | OtherPlatform name => "platform '" +:+ name +:+ "' has no defined default config path"
    end in
  not_found_error ("no config file found; pass --config PATH, set " +:+ CONFIG_ENV
                     +:+ ", or install the config at the OS default path; " +:+ detail).

Section Paths.
Context {P : PathRules}.

Definition default_config_root (p : Platform) (xdg_config_home home appdata : option string)
    : result IoError string :=
  match p with
  | Linux =>
      match (x ← non_blank_path xdg_config_home; if is_absolute x then Some x else None) with
      | Some x => Ok x
      | None => ok_or (missing_default_root p) ((fun h => path_join h ".config") <$> non_blank_path home)
      end
  | Macos =>
      ok_or (missing_default_root p)
        ((fun h => path_join (path_join h "Library") "Application Support") <$> non_blank_path home)
  | Windows => ok_or (missing_default_root p) (non_blank_path appdata)
  | OtherPlatform _ => Err (missing_default_root p)
  end.

Definition config_path_from_root (root : string) : string :=
  path_join (path_join root "asterlane") "config.yaml".

Definition resolve_config_path_with (explicit configured : option string) (p : Platform)
    (xdg_config_home home appdata : option string) (default_exists : string -> result IoError bool)
    : result IoError string :=
  match explicit, non_blank_path configured with
  | Some path, _ | None, Some path => Ok path
  | None, None =>
      root ← default_config_root p xdg_config_home home appdata;
      let path := config_path_from_root root in
      match default_exists path with
      | Ok true => Ok path
      | Ok false => Err (missing_default_config path)
      | Err e => Err (mkIoError (io_kind e)
                        ("failed to inspect default config " +:+ path +:+ ": " +:+ io_text e))
      end
  end.
End Paths.

(** ** The preview ([main.rs], [Command::ListTools]) *)

Inductive PreviewError :=
| PreviewConfig (e : AsterlaneError)
| UnknownKey (key : string)
| PreviewCatalog (e : CatalogError)
| NoToolsVisible (key : string).

Definition load_config {UP : UrlParser} (yaml : GatewayConfig) : result AsterlaneError GatewayConfig :=
  c ← check_config_file yaml; expand_builtin_mcp c.

(** What the command prints: the page, unless it is empty. *)
Definition shown (key : string) (page : result CatalogError ToolPage) : result PreviewError ToolPage :=
  page ← map_err PreviewCatalog page;
  match page_tools page with [] => Err (NoToolsVisible key) | _ => Ok page end.

Definition list_tools {UP : UrlParser} {OA : OpenApiSource} {RE : RegexEngine} (key : string)
    (q : ToolListQuery) (yaml : GatewayConfig) : result PreviewError ToolPage :=
  c ← map_err PreviewConfig (load_config yaml);
  k ← ok_or (UnknownKey key) (Config.proxy_key c key);
  catalog ← map_err PreviewCatalog (Catalog.from_config c);
  shown key (list_for_key k q catalog).

(** ** The refresh loop ([spawn_mcp_refresh_task]) *)

Definition should_tick_mcp_refresh (refresh_interval_secs : Z) : bool := 0 <? refresh_interval_secs.

(** What the loop waits for: its interval, a notification with the ones queued behind it,
    the end of the channel, the end of the server. *)
Inductive refresh_event :=
| Tick
| Notified (server : string) (queued : list string)
| ChannelClosed
| Cancelled.

(** The answers of the outside to one refresh. *)
Record Round := mkRound { ro_event : refresh_event; ro_world : World; ro_env : McpAdminEnv }.

Section Loop.
Context {G : Governor} {SHA : Sha256} {RF : Rfc3339} {DB : Database} {PO : PinOrder}.

(** Whether the loop goes on, with the gateway. *)
Definition refresh_round (refresh_interval_secs : Z) (r : Round) (m : McpAdmin) : McpAdmin * bool :=
  let refreshed := refresh_mcp_tools (W := ro_world r) (ME := ro_env r) m in
  match ro_event r with
  | Tick => (if should_tick_mcp_refresh refresh_interval_secs then refreshed else m, true)
  | Notified _ _ => (refreshed, true)
  | ChannelClosed | Cancelled => (m, false)
  end.

Fixpoint refresh_loop (refresh_interval_secs : Z) (l : list Round) (m : McpAdmin) : McpAdmin :=
  match l with
  | [] => m
  | r :: l =>
      let '(m, go_on) := refresh_round refresh_interval_secs r m in
      if go_on then refresh_loop refresh_interval_secs l m else m
  end.
End Loop.

(** ** Properties *)

(** The file is the one given, else the one of the environment unless it is blank, else
    the default of the platform, and that only if it exists. *)
Theorem config_path_priority {P : PathRules} explicit configured p xdg home appdata exists_ path :
  resolve_config_path_with explicit configured p xdg home appdata exists_ = Ok path <->
  explicit = Some path \/
  (explicit = None /\ configured = Some path /\ is_empty (trim path) = false) \/
  (explicit = None /\ non_blank_path configured = None /\
   exists root, default_config_root p xdg home appdata = Ok root /\
     path = config_path_from_root root /\ exists_ path = Ok true).
Proof.
  unfold resolve_config_path_with. destruct explicit as [e|].
  { split; [intros [= ->]; by left|]. by intros [[= ->]|[[? _]|[? _]]]. }
  destruct (non_blank_path configured) as [f|] eqn:Ef.
  - assert (configured = Some f /\ is_empty (trim f) = false) as [-> Hf].
    { unfold non_blank_path in Ef. destruct configured as [v|]; [|done]. cbn [mbind option_bind] in Ef.
      destruct (is_empty (trim v)) eqn:E; [done|]. by injection Ef as ->. }
    split; [intros [= ->]; naive_solver|]. by intros [?|[(_ & [= ->] & _)|(_ & ? & _)]].
  - assert (forall v, configured = Some v -> is_empty (trim v) = true) as Hblank.
    { intros v ->. unfold non_blank_path in Ef. cbn [mbind option_bind] in Ef.
      by destruct (is_empty (trim v)). }
    destruct (default_config_root p xdg home appdata) as [root|err]; cbn [mbind result_bind].
    2: { split; [done|]. intros [?|[(_ & E & Hv)|(_ & _ & r & [=] & _)]]; [done|].
         by rewrite (Hblank _ E) in Hv. }
    destruct (exists_ (config_path_from_root root)) as [[|]|err] eqn:E; (split;
      [intros H; simplify_eq; right; right; eauto 10
      |intros [?|[(_ & Ec & Hv)|(_ & _ & r & [= ->] & -> & Hx)]];
         [done|by rewrite (Hblank _ Ec) in Hv|by rewrite E in Hx]]).
Qed.

Lemma sort_sorted {A} (leb : A -> A -> bool) l :
  Sorted (fun a b => leb a b = true) l -> sort_by leb l = l.
Proof.
  induction 1 as [|x l _ IH Hhd]; [done|].
  change (insert_sorted leb x (sort_by leb l) = x :: l). rewrite IH.
  destruct Hhd as [|y l Hy]; [done|]. cbn. by rewrite Hy.
Qed.

Lemma extend_nothing {OA : OpenApiSource} c cat :
  Catalog.from_config c = Ok cat -> extend_with_mcp_tools [] cat = cat.
Proof.
  intros (ts & _ & [= <-])%bind_Ok_inv. unfold extend_with_mcp_tools. cbn [overlay_all tools].
  rewrite app_nil_r. cbn. f_equal. apply sort_sorted, sort_by_Sorted, wire_leb_total.
Qed.

(** The preview of a key agrees with the server: a gateway that starts from the same
    file without a database, and that has no MCP server, lists for the key what the
    command prints, and the command fails when the list is empty. *)
Theorem preview_agrees {G : Governor} {SHA : Sha256} {OA : OpenApiSource} {W : World} {JR : JsonReader}
    {RF : Rfc3339} {DB : Database} {AE : AdminEnv} {ME : McpAdminEnv} {UP : UrlParser}
    {SW : SecretWorld} {SH : SecretHttp} {AD : Aead} {RE : RegexEngine}
    clients yaml sections now g key k q :
  start clients yaml sections None now = Ok g ->
  mcp_servers (config_of (gw_state g)) = [] ->
  Config.proxy_key (config_of (gw_state g)) key = Some k ->
  list_tools key q yaml = shown key (list_for_key k q (catalog_of (gw_state g))).
Proof.
  unfold start, start_on. cbn [fmap option_fmap option_map fst snd]. unfold load_serve_config, list_tools, load_config.
  intros H Hmcp Hk. destruct (check_config_file yaml) as [y|]; [|done].
  apply bind_Ok_inv in H as (c & Hc%map_err_Ok_inv & (secrets & _ & H)%bind_Ok_inv).
  apply bind_Ok_inv in Hc as (y' & [= <-] & (c' & Hexp & ([] & _ & [= ->])%bind_Ok_inv)%bind_Ok_inv).
  apply bind_Ok_inv in H as (m & Hm & ([m1 admin] & (auth & _ & ->)%attach_auth_spec & H)%bind_Ok_inv).
  apply bind_Ok_inv in H as ([[m2 ev] ix] & (pools & limits & ->)%attach_services_spec & [= <-]).
  unfold assemble_state in Hm.
  apply bind_Ok_inv in Hm as (cat & Hcat%map_err_Ok_inv & (o & _ & [= <-])%bind_Ok_inv).
  cbn in Hmcp, Hk |- *. rewrite Hexp. cbn. rewrite Hk. cbn. rewrite Hcat. cbn.
  rewrite Hmcp. change (all_wrapped_tools (connect_all_with [])) with (@nil WrappedTool).
  by rewrite (extend_nothing c cat Hcat).
Qed.

Lemma life_refresh {G : Governor} {SHA : Sha256} {OA : OpenApiSource} {SE : Serializers}
    {JR : JsonReader} {RF : Rfc3339} {DB : Database} {PO : PinOrder} (W : World) (ME : McpAdminEnv)
    between m :
  between me_meanwhile -> life_step between m (refresh_mcp_tools m).
Proof. apply LifeRefresh. Qed.

(** However its rounds go, the loop is part of the life of the gateway; without an
    interval only notifications refresh. *)
Theorem refresh_loop_lives {G : Governor} {SHA : Sha256} {OA : OpenApiSource} {SE : Serializers}
    {JR : JsonReader} {RF : Rfc3339} {DB : Database} {PO : PinOrder} interval l m between :
  Forall (fun r => between (@me_meanwhile (ro_env r))) l ->
  rtc (life_step between) m (refresh_loop interval l m) /\
  (interval = 0 -> Forall (fun r => ro_event r = Tick) l -> refresh_loop interval l m = m).
Proof.
  intros Hl. split.
  - revert m. induction Hl as [|r l Hr _ IH]; intros m; [apply rtc_refl|]. cbn. unfold refresh_round.
    destruct (ro_event r); [|eapply rtc_l; [by apply (life_refresh (ro_world r) (ro_env r))|apply IH]|apply rtc_refl..].
    destruct (should_tick_mcp_refresh interval); [|apply IH].
    eapply rtc_l; [by apply (life_refresh (ro_world r) (ro_env r))|apply IH].
  - intros -> Ht. revert m. clear Hl. induction Ht as [|r l Hr _ IH]; intros m; [done|]. cbn.
    unfold refresh_round. rewrite Hr. apply IH.
Qed.
